(* ===== verification/_CoqProject ===== *)
-Q . S2P
Prelude.v
Effects.v
GoErrors.v
ApiTypes.v
World.v
Concurrency.v
Tags.v
CSIController.v
CSIConcurrent.v
Auth.v
AuthConcurrent.v
LoadBalancer.v
LBTags.v
Servers.v
Base64.v
MachineController.v
MachineTypes.v
MachineConvergence.v
ClusterController.v
Isolation.v
NodeController.v
CSIToken.v
CSINode.v
CSINodeConcurrent.v
Flags.v
Main.v
HackTools.v
HackDiagnostics.v
