(* ===== verification/Prelude.v ===== *)
(** * The CloudSigma provider for Cluster API: a verification development

    The program is a Cluster API infrastructure provider for the CloudSigma cloud,
    in Go, with a cloud controller manager and a CSI driver.  It turns Kubernetes
    objects into servers, drives, tags and IPs of a CloudSigma account, in the name
    of the user a cluster belongs to.

    ** Parts of the program and where they are modelled

    Shared by all parts:
    - Prelude.v (this file): 64-bit integers with their wrap-around, the functions of
      Go's package [strings] the code uses, the iteration order of Go maps, lists;
    - Effects.v: programs as trees of calls, their execution against a handler,
      weakest preconditions over interfaces and the tactics for them; nothing of it
      is specific to the provider;
    - GoErrors.v: Go errors, wrapping and classification ([pkg/cloud/errors.go]);
    - ApiTypes.v: the custom resources ([api/v1beta1]), the objects of the CloudSigma
      API and of Kubernetes, as records;
    - World.v: every service the program calls, as one signature of calls: the
      CloudSigma SDK, direct HTTP requests, the tenant cluster, the management
      cluster, the identity provider, the Go runtime and the operating system;
    - Concurrency.v: threads that interleave call by call over shared mutexes, with a
      rely-guarantee logic for their programs and the proof that every one of them is
      answered.
    The parts themselves, each with its operations first and its theorems after:
    - Tags.v: tagging servers and drives ([pkg/cloud/tags.go], [csi/driver/tags.go]);
    - CSIController.v: the CSI controller and identity services
      ([csi/driver/controller.go], [driver.go], [identity.go]), on Tags.v;
    - CSIConcurrent.v: overlapping requests to that controller, on Concurrency.v;
    - Auth.v: impersonation tokens and their caches ([pkg/auth/impersonation.go]);
    - AuthConcurrent.v: the same client shared by goroutines that interleave at every
      access to its fields, Auth.v being the case of a single caller;
    - LoadBalancer.v: the load-balancer controller
      ([ccm/controllers/loadbalancer_controller.go]);
    - LBTags.v: the tags it keeps in the account, against a tag store behind its HTTP
      requests, and two controllers that share an account;
    - Servers.v: the cloud client, servers, drives, IPs and VLANs ([pkg/cloud]);
    - Base64.v: the encoding of the bootstrap data;
    - MachineController.v: [controllers/cloudsigmamachine_controller.go], on
      Servers.v, Tags.v and Base64.v;
    - MachineTypes.v: the validation markers of the machine types
      ([api/v1beta1/cloudsigmamachine_types.go]) and what they guarantee;
    - MachineConvergence.v: the machine controller in an environment where no request
      fails that can be carried out, but where servers take time to start and to stop
      and listings may leave servers out;
    - ClusterController.v: [controllers/cloudsigmacluster_controller.go];
    - Isolation.v: both controllers of the provider over one impersonation client, for
      the clusters of many users;
    - NodeController.v: [ccm/controllers/node_controller.go];
    - CSIToken.v: [ccm/controllers/csi_token_controller.go], with Auth.v as the token
      service in the last example;
    - CSINode.v: the CSI node service ([csi/driver/node.go]);
    - CSINodeConcurrent.v: overlapping requests to that service, on Concurrency.v;
    - Flags.v: command lines, the part of Go's package [flag] that is used;
    - Main.v: the four binaries ([cmd/main.go], [ccm/cmd/main.go],
      [csi/cmd/controller/main.go], [csi/cmd/node/main.go]) and the server of the CSI
      driver ([csi/driver/driver.go]), on all the controllers;
    - HackTools.v: the two tools that delete things ([hack/check-remaining.go],
      [hack/cleanup-test-resources.go]);
    - HackDiagnostics.v: the tools that look at an account or try a failover by hand
      ([hack/test-sdk.go], [hack/list-resources.go], [hack/check-server-drives.go],
      [hack/test-ip-failover.go]).

    ** How the code is modelled

    A Go function is a [prog] over the signature [Eff]: it returns, panics, or makes a
    call and goes on with the answer.  Mutable fields are records passed through the
    methods; an object that a client library overwrites with the server's answer is
    replaced by that answer.  Error returns are values of [result] or [option error];
    a nil dereference is [Panic].  Loops over lists are [for_range] and [for_each];
    loops that wait are bounded in the source (12 rounds in [wait_stopped], 20 in
    [wait_new_device], 30 in [verify_detached]) or, for [wait_drive], have fuel for
    timeout / 5 s + 1 ticks, which [WaitForDriveReady_terminates] shows to be enough.
    The endless loops of the controllers are given by one step and the theorems
    range over every number of steps.  Map iteration draws its order from the
    environment, so that theorems hold for every order.  Overlapping requests are a
    pool of programs of which any may make the next call; a mutex is taken only when
    it is free.  The impersonation client is shared by
    callers that interleave at every access to its fields.

    What a service promises is a type class on the handler (for instance
    [TagService], [ServerService], [CloudAccount], [ClockedCloud], [MountTable],
    [IdentifiedNodes], [NodeOs]): the theorems of a part are proved against the class, and a
    concrete handler is an instance of it, used by the witnesses.  Theorems without
    such a class hold in every environment whatsoever.

    ** What the theorems show

    - Machines: the servers that carry the UID of one machine are, across any
      reconciliations, failures and crashes, at most one more than the creations that a
      listing misled (a lagging listing does make duplicates); a machine object is
      released only with a justification about its own server; every reconciliation of
      a machine that is not set aside is followed by another one; what is written to
      spec and status; the bootstrap data round trip; from valid machine objects only
      well-formed servers and valid objects come out; where no request fails and
      servers come to rest in between, two reconciliations make any machine ready for
      good, and one releases a deleted machine with its server.
    - Clusters: readiness only after the look-up of the VLAN that the spec names by
      UUID; the user reference is ignored, and without one both controllers obtain the
      same cloud client.
    - Tenants: whatever was reconciled before, a reconciliation acts only with tokens of
      the user its cluster names, or with the enabled credentials of the flags.
    - Load balancers: from the start of the controller on, the IP of a service is
      assigned and unshared, and no synchronisation publishes an IP twice, except for
      the IPs that the start found in the statuses of services; what releasing,
      allocation, failover and the manual NIC mode change; tagging an IP refines an
      operation on the relation between tags and resources, and an IP tagged by one
      cluster is not allocated by another unless its listing of the tags fails.
    - CSI controller: device channels stay distinct under any sequence of requests;
      taking a volume off a node request by request, with the wait for it; idempotent
      creation; sizes and their bounds; overlapping publish requests for volumes that
      stay on one node take effect one at a time, and every overlapping request is
      answered.
    - CSI node: formatting only blank devices; the device found is neither the boot
      disk nor mounted, unless it is new or a reading failed; however often a volume is
      published the target is mounted once, and unpublishing restores the mount table;
      requests that overlap never format or mount a device that is mounted, unless a
      reading failed meanwhile, and all of them are answered.
    - Tokens: a token handed out belongs to the user and region asked for and is fresh
      or has its buffer left, also when calls interleave; the chain of requests; the CSI
      secret and its backoff.
    - Servers and tags: roll-back of a failing creation, order of deletion, endpoint
      of impersonating clients, the effect of tagging on the tag store.
    - Nodes: a node is deleted only after three refusals each time; what is written.
    - Binaries and tools: which controllers are started, with which settings and whose
      credentials; flags
      and their rendering; what the tools delete, and that the diagnostic ones change
      nothing but the NIC of a failover.
    The examples next to the theorems show behaviour that departs from what comments
    or the protocol say: duplicate allocation after a restart, machines released while
    their server exists, tokens that expire in the secret, ignored device channels,
    attachments lost between overlapping requests, a region without default.

    ** What is not modelled

    Logging, the health and metrics servers, which answer constants, the inside of
    controller-runtime and of the gRPC server (the watches of [SetupWithManager], the
    graceful stop), the registration of the API types, generated deep copies, and what
    the tools under [hack] print.  [ServerService] has the list of drives of a
    server change at once when it is updated (how long a drive then stays mounted is
    left open), and an error that mentions 404 mean that there is no such server; the
    theorems on the channels and on attaching rest on it.  Each controller is one goroutine; the theorems about
    overlapping executions are those of the two CSI services and of the impersonation
    client.  Requests are built from
    well-formed URLs, and marshalling requests does not fail.

    ** What could come next

    The controllers of one manager run side by side against one account, and the
    load-balancer controller against a cloud whose IPs and nodes behave as asked. *)

From stdpp Require Export base gmap strings list fin_maps pretty.
From Stdlib Require Export ZArith Lia Ascii.

#[global] Set Default Proof Using "Type".

#[export] Set Warnings "-clear-no-such-hyp,-register-all".

Declare Scope go_scope.
Delimit Scope go_scope with go.
Open Scope go_scope.

(** The lemmas that close the routine membership and permutation goals. *)
Create HintDb go.

Lemma elem_of_snoc {A} (x : A) l : x ∈ l ++ [x].
Proof. apply elem_of_app. right. by apply list_elem_of_singleton. Qed.

Lemma elem_of_mid {A} (x : A) l1 l2 : x ∈ l1 ++ x :: l2.
Proof. apply elem_of_app. right. constructor. Qed.

Lemma elem_of_one {A} (x : A) : x ∈ [x].
Proof. by apply list_elem_of_singleton. Qed.

#[export] Hint Resolve elem_of_snoc elem_of_mid elem_of_one : go.

(** ** Fixed-width integers

    Go's [int] and [int64] are 64-bit two's complement on the platforms the
    provider is built for; arithmetic wraps around silently. *)

Definition wrap64 (z : Z) : Z := ((z + 2 ^ 63) `mod` 2 ^ 64 - 2 ^ 63)%Z.

Definition int64 (z : Z) : Prop := (- 2 ^ 63 <= z < 2 ^ 63)%Z.

Lemma wrap64_int64 z : int64 (wrap64 z).
Proof.
  unfold int64, wrap64.
  pose proof (Z.mod_pos_bound (z + 2 ^ 63) (2 ^ 64)) as H. lia.
Qed.

Lemma wrap64_id z : int64 z -> wrap64 z = z.
Proof. unfold int64, wrap64. intros H. rewrite Z.mod_small; lia. Qed.

(** ** Strings, as Go's package [strings] uses them *)

(** [strings.HasPrefix(s, p)] *)
Definition HasPrefix (s p : string) : bool := String.prefix p s.
#[global] Arguments HasPrefix : simpl never.

(** [strings.HasSuffix(s, p)] *)
Fixpoint HasSuffix (s p : string) : bool :=
  bool_decide (s = p) ||
  match s with EmptyString => false | String _ s' => HasSuffix s' p end.

(** [strings.Contains(s, sub)] *)
Fixpoint Contains (s sub : string) : bool :=
  HasPrefix s sub ||
  match s with EmptyString => false | String _ s' => Contains s' sub end.

(** [s[n:]] *)
Fixpoint str_drop (n : nat) (s : string) : string :=
  match n, s with
  | O, _ => s
  | S n', String _ s' => str_drop n' s'
  | S _, EmptyString => EmptyString
  end.

(** [strings.TrimPrefix(s, p)] *)
Definition TrimPrefix (s p : string) : string :=
  if HasPrefix s p then str_drop (String.length p) s else s.

(** [strings.ReplaceAll(s, a, b)] for one-character [a] and [b]. *)
Fixpoint ReplaceAll (s : string) (a b : Ascii.ascii) : string :=
  match s with
  | EmptyString => EmptyString
  | String c s' => String (if decide (c = a) then b else c) (ReplaceAll s' a b)
  end.

(** [strings.SplitN(s, sep, 2)] for a one-character separator: the part before
    the first separator, and the rest when there is one. *)
Fixpoint SplitN2 (s : string) (sep : Ascii.ascii) : string * option string :=
  match s with
  | EmptyString => (EmptyString, None)
  | String c s' =>
      if decide (c = sep) then (EmptyString, Some s')
      else let '(l, r) := SplitN2 s' sep in (String c l, r)
  end.

(** [fmt.Sprintf("%d", z)] *)
Definition itoa (z : Z) : string := pretty z.

Definition no_char (c : Ascii.ascii) (s : string) : Prop := (SplitN2 s c).2 = None.

Lemma append_cons c s t : String c s +:+ t = String c (s +:+ t).
Proof. done. Qed.

Lemma append_nil_l s : "" +:+ s = s.
Proof. done. Qed.

Lemma append_nil_r s : s +:+ "" = s.
Proof. induction s as [|c s IH]; [done|]. by rewrite append_cons, IH. Qed.

Lemma append_assoc a b c : (a +:+ b) +:+ c = a +:+ b +:+ c.
Proof. induction a as [|x a IH]; [done|]. by rewrite !append_cons, IH. Qed.

Lemma HasPrefix_spec s p : HasPrefix s p = true <-> exists r, s = p +:+ r.
Proof.
  unfold HasPrefix. revert s; induction p as [|c p IH]; intros s; simpl.
  - split; [by exists s|by destruct s].
  - destruct s as [|d s]; simpl; [split; [done|intros [r Hr]; done]|].
    destruct (Ascii.ascii_dec c d) as [->|Hne].
    + rewrite IH. split; intros [r Hr]; exists r.
      * by rewrite append_cons, Hr.
      * by rewrite append_cons in Hr; simplify_eq.
    + split; [done|]. intros [r Hr]. rewrite append_cons in Hr. simplify_eq.
Qed.

Lemma HasPrefix_app p r : HasPrefix (p +:+ r) p = true.
Proof. apply HasPrefix_spec. by exists r. Qed.

Lemma HasSuffix_spec s p : HasSuffix s p = true <-> exists r, s = r +:+ p.
Proof.
  induction s as [|c s IH]; simpl; rewrite orb_true_iff, bool_decide_eq_true.
  - split; [intros [->|?]; [by exists ""|done]|].
    intros [[|] Hr]; [by left; rewrite Hr|done].
  - rewrite IH. split.
    + intros [->|[r ->]]; [by exists ""|by exists (String c r)].
    + intros [[|d r] Hr]; [by left|]. rewrite append_cons in Hr.
      simplify_eq. right. by exists r.
Qed.

Lemma Contains_spec s sub :
  Contains s sub = true <-> exists l r, s = l +:+ sub +:+ r.
Proof.
  induction s as [|c s IH]; simpl; rewrite orb_true_iff, HasPrefix_spec.
  - split; [intros [[r Hr]|?]; [by exists "", r|done]|].
    intros ([|] & r & Hr); [left; by exists r|done].
  - rewrite IH. split.
    + intros [[r Hr]|(l & r & ->)]; [by exists "", r|by exists (String c l), r].
    + intros ([|d l] & r & Hr); [left; by exists r|].
      rewrite append_cons in Hr. simplify_eq. right. by exists l, r.
Qed.

Lemma Contains_app_l a b sub : Contains b sub = true -> Contains (a +:+ b) sub = true.
Proof.
  rewrite !Contains_spec. intros (l & r & ->).
  exists (a +:+ l), r. by rewrite append_assoc.
Qed.

Lemma str_drop_app p r : str_drop (String.length p) (p +:+ r) = r.
Proof. by induction p. Qed.

Lemma TrimPrefix_app p r : TrimPrefix (p +:+ r) p = r.
Proof. unfold TrimPrefix. by rewrite HasPrefix_app, str_drop_app. Qed.

Lemma SplitN2_app s r sep :
  no_char sep s -> SplitN2 (s +:+ String sep r) sep = (s, Some r).
Proof.
  unfold no_char. induction s as [|c s IH]; simpl.
  - by rewrite decide_True.
  - fold String.append. case_decide; [done|].
    destruct (SplitN2 s sep) as [l o]; simpl in *. intros ->. by rewrite IH.
Qed.

(** A key [a ++ sep ++ b] determines [a] and [b] when [a] has no separator. *)
Lemma sep_inj sep a b a' b' :
  no_char sep a -> no_char sep a' ->
  a +:+ String sep b = a' +:+ String sep b' -> a = a' /\ b = b'.
Proof.
  intros Ha Ha' H. apply (f_equal (fun s => SplitN2 s sep)) in H.
  rewrite !SplitN2_app in H by done. by simplify_eq.
Qed.

#[global] Instance itoa_inj : Inj (=) (=) itoa.
Proof. unfold itoa. apply _. Qed.

(** ** Iteration order of Go maps

    [for k, v := range m] visits the entries of a map in an order the runtime
    picks at random.  [permute seed l] is the [seed]-th permutation of [l]: the
    programs below draw the seed from the environment, so their theorems hold
    for every iteration order. *)

Fixpoint insert_at {A} (n : nat) (x : A) (l : list A) : list A :=
  match n, l with
  | S n', y :: l' => y :: insert_at n' x l'
  | _, _ => x :: l
  end.

Fixpoint permute {A} (seed : nat) (l : list A) : list A :=
  match l with
  | [] => []
  | x :: l' =>
      insert_at (seed `mod` S (length l')) x (permute (seed `div` S (length l')) l')
  end.

Lemma insert_at_perm {A} n (x : A) l : insert_at n x l ≡ₚ x :: l.
Proof.
  revert l; induction n as [|n IH]; intros [|y l]; simpl; try done.
  rewrite IH. by constructor.
Qed.

Lemma permute_perm {A} seed (l : list A) : permute seed l ≡ₚ l.
Proof.
  revert seed; induction l as [|x l IH]; intros seed; [done|].
  cbn [permute]. by rewrite insert_at_perm, IH.
Qed.

Lemma insert_at_app {A} (x : A) l1 l2 : insert_at (length l1) x (l1 ++ l2) = l1 ++ x :: l2.
Proof. induction l1 as [|y l1 IH]; simpl; [by destruct l2|]. by rewrite IH. Qed.

(** Every order is drawn by some seed, so nothing is lost by drawing seeds. *)
Lemma permute_onto {A} (l l' : list A) : l' ≡ₚ l -> exists seed, permute seed l = l'.
Proof.
  revert l'; induction l as [|x l IH]; intros l' Hp.
  - exists 0. symmetry. by apply Permutation_nil_r.
  - pose proof Hp as Hp'.
    assert (x ∈ l') as (l1 & l2 & ->)%list_elem_of_split by (rewrite Hp; set_solver).
    rewrite <- Permutation_middle in Hp. apply Permutation_cons_inv in Hp.
    destruct (IH _ Hp) as [s Hs].
    exists (length l1 + s * S (length l))%nat. cbn [permute].
    assert (Hl : (length l1 < S (length l))%nat).
    { apply Permutation_length in Hp. rewrite length_app in Hp. lia. }
    rewrite Nat.Div0.mod_add, Nat.mod_small by done.
    rewrite Nat.div_add, (Nat.div_small (length l1)), Nat.add_0_l by lia.
    by rewrite Hs, insert_at_app.
Qed.

Lemma permute_NoDup {A} seed (l : list A) : NoDup l -> NoDup (permute seed l).
Proof. by rewrite permute_perm. Qed.

Lemma elem_of_permute {A} seed (l : list A) x : x ∈ permute seed l <-> x ∈ l.
Proof. by rewrite permute_perm. Qed.
