(* ===== verification/Effects.v ===== *)
(** * Effectful programs

    The Go functions of the provider interleave pure decisions with calls to
    services (the CloudSigma API, the Kubernetes API server, the identity
    provider, the operating system) and to the Go runtime (clock, map order).
    A function is modelled as a tree [prog E A]: it returns a value, panics, or
    makes a call [e : E X] and goes on with the answer.  The services are the
    handler [h], a parameter of every theorem.

    [run] executes a program against a handler, [observe] also records what the
    calls did, and [wp] is the proof rule: a weakest precondition over every
    environment an interface [iface] admits. *)

From S2P Require Import Prelude.

Inductive prog (E : Type -> Type) (A : Type) : Type :=
| Ret (a : A)
| Panic (why : string)
| Call {X : Type} (e : E X) (k : X -> prog E A).
Arguments Ret {E A} a.
Arguments Panic {E A} why.
Arguments Call {E A X} e k.

Fixpoint bind {E A B} (p : prog E A) (f : A -> prog E B) : prog E B :=
  match p with
  | Ret a => f a
  | Panic why => Panic why
  | Call e k => Call e (fun x => bind (k x) f)
  end.

Definition call {E X} (e : E X) : prog E X := Call e Ret.

Notation "'let*' x ':=' p 'in' q" := (bind p (fun x => q))
  (at level 10, x name, q at level 200) : go_scope.
Notation "'let*' ' x ':=' p 'in' q" := (bind p (fun x => q))
  (at level 10, x strict pattern, q at level 200) : go_scope.
Notation "p ;; q" := (bind p (fun _ => q))
  (at level 100, q at level 200, right associativity) : go_scope.

(** ** Loops

    [for _, x := range l { body }]: the body goes on with the next element,
    leaves the loop, or returns from the function. *)

Inductive ctl (S R : Type) : Type :=
| Next (s : S)
| Break (s : S)
| Return (r : R).
Arguments Next {S R} s.
Arguments Break {S R} s.
Arguments Return {S R} r.

Fixpoint for_range {E A S R} (l : list A) (s : S)
    (body : A -> S -> prog E (ctl S R)) : prog E (S + R) :=
  match l with
  | [] => Ret (inl s)
  | x :: l' =>
      let* c := body x s in
      match c with
      | Next s' => for_range l' s' body
      | Break s' => Ret (inl s')
      | Return r => Ret (inr r)
      end
  end.

(** A loop whose body neither breaks nor returns. *)
Fixpoint for_each {E A S} (l : list A) (s : S) (body : A -> S -> prog E S) : prog E S :=
  match l with
  | [] => Ret s
  | x :: l' => let* s' := body x s in for_each l' s' body
  end.

(** ** Execution *)

Inductive outcome (A : Type) : Type :=
| Done (a : A)
| Panicked (why : string).
Arguments Done {A} a.
Arguments Panicked {A} why.

Definition handler (E : Type -> Type) (W : Type) : Type := forall X, E X -> W -> X * W.

Fixpoint run {E A W} (h : handler E W) (p : prog E A) (w : W) : outcome A * W :=
  match p with
  | Ret a => (Done a, w)
  | Panic why => (Panicked why, w)
  | Call e k => let '(x, w') := h _ e w in run h (k x) w'
  end.

(** What an observer records of one call and its answer. *)
Definition view (E : Type -> Type) (C : Type) : Type := forall X, E X -> X -> list C.

Definition logging {E W C} (v : view E C) (h : handler E W) : handler E (W * list C) :=
  fun X e '(w, l) => let '(x, w') := h X e w in (x, (w', l ++ v X e x)).

(** The outcome of a run and the observations it leaves. *)
Definition observe {E A W C} (v : view E C) (h : handler E W) (p : prog E A) (w : W)
    : outcome A * list C :=
  let '(o, (_, l)) := run (logging v h) p (w, []) in (o, l).

(** ** Weakest preconditions

    An interface says which calls are allowed ([i_pre]) and which answers the
    environment may give ([i_post]), in terms of a ghost state [G]. *)

Record iface (E : Type -> Type) (G : Type) : Type := Iface {
  i_pre : forall X, E X -> G -> Prop;
  i_post : forall X, E X -> G -> X -> G -> Prop
}.
Arguments Iface {E G} _ _.
Arguments i_pre {E G} _ {X} _ _.
Arguments i_post {E G} _ {X} _ _ _ _.

Fixpoint wp {E G A} (I : iface E G) (p : prog E A) (Q : outcome A -> G -> Prop) (g : G)
    : Prop :=
  match p with
  | Ret a => Q (Done a) g
  | Panic why => Q (Panicked why) g
  | Call e k => i_pre I e g /\ forall x g', i_post I e g x g' -> wp I (k x) Q g'
  end.

(** A postcondition on normal termination: the program does not panic. *)
Definition ok {A G} (Q : A -> G -> Prop) (o : outcome A) (g : G) : Prop :=
  match o with Done a => Q a g | Panicked _ => False end.

(** The interface that constrains nothing and records observations. *)
Definition anyI {E C} (v : view E C) : iface E (list C) :=
  Iface (fun _ _ _ => True) (fun _ e g x g' => g' = g ++ v _ e x).

(** The interface that constrains nothing and records nothing. *)
Definition topI {E} : iface E unit := Iface (fun _ _ _ => True) (fun _ _ _ _ _ => True).

(** A handler, seen through the relation [R], behaves as the interface says. *)
Definition implements {E W G} (h : handler E W) (R : W -> G -> Prop) (I : iface E G) : Prop :=
  forall X (e : E X) w g, R w g -> i_pre I e g ->
  exists g', i_post I e g (h X e w).1 g' /\ R (h X e w).2 g'.

Section laws.
Context {E : Type -> Type} {G : Type} (I : iface E G).

Lemma wp_ret {A} (a : A) Q g : Q (Done a) g -> wp I (Ret a) Q g.
Proof. done. Qed.

Lemma wp_panic {A} why (Q : outcome A -> G -> Prop) g :
  Q (Panicked why) g -> wp I (Panic why) Q g.
Proof. done. Qed.

Lemma wp_call {A X} (e : E X) (k : X -> prog E A) Q g :
  i_pre I e g -> (forall x g', i_post I e g x g' -> wp I (k x) Q g') ->
  wp I (let* x := call e in k x) Q g.
Proof. done. Qed.

Lemma wp_mono {A} (p : prog E A) (Q Q' : outcome A -> G -> Prop) g :
  (forall o g', Q o g' -> Q' o g') -> wp I p Q g -> wp I p Q' g.
Proof.
  intros HQ. revert g. induction p as [a|why|X e k IH]; intros g; simpl; auto.
  intros [Hpre Hk]. split; [done|]. intros x g' Hpost. eauto.
Qed.

Lemma wp_bind {A B} (p : prog E A) (f : A -> prog E B) Q g :
  wp I p (fun o g' => match o with
                      | Done a => wp I (f a) Q g'
                      | Panicked why => Q (Panicked why) g'
                      end) g ->
  wp I (let* x := p in f x) Q g.
Proof.
  revert g. induction p as [a|why|X e k IH]; intros g; simpl; auto.
  intros [Hpre Hk]. split; [done|]. intros x g' Hpost. eauto.
Qed.

(** The bind rule for a first part that does not panic. *)
Lemma wp_seq {A B} (p : prog E A) (f : A -> prog E B) (P : A -> G -> Prop) Q g :
  wp I p (ok P) g -> (forall a g', P a g' -> wp I (f a) Q g') ->
  wp I (let* x := p in f x) Q g.
Proof.
  intros Hp Hf. apply wp_bind. eapply wp_mono; [|exact Hp].
  intros [a|why] g'; simpl; [auto|done].
Qed.

(** The bind rule for an invariant that also holds of a panic. *)
Lemma wp_then {A B} (p : prog E A) (f : A -> prog E B) (P : G -> Prop) Q g :
  wp I p (fun _ => P) g -> (forall a g', P g' -> wp I (f a) Q g') ->
  (forall why g', P g' -> Q (Panicked why) g') -> wp I (let* x := p in f x) Q g.
Proof.
  intros Hp Hf Hw. apply wp_bind. eapply wp_mono; [|exact Hp]. intros [a|why] g'; auto.
Qed.

Lemma wp_conj {A} (p : prog E A) (Q Q' : outcome A -> G -> Prop) g :
  wp I p Q g -> wp I p Q' g -> wp I p (fun o g' => Q o g' /\ Q' o g') g.
Proof.
  revert g. induction p as [a|why|X e k IH]; intros g; simpl; auto.
  intros [Hpre Hk] [_ Hk']. split; [done|]. intros x g' Hpost. eauto.
Qed.

(** An interface with weaker obligations and stronger answers. *)
Lemma wp_refine (I' : iface E G) {A} (p : prog E A) Q g :
  (forall X (e : E X) g, i_pre I e g -> i_pre I' e g) ->
  (forall X (e : E X) g x g', i_post I' e g x g' -> i_post I e g x g') ->
  wp I p Q g -> wp I' p Q g.
Proof.
  intros Hpre Hpost. revert g. induction p as [a|why|X e k IH]; intros g; simpl; auto.
  intros [He Hk]. split; [auto|]. intros x g' Hx. eauto.
Qed.

(** The loop rules: an invariant on the elements still to come. *)
Lemma wp_for_range {A S R} (Inv : list A -> S -> G -> Prop) (l : list A) s
    (body : A -> S -> prog E (ctl S R)) (Q : outcome (S + R) -> G -> Prop) g :
  Inv l s g ->
  (forall x l' s' g', (exists pre, l = pre ++ x :: l') -> Inv (x :: l') s' g' ->
     wp I (body x s') (ok (fun c g'' =>
       match c with
       | Next s'' => Inv l' s'' g''
       | Break s'' => Q (Done (inl s'')) g''
       | Return r => Q (Done (inr r)) g''
       end)) g') ->
  (forall s' g', Inv [] s' g' -> Q (Done (inl s')) g') ->
  wp I (for_range l s body) Q g.
Proof.
  revert s g. induction l as [|x l IH]; intros s g HI Hbody Hdone; simpl; [auto|].
  eapply wp_seq; [apply Hbody; [by exists []|done]|].
  intros [s'|s'|r] g'; simpl; auto. intros HI'. apply IH; [done| |done].
  intros y l' s'' g'' [pre Hpre]. apply Hbody. exists (x :: pre). by rewrite Hpre.
Qed.

Lemma wp_for_each {A S} (Inv : list A -> S -> G -> Prop) (l : list A) s
    (body : A -> S -> prog E S) (Q : outcome S -> G -> Prop) g :
  Inv l s g ->
  (forall x l' s' g', (exists pre, l = pre ++ x :: l') -> Inv (x :: l') s' g' ->
     wp I (body x s') (ok (fun s'' g'' => Inv l' s'' g'')) g') ->
  (forall s' g', Inv [] s' g' -> Q (Done s') g') ->
  wp I (for_each l s body) Q g.
Proof.
  revert s g. induction l as [|x l IH]; intros s g HI Hbody Hdone; simpl; [auto|].
  eapply wp_seq; [apply Hbody; [by exists []|done]|].
  intros s' g' HI'. apply IH; [done| |done].
  intros y l' s'' g'' [pre Hpre]. apply Hbody. exists (x :: pre). by rewrite Hpre.
Qed.

(** Soundness: a weakest precondition holds of the runs of every handler that
    implements the interface. *)
Lemma wp_run {A W} (h : handler E W) (R : W -> G -> Prop) (p : prog E A) Q w g :
  implements h R I -> R w g -> wp I p Q g ->
  exists g', Q (run h p w).1 g' /\ R (run h p w).2 g'.
Proof.
  intros Hh. revert w g. induction p as [a|why|X e k IH]; intros w g HR; simpl; eauto.
  intros [Hpre Hk]. destruct (Hh X e w g HR Hpre) as (g' & Hpost & HR').
  destruct (h X e w) as [x w']; simpl in *. eauto.
Qed.
End laws.

Lemma anyI_sound {E W C} (v : view E C) (h : handler E W) :
  implements (logging v h) (fun wl g => wl.2 = g) (anyI v).
Proof.
  intros X e [w l] g Heq _. simpl in *. subst l. destruct (h X e w) as [x w']; simpl. eauto.
Qed.

(** A weakest precondition over the unconstrained interface holds of the runs
    of every handler whatsoever. *)
Lemma wp_observe {E A W C} (v : view E C) (h : handler E W) (p : prog E A) (w : W)
    (Q : outcome A -> list C -> Prop) :
  wp (anyI v) p Q [] -> Q (observe v h p w).1 (observe v h p w).2.
Proof.
  intros Hp.
  destruct (wp_run (anyI v) (logging v h) (fun wl g => wl.2 = g) p Q (w, []) []
              (anyI_sound v h) eq_refl Hp) as (g' & HQ & HR).
  unfold observe. destruct (run _ p _) as [o [w' l]]; simpl in *. by subst.
Qed.

Lemma observe_intro {E A W C} (v : view E C) (h : handler E W) (p : prog E A) (w : W)
    (Q : outcome A -> list C -> Prop) :
  wp (anyI v) p Q [] -> let '(o, l) := observe v h p w in Q o l.
Proof. intros Hp%(wp_observe v h p w). by destruct (observe v h p w). Qed.

(** An interface together with the observations of a view. *)
Definition with_log {E G C} (v : view E C) (I : iface E G) : iface E (G * list C) :=
  Iface (fun _ e g => i_pre I e g.1)
        (fun _ e g x g' => i_post I e g.1 x g'.1 /\ g'.2 = g.2 ++ v _ e x).

Lemma with_log_sound {E W G C} (v : view E C) (h : handler E W) (R : W -> G -> Prop) I :
  implements h R I ->
  implements (logging v h) (fun wl gl => R wl.1 gl.1 /\ wl.2 = gl.2) (with_log v I).
Proof.
  intros Hh X e [w l] [g l'] [HR Hl] Hpre. simpl in *. subst l'.
  destruct (Hh X e w g HR Hpre) as (g' & Hpost & HR').
  destruct (h X e w) as [x w']; simpl in *. by exists (g', l ++ v X e x).
Qed.

(** From a weakest precondition to the outcome and the observations of a run. *)
Lemma wp_observe_with {E A W G C} (v : view E C) (h : handler E W) (R : W -> G -> Prop) I
    (p : prog E A) (w : W) (g : G) (Q : outcome A -> list C -> Prop) :
  implements h R I -> R w g ->
  wp (with_log v I) p (fun o gl => Q o gl.2) (g, []) ->
  let '(o, l) := observe v h p w in Q o l.
Proof.
  intros Hh HR Hp.
  destruct (wp_run _ _ _ p _ (w, []) (g, []) (with_log_sound v h R I Hh) (conj HR eq_refl) Hp)
    as ([g' l'] & HQ & _ & Hl).
  unfold observe. destruct (run (logging v h) p (w, [])) as [o [w' l]]; simpl in *. by subst.
Qed.

(** What holds with a log holds without it, for some log. *)
Lemma wp_forget_log {E A G C} (v : view E C) (I : iface E G) (p : prog E A)
    (Q : outcome A -> G * list C -> Prop) g l :
  wp (with_log v I) p Q (g, l) -> wp I p (fun o g' => exists l', Q o (g', l')) g.
Proof.
  revert g l. induction p as [a|why|X e k IH]; intros g l; simpl; [eauto..|].
  intros [Hpre Hk]. split; [done|]. intros x g' Hx. eapply IH, (Hk x (g', l ++ v X e x)). done.
Qed.

(** Logging does not change what a program does. *)
Lemma run_logging {E A W C} (v : view E C) (h : handler E W) (p : prog E A) w l :
  (run (logging v h) p (w, l)).1 = (run h p w).1 /\
  (run (logging v h) p (w, l)).2.1 = (run h p w).2.
Proof.
  revert w l. induction p as [a|why|X e k IH]; intros w l; [done..|]. simpl.
  destruct (h X e w) as [x w']. apply IH.
Qed.

(** And conversely. *)
Lemma wp_with_log {E A G C} (v : view E C) (I : iface E G) (p : prog E A)
    (Q : outcome A -> G -> Prop) g l :
  wp I p Q g -> wp (with_log v I) p (fun o gl => Q o gl.1) (g, l).
Proof.
  revert g l. induction p as [a|why|X e k IH]; intros g l; simpl; [done..|].
  intros [Hpre Hk]. split; [done|]. intros x [g' l'] [Hx _]. cbn in Hx. by apply IH, Hk.
Qed.

(** A log only grows. *)
Lemma run_logging_prefix {E A W C} (v : view E C) (h : handler E W) (p : prog E A) w l :
  l `prefix_of` (run (logging v h) p (w, l)).2.2.
Proof.
  revert w l. induction p as [a|why|X e k IH]; intros w l; [done..|]. simpl.
  destruct (h X e w) as [x w']. etrans; [|apply IH]. by eexists.
Qed.

Lemma wp_run_with {E A W G C} (v : view E C) (h : handler E W) (R : W -> G -> Prop) I
    (p : prog E A) (w : W) (g : G) (P : A -> Prop) :
  implements h R I -> R w g -> wp (with_log v I) p (ok (fun a _ => P a)) (g, []) ->
  exists a w', run h p w = (Done a, w') /\ P a.
Proof.
  intros Hh HR Hp.
  destruct (wp_run _ _ _ p _ (w, []) (g, []) (with_log_sound v h R I Hh) (conj HR eq_refl) Hp)
    as (g' & HQ & _).
  destruct (run_logging v h p w []) as [H1 _]. rewrite H1 in HQ.
  destruct (run h p w) as [[a|why] w']; simpl in *; [|done]. eauto.
Qed.

(** What a run returns satisfies the postcondition proved from an empty log. *)
Lemma wp_run_log {E A W C} (v : view E C) (h : handler E W) (p : prog E A) (w : W)
    (Q : A -> list C -> Prop) :
  wp (anyI v) p (ok Q) [] -> exists a w' l, run h p w = (Done a, w') /\ Q a l.
Proof.
  intros Hp. destruct (wp_run (anyI v) (logging v h) _ p _ (w, []) []
    (anyI_sound v h) eq_refl Hp) as (l & HQ & _).
  destruct (run_logging v h p w []) as [H1 _]. rewrite H1 in HQ.
  destruct (run h p w) as [[a|why] w']; simpl in *; [|done]. eauto.
Qed.

(** Calls that are allowed leave only observations that are: so do programs. *)
Lemma wp_events {E A W G C} (v : view E C) (P : C -> Prop) (h : handler E W)
    (R : W -> G -> Prop) (I : iface E G) (p : prog E A) Q w g :
  (forall X (e : E X) g x, i_pre I e g -> Forall P (v X e x)) ->
  implements h R I -> R w g -> wp I p Q g -> Forall P (observe v h p w).2.
Proof.
  intros HP Hh HR Hp.
  assert (Hrun : forall l, Forall P l -> Forall P (run (logging v h) p (w, l)).2.2).
  { revert w g HR Hp. induction p as [a|why|X e k IH]; intros w g HR Hp l Hl; [done..|].
    destruct Hp as [Hpre Hk]. destruct (Hh X e w g HR Hpre) as (g' & Hpost & HR'). simpl.
    specialize (HP X e g (h X e w).1 Hpre). destruct (h X e w) as [x w']; simpl in *.
    apply (IH x w' g' HR'); [by apply Hk|]. by apply Forall_app. }
  specialize (Hrun [] ltac:(by constructor)). unfold observe.
  by destruct (run (logging v h) p (w, [])) as [o [w' l]].
Qed.

Lemma wp_top {E A W} (h : handler E W) (p : prog E A) (w : W) (Q : outcome A -> unit -> Prop) :
  wp topI p Q tt -> Q (run h p w).1 tt.
Proof.
  intros Hp.
  destruct (wp_run topI h (fun _ _ => True) p Q w tt) as ([] & HQ & _); [|done..].
  intros X e w' g _ _. by exists tt.
Qed.

Lemma run_bind {E A B W} (h : handler E W) (p : prog E A) (f : A -> prog E B) w :
  run h (let* x := p in f x) w =
  match run h p w with
  | (Done a, w') => run h (f a) w'
  | (Panicked why, w') => (Panicked why, w')
  end.
Proof.
  revert w. induction p as [a|why|X e k IH]; intros w; simpl; [done..|].
  destruct (h X e w) as [x w']. apply IH.
Qed.

Lemma run_call {E A X W} (h : handler E W) (e : E X) (f : X -> prog E A) w :
  run h (let* x := call e in f x) w = run h (f (h X e w).1) (h X e w).2.
Proof. simpl. by destruct (h X e w). Qed.

(** ** Quiet programs

    A program is quiet for a view when none of its calls leaves an observation,
    whatever the answers; it may return any value in [P] and does not panic. *)

Definition quietI {E C} (v : view E C) : iface E unit :=
  Iface (fun X e _ => forall x, v X e x = []) (fun _ _ _ _ _ => True).

Definition quiet {E A C} (v : view E C) (p : prog E A) (P : A -> Prop) : Prop :=
  wp (quietI v) p (ok (fun a _ => P a)) tt.

Section quiet.
Context {E : Type -> Type} {C : Type} (v : view E C).

Lemma quiet_wp {A} (p : prog E A) (P : A -> Prop) g :
  quiet v p P -> wp (anyI v) p (ok (fun a g' => P a /\ g' = g)) g.
Proof.
  unfold quiet. induction p as [a|why|X e k IH]; simpl; [auto|done|].
  intros [Hpre Hk]. split; [done|]. intros x g' ->. rewrite Hpre, app_nil_r.
  apply IH. by apply (Hk x tt).
Qed.

Lemma quiet_ret {A} (a : A) (P : A -> Prop) : P a -> quiet v (Ret a) P.
Proof. done. Qed.

Lemma quiet_call {A X} (e : E X) (k : X -> prog E A) (P : A -> Prop) :
  (forall x, v X e x = []) -> (forall x, quiet v (k x) P) ->
  quiet v (let* x := call e in k x) P.
Proof. intros He Hk. apply wp_call; [done|]. intros x [] _. apply Hk. Qed.

Lemma quiet_call0 {X} (e : E X) (P : X -> Prop) :
  (forall x, v X e x = []) -> (forall x, P x) -> quiet v (call e) P.
Proof. intros He Hk. apply (conj He). intros x [] _. apply Hk. Qed.

Lemma quiet_bind {A B} (p : prog E A) (f : A -> prog E B) (P : A -> Prop) (Q : B -> Prop) :
  quiet v p P -> (forall a, P a -> quiet v (f a) Q) -> quiet v (let* x := p in f x) Q.
Proof. intros Hp Hf. eapply wp_seq; [exact Hp|]. intros a [] Ha. by apply Hf. Qed.

Lemma quiet_for_each {A S} (l : list A) (s : S) (body : A -> S -> prog E S) (P : S -> Prop) :
  P s -> (forall x s', x ∈ l -> P s' -> quiet v (body x s') P) -> quiet v (for_each l s body) P.
Proof.
  intros Hs Hbody. apply (wp_for_each _ (fun _ s' _ => P s')); [done| |done].
  intros x l' s' [] [pre ->] Hs'. apply Hbody; [|done]. apply elem_of_app. right. constructor.
Qed.

Lemma quiet_for_range {A S R} (l : list A) (s : S) (body : A -> S -> prog E (ctl S R))
    (P : S -> Prop) (Q : S + R -> Prop) :
  P s ->
  (forall x s', x ∈ l -> P s' -> quiet v (body x s') (fun c =>
     match c with Next s'' => P s'' | Break s'' => Q (inl s'') | Return r => Q (inr r) end)) ->
  (forall s', P s' -> Q (inl s')) ->
  quiet v (for_range l s body) Q.
Proof.
  intros Hs Hbody HQ. apply (wp_for_range _ (fun _ s' _ => P s')); [done| |intros; by apply HQ].
  intros x l' s' [] [pre ->] Hs'. eapply wp_mono; [|apply Hbody; [|done]].
  - intros [[]|] []; simpl; auto.
  - apply elem_of_app. right. constructor.
Qed.

Lemma quiet_mono {A} (p : prog E A) (P Q : A -> Prop) :
  (forall a, P a -> Q a) -> quiet v p P -> quiet v p Q.
Proof. intros H. apply wp_mono. intros [a|]; simpl; auto. Qed.
End quiet.

(** A quiet program returns, under any interface without obligations. *)
Lemma quiet_any {E A C G} (v : view E C) (I : iface E G) (p : prog E A) (P : A -> Prop) g :
  (forall X (e : E X) g, i_pre I e g) ->
  quiet v p P -> wp I p (ok (fun a _ => P a)) g.
Proof.
  intros Hpre. unfold quiet. revert g.
  induction p as [a|why|X e k IH]; intros g; simpl; [done..|].
  intros [_ Hk]. split; [done|]. intros x g' _. apply IH. by apply (Hk x tt).
Qed.

Lemma quiet_run {E A W C} (v : view E C) (h : handler E W) (p : prog E A) (w : W)
    (P : A -> Prop) :
  quiet v p P -> exists a w', run h p w = (Done a, w') /\ P a.
Proof.
  intros Hp. destruct (wp_run_log v h p w (fun a l => P a /\ l = [])) as (a & w' & l & H & Ha & _);
    [by apply quiet_wp|eauto].
Qed.

Lemma quiet_run_log {E A W C} (v : view E C) (h : handler E W) (p : prog E A) w (P : A -> Prop) l :
  quiet v p P ->
  exists a w', run h p w = (Done a, w') /\ run (logging v h) p (w, l) = (Done a, (w', l)) /\ P a.
Proof.
  intros Hp. destruct (wp_run (anyI v) (logging v h) _ p _ (w, l) l
    (anyI_sound v h) eq_refl (quiet_wp v p P l Hp)) as (g & HQ & HR).
  destruct (run_logging v h p w l) as [H1 H2].
  destruct (run (logging v h) p (w, l)) as [[a|why] [w' l']]; simpl in *; [|done].
  destruct HQ as [Ha ->]. destruct (run h p w); simpl in *. subst. eauto.
Qed.

(** What returns in every environment is quiet for a view that sees nothing. *)
Lemma any_quiet {E A C C'} (v : view E C) (v' : view E C') (p : prog E A) (Q : A -> list C -> Prop) l :
  (forall X (e : E X) x, v' X e x = []) -> wp (anyI v) p (ok Q) l -> quiet v' p (fun _ => True).
Proof.
  intros Hv'. unfold quiet. revert l. induction p as [a|why|X e k IH]; intros l; simpl; [done..|].
  intros [_ Hk]. split; [apply Hv'|]. intros x [] _. eapply IH, Hk. done.
Qed.

(** A program that returns, whatever the answers: it is quiet for the view that
    records nothing. *)
Definition blind {E} : view E Empty_set := fun _ _ _ => [].

Abbreviation returns p := (quiet blind p (fun _ => True)).

Lemma quiet_returns {E A C} (v : view E C) (p : prog E A) (P : A -> Prop) :
  quiet v p P -> returns p.
Proof.
  unfold quiet. intros Hp. eapply wp_refine with (I := quietI v); [done|done|].
  eapply wp_mono; [|exact Hp]. by intros [].
Qed.

#[global] Arguments quiet : simpl never.

Create HintDb quiet.

(** Go through a program branch by branch; sub-programs are looked up in the
    hint database [quiet]. *)
Ltac quiet_step :=
  lazymatch goal with
  | |- quiet _ (Ret _) _ => apply quiet_ret
  | |- quiet _ (bind (Ret ?a) ?f) _ => change (bind (Ret a) f) with (f a); cbv beta
  | |- quiet _ (bind (call _) _) _ => apply quiet_call; [done|intros ?]
  | |- quiet _ (call _) _ => apply quiet_call0; [done|intros ?]
  | |- quiet _ (bind (for_each _ _ _) _) _ =>
      eapply (quiet_bind _ _ _ (fun _ => True)); [apply (quiet_for_each _ _ _ _ (fun _ => True)); [done|intros ?? _ _]|intros ? _]
  | |- quiet _ (for_each _ _ _) _ => apply (quiet_for_each _ _ _ _ (fun _ => True)); [done|intros ?? _ _]
  | |- quiet _ (bind _ _) _ => eapply (quiet_bind _ _ _ (fun _ => True)); [|intros ? _]
  | |- quiet _ (match ?r with _ => _ end) _ => destruct r eqn:?
  end.

Ltac quiet_go := repeat (first [done | solve [auto with quiet nocore] | quiet_step]).

(** ** Programs that are killed

    [cut n p] is [p] killed at its [n]-th call, if it gets that far. *)

Fixpoint cut {E A} (n : nat) (p : prog E A) : prog E A :=
  match p with
  | Call e k =>
      match n with
      | O => Panic "killed"
      | S n' => Call e (fun x => cut n' (k x))
      end
  | p => p
  end.

(** What is an obligation of every call and holds at the end holds wherever the
    program is killed. *)
Lemma wp_cut {E G A} (I : iface E G) (P : G -> Prop) (p : prog E A) n g :
  (forall X (e : E X) g, i_pre I e g -> P g) ->
  wp I p (fun _ g' => P g') g -> wp I (cut n p) (fun _ g' => P g') g.
Proof.
  intros HP. revert n g. induction p as [a|why|X e k IH]; intros n g; [by destruct n..|].
  destruct n as [|n]; simpl; intros [Hpre Hk]; [by eapply HP|]. split; [done|].
  intros x g' Hx. apply IH. by apply Hk.
Qed.

(** ** Programs that make only some calls

    [only S p]: every call of [p], whatever the answers, is in [S]; the program
    may panic.  Such a program keeps every property of the environment that the
    calls of [S] keep. *)

Definition onlyI {E} (S : forall X, E X -> Prop) : iface E unit :=
  Iface (fun X e _ => S X e) (fun _ _ _ _ _ => True).

Definition only {E A} (S : forall X, E X -> Prop) (p : prog E A) : Prop :=
  wp (onlyI S) p (fun _ _ => True) tt.

Section only.
Context {E : Type -> Type} (S : forall X, E X -> Prop).

Lemma only_ret {A} (a : A) : only S (Ret a).
Proof. done. Qed.

Lemma only_panic {A} why : only (A := A) S (Panic why).
Proof. done. Qed.

Lemma only_call {A X} (e : E X) (k : X -> prog E A) :
  S X e -> (forall x, only S (k x)) -> only S (let* x := call e in k x).
Proof. intros He Hk. apply wp_call; [done|]. intros x [] _. apply Hk. Qed.

Lemma only_call0 {X} (e : E X) : S X e -> only S (call e).
Proof. by intros He. Qed.

Lemma only_bind {A B} (p : prog E A) (f : A -> prog E B) :
  only S p -> (forall a, only S (f a)) -> only S (let* x := p in f x).
Proof.
  intros Hp Hf. apply wp_bind. eapply wp_mono; [|exact Hp]. intros [a|why] [] _; [apply Hf|done].
Qed.

Lemma only_for_range {A T R} (l : list A) (s : T) (body : A -> T -> prog E (ctl T R)) :
  (forall x s', only S (body x s')) -> only S (for_range l s body).
Proof.
  intros Hb. revert s. induction l as [|x l IH]; intros s; [done|]. simpl.
  apply only_bind; [apply Hb|]. intros []; [apply IH|done..].
Qed.

Lemma only_for_each {A T} (l : list A) (s : T) (body : A -> T -> prog E T) :
  (forall x s', only S (body x s')) -> only S (for_each l s body).
Proof.
  intros Hb. revert s. induction l as [|x l IH]; intros s; [done|]. simpl.
  apply only_bind; [apply Hb|]. intros s'. apply IH.
Qed.

Lemma only_mono {A} (S' : forall X, E X -> Prop) (p : prog E A) :
  (forall X (e : E X), S X e -> S' X e) -> only S p -> only S' p.
Proof.
  intros HS. unfold only. apply wp_refine; [|done]. intros X e g. apply HS.
Qed.

(** What the calls of [S] keep, the program keeps. *)
Lemma only_wp {A G} (I : iface E G) (P : G -> Prop) (p : prog E A) g :
  (forall X (e : E X) g, S X e -> P g -> i_pre I e g) ->
  (forall X (e : E X) g x g', S X e -> i_post I e g x g' -> P g -> P g') ->
  only S p -> P g -> wp I p (fun _ g' => P g') g.
Proof.
  intros Hpre Hkeep. unfold only. revert g.
  induction p as [a|why|X e k IH]; intros g; simpl; [done..|].
  intros [He Hk] Hg. split; [by apply Hpre|]. intros x g' Hx. apply IH; [by apply (Hk x tt)|].
  by eapply Hkeep.
Qed.

(** A program that returns is quiet for a view that sees none of its calls. *)
Lemma only_quiet {A C C'} (v : view E C) (v' : view E C') (p : prog E A) (P : A -> Prop) :
  (forall X (e : E X) x, S X e -> v X e x = []) -> only S p -> quiet v' p P -> quiet v p P.
Proof.
  intros HS. unfold only, quiet. induction p as [a|why|X e k IH]; [done..|].
  intros [He Ho] [_ Hq]. split; [intros x; by apply HS|]. intros x [] _.
  apply IH; [by apply (Ho x tt)|by apply (Hq x tt)].
Qed.
End only.

#[global] Arguments only : simpl never.

Create HintDb only.

(** Go through a program branch by branch; sub-programs are looked up in the
    hint database [only]. *)
Ltac only_step :=
  lazymatch goal with
  | |- only _ (Ret _) => apply only_ret
  | |- only _ (Panic _) => apply only_panic
  | |- only _ (bind (Ret ?a) ?f) => change (bind (Ret a) f) with (f a); cbv beta
  | |- only _ (bind (call _) _) => apply only_call; [done|intros ?]
  | |- only _ (call _) => apply only_call0; done
  | |- only _ (for_each _ _ _) => apply only_for_each; intros ??
  | |- only _ (for_range _ _ _) => apply only_for_range; intros ??
  | |- only _ (bind _ _) => apply only_bind; [|intros ?]
  | |- only _ (match ?r with _ => _ end) => destruct r
  end.

Ltac only_go := repeat (first [done | solve [auto with only nocore] | only_step | progress cbv zeta]).

#[global] Arguments bind : simpl never.
#[global] Arguments for_range : simpl never.
#[global] Arguments for_each : simpl never.
#[global] Arguments call : simpl never.
#[global] Arguments wp : simpl never.
