(* ===== verification/GoErrors.v ===== *)
(** * Errors

    Go's [error] values as the provider builds and inspects them: plain errors,
    errors wrapped with [fmt.Errorf("...: %w", err)] or [errors.Wrap], the
    Kubernetes API errors that [apierrors] classifies, the gRPC status errors of
    the CSI driver, and [PermissionDeniedError] of [pkg/cloud/errors.go].

    The provider tests errors in two ways, both modelled: through the chain
    ([errors.As]) and through the text ([strings.Contains(err.Error(), ...)]). *)

From S2P Require Import Prelude.

(** The classes of Kubernetes API errors the code tells apart. *)
Inductive kube_reason := KNotFound | KConflict | KAlreadyExists | KOther.

(** The gRPC codes the CSI driver uses. *)
Inductive code :=
| InvalidArgument | NotFound | FailedPrecondition | OutOfRange | Internal | Unimplemented.

Inductive error : Type :=
| ErrNew (msg : string)
| ErrWrap (msg : string) (err : error)
| ErrKube (reason : kube_reason) (msg : string)
| ErrStatus (c : code) (msg : string)
| PermissionDeniedError (ResourceType UUID : string) (StatusCode : Z) (User : string)
    (Err : error).

#[global] Instance kube_reason_eq_dec : EqDecision kube_reason.
Proof. solve_decision. Defined.
#[global] Instance code_eq_dec : EqDecision code.
Proof. solve_decision. Defined.
#[global] Instance error_eq_dec : EqDecision error.
Proof. solve_decision. Defined.

(** The names [google.golang.org/grpc/codes] gives to the codes. *)
Definition code_String (c : code) : string :=
  match c with
  | InvalidArgument => "InvalidArgument"
  | NotFound => "NotFound"
  | FailedPrecondition => "FailedPrecondition"
  | OutOfRange => "OutOfRange"
  | Internal => "Internal"
  | Unimplemented => "Unimplemented"
  end.

(** [err.Error()] *)
Fixpoint Error (e : error) : string :=
  match e with
  | ErrNew msg => msg
  | ErrWrap msg err => msg +:+ ": " +:+ Error err
  | ErrKube _ msg => msg
  | ErrStatus c msg => "rpc error: code = " +:+ code_String c +:+ " desc = " +:+ msg
  | PermissionDeniedError rt uuid sc user err =>
      "permission denied: user " +:+ user +:+ " cannot access " +:+ rt +:+ " " +:+ uuid
      +:+ " (HTTP " +:+ itoa sc +:+ "): " +:+ Error err
  end.

(** [errors.Unwrap] *)
Definition Unwrap (e : error) : option error :=
  match e with
  | ErrWrap _ err => Some err
  | PermissionDeniedError _ _ _ _ err => Some err
  | _ => None
  end.

Definition NewPermissionDeniedError (resourceType uuid : string) (statusCode : Z)
    (user : string) (err : error) : error :=
  PermissionDeniedError resourceType uuid statusCode user err.

(** [errors.As(err, &pde)]: the first [PermissionDeniedError] of the chain. *)
Fixpoint GetPermissionDeniedError (e : error) : option error :=
  match e with
  | PermissionDeniedError _ _ _ _ _ => Some e
  | ErrWrap _ err => GetPermissionDeniedError err
  | _ => None
  end.

Definition IsPermissionDeniedError (e : error) : bool :=
  match GetPermissionDeniedError e with Some _ => true | None => false end.

(** [apierrors.IsNotFound] and its siblings, which look through wrapping. *)
Fixpoint kube_reason_of (e : error) : kube_reason :=
  match e with
  | ErrKube r _ => r
  | ErrWrap _ err => kube_reason_of err
  | PermissionDeniedError _ _ _ _ err => kube_reason_of err
  | _ => KOther
  end.

Definition IsNotFound (e : error) : bool := bool_decide (kube_reason_of e = KNotFound).
Definition IsConflict (e : error) : bool := bool_decide (kube_reason_of e = KConflict).
Definition IsAlreadyExists (e : error) : bool :=
  bool_decide (kube_reason_of e = KAlreadyExists).

(** Values returned together with an error: [(v, nil)] or [(nil, err)]. *)
Inductive result (A : Type) : Type :=
| Ok (a : A)
| Err (e : error).
Arguments Ok {A} a.
Arguments Err {A} e.

Definition is_Ok {A} (r : result A) : bool := match r with Ok _ => true | Err _ => false end.

(** Wrapping keeps the text and the chain of the wrapped error visible. *)
Lemma Error_wrap_Contains msg err sub :
  Contains (Error err) sub = true -> Contains (Error (ErrWrap msg err)) sub = true.
Proof. intros H. simpl. by do 2 apply Contains_app_l. Qed.

Lemma IsPermissionDenied_wrap msg err :
  IsPermissionDeniedError (ErrWrap msg err) = IsPermissionDeniedError err.
Proof. done. Qed.

(** The wrappings an error is below, outermost first. *)
Fixpoint wrap_all (msgs : list string) (err : error) : error :=
  match msgs with [] => err | m :: ms => ErrWrap m (wrap_all ms err) end.

(** [IsPermissionDeniedError] decides whether some number of [Unwrap] steps
    reaches a [PermissionDeniedError]. *)
Inductive in_chain : error -> error -> Prop :=
| in_chain_here e : in_chain e e
| in_chain_unwrap e e' e'' : Unwrap e = Some e' -> in_chain e' e'' -> in_chain e e''.

#[export] Hint Constructors in_chain : core.

Definition is_pde (e : error) : Prop :=
  match e with PermissionDeniedError _ _ _ _ _ => True | _ => False end.

Lemma GetPermissionDeniedError_chain e pde :
  GetPermissionDeniedError e = Some pde -> in_chain e pde /\ is_pde pde.
Proof.
  induction e as [|m e IH| | |]; simpl; intros H; simplify_eq.
  - destruct (IH H) as [Hc Hp]. split; [|done]. by eapply in_chain_unwrap.
  - by split; [constructor|].
Qed.

Lemma IsPermissionDeniedError_complete e pde :
  in_chain e pde -> is_pde pde -> IsPermissionDeniedError e = true.
Proof.
  unfold IsPermissionDeniedError.
  induction 1 as [e|e e' e'' Hu Hc IH]; intros Hp; [by destruct e|].
  destruct e; simplify_eq/=; auto.
Qed.

(** The test for permission errors looks through any number of wrappings:
    it holds exactly when a chain of [Unwrap] steps reaches a
    [PermissionDeniedError], which is then what [GetPermissionDeniedError]
    returns from the chain. *)
Theorem IsPermissionDeniedError_spec e :
  (IsPermissionDeniedError e = true <-> exists pde, in_chain e pde /\ is_pde pde) /\
  (forall pde, GetPermissionDeniedError e = Some pde -> in_chain e pde /\ is_pde pde).
Proof.
  split; [split|].
  - unfold IsPermissionDeniedError. destruct (GetPermissionDeniedError e) as [pde|] eqn:H; [|done].
    intros _. exists pde. by apply GetPermissionDeniedError_chain.
  - intros (pde & Hc & Hp). by eapply IsPermissionDeniedError_complete.
  - apply GetPermissionDeniedError_chain.
Qed.
