(* ===== verification/ApiTypes.v ===== *)
(** * Data

    The custom resources of [api/v1beta1], the CloudSigma objects and the
    Kubernetes objects, each as a record with the fields the provider reads or
    writes.  A Go pointer that may be nil is an [option]; a Go map that is only
    read or written by key is a [gmap]. *)

From S2P Require Import Prelude.

(** ** CloudSigma objects (as the SDK and the REST API present them) *)

Module Drive.
Record t := mk {
  UUID : string;
  Name : string;
  Size : Z;
  Status : string;
  Media : string;
  StorageType : string;
  MountedOn : list string
}.
End Drive.

(** A drive attached to a server. *)
Module ServerDrive.
Record t := mk {
  BootOrder : Z;
  DevChannel : string;
  Device : string;
  Drive : option Drive.t
}.
End ServerDrive.

Module IPv4Conf.
Record t := mk { Conf : string; IPAddress : option string }.
End IPv4Conf.

Module ServerNIC.
Record t := mk { VLAN : option string; IP4Configuration : option IPv4Conf.t }.
End ServerNIC.

Module Server.
Record t := mk {
  UUID : string;
  Name : string;
  Status : string;
  Drives : list ServerDrive.t;
  NICs : list ServerNIC.t;
  Meta : gmap string string;
  RuntimeNICs : list string  (* the IPv4 UUID of each runtime NIC *)
}.

Definition set_Drives (s : t) (ds : list ServerDrive.t) : t :=
  mk (UUID s) (Name s) (Status s) ds (NICs s) (Meta s) (RuntimeNICs s).
End Server.

Module Tag.
Record t := mk { UUID : string; Name : string; Resources : list string }.
End Tag.

Module VLAN.
Record t := mk { UUID : string }.
End VLAN.

(** An IP of the SDK's [IPs] service and of the raw [ips/detail] listing. *)
Module IP.
Record t := mk { UUID : string; Server : option string; Subscription : option Z }.
End IP.

(** ** The [CloudSigmaMachine] resource *)

Record CloudSigmaDisk := { disk_UUID : string; disk_Device : string;
                           disk_BootOrder : Z; disk_Size : Z }.

Record CloudSigmaIPConf := { ipconf_Conf : string; ipconf_IP : option string }.

Record CloudSigmaNIC := { nic_VLAN : string; nic_IPv4Conf : CloudSigmaIPConf }.

Record CloudSigmaMachineSpec := {
  ProviderID : option string;
  CPU : Z;
  Memory : Z;
  Disks : list CloudSigmaDisk;
  NICs : list CloudSigmaNIC;
  Tags : list string;
  Meta : gmap string string
}.

(** ** Servers as they are created ([pkg/cloud/servers_custom.go]) *)

Record CustomServerDrive := { csd_BootOrder : Z; csd_DevChannel : string;
                              csd_Device : string; csd_Drive : string }.

(** The IP of a configuration is the UUID of the IP it refers to. *)
Record CustomIPv4Conf := { cic_Conf : string; cic_IP : option string }.

Record CustomServerNIC := { csn_VLAN : string; csn_IPv4Conf : option CustomIPv4Conf }.

Record CustomServer := {
  cs_Name : string;
  cs_CPU : Z;
  cs_Memory : Z;
  cs_VNCPassword : string;
  cs_Drives : list CustomServerDrive;
  cs_NICs : list CustomServerNIC;
  cs_Meta : gmap string string
}.

(** A network address of a machine or of a node: its type and the address. *)
Record Address := { addr_Type : string; addr_Address : string }.

(** ** Kubernetes objects *)

Module Taint.
Record t := mk { Key : string; Value : string; Effect : string }.
End Taint.

Module Node.
Record t := mk {
  Name : string;
  ProviderID : string;
  Conditions : list (string * string);  (* type, status *)
  Taints : list Taint.t;
  Addresses : list Address
}.

Definition set_Taints (n : t) (ts : list Taint.t) : t :=
  mk (Name n) (ProviderID n) (Conditions n) ts (Addresses n).
Definition set_Addresses (n : t) (a : list Address) : t :=
  mk (Name n) (ProviderID n) (Conditions n) (Taints n) a.
End Node.

Module Service.
Record t := mk {
  Namespace : string;
  Name : string;
  Annotations : gmap string string;
  Type_ : string;
  ClusterIP : string;
  Ports : list Z;
  Ingress : list string  (* the IPs of status.loadBalancer.ingress *)
}.

Definition set_Ingress (s : t) (ips : list string) : t :=
  mk (Namespace s) (Name s) (Annotations s) (Type_ s) (ClusterIP s) (Ports s) ips.
End Service.

(** The load-balancer pod: where it runs and what its container executes. *)
Module Pod.
Record t := mk {
  Name : string;
  Namespace : string;
  Labels : gmap string string;
  NodeName : string;
  HostNetwork : bool;
  Privileged : bool;
  Image : string;
  Command : list string;
  Args : list string
}.
End Pod.

Module Secret.
Record t := mk {
  Name : string;
  Namespace : string;
  Labels : gmap string string;
  Annotations : gmap string string;
  StringData : gmap string string;
  Data : gmap string string
}.
End Secret.

(** ** Cluster API objects

    A resource is its metadata (with a non-zero deletion timestamp as
    [Deleted] and the pause annotation as [Paused]), its spec and its status.  A
    condition is its status and its reason. *)

Module CSMachine.
Record t := mk {
  Namespace : string;
  Name : string;
  UID : string;
  Labels : gmap string string;
  Finalizers : list string;
  Deleted : bool;
  Paused : bool;
  Spec : CloudSigmaMachineSpec;
  Ready : bool;
  InstanceID : string;
  InstanceState : string;
  Addresses : list Address;
  Conditions : gmap string (bool * string)
}.

Definition set_Finalizers (m : t) (fs : list string) : t :=
  mk (Namespace m) (Name m) (UID m) (Labels m) fs (Deleted m) (Paused m) (Spec m) (Ready m)
     (InstanceID m) (InstanceState m) (Addresses m) (Conditions m).
Definition set_ProviderID (m : t) (p : string) : t :=
  let s := Spec m in
  mk (Namespace m) (Name m) (UID m) (Labels m) (Finalizers m) (Deleted m) (Paused m)
     {| ProviderID := Some p; CPU := CPU s; Memory := Memory s; Disks := Disks s;
        NICs := NICs s; Tags := Tags s; Meta := Meta s |}
     (Ready m) (InstanceID m) (InstanceState m) (Addresses m) (Conditions m).
Definition set_Instance (m : t) (id state : string) : t :=
  mk (Namespace m) (Name m) (UID m) (Labels m) (Finalizers m) (Deleted m) (Paused m) (Spec m)
     (Ready m) id state (Addresses m) (Conditions m).
Definition set_Addresses (m : t) (a : list Address) : t :=
  mk (Namespace m) (Name m) (UID m) (Labels m) (Finalizers m) (Deleted m) (Paused m) (Spec m)
     (Ready m) (InstanceID m) (InstanceState m) a (Conditions m).
Definition set_Ready (m : t) (ready : bool) (cond : string) (v : bool * string) : t :=
  mk (Namespace m) (Name m) (UID m) (Labels m) (Finalizers m) (Deleted m) (Paused m) (Spec m)
     ready (InstanceID m) (InstanceState m) (Addresses m) (<[cond := v]> (Conditions m)).
End CSMachine.

(** The parts of a cluster's spec and status ([cloudsigmacluster_types.go]). *)
Record APIEndpoint := { ep_Host : string; ep_Port : Z }.

Record VLANSpec := { vlan_UUID : string; vlan_Name : string; vlan_CIDR : string }.

Record LoadBalancerSpec := { lbspec_Enabled : bool; lbspec_Type : string }.

Record ObjectReference := { ref_Name : string; ref_Namespace : string }.

Record CloudSigmaClusterSpec := {
  cluster_ControlPlaneEndpoint : APIEndpoint;
  cluster_Region : string;
  cluster_VLAN : option VLANSpec;
  cluster_LoadBalancer : option LoadBalancerSpec;
  cluster_CredentialsRef : option ObjectReference;
  cluster_UserEmail : string;
  cluster_UserRef : option ObjectReference
}.

Record NetworkStatus := { net_VLANUUID : string; net_CIDR : string }.

Record LoadBalancerStatus := { lbstatus_IP : string; lbstatus_Ready : bool }.

Record CloudSigmaClusterStatus := {
  cluster_Ready : bool;
  cluster_Network : option NetworkStatus;
  cluster_LoadBalancerStatus : option LoadBalancerStatus;
  cluster_Conditions : gmap string (bool * string);
  cluster_FailureReason : option string;
  cluster_FailureMessage : option string
}.

Module CSCluster.
Record t := mk {
  Namespace : string;
  Name : string;
  Finalizers : list string;
  Deleted : bool;
  Paused : bool;
  Spec : CloudSigmaClusterSpec;
  Status : CloudSigmaClusterStatus
}.

Definition Region (c : t) : string := cluster_Region (Spec c).
Definition VLAN (c : t) : option VLANSpec := cluster_VLAN (Spec c).
Definition UserEmail (c : t) : string := cluster_UserEmail (Spec c).
Definition UserRef (c : t) : option ObjectReference := cluster_UserRef (Spec c).
Definition Ready (c : t) : bool := cluster_Ready (Status c).
Definition Network (c : t) : option NetworkStatus := cluster_Network (Status c).

Definition set_Finalizers (c : t) (fs : list string) : t :=
  mk (Namespace c) (Name c) fs (Deleted c) (Paused c) (Spec c) (Status c).

Definition set_Status (c : t) (s : CloudSigmaClusterStatus) : t :=
  mk (Namespace c) (Name c) (Finalizers c) (Deleted c) (Paused c) (Spec c) s.

Definition GetConditions (c : t) : gmap string (bool * string) := cluster_Conditions (Status c).

Definition SetConditions (c : t) (conditions : gmap string (bool * string)) : t :=
  let s := Status c in
  set_Status c
    {| cluster_Ready := cluster_Ready s; cluster_Network := cluster_Network s;
       cluster_LoadBalancerStatus := cluster_LoadBalancerStatus s;
       cluster_Conditions := conditions; cluster_FailureReason := cluster_FailureReason s;
       cluster_FailureMessage := cluster_FailureMessage s |}.

Definition set_Network (c : t) (n : NetworkStatus) : t :=
  let s := Status c in
  set_Status c
    {| cluster_Ready := cluster_Ready s; cluster_Network := Some n;
       cluster_LoadBalancerStatus := cluster_LoadBalancerStatus s;
       cluster_Conditions := cluster_Conditions s; cluster_FailureReason := cluster_FailureReason s;
       cluster_FailureMessage := cluster_FailureMessage s |}.

Definition set_Ready (c : t) (ready : bool) : t :=
  let s := Status c in
  set_Status c
    {| cluster_Ready := ready; cluster_Network := cluster_Network s;
       cluster_LoadBalancerStatus := cluster_LoadBalancerStatus s;
       cluster_Conditions := cluster_Conditions s; cluster_FailureReason := cluster_FailureReason s;
       cluster_FailureMessage := cluster_FailureMessage s |}.

(** [conditions.MarkTrue] *)
Definition MarkTrue (c : t) (cond : string) : t :=
  SetConditions c (<[cond := (true, "")]> (GetConditions c)).
End CSCluster.

(** A cluster of a region and a user, with nothing else asked for. *)
Definition plain_cluster (region email : string) (ref : option ObjectReference) (vlan : option VLANSpec)
    : CloudSigmaClusterSpec :=
  {| cluster_ControlPlaneEndpoint := {| ep_Host := ""; ep_Port := 0 |}; cluster_Region := region;
     cluster_VLAN := vlan; cluster_LoadBalancer := None; cluster_CredentialsRef := None;
     cluster_UserEmail := email; cluster_UserRef := ref |}.

Definition fresh_status : CloudSigmaClusterStatus :=
  {| cluster_Ready := false; cluster_Network := None; cluster_LoadBalancerStatus := None;
     cluster_Conditions := ∅; cluster_FailureReason := None; cluster_FailureMessage := None |}.

(** The owning Machine and Cluster. *)
Module Machine.
Record t := mk { Namespace : string; Name : string; DataSecretName : option string }.
End Machine.

Module Cluster.
Record t := mk { Name : string; Paused : bool }.
End Cluster.

#[global] Instance Address_eq_dec : EqDecision Address.
Proof. solve_decision. Defined.
#[global] Instance Taint_eq_dec : EqDecision Taint.t.
Proof. solve_decision. Defined.
#[global] Instance Drive_eq_dec : EqDecision Drive.t.
Proof. solve_decision. Defined.
#[global] Instance ServerDrive_eq_dec : EqDecision ServerDrive.t.
Proof. solve_decision. Defined.
#[global] Instance Tag_eq_dec : EqDecision Tag.t.
Proof. solve_decision. Defined.
#[global] Instance IP_eq_dec : EqDecision IP.t.
Proof. solve_decision. Defined.
