(* ===== verification/World.v ===== *)
(** * The environment

    Everything the provider calls and does not implement, as one signature of
    calls.  The answers are left to the handler, a parameter of the theorems;
    what a theorem needs to know about a service is stated as a class of laws on
    the handler (see [TagService] in Tags.v).

    The SDK returns an object, an HTTP response that may be absent and an error:
    [SdkOk v] is a nil error, [SdkErr resp err] an error with the status code of
    the response when there is one. *)

From S2P Require Import Prelude Effects GoErrors ApiTypes.

Inductive sdk (A : Type) : Type :=
| SdkOk (v : A)
| SdkErr (resp : option Z) (err : error).
Arguments SdkOk {A} v.
Arguments SdkErr {A} resp err.

(** Credentials and location of a client of the CloudSigma SDK. *)
Inductive credentials := TokenCred (token : string) | UserPass (username password : string).
Record SdkClient := { sdk_cred : credentials; sdk_location : string }.

(** The SDK services. *)
Inductive CloudE : Type -> Type :=
| DrivesList : CloudE (sdk (list Drive.t))
| DrivesGet (uuid : string) : CloudE (sdk Drive.t)
| DrivesCreate (drives : list Drive.t) : CloudE (sdk (list Drive.t))
| DrivesClone (uuid name : string) (size : Z) : CloudE (sdk Drive.t)
| DrivesResize (uuid name media : string) (size : Z) : CloudE (sdk unit)
| DrivesDelete (uuid : string) : CloudE (sdk unit)
| ServersList : CloudE (sdk (list Server.t))
| ServersGet (uuid : string) : CloudE (sdk Server.t)
| ServersUpdate (uuid : string) (server : Server.t) : CloudE (sdk unit)
| ServersStart (uuid : string) : CloudE (sdk unit)
| ServersStop (uuid : string) : CloudE (sdk unit)
| ServersDelete (uuid : string) : CloudE (sdk unit)
| TagsList : CloudE (sdk (list Tag.t))
| TagsUpdate (uuid name : string) (resources : list string) : CloudE (sdk unit)
| TagsCreate (name : string) (resources : list string) : CloudE (sdk unit)
| IPsList : CloudE (sdk (list IP.t))
| IPsGet (uuid : string) : CloudE (sdk (option IP.t))
| VLANsGet (uuid : string) : CloudE (sdk VLAN.t)
| VLANsList : CloudE (sdk (list VLAN.t))
| ProfileGet : CloudE (sdk unit).

(** JSON documents, for the requests the load-balancer controller edits in place. *)
Inductive json : Type :=
| JNull
| JBool (b : bool)
| JNum (text : string)
| JStr (s : string)
| JArr (l : list json)
| JObj (fields : list (string * json)).

(** The outcome of one HTTP exchange: the request cannot be built, it fails on
    the way, the body of the response cannot be read, or there is a response. *)
Inductive exchange (A : Type) : Type :=
| NoRequest (err : error)
| NoResponse (err : error)
| NoBody (err : error)
| Response (a : A).
Arguments NoRequest {A} err.
Arguments NoResponse {A} err.
Arguments NoBody {A} err.
Arguments Response {A} a.

(** Direct HTTP requests: URL, bearer token and payload.  The answer is the
    transport error, or the status code and what the caller decodes from the
    body.  The answer to [GetObject] and [PutObject] is the error of making the
    request, or the one of sending it, or the status and the body; a body that is
    no JSON object decodes to no fields. *)
Inductive HttpE : Type -> Type :=
| GetIPsDetail (url token : string) : HttpE (result (result (list IP.t)))
| GetTags (url token : string) : HttpE (result (list Tag.t))
| PostTag (url token name : string) (resources : list string) : HttpE (result (Z * string))
| PutTag (url token name : string) (resources : list string) : HttpE (result (Z * string))
| GetServerJson (url token : string) : HttpE (result (result (list (string * json))))
| PutServerJson (url token : string) (server : list (string * json))
    : HttpE (result (Z * string))
| PostServer (url : string) (auth : credentials) (server : CustomServer)
    : HttpE (exchange (Z * string * result (list Server.t)))
| PutServerNICs (url : string) (auth : credentials) (nics : list CustomServerNIC)
    : HttpE (exchange (Z * string))
| GetObject (url : string) (auth : credentials)
    : HttpE (result (result (Z * string * list (string * json))))
| PutObject (url : string) (auth : credentials) (object : list (string * json))
    : HttpE (result (result (Z * string))).

(** The Kubernetes API of the tenant cluster, and the construction of its client
    from a kubeconfig file. *)
Inductive KubeE : Type -> Type :=
| LoadKubeconfig (path : string) : KubeE (result unit)
| NewTenantClient : KubeE (result unit)
| ServicesList : KubeE (result (list Service.t))
| ServicesGet (ns name : string) : KubeE (result Service.t)
| ServicesUpdateStatus (svc : Service.t) : KubeE (result unit)
| EndpointsGet (ns name : string) : KubeE (result (list (list string)))
| NodesList : KubeE (result (list Node.t))
| NodesUpdate (node : Node.t) : KubeE (result unit)
| NodesUpdateStatus (node : Node.t) : KubeE (result unit)
| NodesDelete (name : string) : KubeE (result unit)
| PodsGet (name : string) : KubeE (result unit)
| PodsCreate (pod : Pod.t) : KubeE (result unit)
| PodsDelete (name : string) (grace : option Z) : KubeE (result unit)
| SecretsGet (ns name : string) : KubeE (result Secret.t)
| SecretsCreate (s : Secret.t) : KubeE (result unit)
| SecretsUpdate (s : Secret.t) : KubeE (result unit)
| NamespacesGet (name : string) : KubeE (result unit)
| NamespacesCreate (name : string) (labels : gmap string string) : KubeE (result unit).

(** The identity provider: the token endpoint and the impersonation endpoint.  A
    response has a status code, a body and what decoding the body gives: the
    access token and its lifetime in seconds. *)
Record http_token := {
  tk_status : Z;
  tk_body : string;
  tk_decoded : result (string * Z)
}.

Inductive OAuthE : Type -> Type :=
| PostToken (url : string) (form : list (string * string)) (bearer : option string)
    : OAuthE (exchange http_token)
| PostImpersonate (url bearer user_email subject_token : string) : OAuthE (exchange http_token).

(** The Go runtime: clock (nanoseconds), map iteration order, sleeping, whether
    the context is cancelled, tickers and named mutexes.  [TickOrDone] and
    [AfterOrDone] are the [select] on a ticker, or on [time.After], and the
    context: nil for a tick, or the context's error. *)
Inductive GoE : Type -> Type :=
| Now : GoE Z
| MapSeed : GoE nat
| Sleep (ns : Z) : GoE unit
| CtxErr : GoE (option error)
| NewTicker (period : Z) : GoE unit
| TickOrDone : GoE (option error)
| AfterOrDone (ns : Z) : GoE (option error)
| Lock (mutex : string) : GoE unit
| Unlock (mutex : string) : GoE unit.

(** What [auth.ImpersonationClient] offers to the controllers (Auth.v). *)
Inductive TokenE : Type -> Type :=
| GetImpersonatedToken (userEmail region : string) : TokenE (result string).

(** The management cluster, as the Cluster API controllers use it.  An update
    answers the object as stored, which replaces the one in memory.  The last calls
    are those of controller-runtime that set up a manager: [SetupController] carries
    the kind of the controller and the authentication settings of its reconciler. *)
Record AuthSettings := {
  as_LegacyCredentialsEnabled : bool;
  as_Username : string;
  as_Password : string;
  as_Region : string;
  as_Impersonation : bool
}.

Inductive CapiE : Type -> Type :=
| CSMachineGet (ns name : string) : CapiE (result CSMachine.t)
| CSMachineUpdate (m : CSMachine.t) : CapiE (result CSMachine.t)
| CSMachineStatusUpdate (m : CSMachine.t) : CapiE (result CSMachine.t)
| GetOwnerMachine (m : CSMachine.t) : CapiE (result (option Machine.t))
| GetClusterFromMetadata (m : Machine.t) : CapiE (result Cluster.t)
| CSClusterGet (ns name : string) : CapiE (result CSCluster.t)
| CSClusterUpdate (c : CSCluster.t) : CapiE (result CSCluster.t)
| CSClusterStatusUpdate (c : CSCluster.t) : CapiE (result CSCluster.t)
| GetOwnerCluster (c : CSCluster.t) : CapiE (result (option Cluster.t))
| SecretData (ns name : string) : CapiE (result (gmap string string))
| GetConfig : CapiE (result unit)
| NewManager (metricsAddr probeAddr : string) (leaderElection : bool) : CapiE (result unit)
| SetupController (kind : string) (settings : AuthSettings) : CapiE (result unit)
| AddCheck (name : string) : CapiE (result unit)
| ManagerStart : CapiE (result unit).

(** The operating system of a node, as the CSI node service uses it: files, the
    mount table ([k8s.io/mount-utils]) and commands.  A stat tells whether the file
    is a device, [Lstat] answers the modification time, [Blkid] the output of
    [blkid -p -s TYPE -o value], [Run] the output and the error of a command.
    [Listen] and [Serve] open a socket and serve the gRPC services named on it. *)
Record MountPoint := { mp_Device : string; mp_Path : string }.

Inductive stat := StatOk (device : bool) | StatNotExist | StatErr (err : error).

Inductive blkid := BlkidOk (output : string) | BlkidExit (exit_code : Z) (err : error) | BlkidErr (err : error).

Inductive removal := Removed | RemoveNotExist | RemoveErr (err : error).

Record statfs := { sf_Blocks : Z; sf_Bavail : Z; sf_Bsize : Z; sf_Files : Z; sf_Ffree : Z }.

Inductive OsE : Type -> Type :=
| Stat (path : string) : OsE stat
| Lstat (path : string) : OsE (result Z)
| EvalSymlinks (path : string) : OsE (result string)
| Glob (pattern : string) : OsE (result (list string))
| MkdirAll (path : string) : OsE (result unit)
| CreateFile (path : string) : OsE (result unit)
| RemoveAll (path : string) : OsE (result unit)
| Statfs (path : string) : OsE (result statfs)
| MountList : OsE (result (list MountPoint))
| Mount (source target fstype : string) (options : list string) : OsE (result unit)
| Unmount (target : string) : OsE (result unit)
| Blkid (device : string) : OsE blkid
| Run (argv : list string) : OsE (string * option error)
| ReadFile (path : string) : OsE (result string)
| RemoveFile (path : string) : OsE removal
| Listen (network address : string) : OsE (result unit)
| Serve (services : list string) : OsE (result unit).

Inductive Eff (X : Type) : Type :=
| ECloud (client : SdkClient) (e : CloudE X)
| EHttp (e : HttpE X)
| EKube (e : KubeE X)
| EOAuth (e : OAuthE X)
| EToken (e : TokenE X)
| EGo (e : GoE X)
| ECapi (e : CapiE X)
| EOs (e : OsE X).
Arguments ECloud {X} client e.
Arguments EHttp {X} e.
Arguments EKube {X} e.
Arguments EOAuth {X} e.
Arguments EToken {X} e.
Arguments EGo {X} e.
Arguments ECapi {X} e.
Arguments EOs {X} e.

Abbreviation go := (prog Eff).

Definition cloud {X} (client : SdkClient) (e : CloudE X) : go X := call (ECloud client e).
Definition http {X} (e : HttpE X) : go X := call (EHttp e).
Definition kube {X} (e : KubeE X) : go X := call (EKube e).
Definition oauth {X} (e : OAuthE X) : go X := call (EOAuth e).
Definition token {X} (e : TokenE X) : go X := call (EToken e).
Definition golang {X} (e : GoE X) : go X := call (EGo e).
Definition capi {X} (e : CapiE X) : go X := call (ECapi e).
Definition os {X} (e : OsE X) : go X := call (EOs e).

(** [for k, v := range m]: the entries in an order the runtime chooses. *)
Definition range_map {V} (m : gmap string V) : go (list (string * V)) :=
  let* seed := golang MapSeed in Ret (permute seed (map_to_list m)).

(** An environment in which every request fails: concrete environments answer
    the requests they serve and leave the others to this one. *)
Definition unavailable : error := ErrNew "service unavailable".

Definition deaf_cloud {X} (e : CloudE X) : X :=
  match e with
  | DrivesList => SdkErr None unavailable
  | DrivesGet _ => SdkErr None unavailable
  | DrivesCreate _ => SdkErr None unavailable
  | DrivesClone _ _ _ => SdkErr None unavailable
  | DrivesResize _ _ _ _ => SdkErr None unavailable
  | DrivesDelete _ => SdkErr None unavailable
  | ServersList => SdkErr None unavailable
  | ServersGet _ => SdkErr None unavailable
  | ServersUpdate _ _ => SdkErr None unavailable
  | ServersStart _ => SdkErr None unavailable
  | ServersStop _ => SdkErr None unavailable
  | ServersDelete _ => SdkErr None unavailable
  | TagsList => SdkErr None unavailable
  | TagsUpdate _ _ _ => SdkErr None unavailable
  | TagsCreate _ _ => SdkErr None unavailable
  | IPsList => SdkErr None unavailable
  | IPsGet _ => SdkErr None unavailable
  | VLANsGet _ => SdkErr None unavailable
  | VLANsList => SdkErr None unavailable
  | ProfileGet => SdkErr None unavailable
  end.

Definition deaf_http {X} (e : HttpE X) : X :=
  match e with
  | GetIPsDetail _ _ => Err unavailable
  | GetTags _ _ => Err unavailable
  | PostTag _ _ _ _ => Err unavailable
  | PutTag _ _ _ _ => Err unavailable
  | GetServerJson _ _ => Err unavailable
  | PutServerJson _ _ _ => Err unavailable
  | PostServer _ _ _ => NoResponse unavailable
  | PutServerNICs _ _ _ => NoResponse unavailable
  | GetObject _ _ => Ok (Err unavailable)
  | PutObject _ _ _ => Ok (Err unavailable)
  end.

Definition deaf_kube {X} (e : KubeE X) : X :=
  match e with
  | LoadKubeconfig _ => Err unavailable
  | NewTenantClient => Err unavailable
  | ServicesList => Err unavailable
  | ServicesGet _ _ => Err unavailable
  | ServicesUpdateStatus _ => Err unavailable
  | EndpointsGet _ _ => Err unavailable
  | NodesList => Err unavailable
  | NodesUpdate _ => Err unavailable
  | NodesUpdateStatus _ => Err unavailable
  | NodesDelete _ => Err unavailable
  | PodsGet _ => Err unavailable
  | PodsCreate _ => Err unavailable
  | PodsDelete _ _ => Err unavailable
  | SecretsGet _ _ => Err unavailable
  | SecretsCreate _ => Err unavailable
  | SecretsUpdate _ => Err unavailable
  | NamespacesGet _ => Err unavailable
  | NamespacesCreate _ _ => Err unavailable
  end.

Definition deaf_oauth {X} (e : OAuthE X) : X :=
  match e with
  | PostToken _ _ _ => NoResponse unavailable
  | PostImpersonate _ _ _ _ => NoResponse unavailable
  end.

Definition deaf_token {X} (e : TokenE X) : X :=
  match e with GetImpersonatedToken _ _ => Err unavailable end.

Definition idle_golang {X} (e : GoE X) : X :=
  match e with
  | Now => 0%Z
  | MapSeed => O
  | Sleep _ => tt
  | CtxErr => None
  | NewTicker _ => tt
  | TickOrDone => None
  | AfterOrDone _ => None
  | Lock _ => tt
  | Unlock _ => tt
  end.

Definition deaf_capi {X} (e : CapiE X) : X :=
  match e with
  | CSMachineGet _ _ => Err unavailable
  | CSMachineUpdate _ => Err unavailable
  | CSMachineStatusUpdate _ => Err unavailable
  | GetOwnerMachine _ => Err unavailable
  | GetClusterFromMetadata _ => Err unavailable
  | CSClusterGet _ _ => Err unavailable
  | CSClusterUpdate _ => Err unavailable
  | CSClusterStatusUpdate _ => Err unavailable
  | GetOwnerCluster _ => Err unavailable
  | SecretData _ _ => Err unavailable
  | GetConfig => Err unavailable
  | NewManager _ _ _ => Err unavailable
  | SetupController _ _ => Err unavailable
  | AddCheck _ => Err unavailable
  | ManagerStart => Err unavailable
  end.

Definition deaf_os {X} (e : OsE X) : X :=
  match e with
  | Stat _ => StatNotExist
  | Lstat _ => Err unavailable
  | EvalSymlinks _ => Err unavailable
  | Glob _ => Err unavailable
  | MkdirAll _ => Err unavailable
  | CreateFile _ => Err unavailable
  | RemoveAll _ => Err unavailable
  | Statfs _ => Err unavailable
  | MountList => Err unavailable
  | Mount _ _ _ _ => Err unavailable
  | Unmount _ => Err unavailable
  | Blkid _ => BlkidErr unavailable
  | Run _ => ("", Some unavailable)
  | ReadFile _ => Err unavailable
  | RemoveFile _ => RemoveErr unavailable
  | Listen _ _ => Err unavailable
  | Serve _ => Err unavailable
  end.

Definition deaf {X} (e : Eff X) : X :=
  match e with
  | ECloud _ e => deaf_cloud e
  | EHttp e => deaf_http e
  | EKube e => deaf_kube e
  | EOAuth e => deaf_oauth e
  | EToken e => deaf_token e
  | EGo e => idle_golang e
  | ECapi e => deaf_capi e
  | EOs e => deaf_os e
  end.

(** An environment that answers each signature separately. *)
Definition handle {W}
    (hc : forall X, SdkClient -> CloudE X -> W -> X * W)
    (hh : forall X, HttpE X -> W -> X * W)
    (hk : forall X, KubeE X -> W -> X * W)
    (ho : forall X, OAuthE X -> W -> X * W)
    (ht : forall X, TokenE X -> W -> X * W)
    (hg : forall X, GoE X -> W -> X * W) : handler Eff W :=
  fun X e => match e with
             | ECloud c e => hc X c e
             | EHttp e => hh X e
             | EKube e => hk X e
             | EOAuth e => ho X e
             | EToken e => ht X e
             | EGo e => hg X e
             | ECapi e => fun w => (deaf_capi e, w)
             | EOs e => fun w => (deaf_os e, w)
             end.

(** One step of a weakest precondition over a call. *)
Lemma wp_eff {G A X} (I : iface Eff G) (e : Eff X) (k : X -> go A) Q g :
  i_pre I e g -> (forall x g', i_post I e g x g' -> wp I (k x) Q g') ->
  wp I (let* x := call e in k x) Q g.
Proof. apply wp_call. Qed.

Lemma wp_eff0 {G X} (I : iface Eff G) (e : Eff X) Q g :
  i_pre I e g -> (forall x g', i_post I e g x g' -> Q (Done x) g') -> wp I (call e) Q g.
Proof. done. Qed.

(** Execute the call at the head of the program: its answer, and what the
    interface says of it. *)
Ltac wp_call x H :=
  unfold cloud, http, kube, oauth, token, golang, capi, os;
  lazymatch goal with
  | |- wp _ (bind (call _) _) _ _ => apply wp_eff
  | |- wp _ (call _) _ _ => apply wp_eff0
  end;
  [try exact Logic.I | intros x ? H; cbn [i_post anyI topI] in H].

(** Go through a program whose calls the interface leaves unconstrained: every
    answer, every branch. *)
Ltac wp_step :=
  unfold cloud, http, kube, oauth, token, golang, capi, os;
  lazymatch goal with
  | |- wp _ (bind (call _) _) _ _ => apply wp_eff; [exact Logic.I|intros ? ? ->]
  | |- wp _ (call _) _ _ => apply wp_eff0; [exact Logic.I|intros ? ? ->]
  | |- wp _ (Ret _) _ _ => apply wp_ret
  | |- wp _ (Panic _) _ _ => change (wp ?I (Panic ?y) ?Q ?g) with (Q (Panicked y) g)
  | |- wp _ (bind (Ret ?a) ?f) _ _ => change (bind (Ret a) f) with (f a); cbv beta
  | |- wp _ (bind _ _) _ _ => apply wp_bind
  | |- wp _ (if ?b then _ else _) _ _ => destruct b eqn:?
  | |- wp _ (match ?r with _ => _ end) _ _ => destruct r eqn:?
  | |- wp _ (let '(_, _) := ?r in _) _ _ => destruct r eqn:?
  end.
