(* ===== verification/Concurrency.v ===== *)
(** * Overlapping executions

    The gRPC server of the CSI driver runs every request in a goroutine of its
    own.  A [pool] is a list of such goroutines, each the program that is still to
    run, over one environment and the set of mutexes that are held.  A step of the
    pool is one call of one goroutine: [Lock] only goes on when the mutex is free,
    every other call is answered by the handler.  A request that arrives late is a
    goroutine that has not been scheduled yet, so a pool that holds all requests
    from the start has every order of arrival among its executions.

    [cwp] is the proof rule: a weakest precondition in the rely/guarantee style,
    under an invariant on the ghost state, with the mutexes the goroutine holds.
    [pool_sound] turns proofs about single goroutines into an invariant of every
    interleaving, [pool_sn] and [pool_progress] show that all of them end. *)

From S2P Require Import Prelude Effects GoErrors World.

(** The calls on mutexes, with the answer they give. *)
Inductive mutex_op := MLock (mutex : string) | MUnlock (mutex : string).

Definition go_mutex {X} (e : GoE X) : option (mutex_op * X) :=
  match e in GoE Y return option (mutex_op * Y) with
  | Lock m => Some (MLock m, tt)
  | Unlock m => Some (MUnlock m, tt)
  | _ => None
  end.

Definition mutex_call {X} (e : Eff X) : option (mutex_op * X) :=
  match e with EGo ge => go_mutex ge | _ => None end.

(** Unlocking a mutex that is not held is a fatal error of the runtime. *)
Definition thread_step {W R} (h : handler Eff W) (p : go R) (held : gset string) (w : W)
    : option (go R * gset string * W) :=
  match p with
  | Ret _ | Panic _ => None
  | Call e k =>
      match mutex_call e with
      | Some (MLock m, x) =>
          if decide (m ∈ held) then None else Some (k x, {[m]} ∪ held, w)
      | Some (MUnlock m, x) =>
          if decide (m ∈ held) then Some (k x, held ∖ {[m]}, w)
          else Some (Panic "sync: unlock of unlocked mutex", held, w)
      | None => let '(x, w') := h _ e w in Some (k x, held, w')
      end
  end.

Record pool (W R : Type) := Pool {
  threads : list (go R);
  held : gset string;
  world : W
}.
Arguments Pool {W R} threads held world.
Arguments threads {W R} p.
Arguments held {W R} p.
Arguments world {W R} p.

Inductive pool_step {W R} (h : handler Eff W) : pool W R -> pool W R -> Prop :=
| pool_step_thread i p p' ts l l' w w' :
    ts !! i = Some p -> thread_step h p l w = Some (p', l', w') ->
    pool_step h (Pool ts l w) (Pool (<[i := p']> ts) l' w').

(** The pool along a schedule, a list of goroutines to step; one that cannot step
    is passed over. *)
Fixpoint run_schedule {W R} (h : handler Eff W) (sched : list nat) (c : pool W R) : pool W R :=
  match sched with
  | [] => c
  | i :: sched' =>
      run_schedule h sched'
        match threads c !! i with
        | Some p =>
            match thread_step h p (held c) (world c) with
            | Some (p', l', w') => Pool (<[i := p']> (threads c)) l' w'
            | None => c
            end
        | None => c
        end
  end.

Lemma run_schedule_steps {W R} (h : handler Eff W) sched (c : pool W R) :
  rtc (pool_step h) c (run_schedule h sched c).
Proof.
  revert c. induction sched as [|i sched IH]; intros c; [constructor|]. simpl.
  destruct (threads c !! i) as [p|] eqn:Hi; [|apply IH].
  destruct (thread_step h p (held c) (world c)) as [[[p' l'] w']|] eqn:Hp; [|apply IH].
  eapply rtc_l; [|apply IH]. destruct c. by econstructor.
Qed.

(** ** Who holds which mutex *)

(** [mines] are the mutexes each goroutine of the pool holds. *)
Definition owned {W R} (c : pool W R) (mines : list (gset string)) : Prop :=
  length mines = length (threads c) /\ ⋃ mines ⊆ held c /\
  forall i j mi mj, i <> j -> mines !! i = Some mi -> mines !! j = Some mj -> mi ## mj.

Lemma elem_of_union_lookup (l : list (gset string)) i m x :
  l !! i = Some m -> x ∈ m -> x ∈ ⋃ l.
Proof. intros Hi Hx. apply elem_of_union_list. exists m. split; [|done]. by eapply list_elem_of_lookup_2. Qed.

(** Goroutine [i] trades its mutexes [mi] for [mi']. *)
Lemma owned_update {W R} (ts : list (go R)) l (w w' : W) mines i p p' mi mi' l' :
  owned (Pool ts l w) mines -> l ⊆ ⋃ mines ->
  ts !! i = Some p -> mines !! i = Some mi ->
  (forall j mj, i <> j -> mines !! j = Some mj -> mi' ## mj) ->
  l' ≡ mi' ∪ (l ∖ mi) ->
  owned (Pool (<[i := p']> ts) l' w') (<[i := mi']> mines) /\ l' ⊆ ⋃ (<[i := mi']> mines).
Proof.
  intros (Hlen & Hin & Hdis) Hall Hi Hmi Hfresh Hl. cbn in *.
  assert (Hlt : (i < length mines)%nat) by (by eapply lookup_lt_Some).
  assert (Hlook : forall j mj, <[i := mi']> mines !! j = Some mj ->
            (i = j /\ mj = mi') \/ (i <> j /\ mines !! j = Some mj)).
  { intros j mj Hj. destruct (decide (i = j)) as [<-|Hne].
    - rewrite list_lookup_insert_eq in Hj by done. left. by simplify_eq.
    - rewrite list_lookup_insert_ne in Hj by done. by right. }
  split; [split_and!; cbn|].
  - by rewrite !length_insert.
  - intros x (m & Hm & Hx)%elem_of_union_list. apply list_elem_of_lookup in Hm as [j Hj].
    destruct (Hlook j m Hj) as [[_ ->]|[Hne Hj']]; [set_solver|].
    pose proof (Hin x (elem_of_union_lookup _ _ _ _ Hj' Hx)).
    pose proof (Hdis i j mi m Hne Hmi Hj'). set_solver.
  - intros j1 j2 m1 m2 Hne H1 H2.
    destruct (Hlook _ _ H1) as [[<- ->]|[Hn1 H1']], (Hlook _ _ H2) as [[E ->]|[Hn2 H2']];
      [done|by apply (Hfresh j2)|symmetry; by apply (Hfresh j1)|by apply (Hdis j1 j2)].
  - intros x Hx. rewrite Hl in Hx. apply elem_of_union in Hx as [Hx|[Hx Hnx]%elem_of_difference].
    + eapply elem_of_union_lookup; [by apply list_lookup_insert_eq|done].
    + apply Hall in Hx as (m & Hm & Hx)%elem_of_union_list.
      apply list_elem_of_lookup in Hm as [j Hj].
      destruct (decide (i = j)) as [<-|Hne]; [by simplify_eq|].
      eapply (elem_of_union_lookup _ j); [|done]. by rewrite list_lookup_insert_ne.
Qed.

(** ** Weakest preconditions under interference *)

Section cwp.
Context {G : Type} (I : iface Eff G) (Inv : G -> Prop)
        (rely guar : gset string -> G -> G -> Prop).

(** A goroutine that holds the mutexes [mine]: before each of its steps the others
    have changed the state as [rely mine] allows; its own changes are in
    [guar mine] and keep [Inv].  A mutex is only awaited while none is held. *)
Fixpoint cwp {R} (p : go R) (Q : R -> gset string -> G -> Prop) (mine : gset string) (g : G)
    : Prop :=
  forall g1, rely mine g g1 -> Inv g1 ->
  match p with
  | Ret a => Q a mine g1
  | Panic _ => False
  | Call e k =>
      match mutex_call e with
      | Some (MLock m, x) => mine = ∅ /\ cwp (k x) Q {[m]} g1
      | Some (MUnlock m, x) => m ∈ mine /\ cwp (k x) Q (mine ∖ {[m]}) g1
      | None => i_pre I e g1 /\ forall x g2, i_post I e g1 x g2 ->
                  guar mine g1 g2 /\ Inv g2 /\ cwp (k x) Q mine g2
      end
  end.

Context (rely_refl : forall mine g, rely mine g g)
        (rely_trans : forall mine g1 g2 g3, rely mine g1 g2 -> rely mine g2 g3 -> rely mine g1 g3)
        (guar_rely : forall m1 m2 g g', m1 ## m2 -> guar m1 g g' -> rely m2 g g').

(** The state at hand may be taken for the one after the interference. *)
Lemma cwp_stable {R} (p : go R) Q mine g g' :
  rely mine g g' -> cwp p Q mine g -> cwp p Q mine g'.
Proof using rely_trans.
  intros Hr Hp. destruct p; intros g1 H1; apply (Hp g1); by eapply rely_trans.
Qed.

Lemma cwp_call {R X} (e : Eff X) (k : X -> go R) Q mine g :
  mutex_call e = None ->
  (forall g1, rely mine g g1 -> Inv g1 -> i_pre I e g1 /\
     forall x g2, i_post I e g1 x g2 -> guar mine g1 g2 /\ Inv g2 /\ cwp (k x) Q mine g2) ->
  cwp (let* x := call e in k x) Q mine g.
Proof.
  intros He Hk. change (let* x := call e in k x) with (Call e k). intros g1 Hr Hi. cbn.
  rewrite He. by apply Hk.
Qed.

Lemma cwp_lock {R} m (k : unit -> go R) Q g :
  (forall g1, rely ∅ g g1 -> Inv g1 -> cwp (k tt) Q {[m]} g1) ->
  cwp (let* x := golang (Lock m) in k x) Q ∅ g.
Proof.
  intros Hk. change (let* x := golang (Lock m) in k x) with (Call (EGo (Lock m)) k).
  intros g1 Hr Hi. cbn. split; [done|by apply Hk].
Qed.

Lemma cwp_unlock {R} m (k : unit -> go R) Q mine g :
  m ∈ mine -> (forall g1, rely mine g g1 -> Inv g1 -> cwp (k tt) Q (mine ∖ {[m]}) g1) ->
  cwp (let* x := golang (Unlock m) in k x) Q mine g.
Proof.
  intros Hm Hk. change (let* x := golang (Unlock m) in k x) with (Call (EGo (Unlock m)) k).
  intros g1 Hr Hi. cbn. split; [done|by apply Hk].
Qed.

Lemma cwp_ret {R} (a : R) (Q : R -> gset string -> G -> Prop) mine g :
  (forall g1, rely mine g g1 -> Inv g1 -> Q a mine g1) -> cwp (Ret a) Q mine g.
Proof. done. Qed.

Lemma cwp_mono {R} (p : go R) (Q Q' : R -> gset string -> G -> Prop) mine g :
  (forall a mine' g', Q a mine' g' -> Q' a mine' g') -> cwp p Q mine g -> cwp p Q' mine g.
Proof.
  intros HQ. revert mine g. induction p as [a|why|X e k IH]; intros mine g Hp g1 Hr Hi;
    specialize (Hp g1 Hr Hi); cbn in Hp |- *; [by apply HQ|done|].
  destruct (mutex_call e) as [[[m|m] x]|].
  - destruct Hp as [Hm Hp]. split; [done|]. by apply IH.
  - destruct Hp as [Hm Hp]. split; [done|]. by apply IH.
  - destruct Hp as [Hpre Hp]. split; [done|]. intros x g2 Hx.
    destruct (Hp x g2 Hx) as (Hg & Hi2 & Hk). split_and!; [done|done|]. by apply IH.
Qed.

Lemma cwp_bind {A R} (p : go A) (f : A -> go R) Q mine g :
  cwp p (fun a mine' g' => cwp (f a) Q mine' g') mine g -> cwp (let* x := p in f x) Q mine g.
Proof using rely_refl.
  revert mine g. induction p as [a|why|X e k IH]; intros mine g Hp.
  - change (cwp (f a) Q mine g).
    assert (Hpost : forall g1, rely mine g g1 -> Inv g1 -> cwp (f a) Q mine g1) by exact Hp.
    destruct (f a); intros g1 Hr Hi; exact (Hpost g1 Hr Hi g1 (rely_refl _ _) Hi).
  - intros g1 Hr Hi. exact (Hp g1 Hr Hi).
  - intros g1 Hr Hi. specialize (Hp g1 Hr Hi). cbn in Hp |- *.
    destruct (mutex_call e) as [[[m|m] x]|].
    + destruct Hp as [Hm Hp]. split; [done|]. by apply IH.
    + destruct Hp as [Hm Hp]. split; [done|]. by apply IH.
    + destruct Hp as [Hpre Hp]. split; [done|]. intros x g2 Hx.
      destruct (Hp x g2 Hx) as (Hg & Hi2 & Hk). split_and!; [done|done|]. by apply IH.
Qed.

(** The loop rules: an invariant on the elements still to come, under which the
    mutexes held stay the same. *)
Lemma cwp_for_range {A S R} (LInv : list A -> S -> G -> Prop) (l : list A) s
    (body : A -> S -> go (ctl S R)) (Q : S + R -> gset string -> G -> Prop) mine g :
  LInv l s g ->
  (forall x l' s' g', LInv (x :: l') s' g' ->
     cwp (body x s') (fun c mine' g'' => mine' = mine /\
       match c with
       | Next s'' => LInv l' s'' g''
       | Break s'' => cwp (Ret (inl s'')) Q mine g''
       | Return r => cwp (Ret (inr r)) Q mine g''
       end) mine g') ->
  (forall s' g', LInv [] s' g' -> cwp (Ret (inl s')) Q mine g') ->
  cwp (for_range l s body) Q mine g.
Proof using rely_refl.
  intros HI Hbody Hdone. revert s g HI. induction l as [|x l IH]; intros s g HI; [by apply Hdone|].
  apply cwp_bind. eapply cwp_mono; [|by apply Hbody].
  intros [s'|s'|r] mine' g' [-> Hc]; [by apply IH|exact Hc..].
Qed.

Lemma cwp_for_each {A S} (LInv : list A -> S -> G -> Prop) (l : list A) s
    (body : A -> S -> go S) (Q : S -> gset string -> G -> Prop) mine g :
  LInv l s g ->
  (forall x l' s' g', LInv (x :: l') s' g' ->
     cwp (body x s') (fun s'' mine' g'' => mine' = mine /\ LInv l' s'' g'') mine g') ->
  (forall s' g', LInv [] s' g' -> cwp (Ret s') Q mine g') ->
  cwp (for_each l s body) Q mine g.
Proof using rely_refl.
  intros HI Hbody Hdone. revert s g HI. induction l as [|x l IH]; intros s g HI; [by apply Hdone|].
  apply cwp_bind. eapply cwp_mono; [|by apply Hbody]. intros s' mine' g' [-> Hs]. by apply IH.
Qed.

(** A program whose calls are all allowed and guaranteed, and that touches no
    mutex, keeps what they and the others keep. *)
Lemma cwp_only {R} (S : forall X, Eff X -> Prop) (P : G -> Prop) (p : go R) mine g :
  (forall g1 g2, P g1 -> rely mine g1 g2 -> P g2) ->
  (forall X (e : Eff X), S X e -> mutex_call e = None /\ forall g1, Inv g1 -> P g1 ->
     i_pre I e g1 /\ forall x g2, i_post I e g1 x g2 -> guar mine g1 g2 /\ Inv g2 /\ P g2) ->
  only S p -> returns p -> P g -> cwp p (fun _ mine' g' => mine' = mine /\ P g') mine g.
Proof using.
  intros Hrely HS. unfold only, quiet. revert g.
  induction p as [a|why|X e k IH]; intros g Ho Hr Hg g1 Hg1 Hi; [by eauto|done|].
  assert (HP : P g1) by eauto.
  destruct Ho as [He Ho], Hr as [_ Hr]. cbn. destruct (HS X e He) as [-> Hcall].
  destruct (Hcall g1 Hi HP) as [Hpre Hpost]. split; [done|]. intros x g2 Hx.
  destruct (Hpost x g2 Hx) as (Hg2 & Hi2 & HP2). split_and!; [done|done|].
  apply IH; [by apply (Ho x tt)|by apply (Hr x tt)|done].
Qed.

(** ** Soundness *)

(** Every goroutine is proved from here on, and every mutex has a holder. *)
Definition pool_ok {W R} (Rel : W -> G -> Prop) (Q : nat -> R -> gset string -> G -> Prop)
    (g0 : G) (c : pool W R) (mines : list (gset string)) (g : G) : Prop :=
  owned c mines /\ held c ⊆ ⋃ mines /\ Rel (world c) g /\ Inv g /\
  rtc (fun g g' => exists mine, guar mine g g') g0 g /\
  forall i p mine, threads c !! i = Some p -> mines !! i = Some mine -> cwp p (Q i) mine g.

Lemma pool_ok_step {W R} (h : handler Eff W) (Rel : W -> G -> Prop)
    (Q : nat -> R -> gset string -> G -> Prop) g0 c c' mines g :
  implements h Rel I -> pool_step h c c' -> pool_ok Rel Q g0 c mines g ->
  exists mines' g', pool_ok Rel Q g0 c' mines' g'.
Proof using rely_refl rely_trans guar_rely.
  intros Hh Hstep. destruct Hstep as [i p p' ts l l' w w' Hi Hp].
  intros (Hown & Hall & HR & HI & Hsteps & Hcwp).
  assert (exists mi, mines !! i = Some mi) as [mi Hmi].
  { apply lookup_lt_is_Some. destruct Hown as [-> _]. by eapply lookup_lt_Some. }
  pose proof (Hcwp i p mi Hi Hmi) as Hpi.
  assert (Hothers : forall j mj, i <> j -> mines !! j = Some mj -> mi ## mj).
  { intros j mj Hne Hj. by apply (proj2 (proj2 Hown) i j). }
  assert (Hmine : mi ⊆ l).
  { intros x Hx. apply (proj1 (proj2 Hown)). by eapply elem_of_union_lookup. }
  (* what is left to show once the goroutine has traded its mutexes *)
  assert (Hclose : forall mi' l1 w1 g1,
    (forall j mj, i <> j -> mines !! j = Some mj -> mi' ## mj) -> l1 ≡ mi' ∪ (l ∖ mi) ->
    Rel w1 g1 -> Inv g1 -> rtc (fun g g' => exists mine, guar mine g g') g g1 ->
    (forall m2, mi ## m2 -> rely m2 g g1) -> cwp p' (Q i) mi' g1 ->
    exists mines' g', pool_ok Rel Q g0 (Pool (<[i := p']> ts) l1 w1) mines' g').
  { intros mi' l1 w1 g1 Hd Hl1 HR1 HI1 Hs1 Hrel Hp1. exists (<[i := mi']> mines), g1.
    destruct (owned_update ts l w w1 mines i p p' mi mi' l1 Hown Hall Hi Hmi Hd Hl1) as [Ho Ha].
    split_and!; [done|done|done|done|by etrans|]. intros j pj mj Hpj Hmj.
    cbn in Hpj. destruct (decide (i = j)) as [<-|Hne].
    - rewrite list_lookup_insert_eq in Hpj by (by eapply lookup_lt_Some).
      rewrite list_lookup_insert_eq in Hmj by (by eapply lookup_lt_Some). by simplify_eq.
    - rewrite list_lookup_insert_ne in Hpj by done. rewrite list_lookup_insert_ne in Hmj by done.
      eapply cwp_stable; [|by eapply Hcwp]. apply Hrel. by eapply Hothers. }
  destruct p as [a|why|X e k]; [done..|]. cbn in Hp.
  specialize (Hpi g (rely_refl _ _) HI). cbn in Hpi.
  destruct (mutex_call e) as [[[m|m] x]|].
  - destruct (decide _) as [|Hfree]; [done|]. simplify_eq. destruct Hpi as [-> Hk].
    eapply (Hclose {[m]}); [| |done|done|constructor|done|done].
    + intros j mj Hne Hj x' Hx' Hx''. apply Hfree. apply elem_of_singleton in Hx' as ->.
      apply (proj1 (proj2 Hown)). by eapply elem_of_union_lookup.
    + clear. set_solver.
  - destruct Hpi as [Hm Hk]. rewrite decide_True in Hp by (by apply Hmine). simplify_eq.
    eapply (Hclose (mi ∖ {[m]})); [| |done|done|constructor|done|done].
    + intros j mj Hne Hj. pose proof (Hothers j mj Hne Hj) as Hd. clear -Hd. set_solver.
    + clear -Hm Hmine. intros x'. rewrite elem_of_union, !elem_of_difference, elem_of_singleton.
      destruct (decide (x' ∈ mi)); naive_solver.
  - destruct Hpi as [Hpre Hk]. destruct (Hh X e w g HR Hpre) as (g' & Hpost & HR').
    destruct (h X e w) as [x w1]. cbn in *. simplify_eq.
    destruct (Hk x g' Hpost) as (Hg & HI' & Hp').
    eapply (Hclose mi); [|clear -Hmine; intros x'; destruct (decide (x' ∈ mi)); set_solver|done|done|apply rtc_once; by exists mi| |done].
    + intros j mj Hne Hj. by eapply Hothers.
    + intros m2 Hm2. by eapply guar_rely.
Qed.

(** Goroutines proved one by one run together: in every pool they reach, each one
    is proved from there on, and the state has changed by guaranteed steps. *)
Theorem pool_sound {W R} (h : handler Eff W) (Rel : W -> G -> Prop)
    (Q : nat -> R -> gset string -> G -> Prop) ts w g c :
  implements h Rel I -> Rel w g -> Inv g ->
  (forall i p, ts !! i = Some p -> cwp p (Q i) ∅ g) ->
  rtc (pool_step h) (Pool ts ∅ w) c ->
  exists mines g', pool_ok Rel Q g c mines g'.
Proof using rely_refl rely_trans guar_rely.
  intros Hh HR HI Hts Hsteps.
  assert (Hinit : exists mines g', pool_ok Rel Q g (Pool ts ∅ w) mines g').
  { exists (replicate (length ts) ∅), g.
    assert (Hempty : forall i mi, replicate (length ts) (∅ : gset string) !! i = Some mi -> mi = ∅)
      by (intros i mi [-> _]%lookup_replicate; done).
    split_and!; [split_and!| |done|done|constructor|]; cbn.
    - apply length_replicate.
    - intros x (m & Hm & Hx)%elem_of_union_list. apply list_elem_of_lookup in Hm as [j Hj].
      by rewrite (Hempty _ _ Hj) in Hx.
    - intros i j mi mj _ Hi _. rewrite (Hempty _ _ Hi). set_solver.
    - set_solver.
    - intros i p mine Hi Hmi. rewrite (Hempty _ _ Hmi). by apply Hts. }
  clear Hts. remember (Pool ts ∅ w) as c0. clear Heqc0.
  induction Hsteps as [|c0 c1 c2 Hstep _ IH]; [done|]. apply IH.
  destruct Hinit as (mines & g' & Hok). by eapply pool_ok_step.
Qed.

(** A goroutine that has returned has its postcondition now. *)
Lemma pool_ok_done {W R} (Rel : W -> G -> Prop) (Q : nat -> R -> gset string -> G -> Prop)
    g0 (c : pool W R) mines g i a :
  pool_ok Rel Q g0 c mines g -> threads c !! i = Some (Ret a) -> exists mine, Q i a mine g.
Proof using rely_refl.
  intros (Hown & _ & _ & HI & _ & Hcwp) Hi.
  assert (exists mi, mines !! i = Some mi) as [mi Hmi].
  { apply lookup_lt_is_Some. destruct Hown as [-> _]. by eapply lookup_lt_Some. }
  exists mi. apply (Hcwp _ _ _ Hi Hmi); auto.
Qed.

(** No deadlock: while a goroutine has not returned, some goroutine can step. *)
Lemma pool_progress {W R} (h : handler Eff W) (Rel : W -> G -> Prop)
    (Q : nat -> R -> gset string -> G -> Prop) g0 (c : pool W R) mines g i p :
  (forall i a mine g, Q i a mine g -> mine = ∅) ->
  pool_ok Rel Q g0 c mines g -> threads c !! i = Some p -> (forall a, p <> Ret a) ->
  exists c', pool_step h c c'.
Proof using rely_refl rely_trans guar_rely.
  intros HQ (Hown & Hall & _ & HI & _ & Hcwp) Hi Hnot. destruct c as [ts l w]. cbn in *.
  assert (Hmine : forall j pj, ts !! j = Some pj -> exists mj, mines !! j = Some mj).
  { intros j pj Hj. apply lookup_lt_is_Some. destruct Hown as [-> _]. by eapply lookup_lt_Some. }
  (* a goroutine that holds a mutex can step *)
  assert (Hholder : forall j pj mj x, ts !! j = Some pj -> mines !! j = Some mj -> x ∈ mj ->
    exists r, thread_step h pj l w = Some r).
  { intros j pj mj x Hj Hmj Hx. pose proof (Hcwp _ _ _ Hj Hmj) as H.
    destruct pj as [a|why|X e k]; specialize (H g (rely_refl _ _) HI); cbn in H |- *; [|done|].
    - apply HQ in H. set_solver.
    - destruct (mutex_call e) as [[[m|m] y]|].
      + destruct H as [-> _]. set_solver.
      + case_decide; eauto.
      + destruct (h X e w); eauto. }
  destruct (Hmine i p Hi) as [mi Hmi].
  destruct (thread_step h p l w) as [[[p' l'] w']|] eqn:Hp;
    [eexists; econstructor; [exact Hi|exact Hp]|].
  pose proof (Hcwp _ _ _ Hi Hmi) as H.
  destruct p as [a|why|X e k]; specialize (H g (rely_refl _ _) HI); cbn in H, Hp;
    [by destruct (Hnot a)|done|].
  destruct (mutex_call e) as [[[m|m] y]|].
  - case_decide as Hm; [|done]. apply Hall in Hm as (mj & Hmj & Hx)%elem_of_union_list.
    apply list_elem_of_lookup in Hmj as [j Hj].
    assert (exists pj, ts !! j = Some pj) as [pj Hpj].
    { apply lookup_lt_is_Some. destruct Hown as [Hlen _]. cbn in Hlen. rewrite <- Hlen.
      by eapply lookup_lt_Some. }
    destruct (Hholder _ _ _ _ Hpj Hj Hx) as [[[p' l'] w'] Hs].
    eexists. by econstructor.
  - case_decide; done.
  - destruct (h X e w); done.
Qed.
End cwp.

#[global] Arguments cwp : simpl never.

(** ** Every interleaving ends

    A step replaces the program of one goroutine by a smaller one, whatever the
    environment answers. *)

Inductive child {E A} : prog E A -> prog E A -> Prop :=
| child_answer {X} (e : E X) k x : child (k x) (Call e k)
| child_fatal {X} (e : E X) k why : child (Panic why) (Call e k).

Lemma child_wf {E A} : well_founded (@child E A).
Proof.
  assert (Hstop : forall why, Acc (@child E A) (Panic why)).
  { intros why. constructor. intros q Hq. remember (Panic why) as p. by destruct Hq. }
  intros p. induction p as [a|why|X e k IH]; [|done|].
  - constructor. intros q Hq. remember (Ret a) as p. by destruct Hq.
  - constructor. intros q Hq. remember (Call e k) as p.
    destruct Hq as [Y f kk y|]; [|done].
    assert (Hr : exists x, kk y = k x).
    { assert (Hall : forall (p p' : prog E A), p = p' ->
        match p, p' with Call _ k1, Call _ k2 => forall y, exists x, k1 y = k2 x | _, _ => True end).
      { intros p ? <-. destruct p; eauto. }
      apply (Hall _ _ Heqp y). }
    destruct Hr as [x ->]. apply IH.
Qed.

(** One goroutine of the list goes on. *)
Definition threads_step {R} (ts' ts : list (go R)) : Prop :=
  exists i p p', ts !! i = Some p /\ child p' p /\ ts' = <[i := p']> ts.

Lemma threads_step_wf {R} : well_founded (@threads_step R).
Proof.
  intros ts. induction ts as [|p ts IHts].
  { constructor. intros ts' (i & p & p' & Hi & _). done. }
  revert p. induction IHts as [ts _ IHts]. intros p.
  induction (child_wf p) as [p _ IHp]. constructor.
  intros ts' ([|i] & q & q' & Hi & Hc & ->); cbn in *; simplify_eq; [by apply IHp|].
  apply IHts. by exists i, q, q'.
Qed.

Lemma thread_step_child {W R} (h : handler Eff W) (p p' : go R) l l' w w' :
  thread_step h p l w = Some (p', l', w') -> child p' p.
Proof.
  destruct p as [a|why|X e k]; [done..|]. cbn.
  destruct (mutex_call e) as [[[m|m] x]|].
  - case_decide; [done|]. intros [= <- _ _]. apply child_answer.
  - case_decide; intros [= <- _ _]; [apply child_answer|apply child_fatal].
  - destruct (h X e w). intros [= <- _ _]. apply child_answer.
Qed.

(** No pool runs forever, in any environment and under any schedule. *)
Lemma pool_sn {W R} (h : handler Eff W) (c : pool W R) : sn (pool_step h) c.
Proof.
  destruct c as [ts l w]. revert l w.
  induction (threads_step_wf ts) as [ts _ IH]. intros l w. constructor.
  intros c' Hstep. unfold flip in Hstep. remember (Pool ts l w) as c.
  destruct Hstep as [i p p' ts' l0 l' w0 w' Hi Hp]. simplify_eq.
  apply IH. exists i, p, p'. split_and!; [done|by eapply thread_step_child|done].
Qed.

(** ** Programs without mutexes *)

(** The view that records the calls on mutexes. *)
Definition mutex_view : view Eff mutex_op := fun X e _ =>
  match mutex_call e with Some (op, _) => [op] | None => [] end.

(** A program that never touches a mutex, in an environment about which nothing
    is said. *)
Lemma cwp_quiet {R} (p : go R) (P : R -> Prop) mine :
  quiet mutex_view p P ->
  cwp topI (fun _ => True) (fun _ _ _ => True) (fun _ _ _ => True) p
      (fun a mine' _ => P a /\ mine' = mine) mine tt.
Proof.
  unfold quiet. induction p as [a|why|X e k IH]; intros Hp [] _ _; [done..|].
  destruct Hp as [Hpre Hk]. cbn. destruct (mutex_call e) as [[op x]|] eqn:He.
  - specialize (Hpre x). unfold mutex_view in Hpre. by rewrite He in Hpre.
  - split; [done|]. intros x [] _. split_and!; [done|done|]. apply IH. by apply (Hk x tt).
Qed.

(** ** Pools that answer every request *)

(** The pool's rule in an environment about which nothing is said. *)
Abbreviation answers p :=
  (cwp topI (fun _ => True) (fun _ _ _ => True) (fun _ _ _ => True) p
     (fun _ mine _ => mine = ∅) ∅ tt).

Lemma answers_quiet {A} (p : go A) : quiet mutex_view p (fun _ => True) -> answers p.
Proof. intros Hq%(cwp_quiet p _ ∅). eapply cwp_mono; [|exact Hq]. by intros a mine' g' [_ ->]. Qed.

(** A critical section. *)
Lemma answers_locked {A R} m (body : go A) (k : A -> go R) :
  quiet mutex_view body (fun _ => True) -> (forall a, answers (k a)) ->
  answers (golang (Lock m) ;; let* a := body in golang (Unlock m) ;; k a).
Proof.
  intros Hq Hk. apply cwp_lock. intros [] _ _.
  apply cwp_bind; [done|]. eapply cwp_mono; [|exact (cwp_quiet body _ {[m]} Hq)].
  intros a mine' [] [_ ->]. apply cwp_unlock; [set_solver|]. intros [] _ _.
  rewrite difference_diag_L. apply Hk.
Qed.

Lemma answers_map {A R} (p : go A) (f : A -> R) : answers p -> answers (let* r := p in Ret (f r)).
Proof.
  intros Hp. apply cwp_bind; [done|]. eapply cwp_mono; [|exact Hp].
  intros a mine [] ->. by apply cwp_ret.
Qed.

Lemma decide_ret {A} (p : go A) : (exists r, p = Ret r) \/ forall r, p <> Ret r.
Proof. destruct p; [left; eauto|by right..]. Qed.

(** Every execution ends, and at the end every goroutine has returned. *)
Definition all_answered {W R} (h : handler Eff W) (c0 : pool W R) : Prop :=
  sn (pool_step h) c0 /\
  forall c, rtc (pool_step h) c0 c -> (forall c', ~ pool_step h c c') ->
    forall i p, threads c !! i = Some p -> exists r, p = Ret r.

Lemma pool_answered {W R} (h : handler Eff W) (ts : list (go R)) w :
  (forall i p, ts !! i = Some p -> answers p) -> all_answered h (Pool ts ∅ w).
Proof.
  intros Hts. split; [apply pool_sn|]. intros c Hsteps Hstuck i p Hi.
  destruct (pool_sound topI (fun _ => True) (fun _ _ _ => True) (fun _ _ _ => True)
    ltac:(done) ltac:(done) ltac:(done) h (fun _ _ => True) (fun _ _ mine _ => mine = ∅)
    ts w tt c) as (mines & g & Hok); [|done|done|exact Hts|done|].
  - intros X e w' g _ _. by exists tt.
  - destruct (decide_ret p) as [[r ->]|Hnot]; [by exists r|exfalso].
    edestruct (pool_progress topI (fun _ => True) (fun _ _ _ => True) (fun _ _ _ => True))
      as [c' Hc']; [done|done|done| |exact Hok|exact Hi|exact Hnot|by apply (Hstuck c')].
    done.
Qed.

Definition all_returned {W R} (c : pool W R) : bool :=
  forallb (fun p => match p with Ret _ => true | _ => false end) (threads c).

Lemma returned_stuck {W R} (h : handler Eff W) (c c' : pool W R) :
  all_returned c = true -> ~ pool_step h c c'.
Proof.
  intros Hall Hstep. destruct Hstep as [i p p' ts l l' w w' Hi Hp].
  unfold all_returned in Hall. cbn in Hall. rewrite forallb_forall in Hall.
  specialize (Hall p ltac:(by eapply list_elem_of_In, list_elem_of_lookup_2)). by destruct p.
Qed.
