(* ===== verification/Tags.v ===== *)
(** * Resource tagging

    [pkg/cloud/tags.go] tags the servers of a cluster, [csi/driver/tags.go] the
    drives of volumes.  The two files are copies of each other up to the managed
    tag names; the code they share is modelled once, over the predicate that
    says which tags are managed, and each file is a Module that instantiates it.

    What the CloudSigma tag service promises is the class [TagService]: a store
    of tags that [List] returns, [Update] overwrites and [Create] extends.  The
    theorems say what tagging and untagging do to that store. *)

From S2P Require Import Prelude Effects GoErrors ApiTypes World.

(** ** The shared code *)

Definition ensureTag (cl : SdkClient) (tagName resourceUUID : string) : go (result unit) :=
  let* r := cloud cl TagsList in
  match r with
  | SdkErr _ err => Ret (Err (ErrWrap "failed to list tags" err))
  | SdkOk tags =>
      match find (fun t => bool_decide (Tag.Name t = tagName)) tags with
      | Some tag =>
          if decide (resourceUUID ∈ Tag.Resources tag) then Ret (Ok tt)
          else
            let* r := cloud cl (TagsUpdate (Tag.UUID tag) (Tag.Name tag)
                                  (Tag.Resources tag ++ [resourceUUID])) in
            match r with
            | SdkErr _ err => Ret (Err (ErrWrap ("failed to update tag " +:+ tagName) err))
            | SdkOk _ => Ret (Ok tt)
            end
      | None =>
          let* r := cloud cl (TagsCreate tagName [resourceUUID]) in
          match r with
          | SdkErr _ err => Ret (Err (ErrWrap ("failed to create tag " +:+ tagName) err))
          | SdkOk _ => Ret (Ok tt)
          end
      end
  end.

(** Failures are logged and the next tag is tried. *)
Definition tagAll (cl : SdkClient) (tagNames : list string) (resourceUUID : string) : go unit :=
  for_each tagNames tt (fun tagName _ => ensureTag cl tagName resourceUUID ;; Ret tt).

Definition without (uuid : string) (resources : list string) : list string :=
  filter (fun r => r <> uuid) resources.

Definition untagAll (cl : SdkClient) (managed : string -> bool) (uuid : string) : go unit :=
  let* r := cloud cl TagsList in
  match r with
  | SdkErr _ _ => Ret tt
  | SdkOk tags =>
      for_each tags tt (fun tag _ =>
        if negb (managed (Tag.Name tag)) then Ret tt
        else if decide (uuid ∈ Tag.Resources tag) then
          cloud cl (TagsUpdate (Tag.UUID tag) (Tag.Name tag)
                      (without uuid (Tag.Resources tag))) ;;
          Ret tt
        else Ret tt)
  end.

(** ** [pkg/cloud/tags.go] *)

Definition isCAPCSManagedTag (name : string) : bool :=
  bool_decide (name = "managed-by:cloudsigma-capcs") ||
  HasPrefix name "cluster:" || HasPrefix name "pool:".

Definition capcs_desired (cluster pool : string) : list string :=
  ["managed-by:cloudsigma-capcs"]
  ++ (if decide (cluster <> "") then ["cluster:" +:+ cluster] else [])
  ++ (if decide (pool <> "") then ["pool:" +:+ pool] else []).

Definition TagServer (sdk : option SdkClient) (serverUUID cluster pool : string) : go unit :=
  match sdk with
  | None => Ret tt
  | Some cl => tagAll cl (capcs_desired cluster pool) serverUUID
  end.

Definition UntagServer (sdk : option SdkClient) (serverUUID : string) : go unit :=
  match sdk with
  | None => Ret tt
  | Some cl => untagAll cl isCAPCSManagedTag serverUUID
  end.

(** ** [csi/driver/tags.go] *)

Definition isCSIManagedTag (name : string) : bool :=
  bool_decide (name = "managed-by:cloudsigma-csi") ||
  HasPrefix name "cluster:" || HasPrefix name "volume:".

Definition csi_desired (cluster volume : string) : list string :=
  ["managed-by:cloudsigma-csi"]
  ++ (if decide (cluster <> "") then ["cluster:" +:+ cluster] else [])
  ++ (if decide (volume <> "") then ["volume:" +:+ volume] else []).

Definition tagDrive (cloudClient : option SdkClient) (cluster driveUUID volumeName : string)
    : go unit :=
  match cloudClient with
  | None => Ret tt
  | Some cl => tagAll cl (csi_desired cluster volumeName) driveUUID
  end.

Definition untagDrive (cloudClient : option SdkClient) (driveUUID : string) : go unit :=
  match cloudClient with
  | None => Ret tt
  | Some cl => untagAll cl isCSIManagedTag driveUUID
  end.

(** ** The tag service *)

(** [Update] replaces the name and the resources of the tag with that UUID. *)
Definition store_update (uuid name : string) (res : list string) (g : list Tag.t) : list Tag.t :=
  (fun t => if decide (Tag.UUID t = uuid) then Tag.mk uuid name res else t) <$> g.

Definition failed {A} (x : sdk A) : Prop := match x with SdkErr _ _ => True | _ => False end.

(** The documented behaviour of the tag service: [may_fail] says whether
    requests may fail; a failed request may or may not have been applied. *)
Definition tag_post (may_fail : bool) {X} (e : CloudE X)
    : list Tag.t -> X -> list Tag.t -> Prop :=
  match e in CloudE Y return list Tag.t -> Y -> list Tag.t -> Prop with
  | TagsList => fun g x g' => g' = g /\ (x = SdkOk g \/ (may_fail = true /\ failed x))
  | TagsUpdate uuid name res => fun g x g' =>
      (x = SdkOk tt /\ g' = store_update uuid name res g) \/
      (may_fail = true /\ failed x /\ (g' = g \/ g' = store_update uuid name res g))
  | TagsCreate name res => fun g x g' =>
      exists uuid, (uuid ∉ Tag.UUID <$> g) /\
      ((x = SdkOk tt /\ g' = g ++ [Tag.mk uuid name res]) \/
       (may_fail = true /\ failed x /\ (g' = g \/ g' = g ++ [Tag.mk uuid name res])))
  | _ => fun g _ g' => g' = g
  end.

(** Calls that are not tag requests leave the store alone. *)
Definition tagI (may_fail : bool) : iface Eff (list Tag.t) :=
  Iface (fun _ _ _ => True)
        (fun X e => match e with
                    | ECloud _ e => tag_post may_fail e
                    | _ => fun g _ g' => g' = g
                    end).

(** The interface between the tag service and its clients: the tags of a state of
    the environment, and the laws its answers obey. *)
Class TagStore {W} (h : handler Eff W) := tag_store : W -> list Tag.t.
#[global] Arguments tag_store {W} h {_} w.

Class TagService (may_fail : bool) {W} (h : handler Eff W) `{!TagStore h} : Prop :=
  tag_laws : implements h (fun w g => tag_store h w = g) (tagI may_fail).

(** What untagging does to a tag, and to the store. *)
Definition untag (managed : string -> bool) (uuid : string) (t : Tag.t) : Tag.t :=
  if managed (Tag.Name t)
  then Tag.mk (Tag.UUID t) (Tag.Name t) (without uuid (Tag.Resources t)) else t.

Definition tagged (g : list Tag.t) (name uuid : string) : Prop :=
  exists t, t ∈ g /\ Tag.Name t = name /\ uuid ∈ Tag.Resources t.

Definition uuids_distinct (g : list Tag.t) : Prop := NoDup (Tag.UUID <$> g).

(** [t'] is [t], or [t] with [uuid] added, which only happens to a tag whose
    name is one of [names]. *)
Definition grown (names : list string) (uuid : string) (t t' : Tag.t) : Prop :=
  t' = t \/
  (Tag.Name t ∈ names /\ (uuid ∉ Tag.Resources t) /\
   t' = Tag.mk (Tag.UUID t) (Tag.Name t) (Tag.Resources t ++ [uuid])).

Definition created (names : list string) (uuid : string) (t : Tag.t) : Prop :=
  Tag.Name t ∈ names /\ Tag.Resources t = [uuid].

(** [g'] is [g] with the resource [uuid] added to some of the tags [names], and
    some of those tags created. *)
Definition extends (names : list string) (uuid : string) (g g' : list Tag.t) : Prop :=
  exists g1 g2, g' = g1 ++ g2 /\ Forall2 (grown names uuid) g g1 /\
                Forall (created names uuid) g2.

Section store.
Context (names : list string) (uuid : string).

#[global] Instance extends_refl : Reflexive (extends names uuid).
Proof.
  intros g. exists g, []. rewrite app_nil_r. split_and!; [done| |done].
  apply Forall_Forall2_diag, Forall_forall. intros t _. by left.
Qed.

Lemma grown_trans t1 t2 t3 :
  grown names uuid t1 t2 -> grown names uuid t2 t3 -> grown names uuid t1 t3.
Proof.
  intros [->|(Hn & Hu & ->)] [->|(Hn' & Hu' & ->)]; unfold grown; simpl in *; auto.
  destruct Hu'. set_solver.
Qed.

Lemma created_grown t t' : created names uuid t -> grown names uuid t t' -> t' = t.
Proof. intros [_ Hr] [->|(_ & Hu & _)]; [done|]. rewrite Hr in Hu. set_solver. Qed.

#[global] Instance extends_trans : Transitive (extends names uuid).
Proof.
  intros a b c (b1 & b2 & -> & Hb1 & Hb2) (c1 & c2 & -> & Hc1 & Hc2).
  apply Forall2_app_inv_l in Hc1 as (c11 & c12 & H11 & H12 & ->).
  assert (c12 = b2) as ->.
  { clear Hb1 H11 Hc2. induction H12 as [|t t' l l' Ht _ IH]; [done|].
    apply Forall_cons in Hb2 as [Hb Hb2]. f_equal; [by eapply created_grown|auto]. }
  exists c11, (b2 ++ c2). split_and!; [by rewrite app_assoc| |by apply Forall_app].
  eapply Forall2_trans; [|done..]. intros ???. apply grown_trans.
Qed.

Lemma grown_UUID t t' : grown names uuid t t' -> Tag.UUID t' = Tag.UUID t.
Proof. by intros [->|(_ & _ & ->)]. Qed.

Lemma extends_tagged g g' n u : extends names uuid g g' -> tagged g n u -> tagged g' n u.
Proof.
  intros (g1 & g2 & -> & H1 & _) (t & Ht & Hn & Hu).
  apply list_elem_of_lookup in Ht as [i Hi].
  destruct (Forall2_lookup_l _ _ _ _ _ H1 Hi) as (t' & Hi' & Hg).
  exists t'. split_and!.
  - apply elem_of_app. left. by eapply list_elem_of_lookup_2.
  - by destruct Hg as [->|(_ & _ & ->)].
  - destruct Hg as [->|(_ & _ & ->)]; [done|]. simpl. set_solver.
Qed.
End store.

Lemma extends_weaken names names' uuid g g' :
  names ⊆ names' -> extends names uuid g g' -> extends names' uuid g g'.
Proof.
  intros Hsub (g1 & g2 & -> & H1 & H2). exists g1, g2. split_and!; [done| |].
  - eapply Forall2_impl; [done|]. intros t t' [->|(Hn & Hu & ->)]; [by left|right].
    split_and!; auto.
  - eapply Forall_impl; [done|]. intros t [Hn Hr]. split; auto.
Qed.

Lemma store_update_other uuid name res l :
  uuid ∉ Tag.UUID <$> l -> store_update uuid name res l = l.
Proof.
  unfold store_update. induction l as [|t l IH]; [done|]. rewrite !fmap_cons.
  intros [Hne Hn]%not_elem_of_cons. rewrite decide_False by done. by rewrite IH.
Qed.

(** Updating the one tag with a given UUID. *)
Lemma store_update_mid l1 t l2 name res :
  uuids_distinct (l1 ++ t :: l2) ->
  store_update (Tag.UUID t) name res (l1 ++ t :: l2) = l1 ++ Tag.mk (Tag.UUID t) name res :: l2.
Proof.
  unfold uuids_distinct. rewrite fmap_app, fmap_cons.
  intros (_ & Hn1 & (Hn2 & _)%NoDup_cons)%NoDup_app.
  assert (Tag.UUID t ∉ Tag.UUID <$> l1) by (intros H; apply (Hn1 _ H); set_solver).
  pose proof (store_update_other (Tag.UUID t) name res l1) as E1.
  pose proof (store_update_other (Tag.UUID t) name res l2) as E2.
  unfold store_update in *. rewrite fmap_app, fmap_cons, E1, E2 by done.
  by rewrite decide_True.
Qed.

Lemma without_id uuid res : uuid ∉ res -> without uuid res = res.
Proof.
  unfold without. intros H. induction res as [|r res IH]; [done|].
  rewrite filter_cons_True by set_solver. f_equal. set_solver.
Qed.

Lemma untag_id managed uuid t : uuid ∉ Tag.Resources t -> untag managed uuid t = t.
Proof.
  intros H. unfold untag. case_match; [|done]. rewrite without_id by done. by destruct t.
Qed.

Lemma without_app uuid a b : without uuid (a ++ b) = without uuid a ++ without uuid b.
Proof. apply filter_app. Qed.

(** ** What the code does to the store *)

Lemma find_app_split {A} (f : A -> bool) l x :
  find f l = Some x -> exists l1 l2, l = l1 ++ x :: l2 /\ f x = true.
Proof.
  intros H. destruct (find_some _ _ H) as [Hin Hf].
  apply list_elem_of_In in Hin. apply list_elem_of_split in Hin as (l1 & l2 & ->). eauto.
Qed.

Section spec.
Context (may_fail : bool) (cl : SdkClient) (uuid : string).

(** What holds of the store after tagging with [names]. *)
Definition tag_inv (names : list string) (g0 g : list Tag.t) : Prop :=
  uuids_distinct g /\ extends names uuid g0 g.

Lemma tag_inv_update n l1 t l2 :
  uuids_distinct (l1 ++ t :: l2) -> Tag.Name t = n -> uuid ∉ Tag.Resources t ->
  tag_inv [n] (l1 ++ t :: l2)
    (store_update (Tag.UUID t) (Tag.Name t) (Tag.Resources t ++ [uuid]) (l1 ++ t :: l2)).
Proof.
  intros Hd Hn Hu. rewrite store_update_mid by done. split.
  - unfold uuids_distinct in *. rewrite fmap_app, fmap_cons in *. done.
  - eexists _, []. rewrite app_nil_r. split_and!; [done| |done].
    apply Forall2_app; [|constructor].
    + apply Forall_Forall2_diag, Forall_forall. intros ??. by left.
    + right. split_and!; [rewrite Hn; set_solver|done|done].
    + apply Forall_Forall2_diag, Forall_forall. intros ??. by left.
Qed.

Lemma tag_inv_create n u g :
  uuids_distinct g -> u ∉ Tag.UUID <$> g -> tag_inv [n] g (g ++ [Tag.mk u n [uuid]]).
Proof.
  intros Hd Hu. split.
  - unfold uuids_distinct in *. rewrite fmap_app. apply NoDup_app. split_and!; [done| |].
    + set_solver.
    + apply NoDup_singleton.
  - exists g, [Tag.mk u n [uuid]]. split_and!; [done| |].
    + apply Forall_Forall2_diag, Forall_forall. intros ??. by left.
    + apply Forall_singleton. split; simpl; [set_solver|done].
Qed.

(** [ensureTagWithResource]: the store grows by at most this membership; a nil
    error means the resource is tagged; without failures the error is nil. *)
Lemma wp_ensureTag n g :
  uuids_distinct g ->
  wp (tagI may_fail) (ensureTag cl n uuid)
     (ok (fun r g' => tag_inv [n] g g' /\ (r = Ok tt -> tagged g' n uuid) /\
                      (may_fail = false -> r = Ok tt))) g.
Proof.
  intros Hd. unfold ensureTag.
  wp_call x Hl. destruct Hl as [-> Hx].
  destruct x as [tags|resp err].
  2:{ apply wp_ret. split_and!; [split; [done|reflexivity]|done|].
      intros ->. destruct Hx as [?|[? _]]; done. }
  assert (tags = g) as -> by (destruct Hx as [?|[_ []]]; by simplify_eq).
  destruct (find _ g) as [t|] eqn:Hfind.
  - apply find_app_split in Hfind as (l1 & l2 & -> & Hn%bool_decide_eq_true).
    destruct (decide _) as [Hin|Hnin].
    { apply wp_ret. split_and!; [split; [done|reflexivity]| |done].
      intros _. exists t. split_and!; [set_solver|done..]. }
    wp_call y Hy.
    assert (Htag : tagged (store_update (Tag.UUID t) (Tag.Name t)
               (Tag.Resources t ++ [uuid]) (l1 ++ t :: l2)) n uuid).
    { rewrite store_update_mid by done. eexists. split_and!; [apply elem_of_mid|done|apply elem_of_snoc]. }
    pose proof (tag_inv_update n l1 t l2 Hd Hn Hnin) as Hinv.
    destruct Hy as [[-> ->]|(-> & Hy & Hg)]; [by apply wp_ret|].
    destruct y as [|? err]; [done|]. apply wp_ret. split_and!; [|done..].
    destruct Hg as [->| ->]; [split; [done|reflexivity]|done].
  - wp_call y Hy. destruct Hy as (u & Hu & Hy).
    pose proof (tag_inv_create n u g Hd Hu) as Hinv.
    destruct Hy as [[-> ->]|(-> & Hy & Hg)].
    { apply wp_ret. split_and!; [done| |done].
      intros _. eexists. split_and!; [apply elem_of_snoc|done|apply elem_of_one]. }
    destruct y as [|? err]; [done|]. apply wp_ret. split_and!; [|done..].
    destruct Hg as [->| ->]; [split; [done|reflexivity]|done].
Qed.

(** [TagServer] and [tagDrive]: every desired tag is tried; without failures
    every desired tag carries the resource. *)
Lemma wp_tagAll names g :
  uuids_distinct g ->
  wp (tagI may_fail) (tagAll cl names uuid)
     (ok (fun _ g' => tag_inv names g g' /\
            (may_fail = false -> forall n, n ∈ names -> tagged g' n uuid))) g.
Proof.
  intros Hd. unfold tagAll.
  apply (wp_for_each _ (fun todo (_ : unit) g' => tag_inv names g g' /\
    (may_fail = false -> forall n, n ∈ names -> n ∈ todo \/ tagged g' n uuid))).
  - split; [split; [done|reflexivity]|]. auto.
  - intros n todo [] g1 [pre ->] [[Hd1 Hext] Htag].
    eapply wp_seq; [by apply wp_ensureTag|]. intros r g2 ([Hd2 Hext2] & Hr & Hok).
    apply wp_ret. split; [split; [done|]|].
    + etrans; [exact Hext|]. eapply extends_weaken, Hext2. set_solver.
    + intros Hmf m Hm. destruct (Htag Hmf m Hm) as [Hin|Ht].
      * apply elem_of_cons in Hin as [->|Hin]; auto.
      * right. by eapply extends_tagged.
  - intros [] g' [Hinv Htag]. split; [done|]. intros Hmf n Hn.
    destruct (Htag Hmf n Hn) as [H|H]; [by apply not_elem_of_nil in H|done].
Qed.

Definition maybe_untagged (managed : string -> bool) (t t' : Tag.t) : Prop :=
  t' = untag managed uuid t \/ (may_fail = true /\ t' = t).

Lemma maybe_untagged_UUID managed l l' :
  Forall2 (maybe_untagged managed) l l' -> Tag.UUID <$> l' = Tag.UUID <$> l.
Proof.
  induction 1 as [|t t' l l' Ht _ IH]; [done|]. rewrite !fmap_cons, IH. f_equal.
  destruct Ht as [->|[_ ->]]; [|done]. unfold untag. by case_match.
Qed.

(** [UntagServer] and [untagDrive]: each managed tag loses the resource, other
    tags and other resources stay; a failed update leaves its tag as it was. *)
Lemma wp_untagAll managed g :
  uuids_distinct g ->
  wp (tagI may_fail) (untagAll cl managed uuid)
     (ok (fun _ g' => Forall2 (maybe_untagged managed) g g')) g.
Proof.
  intros Hd. unfold untagAll. wp_call x Hx. destruct Hx as [-> Hx].
  destruct x as [tags|resp err].
  2:{ apply wp_ret. destruct Hx as [?|[-> _]]; [done|].
      apply Forall_Forall2_diag, Forall_forall. by right. }
  assert (tags = g) as -> by (destruct Hx as [?|[_ []]]; by simplify_eq).
  apply (wp_for_each _ (fun todo (_ : unit) g' =>
    exists l l', g = l ++ todo /\ g' = l' ++ todo /\ Forall2 (maybe_untagged managed) l l')).
  { by exists [], []. }
  2:{ intros [] g' (l & l' & -> & -> & Hf). by rewrite !app_nil_r. }
  intros t todo [] g1 _ (l & l' & -> & -> & Hf).
  assert (Hnext : forall t', maybe_untagged managed t t' ->
    exists k k', l ++ t :: todo = k ++ todo /\ l' ++ t' :: todo = k' ++ todo /\
                 Forall2 (maybe_untagged managed) k k').
  { intros t' Ht. exists (l ++ [t]), (l' ++ [t']). rewrite <- !app_assoc.
    split_and!; [done|done|]. apply Forall2_app; auto. }
  assert (Huid : untag managed uuid t = t -> maybe_untagged managed t t) by (left; done).
  destruct (managed (Tag.Name t)) eqn:Hm; cbn [negb];
    [|apply wp_ret, Hnext, Huid; unfold untag; by rewrite Hm].
  case_decide as Hin; [|apply wp_ret, Hnext, Huid, untag_id; done].
  assert (Hd' : uuids_distinct (l' ++ t :: todo)).
  { unfold uuids_distinct in *. rewrite fmap_app in *.
    by rewrite (maybe_untagged_UUID _ _ _ Hf). }
  wp_call y Hy. cbn [i_post tagI tag_post] in Hy.
  rewrite store_update_mid in Hy by done. apply wp_ret.
  replace (Tag.mk (Tag.UUID t) (Tag.Name t) (without uuid (Tag.Resources t)))
    with (untag managed uuid t) in Hy by (unfold untag; by rewrite Hm).
  destruct Hy as [[_ ->]|(Hmf & _ & [->| ->])]; apply Hnext; [by left|by right|by left].
Qed.
End spec.

(** ** The theorems, for every service that keeps its promises *)

Lemma run_wp_tags {W} mf (h : handler Eff W) `{!TagStore h, !TagService mf h} {A} (p : go A)
    (Q : A -> list Tag.t -> Prop) w :
  wp (tagI mf) p (ok Q) (tag_store h w) ->
  exists a w', run h p w = (Done a, w') /\ Q a (tag_store h w').
Proof.
  intros Hp. destruct (wp_run _ _ _ _ _ w _ tag_laws eq_refl Hp) as (g' & HQ & HR).
  destruct (run h p w) as [[a|why] w']; simpl in *; [|done]. subst. eauto.
Qed.

Lemma capcs_desired_managed cluster pool n :
  n ∈ capcs_desired cluster pool -> isCAPCSManagedTag n = true.
Proof.
  unfold capcs_desired, isCAPCSManagedTag. rewrite !elem_of_app.
  intros [H|[H|H]]; [|case_decide|case_decide]; try by apply not_elem_of_nil in H.
  all: apply list_elem_of_singleton in H as ->; rewrite ?HasPrefix_app, ?orb_true_r; done.
Qed.

Lemma csi_desired_managed cluster volume n :
  n ∈ csi_desired cluster volume -> isCSIManagedTag n = true.
Proof.
  unfold csi_desired, isCSIManagedTag. rewrite !elem_of_app.
  intros [H|[H|H]]; [|case_decide|case_decide]; try by apply not_elem_of_nil in H.
  all: apply list_elem_of_singleton in H as ->; rewrite ?HasPrefix_app, ?orb_true_r; done.
Qed.

(** Untagging undoes tagging: the tags are as before, less the resource, and the
    tags that tagging created are left empty. *)
Lemma untag_extends managed names uuid g g' :
  (forall n, n ∈ names -> managed n = true) ->
  extends names uuid g g' ->
  exists extra, untag managed uuid <$> g' = (untag managed uuid <$> g) ++ extra /\
                Forall (fun t => Tag.Resources t = []) extra.
Proof.
  intros Hman (g1 & g2 & -> & H1 & H2). exists (untag managed uuid <$> g2).
  rewrite fmap_app. split.
  - f_equal. induction H1 as [|t t' l l' Ht _ IH]; [done|]. rewrite !fmap_cons, IH. f_equal.
    destruct Ht as [->|(Hn & Hu & ->)]; [done|]. unfold untag; simpl. rewrite (Hman _ Hn).
    f_equal. rewrite without_app, without_id by done.
    unfold without. rewrite filter_cons_False, filter_nil, app_nil_r; [done|]. intros H; by apply H.
  - apply Forall_fmap. eapply Forall_impl; [done|]. intros t [Hn Hr]. unfold compose, untag.
    rewrite (Hman _ Hn), Hr. simpl. unfold without. rewrite filter_cons_False; [done|].
    intros H; by apply H.
Qed.

(** ** A concrete tag service *)

(** A UUID longer than, hence different from, those in use. *)
Definition fresh_uuid (g : list Tag.t) : string := foldr String.append "x" (Tag.UUID <$> g).

Definition sim_cloud {X} (e : CloudE X) (g : list Tag.t) : X * list Tag.t :=
  match e in CloudE Y return Y * list Tag.t with
  | TagsList => (SdkOk g, g)
  | TagsUpdate uuid name res => (SdkOk tt, store_update uuid name res g)
  | TagsCreate name res => (SdkOk tt, g ++ [Tag.mk (fresh_uuid g) name res])
  | e => (deaf_cloud e, g)
  end.

Definition sim_tags : handler Eff (list Tag.t) :=
  fun X e g => match e with ECloud _ e => sim_cloud e g | e => (deaf e, g) end.

Lemma str_length_app a b : String.length (a +:+ b) = (String.length a + String.length b)%nat.
Proof. induction a as [|c a IH]; [done|]. rewrite append_cons. simpl. by rewrite IH. Qed.

Lemma fresh_uuid_fresh g : fresh_uuid g ∉ Tag.UUID <$> g.
Proof.
  unfold fresh_uuid. generalize (Tag.UUID <$> g) as l. intros l Hin.
  assert (forall u, u ∈ l -> (String.length u < String.length (foldr String.append "x" l))%nat)
    as H; [|specialize (H _ Hin); lia].
  clear Hin. induction l as [|v l IH]; intros u Hu; [by apply not_elem_of_nil in Hu|].
  simpl. rewrite str_length_app.
  apply elem_of_cons in Hu as [->|Hu]; [|specialize (IH _ Hu); lia].
  clear. assert (0 < String.length (foldr String.append "x" l))%nat; [|lia].
  induction l as [|w l IH]; simpl; [lia|]. rewrite str_length_app. lia.
Qed.

#[global] Instance sim_tags_store : TagStore sim_tags := fun g => g.

#[global] Instance sim_tags_ok mf : TagService mf sim_tags.
Proof.
  intros X e w g HR _. unfold tag_store, sim_tags_store in *. subst w.
  destruct e as [c e|e|e|e|e|e|e|e]; simpl; [|by eauto..].
  destruct e; simpl; eauto. eexists. split; [|done].
  exists (fresh_uuid g). split; [apply fresh_uuid_fresh|]. by left.
Qed.

(** ** Properties *)

(** [TagServer] against a tag service whose requests succeed: it terminates,
    afterwards every desired tag (managed-by, cluster and pool, when given)
    carries the server, and the store is otherwise unchanged: existing tags only
    gain the server, and only desired tags are created, holding just it. *)
Theorem TagServer_tags {W} (h : handler Eff W) `{!TagStore h, !TagService false h} cl uuid cluster pool w
    (Hd : uuids_distinct (tag_store h w)) :
  exists w', run h (TagServer (Some cl) uuid cluster pool) w = (Done tt, w') /\
    (forall n, n ∈ capcs_desired cluster pool -> tagged (tag_store h w') n uuid) /\
    extends (capcs_desired cluster pool) uuid (tag_store h w) (tag_store h w').
Proof.
  destruct (run_wp_tags false h (TagServer (Some cl) uuid cluster pool) _ w
              (wp_tagAll false cl uuid _ _ Hd)) as ([] & w' & Hrun & [_ Hext] & Htag).
  exists w'. split_and!; [done|by apply Htag|done].
Qed.

(** Tagging a server and untagging it again leaves the tag store as it was,
    less the server's own memberships in managed tags; the tags created on the
    way stay behind with no resources. *)
Theorem TagServer_UntagServer {W} (h : handler Eff W) `{!TagStore h, !TagService false h} cl uuid
    cluster pool w (Hd : uuids_distinct (tag_store h w)) :
  exists w' extra,
    run h (TagServer (Some cl) uuid cluster pool ;; UntagServer (Some cl) uuid) w
      = (Done tt, w') /\
    tag_store h w' = (untag isCAPCSManagedTag uuid <$> tag_store h w) ++ extra /\
    Forall (fun t => Tag.Resources t = []) extra.
Proof.
  destruct (run_wp_tags false h (TagServer (Some cl) uuid cluster pool) _ w
              (wp_tagAll false cl uuid _ _ Hd)) as ([] & w1 & Hrun1 & [Hd1 Hext] & _).
  destruct (run_wp_tags false h (UntagServer (Some cl) uuid) _ w1
              (wp_untagAll false cl uuid isCAPCSManagedTag _ Hd1)) as ([] & w2 & Hrun2 & Hf).
  destruct (untag_extends isCAPCSManagedTag _ _ _ _ (capcs_desired_managed cluster pool) Hext)
    as (extra & Heq & Hextra).
  exists w2, extra. rewrite run_bind, Hrun1, Hrun2. split_and!; [done| |done].
  rewrite <- Heq. clear -Hf. induction Hf as [|t t' l l' [->|[? _]] _ IH]; [done| |done].
  by rewrite fmap_cons, IH.
Qed.

(** [untagDrive], when requests may fail: it terminates, and each tag is
    either unchanged or, if it is a managed tag, without the drive; no other
    resource, tag name or unmanaged tag is ever touched. *)
Theorem untagDrive_safe {W} (h : handler Eff W) `{!TagStore h, !TagService true h} cl uuid w
    (Hd : uuids_distinct (tag_store h w)) :
  exists w', run h (untagDrive (Some cl) uuid) w = (Done tt, w') /\
    Forall2 (fun t t' => t' = t \/ t' = untag isCSIManagedTag uuid t)
            (tag_store h w) (tag_store h w').
Proof.
  destruct (run_wp_tags true h (untagDrive (Some cl) uuid) _ w
              (wp_untagAll true cl uuid isCSIManagedTag _ Hd)) as ([] & w' & Hrun & Hf).
  exists w'. split; [done|]. eapply Forall2_impl; [exact Hf|].
  intros t t' [->|[_ ->]]; auto.
Qed.

(** ** Witnesses *)

Definition wit_client : SdkClient := {| sdk_cred := TokenCred "t"; sdk_location := "direct.zrh" |}.
Definition wit_store : list Tag.t :=
  [Tag.mk "u1" "cluster:prod" ["srv-0"]; Tag.mk "u2" "cluster:old" ["srv-1"; "srv-2"];
   Tag.mk "u3" "billing" ["srv-1"]].

Lemma TagServer_tags_witness :
  exists w', run sim_tags (TagServer (Some wit_client) "srv-1" "prod" "pool-a") wit_store
               = (Done tt, w') /\
    (forall n, n ∈ capcs_desired "prod" "pool-a" -> tagged (tag_store sim_tags w') n "srv-1") /\
    extends (capcs_desired "prod" "pool-a") "srv-1" (tag_store sim_tags wit_store)
            (tag_store sim_tags w').
Proof.
  apply (TagServer_tags sim_tags wit_client "srv-1" "prod" "pool-a" wit_store).
  apply (bool_decide_unpack _). vm_compute. exact I.
Defined.

Lemma TagServer_UntagServer_witness :
  exists w' extra,
    run sim_tags (TagServer (Some wit_client) "srv-1" "prod" "pool-a" ;;
                  UntagServer (Some wit_client) "srv-1") wit_store = (Done tt, w') /\
    tag_store sim_tags w' =
      (untag isCAPCSManagedTag "srv-1" <$> tag_store sim_tags wit_store) ++ extra /\
    Forall (fun t => Tag.Resources t = []) extra.
Proof.
  apply (TagServer_UntagServer sim_tags wit_client "srv-1" "prod" "pool-a" wit_store).
  apply (bool_decide_unpack _). vm_compute. exact I.
Defined.

Lemma untagDrive_safe_witness :
  exists w', run sim_tags (untagDrive (Some wit_client) "srv-1") wit_store = (Done tt, w') /\
    Forall2 (fun t t' => t' = t \/ t' = untag isCSIManagedTag "srv-1" t)
            (tag_store sim_tags wit_store) (tag_store sim_tags w').
Proof.
  apply (untagDrive_safe sim_tags wit_client "srv-1" wit_store).
  apply (bool_decide_unpack _). vm_compute. exact I.
Defined.
