(* ===== verification/CSIController.v ===== *)
(** * The CSI controller service

    [csi/driver/controller.go]: creating, deleting, attaching, detaching and
    expanding volumes, which are CloudSigma drives, with the volume tagging of
    [csi/driver/tags.go] (Tags.v) and the driver object of
    [csi/driver/driver.go].  Requests that carry a protobuf value keep the
    literal text of their status messages, not the rendering of the value. *)

From S2P Require Import Prelude Effects GoErrors ApiTypes World Tags.

(** ** Requests and responses *)

Inductive AccessMode :=
| AM_UNKNOWN | SINGLE_NODE_WRITER | SINGLE_NODE_READER_ONLY
| MULTI_NODE_READER_ONLY | MULTI_NODE_SINGLE_WRITER | MULTI_NODE_MULTI_WRITER
| SINGLE_NODE_SINGLE_WRITER | SINGLE_NODE_MULTI_WRITER.

#[global] Instance AccessMode_eq_dec : EqDecision AccessMode.
Proof. solve_decision. Defined.

(** The [access_type] of a capability: block, mount (file system type and mount
    flags), or not set. *)
Inductive AccessType :=
| ATNone
| ATBlock
| ATMount (FsType : string) (MountFlags : list string).

Record VolumeCapability := { cap_type : AccessType; cap_mode : AccessMode }.

Definition GetBlock (c : VolumeCapability) : bool :=
  match cap_type c with ATBlock => true | _ => false end.
Definition GetMount (c : VolumeCapability) : option (string * list string) :=
  match cap_type c with ATMount fs flags => Some (fs, flags) | _ => None end.

Record CapacityRange := { RequiredBytes : Z; LimitBytes : Z }.

Record CreateVolumeRequest := {
  cv_Name : string;
  cv_VolumeCapabilities : list VolumeCapability;
  cv_CapacityRange : option CapacityRange;
  cv_Parameters : gmap string string
}.

Record Volume := {
  VolumeId : string;
  CapacityBytes : Z;
  VolumeContext : gmap string string;
  AccessibleTopology : gmap string string
}.

(** ** The driver *)

Inductive Mode := ControllerMode | NodeMode | AllMode.

Record Config := {
  cfg_Name : string; cfg_Version : string; cfg_NodeID : string; cfg_Region : string;
  cfg_Endpoint : string; cfg_Mode : Mode;
  cfg_Username : string; cfg_Password : string; cfg_Token : string;
  cfg_TokenFile : string; cfg_ClusterName : string
}.

Inductive ControllerCap :=
| CREATE_DELETE_VOLUME | PUBLISH_UNPUBLISH_VOLUME | EXPAND_VOLUME | CREATE_DELETE_SNAPSHOT.
Inductive NodeCap := STAGE_UNSTAGE_VOLUME | NODE_EXPAND_VOLUME | GET_VOLUME_STATS.

Record Driver := {
  d_name : string; d_version : string; nodeID : string; region : string;
  endpoint : string; mode : Mode; clusterName : string;
  cloudClient : option SdkClient;
  controllerCaps : list ControllerCap;
  nodeCaps : list NodeCap;
  volumeCaps : list AccessMode
}.

Definition NewDriver (cfg : Config) : Driver :=
  let region := if decide (cfg_Region cfg = "") then "zrh" else cfg_Region cfg in
  let cloudClient :=
    if decide (cfg_Token cfg <> "") then
      Some {| sdk_cred := TokenCred (cfg_Token cfg); sdk_location := region |}
    else if decide (cfg_Username cfg <> "" /\ cfg_Password cfg <> "") then
      Some {| sdk_cred := UserPass (cfg_Username cfg) (cfg_Password cfg);
              sdk_location := region |}
    else None in
  {| d_name := cfg_Name cfg; d_version := cfg_Version cfg; nodeID := cfg_NodeID cfg;
     region := cfg_Region cfg; endpoint := cfg_Endpoint cfg; mode := cfg_Mode cfg;
     clusterName := cfg_ClusterName cfg; cloudClient := cloudClient;
     controllerCaps := [CREATE_DELETE_VOLUME; PUBLISH_UNPUBLISH_VOLUME; EXPAND_VOLUME;
                        CREATE_DELETE_SNAPSHOT];
     nodeCaps := [STAGE_UNSTAGE_VOLUME; NODE_EXPAND_VOLUME; GET_VOLUME_STATS];
     volumeCaps := [SINGLE_NODE_WRITER; SINGLE_NODE_READER_ONLY] |}.

Definition TopologyKey : string := "topology.cloudsigma.com/region".
Definition topology (d : Driver) : gmap string string := {[ TopologyKey := region d ]}.

(** ** The identity service, and the calls that are not implemented *)

Inductive PluginCap := CONTROLLER_SERVICE | VOLUME_ACCESSIBILITY_CONSTRAINTS | EXPANSION_ONLINE.

(** Name and version. *)
Definition GetPluginInfo (d : Driver) : string * string := (d_name d, d_version d).
Definition GetPluginCapabilities (d : Driver) : list PluginCap :=
  [CONTROLLER_SERVICE; VOLUME_ACCESSIBILITY_CONSTRAINTS; EXPANSION_ONLINE].
Definition Probe (d : Driver) : bool := true.

Definition unimplemented (what : string) : result unit := Err (ErrStatus Unimplemented what).

Definition ListVolumes : result unit := unimplemented "ListVolumes is not implemented".
Definition GetCapacity : result unit := unimplemented "GetCapacity is not implemented".
Definition CreateSnapshot : result unit := unimplemented "CreateSnapshot is not implemented yet".
Definition DeleteSnapshot : result unit := unimplemented "DeleteSnapshot is not implemented yet".
Definition ListSnapshots : result unit := unimplemented "ListSnapshots is not implemented".
Definition ControllerGetVolume : result unit :=
  unimplemented "ControllerGetVolume is not implemented".
Definition ControllerModifyVolume : result unit :=
  unimplemented "ControllerModifyVolume is not implemented".

(** The driver advertises snapshots. *)
Example snapshots_advertised cfg :
  CREATE_DELETE_SNAPSHOT ∈ controllerCaps (NewDriver cfg) /\
  CreateSnapshot = Err (ErrStatus Unimplemented "CreateSnapshot is not implemented yet").
Proof. split; [|done]. cbn. set_solver. Qed.

(** ** Volume sizes *)

Definition MinVolumeSize : Z := 1 * 1024 * 1024 * 1024.
Definition MaxVolumeSize : Z := 10 * 1024 * 1024 * 1024 * 1024.
Definition DefaultVolumeSize : Z := 10 * 1024 * 1024 * 1024.
Definition StorageTypeDSSD : string := "dssd".

(** The size [CreateVolume] asks for, or the status it answers. *)
Definition volume_size (cr : option CapacityRange) : result Z :=
  let size := DefaultVolumeSize in
  let checked :=
    match cr with
    | None => Ok size
    | Some r =>
        let size := if decide (RequiredBytes r > 0)%Z then RequiredBytes r else size in
        if decide (LimitBytes r > 0 /\ size > LimitBytes r)%Z then
          Err (ErrStatus OutOfRange
                 ("requested size " +:+ itoa size +:+ " exceeds limit " +:+ itoa (LimitBytes r)))
        else Ok size
    end in
  match checked with
  | Err e => Err e
  | Ok size =>
      let size := if decide (size < MinVolumeSize)%Z then MinVolumeSize else size in
      if decide (size > MaxVolumeSize)%Z then
        Err (ErrStatus OutOfRange
               ("requested size " +:+ itoa size +:+ " exceeds maximum " +:+ itoa MaxVolumeSize))
      else Ok size
  end.

(** ** Helper functions *)

Definition isValidVolumeCapability (d : Driver) (cap : VolumeCapability) : bool :=
  if GetBlock cap then true
  else match GetMount cap with
       | Some _ => existsb (fun m => bool_decide (cap_mode cap = m)) (volumeCaps d)
       | None => false
       end.

Definition findDriveByName (cl : SdkClient) (name : string) : go (result (option Drive.t)) :=
  let* r := cloud cl DrivesList in
  match r with
  | SdkErr _ err => Ret (Err err)
  | SdkOk drives => Ret (Ok (find (fun d => bool_decide (Drive.Name d = name)) drives))
  end.

Definition channel (controller unit_ : Z) : string := itoa controller +:+ ":" +:+ itoa unit_.

(** The channels the loops of [findNextDeviceChannel] try, in their order. *)
Definition data_channels : list string :=
  controller ← seqZ 1 202; unit_ ← seqZ 0 3; [channel controller unit_].

Definition findNextDeviceChannel (drives : list ServerDrive.t) : string :=
  let usedChannels : gset string := list_to_set (ServerDrive.DevChannel <$> drives) in
  if decide ("0:2" ∉ usedChannels) then "0:2"
  else match find (fun ch => bool_decide (ch ∉ usedChannels)) data_channels with
       | Some ch => ch
       | None => "202:2"
       end.

(** [sd.Drive != nil && sd.Drive.UUID == volumeID] *)
Definition holds_volume (vol : string) (sd : ServerDrive.t) : bool :=
  match ServerDrive.Drive sd with
  | Some d => bool_decide (Drive.UUID d = vol)
  | None => false
  end.

(** ** CreateVolume *)

Definition volume_of (d : Driver) (req : CreateVolumeRequest) (drive : Drive.t) : Volume :=
  {| VolumeId := Drive.UUID drive; CapacityBytes := Drive.Size drive;
     VolumeContext := cv_Parameters req; AccessibleTopology := topology d |}.

Definition CreateVolume (d : Driver) (req : CreateVolumeRequest) : go (result Volume) :=
  if decide (cv_Name req = "") then
    Ret (Err (ErrStatus InvalidArgument "volume name is required"))
  else match cloudClient d with
  | None => Ret (Err (ErrStatus Internal "CloudSigma client not initialized"))
  | Some cl =>
  if decide (cv_VolumeCapabilities req = []) then
    Ret (Err (ErrStatus InvalidArgument "volume capabilities are required"))
  else if negb (forallb (isValidVolumeCapability d) (cv_VolumeCapabilities req)) then
    Ret (Err (ErrStatus InvalidArgument "unsupported volume capability"))
  else match volume_size (cv_CapacityRange req) with
  | Err e => Ret (Err e)
  | Ok size =>
  let storageType := default StorageTypeDSSD (cv_Parameters req !! "storageType") in
  let* existing := findDriveByName cl (cv_Name req) in
  match existing with
  | Err err =>
      Ret (Err (ErrStatus Internal ("failed to check existing volume: " +:+ Error err)))
  | Ok (Some existingDrive) => Ret (Ok (volume_of d req existingDrive))
  | Ok None =>
      let* r := cloud cl (DrivesCreate
                  [{| Drive.UUID := ""; Drive.Name := cv_Name req; Drive.Size := size;
                      Drive.Status := ""; Drive.Media := "disk";
                      Drive.StorageType := storageType; Drive.MountedOn := [] |}]) in
      match r with
      | SdkErr _ err =>
          Ret (Err (ErrStatus Internal ("failed to create volume: " +:+ Error err)))
      | SdkOk [] => Ret (Err (ErrStatus Internal "no drive returned from create request"))
      | SdkOk (drive :: _) =>
          tagDrive (Some cl) (clusterName d) (Drive.UUID drive) (cv_Name req) ;;
          Ret (Ok (volume_of d req drive))
      end
  end end end.

(** ** DeleteVolume *)

Definition DeleteVolume (d : Driver) (volumeId : string) : go (result unit) :=
  if decide (volumeId = "") then
    Ret (Err (ErrStatus InvalidArgument "volume ID is required"))
  else match cloudClient d with
  | None => Ret (Err (ErrStatus Internal "CloudSigma client not initialized"))
  | Some cl =>
  let* r := cloud cl (DrivesGet volumeId) in
  match r with
  | SdkErr _ err =>
      if Contains (Error err) "404" || Contains (Error err) "not found" then Ret (Ok tt)
      else Ret (Err (ErrStatus Internal ("failed to get volume: " +:+ Error err)))
  | SdkOk drive =>
      if decide (Drive.Status drive = "mounted") then
        Ret (Err (ErrStatus FailedPrecondition
                    ("volume " +:+ volumeId +:+ " is still mounted")))
      else
        untagDrive (Some cl) volumeId ;;
        let* r := cloud cl (DrivesDelete volumeId) in
        match r with
        | SdkErr _ err =>
            Ret (Err (ErrStatus Internal ("failed to delete volume: " +:+ Error err)))
        | SdkOk _ => Ret (Ok tt)
        end
  end end.

(** ** ControllerPublishVolume *)

Record PublishRequest := { pub_VolumeId : string; pub_NodeId : string }.

(** [serverLock.Lock(); defer serverLock.Unlock()] around a body; the mutex of
    [getServerLock] is the one entry of [serverAttachLocks] for the server. *)
Definition with_lock {A} (mutex : string) (body : go A) : go A :=
  golang (Lock mutex) ;;
  let* a := body in
  golang (Unlock mutex) ;;
  Ret a.

Definition getServerLock (serverID : string) : string := "serverAttachLocks/" +:+ serverID.

(** Detach the volume from the first other server it is mounted on. *)
Definition detach_from_others (cl : SdkClient) (req : PublishRequest) (mounts : list string)
    : go (unit + error) :=
  for_range mounts tt (fun mount _ =>
    if decide (mount = pub_NodeId req) then Ret (Next tt)
    else
      let* r := cloud cl (ServersGet mount) in
      match r with
      | SdkErr _ getErr =>
          if Contains (Error getErr) "404" then Ret (Break tt)
          else Ret (Return (ErrStatus Internal
                 ("failed to get old node " +:+ mount +:+ ": " +:+ Error getErr)))
      | SdkOk oldServer =>
          let newDrives :=
            filter (fun sd => holds_volume (pub_VolumeId req) sd = false)
                   (Server.Drives oldServer) in
          cloud cl (ServersUpdate mount (Server.set_Drives oldServer newDrives)) ;;
          Ret (Break tt)
      end).

Definition new_drive (vol devChannel : string) : ServerDrive.t :=
  {| ServerDrive.BootOrder := 0; ServerDrive.DevChannel := devChannel;
     ServerDrive.Device := "virtio";
     ServerDrive.Drive := Some {| Drive.UUID := vol; Drive.Name := ""; Drive.Size := 0;
       Drive.Status := ""; Drive.Media := ""; Drive.StorageType := ""; Drive.MountedOn := [] |} |}.

Definition publish_context (vol devChannel : string) : gmap string string :=
  <["channel" := devChannel]> {["volumeId" := vol]}.

Definition ControllerPublishVolume (d : Driver) (req : PublishRequest)
    : go (result (gmap string string)) :=
  if decide (pub_VolumeId req = "") then
    Ret (Err (ErrStatus InvalidArgument "volume ID is required"))
  else if decide (pub_NodeId req = "") then
    Ret (Err (ErrStatus InvalidArgument "node ID is required"))
  else match cloudClient d with
  | None => Ret (Err (ErrStatus Internal "CloudSigma client not initialized"))
  | Some cl =>
  with_lock (getServerLock (pub_NodeId req))
  (let* r := cloud cl (ServersGet (pub_NodeId req)) in
   match r with
   | SdkErr _ err => Ret (Err (ErrStatus NotFound ("node not found: " +:+ Error err)))
   | SdkOk server =>
   match find (holds_volume (pub_VolumeId req)) (Server.Drives server) with
   | Some sd => Ret (Ok (publish_context (pub_VolumeId req) (ServerDrive.DevChannel sd)))
   | None =>
   let* r := cloud cl (DrivesGet (pub_VolumeId req)) in
   match r with
   | SdkErr _ err => Ret (Err (ErrStatus NotFound ("volume not found: " +:+ Error err)))
   | SdkOk drive =>
   let* detached :=
     (if decide (Drive.Status drive = "mounted" /\ Drive.MountedOn drive <> [])
      then detach_from_others cl req (Drive.MountedOn drive) else Ret (inl tt)) in
   match detached with
   | inr err => Ret (Err err)
   | inl _ =>
   let devChannel := findNextDeviceChannel (Server.Drives server) in
   let server' := Server.set_Drives server
                    (Server.Drives server ++ [new_drive (pub_VolumeId req) devChannel]) in
   let* r := cloud cl (ServersUpdate (pub_NodeId req) server') in
   match r with
   | SdkErr _ err =>
       Ret (Err (ErrStatus Internal ("failed to attach volume: " +:+ Error err)))
   | SdkOk _ => Ret (Ok (publish_context (pub_VolumeId req) devChannel))
   end end end end end)
  end.

(** ** ControllerUnpublishVolume *)

Definition maxRetries : nat := 30.
Definition second : Z := 1000000000.

(** Poll the drive until it is unmounted, at most [maxRetries] times. *)
Definition verify_detached (cl : SdkClient) (vol : string) : go unit :=
  let* _ := for_range (seq 0 maxRetries) tt (fun i _ =>
    let* r := cloud cl (DrivesGet vol) in
    let wait := if decide (i < maxRetries - 1)%nat
                then golang (Sleep (1 * second)) ;; Ret (Next tt) else Ret (Next tt) in
    match r with
    | SdkErr _ err => if Contains (Error err) "404" then Ret (Return tt) else wait
    | SdkOk drive =>
        if decide (Drive.Status drive = "unmounted" /\ Drive.MountedOn drive = [])
        then Ret (Return tt) else wait
    end) in
  Ret tt.

Definition ControllerUnpublishVolume (d : Driver) (req : PublishRequest) : go (result unit) :=
  if decide (pub_VolumeId req = "") then
    Ret (Err (ErrStatus InvalidArgument "volume ID is required"))
  else if decide (pub_NodeId req = "") then
    Ret (Err (ErrStatus InvalidArgument "node ID is required"))
  else match cloudClient d with
  | None => Ret (Err (ErrStatus Internal "CloudSigma client not initialized"))
  | Some cl =>
  let* r := cloud cl (ServersGet (pub_NodeId req)) in
  match r with
  | SdkErr _ err =>
      if Contains (Error err) "404" then Ret (Ok tt)
      else Ret (Err (ErrStatus Internal ("failed to get node: " +:+ Error err)))
  | SdkOk server =>
  let newDrives := filter (fun sd => holds_volume (pub_VolumeId req) sd = false)
                          (Server.Drives server) in
  if negb (existsb (holds_volume (pub_VolumeId req)) (Server.Drives server)) then Ret (Ok tt)
  else
  let* r := cloud cl (ServersUpdate (pub_NodeId req) (Server.set_Drives server newDrives)) in
  match r with
  | SdkErr _ err =>
      let* v := cloud cl (ServersGet (pub_NodeId req)) in
      match v with
      | SdkErr _ verifyErr =>
          if Contains (Error verifyErr) "404" then Ret (Ok tt)
          else Ret (Err (ErrStatus Internal ("failed to detach volume: " +:+ Error err)))
      | SdkOk verifyServer =>
          if negb (existsb (holds_volume (pub_VolumeId req)) (Server.Drives verifyServer))
          then Ret (Ok tt)
          else Ret (Err (ErrStatus Internal ("failed to detach volume: " +:+ Error err)))
      end
  | SdkOk _ => verify_detached cl (pub_VolumeId req) ;; Ret (Ok tt)
  end end end.

(** ** The other calls of the service *)

(** [Confirmed] is set when the answer is [Some]. *)
Definition ValidateVolumeCapabilities (d : Driver) (volumeId : string)
    (caps : list VolumeCapability) : go (result (option (list VolumeCapability))) :=
  if decide (volumeId = "") then
    Ret (Err (ErrStatus InvalidArgument "volume ID is required"))
  else if decide (caps = []) then
    Ret (Err (ErrStatus InvalidArgument "volume capabilities are required"))
  else
    let* exists_ :=
      match cloudClient d with
      | None => Ret (Ok tt)
      | Some cl =>
          let* r := cloud cl (DrivesGet volumeId) in
          match r with
          | SdkErr _ err =>
              Ret (Err (ErrStatus NotFound ("volume not found: " +:+ Error err)))
          | SdkOk _ => Ret (Ok tt)
          end
      end in
    match exists_ with
    | Err e => Ret (Err e)
    | Ok _ =>
        if negb (forallb (isValidVolumeCapability d) caps) then Ret (Ok None)
        else Ret (Ok (Some caps))
    end.

Definition ControllerGetCapabilities (d : Driver) : go (result (list ControllerCap)) :=
  Ret (Ok (controllerCaps d)).

(** [req.CapacityRange.RequiredBytes] dereferences the range without a check. *)
Definition ControllerExpandVolume (d : Driver) (volumeId : string) (cr : option CapacityRange)
    : go (result (Z * bool)) :=
  if decide (volumeId = "") then
    Ret (Err (ErrStatus InvalidArgument "volume ID is required"))
  else match cloudClient d with
  | None => Ret (Err (ErrStatus Internal "CloudSigma client not initialized"))
  | Some cl =>
  match cr with
  | None => Panic "nil pointer dereference: req.CapacityRange"
  | Some r =>
  let newSize := if decide (RequiredBytes r < MinVolumeSize)%Z
                 then MinVolumeSize else RequiredBytes r in
  let* g := cloud cl (DrivesGet volumeId) in
  match g with
  | SdkErr _ err =>
      Ret (Err (ErrStatus NotFound ("failed to get volume for resize: " +:+ Error err)))
  | SdkOk drive =>
      let* u := cloud cl (DrivesResize volumeId (Drive.Name drive) (Drive.Media drive)
                            newSize) in
      match u with
      | SdkErr _ err =>
          Ret (Err (ErrStatus Internal ("failed to expand volume: " +:+ Error err)))
      | SdkOk _ => Ret (Ok (newSize, true))
      end
  end end end.

Definition waitForServerStatus (cl : SdkClient) (serverID targetStatus : string)
    : go (option error) :=
  let* r := for_range (seq 0 60) tt (fun _ _ =>
    let* r := cloud cl (ServersGet serverID) in
    match r with
    | SdkErr _ err => Ret (Return (Some err))
    | SdkOk server =>
        if decide (Server.Status server = targetStatus) then Ret (Return None)
        else
          let* done := golang CtxErr in
          match done with
          | Some err => Ret (Return (Some err))
          | None => Ret (Next tt)
          end
    end) in
  match r with
  | inr e => Ret e
  | inl _ => Ret (Some (ErrNew ("timeout waiting for server " +:+ serverID
                                +:+ " to reach status " +:+ targetStatus)))
  end.

(** ** Device channels *)

Lemma data_channels_NoDup : NoDup ("0:2" :: data_channels).
Proof. apply (bool_decide_unpack _). vm_compute. exact I. Qed.

Lemma data_channels_length : length ("0:2" :: data_channels) = 607%nat.
Proof. by vm_compute. Qed.

Lemma findNextDeviceChannel_slot drives :
  findNextDeviceChannel drives ∈ "0:2" :: data_channels.
Proof.
  unfold findNextDeviceChannel. case_decide; [constructor|].
  destruct (find _ _) as [ch|] eqn:Hf.
  - apply find_some in Hf as [Hin _]. apply list_elem_of_In in Hin. by constructor.
  - apply (bool_decide_unpack _). by vm_compute.
Qed.

(** The 607 slots cannot all be taken by fewer than 607 drives. *)
Lemma findNextDeviceChannel_unused drives :
  (length drives < 607)%nat ->
  findNextDeviceChannel drives ∉ ServerDrive.DevChannel <$> drives.
Proof.
  intros Hlen. unfold findNextDeviceChannel.
  destruct (decide _) as [H|H]; [by rewrite elem_of_list_to_set in H|].
  destruct (find _ _) as [ch|] eqn:Hf.
  - apply find_some in Hf as [_ Hch%bool_decide_eq_true]. by rewrite elem_of_list_to_set in Hch.
  - exfalso. apply (Nat.lt_irrefl 607).
    apply (Nat.le_lt_trans _ (length (ServerDrive.DevChannel <$> drives)));
      [|by rewrite length_fmap].
    rewrite <- data_channels_length. apply NoDup_incl_length;
      [apply NoDup_ListNoDup, data_channels_NoDup|].
    intros ch Hin%list_elem_of_In. apply list_elem_of_In.
    apply elem_of_cons in Hin as [->|Hin].
    + rewrite <- (elem_of_list_to_set (C:=gset string)). by destruct (decide ("0:2" ∈
        (list_to_set (ServerDrive.DevChannel <$> drives) : gset string))).
    + pose proof (find_none _ _ Hf ch ltac:(by apply list_elem_of_In)) as Hn.
      apply bool_decide_eq_false in Hn. rewrite elem_of_list_to_set in Hn.
      by destruct (decide (ch ∈ ServerDrive.DevChannel <$> drives)).
Qed.

(** ** The server service

    What attaching relies on: [Servers.Get] returns the server as stored and
    [Servers.Update] replaces it.  Requests may fail, and a failed update may or
    may not have been applied.  An error whose text contains "404" means the
    server does not exist: the driver tells absence by that text. *)

Definition srv_post {X} (e : CloudE X)
    : gmap string Server.t -> X -> gmap string Server.t -> Prop :=
  match e in CloudE Y return gmap string Server.t -> Y -> gmap string Server.t -> Prop with
  | ServersGet uuid => fun g x g' => g' = g /\
      match x with
      | SdkOk s => g !! uuid = Some s
      | SdkErr _ err => Contains (Error err) "404" = true -> g !! uuid = None
      end
  | ServersUpdate uuid s => fun g x g' =>
      match x with
      | SdkOk _ => is_Some (g !! uuid) /\ g' = <[uuid := s]> g
      | SdkErr _ _ => g' = g \/ (is_Some (g !! uuid) /\ g' = <[uuid := s]> g)
      end
  | _ => fun g _ g' => g' = g
  end.

Definition srvI : iface Eff (gmap string Server.t) :=
  Iface (fun _ _ _ => True)
        (fun X e => match e with
                    | ECloud _ e => srv_post e
                    | _ => fun g _ g' => g' = g
                    end).

Class ServerStore {W} (h : handler Eff W) := server_store : W -> gmap string Server.t.
#[global] Arguments server_store {W} h {_} w.

Class ServerService {W} (h : handler Eff W) `{!ServerStore h} : Prop :=
  server_laws : implements h (fun w g => server_store h w = g) srvI.

Definition attached (vol : string) (s : Server.t) : Prop :=
  existsb (holds_volume vol) (Server.Drives s) = true.

(** The server without the volume. *)
Definition detach (vol : string) (s : Server.t) : Server.t :=
  Server.set_Drives s (filter (fun sd => holds_volume vol sd = false) (Server.Drives s)).

(** The server with the volume on the next channel. *)
Definition attach (vol : string) (s : Server.t) : Server.t :=
  Server.set_Drives s
    (Server.Drives s ++ [new_drive vol (findNextDeviceChannel (Server.Drives s))]).

(** A change of the server store in which each server goes through [R]. *)
Definition per_server (R : string -> Server.t -> Server.t -> Prop)
    (g g' : gmap string Server.t) : Prop :=
  forall u, option_relation (R u) (fun _ => False) (fun _ => False) (g !! u) (g' !! u).

Lemma per_server_refl (R : string -> Server.t -> Server.t -> Prop) g :
  (forall u s, g !! u = Some s -> R u s s) -> per_server R g g.
Proof. intros H u. destruct (g !! u) eqn:E; simpl; auto. Qed.

Lemma per_server_insert (R : string -> Server.t -> Server.t -> Prop) g uuid s s' :
  g !! uuid = Some s -> R uuid s s' -> (forall u s, g !! u = Some s -> R u s s) ->
  per_server R g (<[uuid := s']> g).
Proof.
  intros Hs HR Hrefl u. destruct (decide (uuid = u)) as [->|Hne].
  - by rewrite lookup_insert_eq, Hs.
  - rewrite lookup_insert_ne by done. destruct (g !! u) eqn:E; simpl; auto.
Qed.

(** What publishing may do to a server: nothing, attaching the volume to the
    requested node if it is not there yet, detaching it from another server. *)
Definition publish_rel (vol node u : string) (s s' : Server.t) : Prop :=
  s' = s \/
  (u = node /\ ~ attached vol s /\ s' = attach vol s) \/
  (u <> node /\ s' = detach vol s).

Definition unpublish_rel (vol node u : string) (s s' : Server.t) : Prop :=
  s' = s \/ (u = node /\ attached vol s /\ s' = detach vol s).

Lemma find_existsb {A} (f : A -> bool) l :
  match find f l with Some x => f x = true /\ x ∈ l | None => existsb f l = false end.
Proof.
  destruct (find f l) as [x|] eqn:H.
  - apply find_some in H as [Hin Hf]. split; [done|by apply list_elem_of_In].
  - apply not_true_iff_false. intros (x & Hin & Hf)%existsb_exists.
    by rewrite (find_none _ _ H x Hin) in Hf.
Qed.

Section attach.
Context (vol node : string).

(** The node keeps its state while the volume is taken off another server. *)
Definition others_rel (u : string) (s s' : Server.t) : Prop :=
  s' = s \/ (u <> node /\ s' = detach vol s).

Lemma wp_detach_from_others cl mounts g :
  wp srvI (detach_from_others cl {| pub_VolumeId := vol; pub_NodeId := node |} mounts)
     (ok (fun _ g' => per_server others_rel g g')) g.
Proof.
  assert (Hrefl : per_server others_rel g g) by (apply per_server_refl; by left).
  apply (wp_for_range _ (fun _ (_ : unit) g' => g' = g)); [done| |by intros [] ? ->].
  intros mount todo [] g' _ ->. simpl. case_decide as Hne; [by apply wp_ret|].
  wp_call x Hx. destruct Hx as [-> Hx]. destruct x as [s|resp err].
  2:{ case_match; by apply wp_ret. }
  wp_call y Hy. apply wp_ret. cbn in Hy |- *.
  destruct y as [|resp err]; [destruct Hy as [_ ->]|destruct Hy as [->|[_ ->]]];
    try done; (eapply per_server_insert; [done| |by left]); by right.
Qed.

Lemma holds_new_drive ch : holds_volume vol (new_drive vol ch) = true.
Proof. unfold holds_volume. simpl. by apply bool_decide_eq_true. Qed.

(** The outcome of publishing: on success the volume is attached to the node
    at the channel the response names. *)
Definition published (r : result (gmap string string)) (g' : gmap string Server.t) : Prop :=
  match r with
  | Err _ => True
  | Ok ctx => exists s sd, g' !! node = Some s /\ sd ∈ Server.Drives s /\
      holds_volume vol sd = true /\ ctx = publish_context vol (ServerDrive.DevChannel sd)
  end.

Lemma wp_publish d g :
  wp srvI (ControllerPublishVolume d {| pub_VolumeId := vol; pub_NodeId := node |})
     (ok (fun r g' => per_server (publish_rel vol node) g g' /\ published r g')) g.
Proof.
  assert (Hrefl : forall e, per_server (publish_rel vol node) g g /\ published (Err e) g)
    by (split; [apply per_server_refl; by left|done]).
  unfold ControllerPublishVolume. cbn [pub_VolumeId pub_NodeId].
  do 2 (case_decide; [apply wp_ret, Hrefl|]).
  destruct (cloudClient d) as [c|]; [|apply wp_ret, Hrefl].
  unfold with_lock. wp_call l Hl. cbn in Hl. subst.
  eapply (wp_seq _ _ _ (fun r g' => per_server (publish_rel vol node) g g' /\ published r g')).
  2:{ intros r g' H'. wp_call u Hu. cbn in Hu. subst. by apply wp_ret. }
  wp_call x Hx. destruct Hx as [-> Hx]. destruct x as [s|resp err]; [|apply wp_ret, Hrefl].
  pose proof (find_existsb (holds_volume vol) (Server.Drives s)) as Hfind.
  destruct (find _ _) as [sd|].
  { apply wp_ret. split; [apply per_server_refl; by left|].
    destruct Hfind as [Hh Hin]. exists s, sd. split_and!; done. }
  wp_call y Hy. cbn in Hy. subst. destruct y as [drive|resp err]; [|apply wp_ret, Hrefl].
  eapply (wp_seq _ _ _ (fun _ g' => per_server others_rel g g')).
  { case_decide; [|apply wp_ret, per_server_refl; by left].
    apply (wp_detach_from_others c (Drive.MountedOn drive)). }
  intros det g1 Hothers.
  assert (Hsub : per_server (publish_rel vol node) g g1).
  { intros u. specialize (Hothers u). destruct (g !! u), (g1 !! u); simpl in *; try done.
    destruct Hothers as [->|[? ->]]; [by left|by right; right]. }
  assert (Hnode : g1 !! node = Some s).
  { specialize (Hothers node). rewrite Hx in Hothers.
    destruct (g1 !! node); simpl in *; [|done]. by destruct Hothers as [->|[? _]]. }
  destruct det as [_|e]; [|by apply wp_ret].
  assert (Hatt : per_server (publish_rel vol node) g (<[node := attach vol s]> g1)).
  { intros u. destruct (decide (node = u)) as [<-|Hne].
    - rewrite lookup_insert_eq, Hx. simpl. right. left. split_and!; [done| |done].
      unfold attached. by rewrite Hfind.
    - rewrite lookup_insert_ne by done. apply Hsub. }
  wp_call z Hz. cbn in Hz.
  destruct z as [[]|resp err].
  - destruct Hz as [_ ->]. apply wp_ret. split; [done|].
    eexists _, _. rewrite lookup_insert_eq. split_and!; [done|apply elem_of_snoc| |done].
    apply holds_new_drive.
  - apply wp_ret. split; [|done]. by destruct Hz as [->|[_ ->]].
Qed.
End attach.

Lemma filter_existsb_none {A} (f : A -> bool) l :
  existsb f (filter (fun x => f x = false) l) = false.
Proof.
  apply not_true_iff_false. intros (x & Hin & Hf)%existsb_exists.
  apply list_elem_of_In in Hin. apply list_elem_of_filter in Hin as [Hx _]. congruence.
Qed.

Lemma filter_existsb_id {A} (f : A -> bool) l :
  existsb f l = false -> filter (fun x => f x = false) l = l.
Proof.
  induction l as [|x l IH]; [done|]. simpl. intros [Hx Hl]%orb_false_iff.
  rewrite filter_cons_True by done. by rewrite IH.
Qed.

Lemma set_Drives_id s : Server.set_Drives s (Server.Drives s) = s.
Proof. by destruct s. Qed.

Lemma not_attached_detach vol s : ~ attached vol (detach vol s).
Proof. unfold attached, detach. simpl. by rewrite filter_existsb_none. Qed.

Section unpublish.
Context (vol node : string).

Lemma wp_verify_detached cl g :
  wp srvI (verify_detached cl vol) (ok (fun _ g' => g' = g)) g.
Proof.
  unfold verify_detached.
  eapply (wp_seq _ _ _ (fun _ g' => g' = g)); [|by intros ? ? ->].
  apply (wp_for_range _ (fun _ (_ : unit) g' => g' = g)); [done| |by intros [] ? ->].
  intros i todo [] g' _ ->. wp_call x Hx. cbn in Hx. subst. cbv zeta.
  assert (Hwait : wp srvI (if decide (i < maxRetries - 1)%nat
      then golang (Sleep (1 * second)) ;; Ret (Next tt) else Ret (Next tt))
      (ok (fun (c : ctl unit unit) g'' => match c with
        | Next _ => g'' = g | Break _ => g'' = g | Return _ => g'' = g end)) g).
  { case_decide; [|by apply wp_ret]. wp_call y Hy. cbn in Hy. subst. by apply wp_ret. }
  destruct x as [drive|resp err].
  - destruct (decide (_ /\ _)); [by apply wp_ret|exact Hwait].
  - destruct (Contains _ _); [by apply wp_ret|exact Hwait].
Qed.

(** On success the volume is not attached to the node, or the node is gone. *)
Definition unpublished (r : result unit) (g' : gmap string Server.t) : Prop :=
  match r with
  | Err _ => True
  | Ok _ => forall s, g' !! node = Some s -> ~ attached vol s
  end.

Lemma wp_unpublish d g :
  wp srvI (ControllerUnpublishVolume d {| pub_VolumeId := vol; pub_NodeId := node |})
     (ok (fun r g' => per_server (unpublish_rel vol node) g g' /\ unpublished r g')) g.
Proof.
  assert (Hr : per_server (unpublish_rel vol node) g g) by (apply per_server_refl; by left).
  assert (Hrefl : forall e, per_server (unpublish_rel vol node) g g /\
    unpublished (Err e) g) by (by split).
  unfold ControllerUnpublishVolume. cbn [pub_VolumeId pub_NodeId].
  do 2 (case_decide; [apply wp_ret, Hrefl|]).
  destruct (cloudClient d) as [c|]; [|apply wp_ret, Hrefl].
  wp_call x Hx. destruct Hx as [-> Hx]. destruct x as [s|resp err].
  2:{ case_match eqn:H404; [|apply wp_ret, Hrefl]. apply wp_ret. split; [done|].
      intros s Hs. rewrite Hx in Hs; done. }
  destruct (existsb _ _) eqn:Hatt; cbn [negb].
  2:{ apply wp_ret. split; [done|]. intros s' Hs'. rewrite Hx in Hs'. simplify_eq.
      unfold attached. by rewrite Hatt. }
  assert (Hdet : per_server (unpublish_rel vol node) g (<[node := detach vol s]> g)).
  { eapply per_server_insert; [done|by right|by left]. }
  wp_call y Hy. cbn in Hy. destruct y as [[]|resp err].
  - destruct Hy as [_ ->]. eapply wp_seq; [apply wp_verify_detached|].
    intros _ ? ->. apply wp_ret. split; [done|]. intros s' Hs'.
    rewrite lookup_insert_eq in Hs'. simplify_eq. apply not_attached_detach.
  - assert (Hg : per_server (unpublish_rel vol node) g g')
      by (by destruct Hy as [->|[_ ->]]).
    wp_call v Hv. destruct Hv as [-> Hv]. destruct v as [vs|resp' err'].
    + destruct (existsb _ (Server.Drives vs)) eqn:Hvs; cbn [negb]; apply wp_ret;
        (split; [done|]); [done|]. intros s' Hs'. rewrite Hv in Hs'. simplify_eq.
      unfold attached. by rewrite Hvs.
    + case_match eqn:H404; apply wp_ret; (split; [done|]); [|done].
      intros s' Hs'. rewrite Hv in Hs'; done.
Qed.
End unpublish.

(** ** From the rules to runs *)

Lemma run_wp_server {W} (h : handler Eff W) `{!ServerStore h, !ServerService h} {A}
    (p : go A) (Q : A -> gmap string Server.t -> Prop) w :
  wp srvI p (ok Q) (server_store h w) ->
  exists a w', run h p w = (Done a, w') /\ Q a (server_store h w').
Proof.
  intros Hp. destruct (wp_run _ _ _ _ _ w _ server_laws eq_refl Hp) as (g' & HQ & HR).
  destruct (run h p w) as [[a|why] w']; simpl in *; [|done]. subst. eauto.
Qed.

(** Each server's drives sit on distinct channels. *)
Definition channels_distinct (g : gmap string Server.t) : Prop :=
  forall u s, g !! u = Some s -> NoDup (ServerDrive.DevChannel <$> Server.Drives s).

Lemma NoDup_fmap_filter {A B} (f : A -> B) (P : A -> Prop) `{!forall x, Decision (P x)} l :
  NoDup (f <$> l) -> NoDup (f <$> filter P l).
Proof.
  intros Hd. eapply sublist_NoDup; [exact Hd|]. apply fmap_sublist, sublist_filter.
Qed.

Lemma attach_channels vol s :
  (length (Server.Drives s) < 607)%nat ->
  NoDup (ServerDrive.DevChannel <$> Server.Drives s) ->
  NoDup (ServerDrive.DevChannel <$> Server.Drives (attach vol s)).
Proof.
  intros Hlen Hd. unfold attach. cbn [Server.Drives Server.set_Drives].
  rewrite fmap_app. apply NoDup_app. split_and!; [done| |apply NoDup_singleton].
  intros ch Hin ->%list_elem_of_singleton. by apply (findNextDeviceChannel_unused _ Hlen).
Qed.

Lemma channels_distinct_publish vol node g g' :
  (forall s, g !! node = Some s -> (length (Server.Drives s) < 607)%nat) ->
  per_server (publish_rel vol node) g g' -> channels_distinct g -> channels_distinct g'.
Proof.
  intros Hlen Hrel Hd u s' Hs'. specialize (Hrel u). rewrite Hs' in Hrel.
  destruct (g !! u) as [s|] eqn:Hs; simpl in Hrel; [|done]. specialize (Hd _ _ Hs).
  destruct Hrel as [->|[(-> & _ & ->)|[_ ->]]]; [done| |].
  - apply attach_channels; auto.
  - by apply NoDup_fmap_filter.
Qed.

Lemma channels_distinct_unpublish vol node g g' :
  per_server (unpublish_rel vol node) g g' -> channels_distinct g -> channels_distinct g'.
Proof.
  intros Hrel Hd u s' Hs'. specialize (Hrel u). rewrite Hs' in Hrel.
  destruct (g !! u) as [s|] eqn:Hs; simpl in Hrel; [|done]. specialize (Hd _ _ Hs).
  destruct Hrel as [->|(_ & _ & ->)]; [done|]. by apply NoDup_fmap_filter.
Qed.

(** The driver serving requests one after the other; a publish finds a free slot
    on its node. *)
Inductive csi_step {W} (h : handler Eff W) `{!ServerStore h} (d : Driver) : W -> W -> Prop :=
| step_publish vol node w :
    (forall s, server_store h w !! node = Some s -> (length (Server.Drives s) < 607)%nat) ->
    csi_step h d w
      (run h (ControllerPublishVolume d {| pub_VolumeId := vol; pub_NodeId := node |}) w).2
| step_unpublish vol node w :
    csi_step h d w
      (run h (ControllerUnpublishVolume d {| pub_VolumeId := vol; pub_NodeId := node |}) w).2.

(** ** A concrete server and drive service *)

Record sim_world := { sw_servers : gmap string Server.t; sw_drives : list Drive.t }.

Definition not_found {A} : sdk A := SdkErr (Some 404%Z) (ErrNew "404 Not Found").

(** Creating a drive gives it the next UUID. *)
Definition sim_drive_uuid (l : list Drive.t) : string := foldr String.append "v" (Drive.UUID <$> l).

Definition sim_csi_cloud {X} (e : CloudE X) (w : sim_world) : X * sim_world :=
  match e in CloudE Y return Y * sim_world with
  | ServersGet uuid =>
      (match sw_servers w !! uuid with Some s => SdkOk s | None => not_found end, w)
  | ServersUpdate uuid s =>
      match sw_servers w !! uuid with
      | Some _ => (SdkOk tt, {| sw_servers := <[uuid := s]> (sw_servers w);
                                sw_drives := sw_drives w |})
      | None => (not_found, w)
      end
  | DrivesGet uuid =>
      (match find (fun d => bool_decide (Drive.UUID d = uuid)) (sw_drives w) with
       | Some d => SdkOk d | None => not_found end, w)
  | DrivesList => (SdkOk (sw_drives w), w)
  | DrivesCreate ds =>
      let new := (fun d => Drive.mk (sim_drive_uuid (sw_drives w)) (Drive.Name d)
                   (Drive.Size d) "unmounted" (Drive.Media d) (Drive.StorageType d) []) <$> ds in
      (SdkOk new, {| sw_servers := sw_servers w; sw_drives := sw_drives w ++ new |})
  | e => (deaf_cloud e, w)
  end.

Definition sim_csi : handler Eff sim_world :=
  fun X e w => match e with ECloud _ e => sim_csi_cloud e w | e => (deaf e, w) end.

#[global] Instance sim_csi_store : ServerStore sim_csi := sw_servers.

#[global] Instance sim_csi_ok : ServerService sim_csi.
Proof.
  intros X e w g HR _. unfold server_store, sim_csi_store in *. subst g.
  destruct e as [c e|e|e|e|e|e|e|e]; simpl; [|by eauto..].
  destruct e; simpl; eauto.
  - destruct (sw_servers w !! uuid) eqn:H; simpl; eauto.
  - destruct (sw_servers w !! uuid) eqn:H; simpl; eauto.
Qed.

(** ** Properties of attaching and detaching *)

(** While a server has fewer than 607 drives, [findNextDeviceChannel]
    returns one of the slots the hypervisor offers (the second slot of the boot
    controller or a slot of controllers 1 to 202), and one no drive of the
    server uses. *)
Theorem findNextDeviceChannel_fresh drives (Hfree : (length drives < 607)%nat) :
  findNextDeviceChannel drives ∈ "0:2" :: data_channels /\
  (findNextDeviceChannel drives ∉ ServerDrive.DevChannel <$> drives).
Proof.
  split; [apply findNextDeviceChannel_slot|by apply findNextDeviceChannel_unused].
Qed.

(** C6. Whatever sequence of publish and unpublish requests the driver serves,
    with requests to the server service failing at will, no two drives of a
    server ever share a device channel. *)
Theorem csi_channels_distinct {W} (h : handler Eff W) `{!ServerStore h, !ServerService h} d w w'
    (Hd : channels_distinct (server_store h w)) (Hsteps : rtc (csi_step h d) w w') :
  channels_distinct (server_store h w').
Proof.
  induction Hsteps as [|w w1 w' Hstep _ IH]; [done|]. apply IH. clear IH.
  destruct Hstep as [vol node w Hlen|vol node w].
  - destruct (run_wp_server h _ _ w (wp_publish vol node d _)) as (r & w2 & -> & Hrel & _).
    by eapply channels_distinct_publish.
  - destruct (run_wp_server h _ _ w (wp_unpublish vol node d _)) as (r & w2 & -> & Hrel & _).
    by eapply channels_distinct_unpublish.
Qed.

(** C21. [ControllerPublishVolume] returns; when it reports success the node has a
    drive entry for the volume at the channel of the publish context; and
    whatever it reports, servers change only in the two ways intended: the
    volume is added to the requested node, which did not have it, or taken off
    another server. *)
Theorem ControllerPublishVolume_effect {W} (h : handler Eff W) `{!ServerStore h, !ServerService h}
    d vol node w :
  exists r w',
    run h (ControllerPublishVolume d {| pub_VolumeId := vol; pub_NodeId := node |}) w
      = (Done r, w') /\
    per_server (publish_rel vol node) (server_store h w) (server_store h w') /\
    published vol node r (server_store h w').
Proof.
  destruct (run_wp_server h _ _ w (wp_publish vol node d _)) as (r & w' & Hrun & H). eauto.
Qed.

(** *** Taking a volume off a node, request by request *)

Inductive detach_event :=
| NodeRead (uuid : string) (x : sdk Server.t)
| NodeWritten (uuid : string) (s : Server.t) (ok : bool)
| DriveSeen (uuid : string) (x : sdk Drive.t)
| Waited (ns : Z).

Definition detach_view : view Eff detach_event := fun X e =>
  match e in Eff _ return X -> list detach_event with
  | ECloud _ ce =>
      match ce in CloudE Y return Y -> list detach_event with
      | ServersGet u => fun x => [NodeRead u x]
      | ServersUpdate u s => fun x => [NodeWritten u s (match x with SdkOk _ => true | SdkErr _ _ => false end)]
      | DrivesGet u => fun x => [DriveSeen u x]
      | _ => fun _ => []
      end
  | EGo ge =>
      match ge in GoE Y return Y -> list detach_event with
      | Sleep ns => fun _ => [Waited ns]
      | _ => fun _ => []
      end
  | _ => fun _ => []
  end.

(** An error that is taken for "there is no such server, or drive". *)
Definition says_404 {A} (x : sdk A) : bool :=
  match x with SdkOk _ => false | SdkErr _ err => Contains (Error err) "404" end.

(** The drive is attached nowhere, or gone. *)
Definition loose (x : sdk Drive.t) : bool :=
  match x with
  | SdkOk drive => bool_decide (Drive.Status drive = "unmounted" /\ Drive.MountedOn drive = [])
  | SdkErr _ _ => says_404 x
  end.

(** A reading that is followed by a second of waiting. *)
Definition seen_busy (vol : string) (x : sdk Drive.t) : list detach_event :=
  [DriveSeen vol x; Waited second].

(** The drive is read once a second until it is seen loose, thirty times at most. *)
Definition polled (vol : string) (l : list detach_event) : Prop :=
  exists xs x, l = (xs ≫= seen_busy vol) ++ [DriveSeen vol x] /\
  Forall (fun y => loose y = false) xs /\ (length xs < maxRetries)%nat /\
  (loose x = true \/ S (length xs) = maxRetries).

Definition taken_off (vol : string) (s : Server.t) : Server.t :=
  Server.set_Drives s (filter (fun sd => holds_volume vol sd = false) (Server.Drives s)).

(** The server shows that the volume is not attached to it, or is taken to be gone. *)
Definition without (vol : string) (x : sdk Server.t) : bool :=
  match x with
  | SdkOk s => negb (existsb (holds_volume vol) (Server.Drives s))
  | SdkErr _ _ => says_404 x
  end.

(** The course of [ControllerUnpublishVolume]. *)
Definition unpublish_course (vol node : string) (r : result unit) (l : list detach_event) : Prop :=
  exists x l1, l = NodeRead node x :: l1 /\
  match x with
  | SdkOk s =>
      if without vol x then l1 = [] /\ r = Ok tt
      else (exists l2, l1 = NodeWritten node (taken_off vol s) true :: l2 /\ polled vol l2 /\ r = Ok tt)
           \/ (exists y, l1 = [NodeWritten node (taken_off vol s) false; NodeRead node y] /\
               (r = Ok tt <-> without vol y = true))
  | SdkErr _ _ => l1 = [] /\ (r = Ok tt <-> without vol x = true)
  end.

(** What the loop has done when [n] attempts are left. *)
Definition polling (vol : string) (l0 : list detach_event) (n : nat) (l : list detach_event) : Prop :=
  exists xs, l = l0 ++ (xs ≫= seen_busy vol) /\
             Forall (fun y => loose y = false) xs /\ (length xs + n = maxRetries)%nat.

Lemma wp_verify_detached_polls cl vol l0 :
  wp (anyI detach_view) (verify_detached cl vol)
     (ok (fun _ l => exists l2, l = l0 ++ l2 /\ polled vol l2)) l0.
Proof.
  unfold verify_detached.
  eapply (wp_seq _ _ _ (fun _ l => exists l2, l = l0 ++ l2 /\ polled vol l2));
    [|intros ? l Hl; by apply wp_ret].
  apply (wp_for_range _ (fun todo _ l => (exists i, todo = seq i (length todo) /\
           (i + length todo = maxRetries)%nat) /\
         if decide (todo = []) then exists l2, l = l0 ++ l2 /\ polled vol l2
         else polling vol l0 (length todo) l)).
  - split; [by exists 0%nat|]. exists []. cbn. by rewrite app_nil_r.
  - intros i todo [] l _ [(j & Hseq & Hj) (xs & -> & Hxs & Hlen)]. cbn [length seq] in *.
    injection Hseq as <- Hseq. wp_call x Hx. cbn in Hx. subst g'. cbv zeta.
    assert (Hlast : loose x = true \/ todo = [] -> exists l2,
      (l0 ++ (xs ≫= seen_busy vol)) ++ [DriveSeen vol x] = l0 ++ l2
      /\ polled vol l2).
    { intros Hx. eexists. split; [by rewrite <- app_assoc|]. exists xs, x. split_and!; [done|done|lia|].
      destruct Hx as [| ->]; [by left|right]. cbn in Hlen. lia. }
    assert (Hwait : loose x = false -> wp (anyI detach_view) (if decide (i < maxRetries - 1)%nat
      then golang (Sleep (1 * second)) ;; Ret (Next tt) else Ret (Next tt))
      (ok (fun (c : ctl unit unit) l => match c with
        | Next _ => (exists i, todo = seq i (length todo) /\ (i + length todo = maxRetries)%nat) /\
            if decide (todo = []) then exists l2, l = l0 ++ l2 /\ polled vol l2
            else polling vol l0 (length todo) l
        | Break _ | Return _ => exists l2, l = l0 ++ l2 /\ polled vol l2 end))
      ((l0 ++ (xs ≫= seen_busy vol)) ++ [DriveSeen vol x])).
    { intros Hx. assert (Htodo : todo = [] <-> ~ (i < maxRetries - 1)%nat).
      { rewrite Hseq. split; [intros H%(f_equal length); rewrite length_seq in H; cbn in H; lia|].
        intros H. destruct (length todo) eqn:E; [done|lia]. }
      case_decide as Hi.
      - wp_call u Hu. cbn in Hu. subst g'. apply wp_ret. split; [exists (S i); split; [done|lia]|].
        rewrite decide_False by tauto. exists (xs ++ [x]). rewrite bind_app. cbn.
        rewrite <- !app_assoc. cbn. split_and!; [done| |rewrite length_app; cbn; lia].
        apply Forall_app. split; [done|by apply Forall_singleton].
      - apply wp_ret. split; [exists (S i); split; [done|lia]|].
        rewrite decide_True by tauto. apply Hlast. right. tauto. }
    destruct x as [drive|resp err]; cbn in Hlast, Hwait.
    + case_bool_decide as Hd; [rewrite decide_True by done; apply wp_ret, Hlast; by left|].
      rewrite decide_False by done. by apply Hwait.
    + destruct (Contains _ _); [apply wp_ret, Hlast; by left|by apply Hwait].
  - intros [] l [_ H]. exact H.
Qed.

(** C11. Taking a volume off a node, in every environment: the server is read; if it
    does not have the volume, or an error that mentions 404 answers, the request has
    succeeded.  Otherwise the server is written once, without the volume and with all
    its other drives.  If that succeeds the drive is read once a second until it is
    unmounted, on no server, or gone, but no more than thirty times, and the request
    succeeds in either case: detaching is asynchronous and the wait may run out with
    the volume still mounted.  If the write fails, the request succeeds exactly when
    the server, read again, does not have the volume. *)
Theorem ControllerUnpublishVolume_course {W} (h : handler Eff W) d vol node w cl
    (Hvol : vol <> "") (Hnode : node <> "") (Hcl : cloudClient d = Some cl) :
  let '(o, l) := observe detach_view h
    (ControllerUnpublishVolume d {| pub_VolumeId := vol; pub_NodeId := node |}) w in
  exists r, o = Done r /\ unpublish_course vol node r l.
Proof.
  apply (observe_intro detach_view h _ w
    (fun o l => exists r, o = Done r /\ unpublish_course vol node r l)).
  eapply (wp_mono _ _ (ok (fun r l => unpublish_course vol node r l)));
    [intros [r|] l; simpl; [eauto|done]|].
  unfold ControllerUnpublishVolume. cbn [pub_VolumeId pub_NodeId].
  rewrite !decide_False, Hcl by done. wp_call x Hx. cbn in Hx. subst g'.
  destruct x as [s|resp err].
  2:{ case_match eqn:E; apply wp_ret; eexists _, []; (split; [done|]); cbn; by rewrite E. }
  destruct (existsb _ _) eqn:Hatt; cbn [negb].
  2:{ apply wp_ret. eexists _, []. split; [done|]. cbn. by rewrite Hatt. }
  wp_call y Hy. cbn in Hy. subst g'. destruct y as [u|resp err].
  - eapply wp_seq; [apply wp_verify_detached_polls|]. intros _ l (l2 & -> & Hl2). apply wp_ret.
    eexists _, _. split; [done|]. cbn. rewrite Hatt. cbn. left. by exists l2.
  - wp_call v Hv. cbn in Hv. subst g'.
    assert (Hend : forall r : result unit, (r = Ok tt <-> without vol v = true) ->
      unpublish_course vol node r
        [NodeRead node (SdkOk s); NodeWritten node (taken_off vol s) false; NodeRead node v]).
    { intros r Hr. eexists _, _. split; [done|]. cbn. rewrite Hatt. right. by eexists. }
    destruct v as [vs|resp' err'].
    + destruct (existsb _ (Server.Drives vs)) eqn:Hvs; cbn [negb]; apply wp_ret, Hend; cbn; by rewrite Hvs.
    + case_match eqn:E; apply wp_ret, Hend; cbn; by rewrite E.
Qed.

(** ** Creating, deleting and expanding volumes *)

(** Tagging leaves no trace in a view that does not record tag requests. *)
Definition tag_silent {C} (v : view Eff C) : Prop :=
  forall cl,
    (forall x, v _ (ECloud cl TagsList) x = []) /\
    (forall u n r x, v _ (ECloud cl (TagsUpdate u n r)) x = []) /\
    (forall n r x, v _ (ECloud cl (TagsCreate n r)) x = []).

Section silent.
Context {C : Type} (v : view Eff C) (Hv : tag_silent v).

Lemma wp_ensureTag_silent cl n u g :
  wp (anyI v) (ensureTag cl n u) (ok (fun _ g' => g' = g)) g.
Proof using Hv.
  destruct (Hv cl) as (Hl & Hu & Hc). unfold ensureTag. wp_call x Hx.
  rewrite Hl, app_nil_r in Hx. subst. destruct x; [|by apply wp_ret].
  destruct (find _ _); [destruct (decide _); [by apply wp_ret|]|];
    wp_call y Hy; rewrite ?Hu, ?Hc, app_nil_r in Hy; subst; destruct y; by apply wp_ret.
Qed.

Lemma wp_tagDrive_silent co cluster u n g :
  wp (anyI v) (tagDrive co cluster u n) (ok (fun _ g' => g' = g)) g.
Proof using Hv.
  unfold tagDrive. destruct co as [cl|]; [|by apply wp_ret].
  apply (wp_for_each _ (fun _ (_ : unit) g' => g' = g)); [done| |by intros].
  intros x l' [] g' _ ->. eapply wp_seq; [apply wp_ensureTag_silent|].
  intros ? ? ->. by apply wp_ret.
Qed.

Lemma wp_untagDrive_silent co u g :
  wp (anyI v) (untagDrive co u) (ok (fun _ g' => g' = g)) g.
Proof using Hv.
  unfold untagDrive. destruct co as [cl|]; [|by apply wp_ret].
  destruct (Hv cl) as (Hl & Hu & _). unfold untagAll. wp_call x Hx.
  rewrite Hl, app_nil_r in Hx. subst. destruct x; [|by apply wp_ret].
  apply (wp_for_each _ (fun _ (_ : unit) g' => g' = g)); [done| |by intros].
  intros t l' [] g' _ ->. destruct (negb _); [by apply wp_ret|].
  destruct (decide _); [|by apply wp_ret]. wp_call y Hy.
  rewrite Hu, app_nil_r in Hy. subst. by apply wp_ret.
Qed.
End silent.

(** What the volume requests do to drives, in the order they do it. *)
Inductive drive_event :=
| EvGet (uuid : string) (answer : sdk Drive.t)
| EvCreate (drives : list Drive.t)
| EvResize (uuid name media : string) (size : Z)
| EvDelete (uuid : string) (answer : sdk unit).

Definition drive_view : view Eff drive_event := fun X e =>
  match e in Eff _ return X -> list drive_event with
  | ECloud _ ce =>
      match ce in CloudE Y return Y -> list drive_event with
      | DrivesGet uuid => fun x => [EvGet uuid x]
      | DrivesCreate ds => fun _ => [EvCreate ds]
      | DrivesResize uuid name media size => fun _ => [EvResize uuid name media size]
      | DrivesDelete uuid => fun x => [EvDelete uuid x]
      | _ => fun _ => []
      end
  | _ => fun _ => []
  end.

Lemma drive_view_silent : tag_silent drive_view.
Proof. done. Qed.

(** The size a capacity range asks for. *)
Definition wanted (r : CapacityRange) : Z :=
  if decide (RequiredBytes r > 0)%Z then RequiredBytes r else DefaultVolumeSize.

(** C37. The size of a new volume: never below the 1 GiB minimum, above the
    10 TiB maximum or below what is required, and within a given limit except
    when the limit itself is below the minimum, in which case the limit is
    overrun; sizes that cannot be served are answered with OUT_OF_RANGE. *)
Theorem volume_size_spec r :
  match volume_size (Some r) with
  | Ok size =>
      (MinVolumeSize <= size <= MaxVolumeSize /\ RequiredBytes r <= size /\
       size = Z.max (wanted r) MinVolumeSize /\
       (0 < LimitBytes r -> size <= LimitBytes r \/
                            (LimitBytes r < MinVolumeSize /\ size = MinVolumeSize)))%Z
  | Err e =>
      (exists msg, e = ErrStatus OutOfRange msg) /\
      (0 < LimitBytes r < wanted r \/ MaxVolumeSize < wanted r)%Z
  end.
Proof.
  unfold volume_size, wanted. destruct r as [req lim]. cbn [RequiredBytes LimitBytes].
  assert (MinVolumeSize = 1073741824%Z) as EMin by done.
  assert (MaxVolumeSize = 10995116277760%Z) as EMax by done.
  assert (DefaultVolumeSize = 10737418240%Z) as EDef by done.
  repeat case_decide; (split; [eauto|]) || idtac; lia.
Qed.

(** A limit below the minimum is overrun. *)
Example volume_size_over_limit :
  volume_size (Some {| RequiredBytes := 100000000; LimitBytes := 500000000 |})
  = Ok 1073741824%Z.
Proof. by vm_compute. Qed.

(** What [CreateVolume] answers and requests. *)
Definition create_outcome (d : Driver) (req : CreateVolumeRequest)
    (o : outcome (result Volume)) (l : list drive_event) : Prop :=
  exists r, o = Done r /\
    (forall v, r = Ok v -> VolumeContext v = cv_Parameters req /\
                           AccessibleTopology v = topology d) /\
    (l = [] \/
     exists size, volume_size (cv_CapacityRange req) = Ok size /\ cv_Name req <> "" /\
       l = [EvCreate [Drive.mk "" (cv_Name req) size "" "disk"
              (default StorageTypeDSSD (cv_Parameters req !! "storageType")) []]]).

(** [CreateVolume] in every environment: it returns, and it creates at most
    one drive, which carries the requested name, the size [volume_size] computes,
    and the storage class of the parameters; a request it rejects or a volume it
    finds creates nothing, and a success answers with the request's parameters
    and the driver's region. *)
Theorem CreateVolume_discipline {W} (h : handler Eff W) d req w :
  let '(o, l) := observe drive_view h (CreateVolume d req) w in create_outcome d req o l.
Proof.
  apply observe_intro. set (P := create_outcome d req).
  assert (Hrefl : forall e, P (Done (Err e)) []) by (intros e; eexists; split_and!; eauto; done).
  unfold CreateVolume. case_decide as Hname; [apply wp_ret, Hrefl|].
  destruct (cloudClient d) as [cl|]; [|apply wp_ret, Hrefl].
  case_decide; [apply wp_ret, Hrefl|].
  destruct (negb _); [apply wp_ret, Hrefl|].
  destruct (volume_size _) as [size|e] eqn:Hsize; [|apply wp_ret, Hrefl].
  assert (Hok : forall v, VolumeContext v = cv_Parameters req /\
    AccessibleTopology v = topology d -> P (Done (Ok v)) []).
  { intros v Hv. eexists. split; [done|]. split; [|by left]. intros ? [= <-]. done. }
  eapply wp_seq with (P := fun _ g => g = []).
  { unfold findDriveByName. wp_call x Hx. cbn in Hx. subst. destruct x; by apply wp_ret. }
  intros [[dr|]|err] ? ->; [by apply wp_ret, Hok| |apply wp_ret, Hrefl].
  wp_call y Hy. cbn in Hy. subst.
  assert (Hc : forall r, (forall v, r = Ok v -> VolumeContext v = cv_Parameters req /\
                            AccessibleTopology v = topology d) ->
    P (Done r) [EvCreate [Drive.mk "" (cv_Name req) size "" "disk"
              (default StorageTypeDSSD (cv_Parameters req !! "storageType")) []]]).
  { intros r Hr. exists r. split_and!; [done|done|]. right. by exists size. }
  destruct y as [[|dr ds]|resp err]; [by apply wp_ret, Hc| |by apply wp_ret, Hc].
  eapply wp_seq; [apply wp_tagDrive_silent, drive_view_silent|].
  intros [] ? ->. apply wp_ret, Hc. intros v [= <-]. done.
Qed.

Definition reports_missing (err : error) : bool :=
  Contains (Error err) "404" || Contains (Error err) "not found".

(** What [DeleteVolume] does, as the record of its requests and its answer. *)
Definition delete_outcome (vol : string) (r : result unit) (l : list drive_event) : Prop :=
  match l with
  | [] => exists c msg, r = Err (ErrStatus c msg)
  | [EvGet u (SdkErr _ err)] => u = vol /\ is_Ok r = reports_missing err
  | [EvGet u (SdkOk d)] =>
      u = vol /\ Drive.Status d = "mounted" /\
      exists msg, r = Err (ErrStatus FailedPrecondition msg)
  | [EvGet u (SdkOk d); EvDelete u' x] =>
      u = vol /\ u' = vol /\ Drive.Status d <> "mounted" /\
      is_Ok r = match x with SdkOk _ => true | SdkErr _ _ => false end
  | _ => False
  end.

(** C26. [DeleteVolume] in every environment: it deletes nothing but the volume
    named, at most once, and only after the API has answered that the volume is
    not mounted; it reports success exactly when the deletion succeeded or the
    error of the look-up says in its text that the drive is missing. *)
Theorem DeleteVolume_safe {W} (h : handler Eff W) d vol w :
  let '(o, l) := observe drive_view h (DeleteVolume d vol) w in
  exists r, o = Done r /\ delete_outcome vol r l.
Proof.
  apply observe_intro. unfold DeleteVolume.
  case_decide; [apply wp_ret; eexists; split; [done|]; by eexists _, _|].
  destruct (cloudClient d) as [cl|];
    [|apply wp_ret; eexists; split; [done|]; by eexists _, _].
  wp_call x Hx. cbn in Hx. subst. destruct x as [dr|resp err].
  2:{ fold (reports_missing err). destruct (reports_missing err) eqn:Hm;
        apply wp_ret; eexists; (split; [done|]); by split. }
  case_decide as Hst.
  { apply wp_ret. eexists. split; [done|]. split_and!; [done|done|by eexists]. }
  eapply wp_seq; [apply wp_untagDrive_silent, drive_view_silent|]. intros _ ? ->.
  wp_call y Hy. cbn in Hy. subst.
  destruct y; apply wp_ret; eexists; (split; [done|]); done.
Qed.

(** What [ControllerExpandVolume] answers and requests. *)
Definition expand_outcome (d : Driver) (vol : string) (cr : option CapacityRange)
    (o : outcome (result (Z * bool))) (l : list drive_event) : Prop :=
  match o with
  | Panicked _ => vol <> "" /\ cloudClient d <> None /\ cr = None /\ l = []
  | Done (Ok (size, nodeExpansion)) => exists range dr,
      cr = Some range /\ size = Z.max (RequiredBytes range) MinVolumeSize /\
      nodeExpansion = true /\
      l = [EvGet vol (SdkOk dr); EvResize vol (Drive.Name dr) (Drive.Media dr) size]
  | Done (Err e) => exists c msg, e = ErrStatus c msg
  end.

(** [ControllerExpandVolume] in every environment: the one resize it may
    send keeps the name and medium the API reported for the volume and asks for
    the required size, at least 1 GiB, which is what it answers on success; the
    limit of the range is ignored, and a request without a range panics. *)
Theorem ControllerExpandVolume_spec {W} (h : handler Eff W) d vol cr w :
  let '(o, l) := observe drive_view h (ControllerExpandVolume d vol cr) w in
  expand_outcome d vol cr o l.
Proof.
  apply observe_intro. unfold ControllerExpandVolume.
  case_decide; [apply wp_ret; by eexists _, _|].
  destruct (cloudClient d) as [cl|] eqn:Hcl; [|apply wp_ret; by eexists _, _].
  destruct cr as [range|]; [|apply wp_panic; cbn; rewrite Hcl; done].
  wp_call x Hx. cbn in Hx. subst. destruct x as [dr|]; [|apply wp_ret; by eexists _, _].
  wp_call y Hy. cbn in Hy. subst. destruct y; apply wp_ret; [|by eexists _, _].
  eexists range, dr. split_and!; [done| |done|done]. case_decide; lia.
Qed.

(** ** The drive service *)

(** [Drives.List] returns the drives, [Drives.Create] adds one under a UUID of its
    own with the requested name and size; requests may fail. *)
Definition drv_post {X} (e : CloudE X) : list Drive.t -> X -> list Drive.t -> Prop :=
  match e in CloudE Y return list Drive.t -> Y -> list Drive.t -> Prop with
  | DrivesList => fun g x g' => g' = g /\ (x = SdkOk g \/ failed x)
  | DrivesCreate ds => fun g x g' =>
      match x with
      | SdkOk l => exists new, g' = g ++ new /\ l = new /\
          Forall2 (fun d d' => Drive.Name d' = Drive.Name d /\ Drive.Size d' = Drive.Size d)
                  ds new
      | SdkErr _ _ => True
      end
  | DrivesGet _ => fun g _ g' => g' = g
  | DrivesClone _ _ _ => fun _ _ _ => True
  | DrivesResize _ _ _ _ => fun _ _ _ => True
  | DrivesDelete _ => fun _ _ _ => True
  | _ => fun g _ g' => g' = g
  end.

Definition drvI : iface Eff (list Drive.t) :=
  Iface (fun _ _ _ => True)
        (fun X e => match e with
                    | ECloud _ e => drv_post e
                    | _ => fun g _ g' => g' = g
                    end).

Class DriveStore {W} (h : handler Eff W) := drive_store : W -> list Drive.t.
#[global] Arguments drive_store {W} h {_} w.

Class DriveService {W} (h : handler Eff W) `{!DriveStore h} : Prop :=
  drive_laws : implements h (fun w g => drive_store h w = g) drvI.

Definition named (name : string) (d : Drive.t) : bool := bool_decide (Drive.Name d = name).

(** Tagging does not change the drives. *)
Lemma wp_tagDrive_drv co cluster u n g :
  wp drvI (tagDrive co cluster u n) (ok (fun _ g' => g' = g)) g.
Proof.
  unfold tagDrive. destruct co as [cl|]; [|by apply wp_ret].
  apply (wp_for_each _ (fun _ (_ : unit) g' => g' = g)); [done| |by intros].
  intros x l' [] g' _ ->.
  eapply wp_seq with (P := fun _ g' => g' = g); [|intros ? ? ->; by apply wp_ret].
  unfold ensureTag. wp_call y Hy. cbn in Hy. subst. destruct y; [|by apply wp_ret].
  destruct (find _ _); [destruct (decide _); [by apply wp_ret|]|];
    wp_call z Hz; cbn in Hz; subst; destruct z; by apply wp_ret.
Qed.

Lemma find_app_none {A} (f : A -> bool) l k :
  find f l = None -> find f (l ++ k) = find f k.
Proof. induction l as [|x l IH]; [done|]. simpl. by destruct (f x). Qed.

(** After a success the volume answered is the first drive of that name, and the
    drives only changed if there was none. *)
Lemma wp_CreateVolume_drv d req g :
  wp drvI (CreateVolume d req) (ok (fun r g' => forall v, r = Ok v ->
       (exists dr, find (named (cv_Name req)) g' = Some dr /\ v = volume_of d req dr) /\
       (is_Some (find (named (cv_Name req)) g) -> g' = g))) g.
Proof.
  unfold CreateVolume. case_decide; [by apply wp_ret|].
  destruct (cloudClient d) as [cl|]; [|by apply wp_ret].
  case_decide; [by apply wp_ret|]. destruct (negb _); [by apply wp_ret|].
  destruct (volume_size _) as [size|e]; [|by apply wp_ret].
  eapply wp_seq with (P := fun r g' => g' = g /\
    forall o, r = Ok o -> o = find (named (cv_Name req)) g).
  { unfold findDriveByName. wp_call x Hx. cbn in Hx. destruct Hx as [-> Hx].
    destruct x as [l|]; apply wp_ret; (split; [done|]); [|done].
    destruct Hx as [[= ->]|[]]. by intros ? [= <-]. }
  intros [[dr|]|err] ? [-> Hf]; [apply wp_ret| |by apply wp_ret].
  { intros v [= <-]. split; [|done]. exists dr. split; [|done]. by rewrite (Hf _ eq_refl). }
  specialize (Hf _ eq_refl). wp_call y Hy. cbn in Hy.
  destruct y as [[|dr ds]|resp err]; [by apply wp_ret| |by apply wp_ret].
  destruct Hy as (new & -> & <- & Hnew).
  eapply wp_seq; [apply wp_tagDrive_drv|]. intros [] ? ->. apply wp_ret.
  intros v [= <-]. split; [|intros [? ?]; congruence].
  apply Forall2_cons in Hnew as [[Hn _] _]. cbn in Hn.
  exists dr. split; [|done]. rewrite find_app_none by done. simpl. unfold named.
  by rewrite bool_decide_true.
Qed.

Lemma run_wp_drive {W} (h : handler Eff W) `{!DriveStore h, !DriveService h} {A}
    (p : go A) (Q : A -> list Drive.t -> Prop) w :
  wp drvI p (ok Q) (drive_store h w) ->
  exists a w', run h p w = (Done a, w') /\ Q a (drive_store h w').
Proof.
  intros Hp. destruct (wp_run _ _ _ _ _ w _ drive_laws eq_refl Hp) as (g' & HQ & HR).
  destruct (run h p w) as [[a|why] w']; simpl in *; [|done]. subst. eauto.
Qed.

(** C25. [CreateVolume] is idempotent: once a request for a name has succeeded,
    repeating it, with whatever capacity, answers the same volume if it succeeds,
    and the repetition changes no drive. *)
Theorem CreateVolume_idempotent {W} (h : handler Eff W) `{!DriveStore h, !DriveService h}
    d req req' w w1 w2 v v'
    (Hname : cv_Name req' = cv_Name req)
    (H1 : run h (CreateVolume d req) w = (Done (Ok v), w1))
    (H2 : run h (CreateVolume d req') w1 = (Done (Ok v'), w2)) :
  VolumeId v' = VolumeId v /\ CapacityBytes v' = CapacityBytes v /\
  drive_store h w2 = drive_store h w1.
Proof.
  destruct (run_wp_drive h _ _ w (wp_CreateVolume_drv d req _)) as (r1 & u1 & E1 & Hr1).
  destruct (run_wp_drive h _ _ w1 (wp_CreateVolume_drv d req' _)) as (r2 & u2 & E2 & Hr2).
  rewrite H1 in E1. rewrite H2 in E2. simplify_eq.
  destruct (Hr1 _ eq_refl) as [(dr1 & Hf1 & ->) _].
  destruct (Hr2 _ eq_refl) as [(dr2 & Hf2 & ->) Hsame].
  rewrite Hname in *. rewrite Hsame in * by eauto. simplify_eq. done.
Qed.

#[global] Instance sim_csi_drives : DriveStore sim_csi := sw_drives.

#[global] Instance sim_csi_drives_ok : DriveService sim_csi.
Proof.
  intros X e w g HR _. unfold drive_store, sim_csi_drives in *. subst g.
  destruct e as [c e|e|e|e|e|e|e|e]; simpl; [|by eauto..].
  destruct e; simpl; eauto.
  - eexists. split; [|done]. eexists. split_and!; [done..|].
    apply Forall2_fmap_r, Forall_Forall2_diag, Forall_forall. done.
  - destruct (sw_servers w !! uuid); simpl; eauto.
Qed.

(** ** Witnesses *)

Definition wit_drive (uuid : string) : ServerDrive.t :=
  ServerDrive.mk 0 "0:0" "virtio" (Some (Drive.mk uuid "" 0 "" "" "" [])).

Definition wit_server : Server.t := Server.mk "node-1" "worker" "running" [wit_drive "boot"] [] ∅ [].

Definition wit_world : sim_world :=
  {| sw_servers := {["node-1" := wit_server]};
     sw_drives := [Drive.mk "vol-1" "pvc-1" MinVolumeSize "unmounted" "disk" "dssd" []] |}.

Definition wit_cfg : Config :=
  {| cfg_Name := "csi.cloudsigma.com"; cfg_Version := "v1"; cfg_NodeID := "node-1";
     cfg_Region := "zrh"; cfg_Endpoint := "unix:///csi.sock"; cfg_Mode := AllMode;
     cfg_Username := ""; cfg_Password := ""; cfg_Token := "token"; cfg_TokenFile := "";
     cfg_ClusterName := "prod" |}.

Definition wit_driver : Driver := NewDriver wit_cfg.
Definition wit_pub (vol : string) : PublishRequest :=
  {| pub_VolumeId := vol; pub_NodeId := "node-1" |}.

Definition wit_create : CreateVolumeRequest :=
  {| cv_Name := "pvc-2";
     cv_VolumeCapabilities := [{| cap_type := ATMount "ext4" []; cap_mode := SINGLE_NODE_WRITER |}];
     cv_CapacityRange := None; cv_Parameters := ∅ |}.

Lemma findNextDeviceChannel_fresh_witness :
  findNextDeviceChannel [wit_drive "boot"] ∈ "0:2" :: data_channels /\
  (findNextDeviceChannel [wit_drive "boot"] ∉
     ServerDrive.DevChannel <$> [wit_drive "boot"]).
Proof. apply findNextDeviceChannel_fresh. simpl. lia. Defined.

Lemma wit_distinct : channels_distinct (sw_servers wit_world).
Proof.
  intros u s H. unfold wit_world in H. cbn [sw_servers] in H. apply lookup_singleton_Some in H as [_ <-]. apply (bool_decide_unpack _). by vm_compute.
Qed.

Lemma csi_channels_distinct_witness :
  channels_distinct (server_store sim_csi
    (run sim_csi (ControllerPublishVolume wit_driver (wit_pub "vol-1")) wit_world).2).
Proof.
  apply (csi_channels_distinct sim_csi wit_driver wit_world _ wit_distinct).
  apply rtc_once, step_publish. intros s Hs.
  change (sw_servers wit_world !! "node-1" = Some s) in Hs.
  unfold wit_world in Hs. cbn [sw_servers] in Hs. apply lookup_singleton_Some in Hs as [_ <-].
  simpl. lia.
Defined.

(** A drive that stays mounted: the wait runs out, and the request succeeds. *)
Definition stuck_drive : sim_world :=
  {| sw_servers := {["node-1" := attach "vol-1" wit_server]};
     sw_drives := [Drive.mk "vol-1" "data" 1 "mounted" "disk" "dssd" ["node-1"]] |}.

Example unpublish_times_out :
  let '(o, l) := observe detach_view sim_csi (ControllerUnpublishVolume wit_driver (wit_pub "vol-1")) stuck_drive in
  o = Done (Ok tt) /\ length l = (2 + 30 + 29)%nat.
Proof. by vm_compute. Qed.

Lemma ControllerUnpublishVolume_course_witness :
  exists r l, unpublish_course "vol-1" "node-1" r l /\ r = Ok tt /\ length l = 61%nat.
Proof.
  pose proof (ControllerUnpublishVolume_course sim_csi wit_driver "vol-1" "node-1" stuck_drive
    {| sdk_cred := TokenCred "token"; sdk_location := "zrh" |}) as H.
  destruct (observe _ _ _ _) as [o l] eqn:E in H.
  destruct H as (r & -> & H); [done..|]. exists r, l. split; [done|].
  vm_compute in E. by simplify_eq.
Defined.

Lemma CreateVolume_idempotent_witness :
  exists v w1 v' w2,
    run sim_csi (CreateVolume wit_driver wit_create) wit_world = (Done (Ok v), w1) /\
   run sim_csi (CreateVolume wit_driver wit_create) w1 = (Done (Ok v'), w2) /\
   VolumeId v' = VolumeId v /\ CapacityBytes v' = CapacityBytes v /\
   drive_store sim_csi w2 = drive_store sim_csi w1.
Proof.
  do 4 eexists. split; [by vm_compute|]. split; [by vm_compute|].
  apply (CreateVolume_idempotent sim_csi wit_driver wit_create wit_create wit_world);
    [done|by vm_compute|by vm_compute].
Defined.

Lemma ControllerPublishVolume_effect_witness :
  exists r w', run sim_csi (ControllerPublishVolume wit_driver (wit_pub "vol-1")) wit_world
                 = (Done r, w') /\
    per_server (publish_rel "vol-1" "node-1") (server_store sim_csi wit_world)
               (server_store sim_csi w') /\
    published "vol-1" "node-1" r (server_store sim_csi w').
Proof. apply (ControllerPublishVolume_effect sim_csi). Defined.
