(* ===== verification/CSIConcurrent.v ===== *)
(** * Overlapping requests to the CSI controller

    [ControllerPublishVolume] serialises the requests for one server with the
    mutexes of [serverAttachLocks] ([csi/driver/controller.go]): reading the
    server, choosing a channel and writing the server back must not be
    interleaved, since the update replaces the whole list of drives.  The requests
    run as goroutines of a pool (Concurrency.v).  [ControllerUnpublishVolume], and
    publishing when it takes the volume off another server, write a server without
    its mutex; the examples at the end show what this loses. *)

From S2P Require Import Prelude Effects GoErrors ApiTypes World Concurrency Tags CSIController.

(** The two calls of the service that change servers, as the gRPC server starts
    them. *)
Inductive request := Publish (req : PublishRequest) | Unpublish (req : PublishRequest).
Inductive reply :=
| Published (r : result (gmap string string))
| Unpublished (r : result unit).

Definition serve (d : Driver) (req : request) : go reply :=
  match req with
  | Publish req => let* r := ControllerPublishVolume d req in Ret (Published r)
  | Unpublish req => let* r := ControllerUnpublishVolume d req in Ret (Unpublished r)
  end.

Definition request_pool {W} (d : Driver) (reqs : list request) (w : W) : pool W reply :=
  Pool (serve d <$> reqs) ∅ w.

(** ** Every request is answered *)

Lemma quiet_detach_from_others cl req mounts :
  quiet mutex_view (detach_from_others cl req mounts) (fun _ => True).
Proof.
  apply (quiet_for_range _ _ _ _ (fun _ => True)); [done| |done].
  intros mount [] _ _. quiet_go.
Qed.

Lemma quiet_verify_detached cl vol :
  quiet mutex_view (verify_detached cl vol) (fun _ => True).
Proof.
  unfold verify_detached. apply (quiet_bind _ _ _ (fun _ => True)); [|by intros].
  apply (quiet_for_range _ _ _ _ (fun _ => True)); [done| |done].
  intros i [] _ _. apply quiet_call; [done|]. intros r. cbv zeta. quiet_go.
Qed.

#[export] Hint Resolve quiet_detach_from_others quiet_verify_detached : quiet.

Lemma quiet_unpublish d req :
  quiet mutex_view (ControllerUnpublishVolume d req) (fun _ => True).
Proof. unfold ControllerUnpublishVolume. cbv zeta. quiet_go. Qed.

Lemma answers_with_lock {A} m (body : go A) :
  quiet mutex_view body (fun _ => True) -> answers (with_lock m body).
Proof. intros Hq. apply answers_locked; [done|]. intros a. by apply cwp_ret. Qed.

Lemma answers_publish d req : answers (ControllerPublishVolume d req).
Proof.
  unfold ControllerPublishVolume. do 2 (case_decide; [by apply answers_quiet, quiet_ret|]).
  destruct (cloudClient d) as [cl|]; [|by apply answers_quiet, quiet_ret].
  apply answers_with_lock. cbv zeta. quiet_go.
Qed.

Lemma answers_serve d req : answers (serve d req).
Proof.
  destruct req; apply answers_map; [apply answers_publish|apply answers_quiet, quiet_unpublish].
Qed.

(** C14. Whatever the environment answers and however the requests of the CSI
    controller to attach and detach volumes overlap: every execution ends, and
    when nothing is left to run every request has been answered.  No request
    waits forever for a server's mutex, none panics. *)
Theorem requests_all_answered {W} (h : handler Eff W) d reqs w :
  all_answered h (request_pool d reqs w).
Proof.
  apply pool_answered. intros i p Hi.
  apply list_lookup_fmap_Some in Hi as (req & -> & _). apply answers_serve.
Qed.

(** ** Attaching at one instant

    What overlapping publish requests do to the servers, when each volume is meant
    for one node: a request attaches its volume at a single instant, to the server
    as it is at that instant. *)

Definition attach_step (req : PublishRequest) (g g' : gmap string Server.t) : Prop :=
  exists s, g !! pub_NodeId req = Some s /\ ~ attached (pub_VolumeId req) s /\
            g' = <[pub_NodeId req := attach (pub_VolumeId req) s]> g.

(** No volume is asked for on two nodes. *)
Definition single_node (reqs : list PublishRequest) : Prop :=
  forall r1 r2, r1 ∈ reqs -> r2 ∈ reqs -> pub_VolumeId r1 = pub_VolumeId r2 ->
                pub_NodeId r1 = pub_NodeId r2.

(** The volumes asked for are attached, if at all, where they are asked for. *)
Definition placed (reqs : list PublishRequest) (g : gmap string Server.t) : Prop :=
  forall req n s, req ∈ reqs -> g !! n = Some s -> attached (pub_VolumeId req) s ->
                  n = pub_NodeId req.

(** The server service, and drives that name the servers they are mounted on. *)
Definition mounts_post {X} (e : CloudE X) : gmap string Server.t -> X -> Prop :=
  match e in CloudE Y return gmap string Server.t -> Y -> Prop with
  | DrivesGet vol => fun g x =>
      match x with
      | SdkOk dr => forall m, m ∈ Drive.MountedOn dr ->
                      exists s, g !! m = Some s /\ attached vol s
      | SdkErr _ _ => True
      end
  | _ => fun _ _ => True
  end.

Definition attachI : iface Eff (gmap string Server.t) :=
  Iface (fun _ _ _ => True)
        (fun X e => match e with
                    | ECloud _ e => fun g x g' => srv_post e g x g' /\ mounts_post e g x
                    | _ => fun g _ g' => g' = g
                    end).

Class AttachService {W} (h : handler Eff W) `{!ServerStore h} : Prop :=
  attach_laws : implements h (fun w g => server_store h w = g) attachI.

Lemma attached_attach vol vol' s :
  attached vol' (attach vol s) <-> vol' = vol \/ attached vol' s.
Proof.
  unfold attached, attach. cbn [Server.Drives Server.set_Drives].
  rewrite existsb_app, orb_true_iff. cbn. rewrite orb_false_r.
  unfold holds_volume at 2. cbn. rewrite bool_decide_eq_true. naive_solver.
Qed.

(** A drive that is mounted on the requested node only is not taken off it. *)
Lemma detach_from_others_none cl req mounts :
  Forall (fun m => m = pub_NodeId req) mounts ->
  detach_from_others cl req mounts = Ret (inl tt).
Proof.
  unfold detach_from_others. induction 1 as [|m mounts -> _ IH]; [done|].
  rewrite <- IH. unfold for_range at 1. rewrite decide_True by done. done.
Qed.

Section publishes.
Context (reqs : list PublishRequest) (Hone : single_node reqs).

(** The holder of a server's mutex sees the server unchanged; the drives of the
    others only become more. *)
Definition attach_rely (mine : gset string) (g g' : gmap string Server.t) : Prop :=
  forall n s, g !! n = Some s -> exists s', g' !! n = Some s' /\
    Server.Drives s `prefix_of` Server.Drives s' /\ (getServerLock n ∈ mine -> s' = s).

Definition attach_guar (mine : gset string) (g g' : gmap string Server.t) : Prop :=
  g' = g \/ exists req, req ∈ reqs /\ getServerLock (pub_NodeId req) ∈ mine /\
                       attach_step req g g'.

Lemma attach_rely_refl mine g : attach_rely mine g g.
Proof. intros n s Hs. eauto. Qed.

Lemma attach_rely_trans mine g1 g2 g3 :
  attach_rely mine g1 g2 -> attach_rely mine g2 g3 -> attach_rely mine g1 g3.
Proof.
  intros H12 H23 n s Hs. destruct (H12 n s Hs) as (s2 & Hs2 & Hp2 & He2).
  destruct (H23 n s2 Hs2) as (s3 & Hs3 & Hp3 & He3). exists s3.
  split_and!; [done|by etrans|]. intros Hn. by rewrite He3, He2.
Qed.

Lemma attach_guar_rely m1 m2 g g' :
  m1 ## m2 -> attach_guar m1 g g' -> attach_rely m2 g g'.
Proof.
  intros Hd [->|(req & Hin & Hlock & s & Hs & Hn & ->)]; [apply attach_rely_refl|].
  intros n s' Hs'. destruct (decide (pub_NodeId req = n)) as [<-|Hne].
  - simplify_eq. rewrite lookup_insert_eq. eexists. split_and!; [done| |].
    + by apply prefix_app_r.
    + intros H2. by destruct (Hd (getServerLock (pub_NodeId req))).
  - rewrite lookup_insert_ne by done. eauto.
Qed.

Lemma attach_step_placed req g g' :
  req ∈ reqs -> attach_step req g g' -> placed reqs g -> placed reqs g'.
Proof using Hone.
  intros Hin (s & Hs & Hn & ->) Hp req' n s' Hin' Hs' Hatt.
  destruct (decide (pub_NodeId req = n)) as [<-|Hne].
  - rewrite lookup_insert_eq in Hs'. simplify_eq.
    apply attached_attach in Hatt as [Heq|Hatt]; [by apply Hone|by eapply Hp].
  - rewrite lookup_insert_ne in Hs' by done. by eapply Hp.
Qed.

Lemma published_rely vol node r mine g g' :
  attach_rely mine g g' -> published vol node r g -> published vol node r g'.
Proof.
  intros Hr. destruct r as [ctx|e]; [|done]. intros (s & sd & Hs & Hin & Hh & ->).
  destruct (Hr node s Hs) as (s' & Hs' & Hp & _). exists s', sd. split_and!; [done| |done|done].
  by eapply elem_of_prefix.
Qed.

Abbreviation pwp := (cwp attachI (placed reqs) attach_rely attach_guar).

(** A service call that leaves the servers alone. *)
Lemma pwp_read {R X} cl (e : CloudE X) (k : X -> go R) Q mine g :
  (forall g1 x g2, srv_post e g1 x g2 -> g2 = g1) ->
  (forall x g1, attach_rely mine g g1 -> placed reqs g1 -> srv_post e g1 x g1 ->
     mounts_post e g1 x -> pwp (k x) Q mine g1) ->
  pwp (let* x := cloud cl e in k x) Q mine g.
Proof.
  intros Hread Hk. apply cwp_call; [done|]. intros g1 Hr Hi. split; [done|].
  intros x g2 [Hs Hm]. pose proof (Hread _ _ _ Hs) as ->. split_and!; [by left|done|]. by apply Hk.
Qed.

Lemma pwp_publish d req g :
  req ∈ reqs ->
  pwp (ControllerPublishVolume d req)
    (fun r mine g' => mine = ∅ /\ published (pub_VolumeId req) (pub_NodeId req) r g') ∅ g.
Proof using Hone.
  intros Hin. unfold ControllerPublishVolume.
  do 2 (case_decide; [by apply cwp_ret|]). destruct (cloudClient d) as [cl|]; [|by apply cwp_ret].
  set (vol := pub_VolumeId req). set (node := pub_NodeId req). set (m := getServerLock node).
  unfold with_lock. apply cwp_lock. intros g0 _ _. apply cwp_bind; [apply attach_rely_refl|].
  assert (Hm : m ∈ ({[m]} : gset string)) by set_solver.
  (* leaving the critical section with an answer that holds *)
  assert (Hleave : forall r g1, published vol node r g1 ->
    pwp (Ret r) (fun a mine g' => pwp (golang (Unlock m) ;; Ret a)
      (fun r mine g' => mine = ∅ /\ published vol node r g') mine g') {[m]} g1).
  { intros r g1 Hp. apply cwp_ret. intros g2 H2 _. apply cwp_unlock; [done|]. intros g3 H3 _.
    apply cwp_ret. intros g4 H4 _. split; [set_solver|].
    eapply published_rely; [exact H4|]. eapply published_rely; [exact H3|].
    by eapply published_rely. }
  apply pwp_read; [by intros g1 x g2 [-> _]|]. intros [s|resp err] g1 _ _ [_ Hs] _; [|by apply Hleave].
  pose proof (find_existsb (holds_volume vol) (Server.Drives s)) as Hfind.
  destruct (find _ _) as [sd|].
  { apply Hleave. destruct Hfind as [Hh Hsd]. by exists s, sd. }
  apply pwp_read; [by intros g2 x g3 ->|]. intros [dr|resp err] g2 H2 Hp2 _ Hmounts; [|by apply Hleave].
  assert (Hdet : (if decide (Drive.Status dr = "mounted" /\ Drive.MountedOn dr <> [])
      then detach_from_others cl req (Drive.MountedOn dr) else Ret (inl tt)) = Ret (inl tt)).
  { case_decide; [|done]. apply detach_from_others_none, Forall_forall. intros m' Hm'.
    destruct (Hmounts m' Hm') as (s' & Hs' & Hatt). by eapply Hp2. }
  rewrite Hdet. change (bind (Ret (inl tt)) ?f) with (f (inl tt)). cbv beta iota zeta.
  apply cwp_call; [done|]. intros g3 H3 Hp3. split; [done|]. intros x g4 [Hx _].
  assert (Hs3 : g3 !! node = Some s).
  { destruct (H2 node s Hs) as (s2 & Hs2 & _ & E2). rewrite (E2 Hm) in Hs2.
    destruct (H3 node s Hs2) as (s3 & Hs3 & _ & E3). by rewrite (E3 Hm) in Hs3. }
  assert (Hstep : attach_step req g3 (<[node := attach vol s]> g3)).
  { exists s. split_and!; [done| |done]. unfold attached. fold vol. by rewrite Hfind. }
  assert (Hdone : attach_guar {[m]} g3 (<[node := attach vol s]> g3) /\
                  placed reqs (<[node := attach vol s]> g3)).
  { split; [right; by exists req|by eapply attach_step_placed]. }
  destruct x as [[]|resp err]; cbn in Hx.
  - destruct Hx as [_ ->]. destruct Hdone as [Hg Hi]. split_and!; [done|done|]. apply Hleave.
    eexists _, _. rewrite lookup_insert_eq. split_and!; [done|apply elem_of_snoc| |done].
    apply holds_new_drive.
  - assert (Hpost : attach_guar {[m]} g3 g4 /\ placed reqs g4).
    { destruct Hx as [->|[_ ->]]; [by split; [left|]|done]. }
    destruct Hpost as [Hg Hi]. split_and!; [done|done|]. by apply Hleave.
Qed.
End publishes.

Lemma pwp_serve reqs d req g :
  single_node reqs -> req ∈ reqs ->
  cwp attachI (placed reqs) attach_rely (attach_guar reqs) (serve d (Publish req))
    (fun r mine g' => mine = ∅ /\ forall r', r = Published r' ->
       published (pub_VolumeId req) (pub_NodeId req) r' g') ∅ g.
Proof.
  intros Hone Hin. unfold serve. apply cwp_bind; [apply attach_rely_refl|].
  eapply cwp_mono; [|by apply pwp_publish]. intros r mine g' [-> Hp].
  apply cwp_ret. intros g1 Hr _. split; [done|]. intros r' [= <-]. by eapply published_rely.
Qed.

Lemma guar_attach_steps reqs g g' :
  rtc (fun g g' => exists mine, attach_guar reqs mine g g') g g' ->
  rtc (fun g g' => exists req, req ∈ reqs /\ attach_step req g g') g g'.
Proof.
  induction 1 as [|g1 g2 g3 (mine & [->|(req & Hin & _ & Hs)]) _ IH]; [done..|].
  eapply rtc_l; [|exact IH]. by exists req.
Qed.

(** C7. Publish requests may overlap in any way under three conditions: no volume is
    asked for on two nodes, none is attached to another node than the one it is asked
    for, and nothing is unpublished meanwhile.  Then the servers change as if each
    request took effect at one instant, attaching its volume at the next channel of
    the server as it is then; and a request that has been answered with success finds
    its volume attached at the channel of the answer, as long as only such requests
    run.  The conditions are needed: [move_loses_attachment] is two overlapping
    publishes of which one moves a volume, [unpublish_loses_attachment] a publish that
    overlaps an unpublish; both lose an attachment that was answered with success.
    (Drives are to name only servers they are on, see [AttachService].) *)
Theorem publishes_linearizable {W} (h : handler Eff W) `{!ServerStore h, !AttachService h}
    d reqs w c
    (Hone : single_node reqs) (Hplaced : placed reqs (server_store h w))
    (Hsteps : rtc (pool_step h) (request_pool d (Publish <$> reqs) w) c) :
  rtc (fun g g' => exists req, req ∈ reqs /\ attach_step req g g')
      (server_store h w) (server_store h (world c)) /\
  forall i req ctx, reqs !! i = Some req -> threads c !! i = Some (Ret (Published (Ok ctx))) ->
    published (pub_VolumeId req) (pub_NodeId req) (Ok ctx) (server_store h (world c)).
Proof.
  set (Q := fun i (r : reply) (mine : gset string) g' => forall req, reqs !! i = Some req ->
    forall r', r = Published r' -> published (pub_VolumeId req) (pub_NodeId req) r' g').
  destruct (pool_sound attachI (placed reqs) attach_rely (attach_guar reqs)
    attach_rely_refl attach_rely_trans (attach_guar_rely reqs) h
    (fun w g => server_store h w = g) Q (serve d <$> (Publish <$> reqs)) w (server_store h w) c)
    as (mines & g & Hok); [apply attach_laws|done|done| |exact Hsteps|].
  - intros i p Hi. rewrite !list_lookup_fmap in Hi. destruct (reqs !! i) as [req|] eqn:Hreq; [|done].
    simplify_eq/=. eapply cwp_mono; [|apply (pwp_serve reqs d req); [done|]].
    + intros r mine g' [_ Hp] req' Hreq' r' ->. simplify_eq. by apply Hp.
    + by eapply list_elem_of_lookup_2.
  - pose proof Hok as (_ & _ & HR & _ & Hg & _). rewrite HR.
    split; [by apply guar_attach_steps|]. intros i req ctx Hreq Hi.
    destruct (pool_ok_done _ _ _ _ attach_rely_refl _ _ _ _ _ _ _ _ Hok Hi) as [mine HQ].
    by eapply HQ.
Qed.

(** ** A concrete service

    [sim_csi] with drives that name the servers they are attached to. *)

Definition mounted_on (vol : string) (g : gmap string Server.t) : list string :=
  (filter (fun p => existsb (holds_volume vol) (Server.Drives p.2) = true) (map_to_list g)).*1.

Definition with_mounts (g : gmap string Server.t) (d : Drive.t) : Drive.t :=
  let ms := mounted_on (Drive.UUID d) g in
  Drive.mk (Drive.UUID d) (Drive.Name d) (Drive.Size d)
    (if decide (ms = []) then "unmounted" else "mounted") (Drive.Media d) (Drive.StorageType d) ms.

Definition sim_attach_cloud {X} (e : CloudE X) (w : sim_world) : X * sim_world :=
  match e in CloudE Y return Y * sim_world with
  | DrivesGet uuid =>
      (match find (fun d => bool_decide (Drive.UUID d = uuid)) (sw_drives w) with
       | Some d => SdkOk (with_mounts (sw_servers w) d) | None => not_found end, w)
  | e => sim_csi_cloud e w
  end.

Definition sim_attach : handler Eff sim_world :=
  fun X e w => match e with ECloud _ e => sim_attach_cloud e w | e => (deaf e, w) end.

#[global] Instance sim_attach_store : ServerStore sim_attach := sw_servers.

Lemma elem_of_mounted_on vol g m :
  m ∈ mounted_on vol g <-> exists s, g !! m = Some s /\ attached vol s.
Proof.
  unfold mounted_on, attached. rewrite list_elem_of_fmap. split.
  - intros ([n s] & -> & [Ha Hs]%list_elem_of_filter). exists s.
    by apply elem_of_map_to_list in Hs.
  - intros (s & Hs & Ha). exists (m, s). split; [done|]. apply list_elem_of_filter.
    split; [done|]. by apply elem_of_map_to_list.
Qed.

#[global] Instance sim_attach_ok : AttachService sim_attach.
Proof.
  intros X e w g HR _. unfold server_store, sim_attach_store in *. subst g.
  destruct e as [c e|e|e|e|e|e|e|e]; simpl; [|by eauto..].
  destruct e; simpl; eauto.
  - destruct (find _ _) as [dr|] eqn:Hf; simpl; [|eauto].
    apply find_some in Hf as [_ <-%bool_decide_eq_true].
    eexists. split_and!; [done|intros m; apply elem_of_mounted_on|done].
  - destruct (sw_servers w !! uuid) eqn:H; simpl; eauto 6.
  - destruct (sw_servers w !! uuid) eqn:H; simpl; eauto 8.
Qed.

(** Two nodes, three free volumes, and "vol-3" attached to the first node. *)
Definition two_nodes : sim_world :=
  {| sw_servers := <["node-1" := attach "vol-3" wit_server]>
                   {["node-2" := Server.mk "node-2" "worker" "running" [] [] ∅ []]};
     sw_drives := (fun u => Drive.mk u u MinVolumeSize "" "disk" "dssd" []) <$>
                  ["vol-1"; "vol-2"; "vol-3"] |}.

Definition pub (vol node : string) : PublishRequest := {| pub_VolumeId := vol; pub_NodeId := node |}.

(** Is the volume attached to the node? *)
Definition has_volume (w : sim_world) (node vol : string) : bool :=
  match sw_servers w !! node with
  | Some s => existsb (holds_volume vol) (Server.Drives s)
  | None => false
  end.

Definition answered_ok (c : pool sim_world reply) (i : nat) : bool :=
  match threads c !! i with
  | Some (Ret (Published (Ok _))) | Some (Ret (Unpublished (Ok _))) => true
  | _ => false
  end.

(** Two requests for one node that alternate, and both are answered. *)
Definition overlap : pool sim_world reply :=
  run_schedule sim_attach (flat_map (fun _ => [0; 1]%nat) (seq 0 12))
    (request_pool wit_driver (Publish <$> [pub "vol-1" "node-1"; pub "vol-2" "node-1"]) two_nodes).

Example overlap_answered :
  answered_ok overlap 0 && answered_ok overlap 1 && has_volume (world overlap) "node-1" "vol-1"
  && has_volume (world overlap) "node-1" "vol-2" = true.
Proof. by vm_compute. Qed.

(** Unpublishing takes no mutex.  It reads the server, the volume "vol-1" is then
    published on it, and the update that detaches "vol-3" writes back the drives
    read before: both requests are answered with success, and "vol-1" is not
    attached. *)
Definition lost_attachment : pool sim_world reply :=
  run_schedule sim_attach ([1] ++ repeat 0 10 ++ repeat 1 10)%nat
    (request_pool wit_driver
       [Publish (pub "vol-1" "node-1"); Unpublish (pub "vol-3" "node-1")] two_nodes).

Example unpublish_loses_attachment :
  answered_ok lost_attachment 0 && answered_ok lost_attachment 1
  && negb (has_volume (world lost_attachment) "node-1" "vol-1") = true.
Proof. by vm_compute. Qed.

(** Publishing holds the mutex of the new node only.  While "vol-3" is moved to
    the second node, the first node is written back as it was read before "vol-1"
    was attached to it. *)
Definition move_loses : pool sim_world reply :=
  run_schedule sim_attach (repeat 0 4 ++ repeat 1 10 ++ repeat 0 10)%nat
    (request_pool wit_driver
       (Publish <$> [pub "vol-3" "node-2"; pub "vol-1" "node-1"]) two_nodes).

Example move_loses_attachment :
  answered_ok move_loses 0 && answered_ok move_loses 1
  && negb (has_volume (world move_loses) "node-1" "vol-1") = true.
Proof. by vm_compute. Qed.

(** ** Witnesses *)

Definition wit_reqs : list PublishRequest := [pub "vol-1" "node-1"; pub "vol-2" "node-1"].

Lemma wit_single_node : single_node wit_reqs.
Proof.
  intros r1 r2 H1 H2. apply elem_of_cons in H1 as [->|H1%list_elem_of_singleton];
    apply elem_of_cons in H2 as [->|H2%list_elem_of_singleton]; by subst.
Qed.

Definition attached_somewhere (g : gmap string Server.t) (vol : string) : bool :=
  existsb (fun p => existsb (holds_volume vol) (Server.Drives p.2)) (map_to_list g).

Lemma placed_nowhere reqs g :
  existsb (fun req => attached_somewhere g (pub_VolumeId req)) reqs = false -> placed reqs g.
Proof.
  intros Hno req n s Hin Hs Hatt. apply not_true_iff_false in Hno as [].
  apply existsb_exists. exists req. split; [by apply list_elem_of_In|].
  apply existsb_exists. exists (n, s). split; [|done].
  by apply list_elem_of_In, elem_of_map_to_list.
Qed.

Lemma wit_placed : placed wit_reqs (server_store sim_attach two_nodes).
Proof. apply placed_nowhere. by vm_compute. Qed.

Lemma publishes_linearizable_witness :
  rtc (fun g g' => exists req, req ∈ wit_reqs /\ attach_step req g g')
      (server_store sim_attach two_nodes) (server_store sim_attach (world overlap)).
Proof.
  apply (publishes_linearizable sim_attach wit_driver wit_reqs two_nodes overlap wit_single_node
           wit_placed). apply run_schedule_steps.
Defined.

Lemma requests_all_answered_witness :
  match threads lost_attachment !! 0%nat with Some p => exists r, p = Ret r | None => False end.
Proof.
  destruct (requests_all_answered sim_attach wit_driver
    [Publish (pub "vol-1" "node-1"); Unpublish (pub "vol-3" "node-1")] two_nodes) as [_ Hall].
  assert (Hret : all_returned lost_attachment = true) by (by vm_compute).
  specialize (Hall lost_attachment (run_schedule_steps _ _ _)
    (fun c' => returned_stuck _ _ c' Hret) 0%nat).
  destruct (threads lost_attachment !! 0%nat) as [p|] eqn:Hp; [by apply Hall|].
  vm_compute in Hp. discriminate Hp.
Defined.
