(* ===== verification/Auth.v ===== *)
(** * Impersonation tokens

    [pkg/auth/impersonation.go]: the client that turns the service account of the
    provider into a token of the user a cluster belongs to, in three requests
    (service-account token, RPT token, impersonation), and caches each of the
    three.  The client's mutable fields are the record [ImpersonationClient],
    passed through every operation; its mutexes protect single reads and writes
    of those fields, so that an operation of the model is what one goroutine does
    between two of them.

    [with_auth] plugs the client into an environment, which then answers the
    calls [TokenE] of the controllers. *)

From S2P Require Import Prelude Effects GoErrors ApiTypes World.

(** Times are nanoseconds since the Unix epoch. *)
Definition Second : Z := 1000000000.
Definition Minute : Z := 60 * Second.

(** [time.Time{}]: the first of January of the year 1. *)
Definition zeroTime : Z := - 62135596800 * Second.

Definition defaultTokenExpiryBuffer : Z := 5 * Minute.
Definition defaultHTTPTimeout : Z := 30 * Second.
Definition umaGrantType : string := "urn:ietf:params:oauth:grant-type:uma-ticket".
Definition serviceProviderAudience : string := "service_provider_api".

Record ImpersonationConfig := {
  OAuthURL : string;
  ClientID : string;
  ClientSecret : string;
  TokenExpiryBuffer : Z;
  HTTPTimeout : Z
}.

Record CachedToken := {
  Token : string;
  ExpiresAt : Z;
  UserEmail : string;
  Region : string
}.

Record ImpersonationClient := {
  config : ImpersonationConfig;
  saToken : string;
  saTokenExpiresAt : Z;
  rptToken : string;
  rptTokenExpiresAt : Z;
  tokenCache : gmap string CachedToken
}.

Definition set_sa (c : ImpersonationClient) (t : string) (e : Z) : ImpersonationClient :=
  {| config := config c; saToken := t; saTokenExpiresAt := e; rptToken := rptToken c;
     rptTokenExpiresAt := rptTokenExpiresAt c; tokenCache := tokenCache c |}.
Definition set_rpt (c : ImpersonationClient) (t : string) (e : Z) : ImpersonationClient :=
  {| config := config c; saToken := saToken c; saTokenExpiresAt := saTokenExpiresAt c;
     rptToken := t; rptTokenExpiresAt := e; tokenCache := tokenCache c |}.
Definition set_cache (c : ImpersonationClient) (m : gmap string CachedToken)
    : ImpersonationClient :=
  {| config := config c; saToken := saToken c; saTokenExpiresAt := saTokenExpiresAt c;
     rptToken := rptToken c; rptTokenExpiresAt := rptTokenExpiresAt c; tokenCache := m |}.

Definition NewImpersonationClient (cfg : ImpersonationConfig) : result ImpersonationClient :=
  if decide (OAuthURL cfg = "") then Err (ErrNew "OAuthURL is required")
  else if decide (ClientID cfg = "") then Err (ErrNew "ClientID is required")
  else if decide (ClientSecret cfg = "") then Err (ErrNew "ClientSecret is required")
  else
    let buffer := if decide (TokenExpiryBuffer cfg = 0%Z) then defaultTokenExpiryBuffer
                  else TokenExpiryBuffer cfg in
    let timeout := if decide (HTTPTimeout cfg = 0%Z) then defaultHTTPTimeout
                   else HTTPTimeout cfg in
    Ok {| config := {| OAuthURL := OAuthURL cfg; ClientID := ClientID cfg;
                       ClientSecret := ClientSecret cfg; TokenExpiryBuffer := buffer;
                       HTTPTimeout := timeout |};
          saToken := ""; saTokenExpiresAt := zeroTime;
          rptToken := ""; rptTokenExpiresAt := zeroTime; tokenCache := ∅ |}.

(** [time.Duration(seconds) * time.Second], an [int64]. *)
Definition seconds (s : Z) : Z := wrap64 (s * Second).

(** [time.Now().Add(buffer).After(t.ExpiresAt)] *)
Definition IsExpired (t : CachedToken) (buffer : Z) : go bool :=
  let* now := golang Now in Ret (bool_decide (ExpiresAt t < now + buffer)%Z).

Definition cacheKey (userEmail region : string) : string := userEmail +:+ ":" +:+ region.

(** The status code is not 200. *)
Definition status_error (what : string) (r : http_token) : error :=
  ErrNew (what +:+ " failed with status " +:+ itoa (tk_status r) +:+ ": " +:+ tk_body r).

Definition tokenURL (c : ImpersonationClient) : string :=
  OAuthURL (config c) +:+ "/realms/cloudsigma/protocol/openid-connect/token".

(** [c.token != "" && time.Now().Add(buffer).Before(expiresAt)] *)
Definition token_usable (c : ImpersonationClient) (token : string) (expiresAt : Z) : go bool :=
  if decide (token <> "") then
    let* now := golang Now in
    Ret (bool_decide (now + TokenExpiryBuffer (config c) < expiresAt)%Z)
  else Ret false.

(** What the two token requests share: the answer as access token and lifetime. *)
Definition decode_token (what : string) (r : exchange http_token) : result (string * Z) :=
  match r with
  | NoRequest err => Err (ErrWrap "failed to create request" err)
  | NoResponse err => Err (ErrWrap "failed to execute request" err)
  | NoBody err => Err (ErrWrap "failed to read response" err)
  | Response resp =>
      if decide (tk_status resp <> 200%Z) then Err (status_error what resp)
      else match tk_decoded resp with
           | Err err => Err (ErrWrap "failed to parse token response" err)
           | Ok t => Ok t
           end
  end.

Definition getServiceAccountToken (c : ImpersonationClient)
    : go (result string * ImpersonationClient) :=
  let* usable := token_usable c (saToken c) (saTokenExpiresAt c) in
  if usable : bool then Ret (Ok (saToken c), c)
  else
    let* r := oauth (PostToken (tokenURL c)
                [("grant_type", "client_credentials"); ("client_id", ClientID (config c));
                 ("client_secret", ClientSecret (config c))] None) in
    match decode_token "token request" r with
    | Err err => Ret (Err err, c)
    | Ok (accessToken, expiresIn) =>
        let* now := golang Now in
        Ret (Ok accessToken, set_sa c accessToken (now + seconds expiresIn)%Z)
    end.

Definition getRPTToken (c : ImpersonationClient) (accessToken : string)
    : go (result string * ImpersonationClient) :=
  let* usable := token_usable c (rptToken c) (rptTokenExpiresAt c) in
  if usable : bool then Ret (Ok (rptToken c), c)
  else
    let* r := oauth (PostToken (tokenURL c)
                [("grant_type", umaGrantType); ("audience", serviceProviderAudience)]
                (Some accessToken)) in
    match decode_token "RPT token request" r with
    | Err err => Ret (Err err, c)
    | Ok (rpt, expiresIn) =>
        let* now := golang Now in
        Ret (Ok rpt, set_rpt c rpt (now + seconds expiresIn)%Z)
    end.

Definition impersonateURL (region : string) : string :=
  "https://direct." +:+ region +:+ ".cloudsigma.com/service_provider/api/v1/user/impersonate".

(** Marshalling a structure of two strings does not fail. *)
Definition impersonateUser (rptToken subjectToken userEmail region : string)
    : go (result (string * Z)) :=
  let* r := oauth (PostImpersonate (impersonateURL region) rptToken userEmail subjectToken) in
  match r with
  | NoRequest err => Ret (Err (ErrWrap "failed to create request" err))
  | NoResponse err => Ret (Err (ErrWrap "failed to execute request" err))
  | NoBody err => Ret (Err (ErrWrap "failed to read response" err))
  | Response resp =>
      if decide (tk_status resp <> 200%Z) then
        Ret (Err (status_error "impersonation request" resp))
      else match tk_decoded resp with
      | Err err => Ret (Err (ErrWrap "failed to parse impersonation response" err))
      | Ok (accessToken, expiresIn) =>
          if decide (accessToken = "") then
            Ret (Err (ErrNew "impersonation response missing access_token"))
          else
            let* now := golang Now in
            if decide (expiresIn = 0%Z) then
              let* now' := golang Now in Ret (Ok (accessToken, (now' + 15 * Minute)%Z))
            else Ret (Ok (accessToken, (now + seconds expiresIn)%Z))
      end
  end.

Definition fetchImpersonatedToken (c : ImpersonationClient) (userEmail region : string)
    : go (result (string * Z) * ImpersonationClient) :=
  let* ' (r, c) := getServiceAccountToken c in
  match r with
  | Err err => Ret (Err (ErrWrap "failed to get service account token" err), c)
  | Ok sa =>
      let* ' (r, c) := getRPTToken c sa in
      match r with
      | Err err => Ret (Err (ErrWrap "failed to get RPT token" err), c)
      | Ok rpt =>
          let* r := impersonateUser rpt sa userEmail region in
          match r with
          | Err err =>
              Ret (Err (ErrWrap ("failed to impersonate user " +:+ userEmail) err), c)
          | Ok t => Ret (Ok t, c)
          end
      end
  end.

Definition GetImpersonatedToken (c : ImpersonationClient) (userEmail region : string)
    : go (result string * ImpersonationClient) :=
  if decide (userEmail = "") then
    Ret (Err (ErrNew "userEmail is required for impersonation"), c)
  else if decide (region = "") then
    Ret (Err (ErrNew "region is required for impersonation"), c)
  else
    let* cached :=
      match tokenCache c !! cacheKey userEmail region with
      | None => Ret None
      | Some cached =>
          let* expired := IsExpired cached (TokenExpiryBuffer (config c)) in
          Ret (if expired : bool then None else Some (Token cached))
      end in
    match cached with
    | Some t => Ret (Ok t, c)
    | None =>
        let* ' (r, c) := fetchImpersonatedToken c userEmail region in
        match r with
        | Err err => Ret (Err err, c)
        | Ok (token, expiresAt) =>
            Ret (Ok token,
                 set_cache c (<[cacheKey userEmail region :=
                   {| Token := token; ExpiresAt := expiresAt; UserEmail := userEmail;
                      Region := region |}]> (tokenCache c)))
        end
    end.

Definition ClearCache (c : ImpersonationClient) : ImpersonationClient :=
  set_cache (set_rpt (set_sa c "" zeroTime) "" zeroTime) ∅.

Definition ClearUserToken (c : ImpersonationClient) (userEmail region : string)
    : ImpersonationClient :=
  set_cache c (delete (cacheKey userEmail region) (tokenCache c)).

(** ** What an operation leaves for an observer

    The tokens the impersonation endpoint issues (by URL, user, token and
    lifetime in seconds), the requests to the token endpoint, the clock. *)

Inductive auth_event :=
| Issued (url user token : string) (secs : Z)
| Refused (url : string)
| Asked (bearer : option string)
| Clock (now : Z).

Definition auth_view : view Eff auth_event := fun X e =>
  match e in Eff _ return X -> list auth_event with
  | EOAuth oe =>
      match oe in OAuthE Y return Y -> list auth_event with
      | PostToken _ _ bearer => fun _ => [Asked bearer]
      | PostImpersonate url _ user _ => fun x =>
          match x with
          | Response r =>
              if decide (tk_status r = 200%Z) then
                match tk_decoded r with
                | Ok (t, secs) => [Issued url user t secs]
                | Err _ => [Refused url]
                end
              else [Refused url]
          | _ => [Refused url]
          end
      end
  | EGo ge =>
      match ge in GoE Y return Y -> list auth_event with
      | Now => fun n => [Clock n]
      | _ => fun _ => []
      end
  | _ => fun _ => []
  end.

(** The log shows the token being issued, and [expires] is when it expires: its
    lifetime after the clock was read, or 15 minutes when it has none. *)
Definition issued_at (l : list auth_event) (url user token : string) (expires : Z) : Prop :=
  exists pre secs now post, l = pre ++ Issued url user token secs :: Clock now :: post /\
    ((secs <> 0%Z /\ expires = (now + seconds secs)%Z) \/
     (secs = 0%Z /\ exists now' post', post = Clock now' :: post' /\
                    expires = (now' + 15 * Minute)%Z)).

Lemma issued_at_app_l k l url user token expires :
  issued_at l url user token expires -> issued_at (k ++ l) url user token expires.
Proof.
  intros (pre & secs & now & post & -> & H). exists (k ++ pre), secs, now, post.
  by rewrite <- app_assoc.
Qed.

Lemma issued_at_app_r k l url user token expires :
  issued_at l url user token expires -> issued_at (l ++ k) url user token expires.
Proof.
  intros (pre & secs & now & post & -> & H). exists pre, secs, now, (post ++ k).
  split; [by rewrite <- app_assoc|].
  destruct H as [H|(-> & now' & post' & -> & H)]; [by left|right].
  split; [done|]. by exists now', (post' ++ k).
Qed.

(** Every cache entry is under the key of its user and region and was issued to
    them, with that expiry. *)
Definition cache_ok (c : ImpersonationClient) (l : list auth_event) : Prop :=
  forall k e, tokenCache c !! k = Some e ->
    k = cacheKey (UserEmail e) (Region e) /\ no_char ":"%char (UserEmail e) /\
    Token e <> "" /\ issued_at l (impersonateURL (Region e)) (UserEmail e) (Token e) (ExpiresAt e).

Lemma cache_ok_app c l k : cache_ok c l -> cache_ok c (l ++ k).
Proof.
  intros H key e He. destruct (H key e He) as (? & ? & ? & ?).
  split_and!; [done..|by apply issued_at_app_r].
Qed.

Lemma cacheKey_inj u r u' r' :
  no_char ":"%char u -> no_char ":"%char u' -> cacheKey u r = cacheKey u' r' -> u = u' /\ r = r'.
Proof. intros Hu Hu' H. by apply (sep_inj ":"%char). Qed.

(** What the token requests do: the log grows, the impersonation cache and the
    configuration stay. *)
Definition tokens_only (c : ImpersonationClient) (l : list auth_event)
    (r : result string * ImpersonationClient) (l' : list auth_event) : Prop :=
  (exists k, l' = l ++ k) /\ tokenCache r.2 = tokenCache c /\ config r.2 = config c.

Lemma wp_token_usable c t e l :
  wp (anyI auth_view) (token_usable c t e) (ok (fun _ l' => exists k, l' = l ++ k)) l.
Proof.
  unfold token_usable. case_decide; [|by apply wp_ret; exists []; rewrite app_nil_r].
  wp_call n Hn. subst. apply wp_ret. by eexists.
Qed.

Lemma wp_getServiceAccountToken c l :
  wp (anyI auth_view) (getServiceAccountToken c) (ok (tokens_only c l)) l.
Proof.
  unfold getServiceAccountToken. eapply wp_seq; [apply wp_token_usable|].
  intros [] ? [k ->]; [by apply wp_ret; split_and!; [by exists k|..]|].
  wp_call x Hx. subst. rewrite <- app_assoc. destruct (decode_token _ x) as [[t n]|].
  2:{ apply wp_ret. split_and!; [by eexists|done|done]. }
  wp_call n' Hn. subst. rewrite <- app_assoc. apply wp_ret. split_and!; [by eexists|done|done].
Qed.

Lemma wp_getRPTToken c t l :
  wp (anyI auth_view) (getRPTToken c t) (ok (tokens_only c l)) l.
Proof.
  unfold getRPTToken. eapply wp_seq; [apply wp_token_usable|].
  intros [] ? [k ->]; [by apply wp_ret; split_and!; [by exists k|..]|].
  wp_call x Hx. subst. rewrite <- app_assoc. destruct (decode_token _ x) as [[t' n]|].
  2:{ apply wp_ret. split_and!; [by eexists|done|done]. }
  wp_call n' Hn. subst. rewrite <- app_assoc. apply wp_ret. split_and!; [by eexists|done|done].
Qed.

(** A token the impersonation step answers was just issued. *)
Lemma wp_impersonateUser rpt sa u r l :
  wp (anyI auth_view) (impersonateUser rpt sa u r)
     (ok (fun res l' => exists k, l' = l ++ k /\ forall t e, res = Ok (t, e) ->
            t <> "" /\ issued_at k (impersonateURL r) u t e)) l.
Proof.
  unfold impersonateUser. wp_call x Hx. cbn in Hx. subst.
  destruct x as [err|err|err|resp]; try by (apply wp_ret; eexists).
  destruct (decide (tk_status resp <> 200%Z)) as [|Hst]; [by apply wp_ret; eexists|].
  apply dec_stable in Hst. rewrite (decide_True _ _ Hst).
  destruct (tk_decoded resp) as [[t secs]|]; [|by apply wp_ret; eexists].
  case_decide as Ht; [by apply wp_ret; eexists|].
  wp_call n Hn. cbn in Hn. subst. rewrite <- app_assoc.
  case_decide as Hs; [wp_call n' Hn'; cbn in Hn'; subst; rewrite <- app_assoc|];
    apply wp_ret; (eexists; split; [done|]); intros ? ? [= <- <-]; (split; [done|]);
    eexists [], _, n, _; (split; [done|]).
  - right. split; [done|]. by eexists _, _.
  - by left.
Qed.

Definition fetched (c : ImpersonationClient) (u r : string) (l : list auth_event)
    (o : result (string * Z) * ImpersonationClient) (l' : list auth_event) : Prop :=
  tokenCache o.2 = tokenCache c /\ config o.2 = config c /\
  exists k, l' = l ++ k /\ forall t e, o.1 = Ok (t, e) ->
    t <> "" /\ issued_at k (impersonateURL r) u t e.

Lemma wp_fetchImpersonatedToken c u r l :
  wp (anyI auth_view) (fetchImpersonatedToken c u r) (ok (fetched c u r l)) l.
Proof.
  unfold fetchImpersonatedToken. eapply wp_seq; [apply wp_getServiceAccountToken|].
  intros [[sa|err] c1] ? ([k1 ->] & Hc1 & Hg1).
  2:{ apply wp_ret. split_and!; [done..|]. by exists k1. }
  eapply wp_seq; [apply wp_getRPTToken|].
  intros [[rpt|err] c2] ? ([k2 ->] & Hc2 & Hg2); cbn in *;
    rewrite Hc1 in Hc2; rewrite Hg1 in Hg2; rewrite <- app_assoc.
  2:{ apply wp_ret. split_and!; [done..|]. by eexists. }
  eapply wp_seq; [apply wp_impersonateUser|].
  intros [[t e]|err] ? (k3 & -> & H); rewrite <- app_assoc; apply wp_ret;
    (split_and!; [done..|]); eexists; (split; [done|]); [|done].
  intros t' e' [= <- <-]. destruct (H _ _ eq_refl) as [Ht Hi].
  split; [done|]. by repeat apply issued_at_app_l.
Qed.

(** The token answered was issued to the user for the region; it comes from the
    cache with at least the buffer left, or was issued during the call. *)
Definition answered (buffer : Z) (u r : string) (l k : list auth_event) (t : string) : Prop :=
  exists e, issued_at (l ++ k) (impersonateURL r) u t e /\
    ((exists now, k = [Clock now] /\ (now + buffer <= e)%Z) \/
     issued_at k (impersonateURL r) u t e).

Definition got (c : ImpersonationClient) (u r : string) (l : list auth_event)
    (o : result string * ImpersonationClient) (l' : list auth_event) : Prop :=
  config o.2 = config c /\ cache_ok o.2 l' /\
  exists k, l' = l ++ k /\ forall t, o.1 = Ok t ->
    t <> "" /\ answered (TokenExpiryBuffer (config c)) u r l k t.

Lemma got_nothing c u r l k err :
  cache_ok c l -> got c u r l (Err err, c) (l ++ k).
Proof. intros H. split_and!; [done|by apply cache_ok_app|]. by exists k. Qed.

Lemma cache_ok_insert c l u r t e :
  cache_ok c l -> no_char ":"%char u -> t <> "" -> issued_at l (impersonateURL r) u t e ->
  cache_ok (set_cache c (<[cacheKey u r :=
    {| Token := t; ExpiresAt := e; UserEmail := u; Region := r |}]> (tokenCache c))) l.
Proof.
  intros H Hu Ht Hi k x. cbn [tokenCache set_cache]. rewrite lookup_insert_Some.
  intros [[<- <-]|[_ Hx]]; [done|by apply H].
Qed.

Lemma wp_GetImpersonatedToken c u r l :
  no_char ":"%char u -> cache_ok c l ->
  wp (anyI auth_view) (GetImpersonatedToken c u r) (ok (got c u r l)) l.
Proof.
  intros Hu Hc.
  assert (Herr : forall err, got c u r l (Err err, c) l).
  { intros err. rewrite <- (app_nil_r l) at 2. by apply got_nothing. }
  unfold GetImpersonatedToken. do 2 (case_decide; [apply wp_ret, Herr|]).
  assert (Hfetch : forall k, wp (anyI auth_view)
    (let* ' (res, c') := fetchImpersonatedToken c u r in
     match res with
     | Err err => Ret (Err err, c')
     | Ok (token, expiresAt) =>
         Ret (Ok token, set_cache c' (<[cacheKey u r :=
           {| Token := token; ExpiresAt := expiresAt; UserEmail := u; Region := r |}]>
           (tokenCache c')))
     end) (ok (got c u r l)) (l ++ k)).
  { intros k. eapply wp_seq; [apply wp_fetchImpersonatedToken|].
    intros [[[t e]|err] c'] ? (Hc' & Hg & k' & -> & H'); cbn in *; rewrite <- app_assoc.
    all: apply wp_ret; (split; [done|]); split.
    - apply cache_ok_insert; [|done|by apply (H' t e)|].
      + intros key x. rewrite Hc'. by apply cache_ok_app.
      + do 2 apply issued_at_app_l. by apply H'.
    - eexists. split; [done|]. intros t' [= <-]. destruct (H' _ _ eq_refl) as [Ht Hi].
      split; [done|]. exists e. split; [|right]; by repeat apply issued_at_app_l.
    - intros key x. cbn. rewrite Hc'. by apply cache_ok_app.
    - by eexists. }
  destruct (tokenCache c !! cacheKey u r) as [x|] eqn:Hx.
  2:{ rewrite <- (app_nil_r l) at 2. apply (Hfetch []). }
  eapply wp_seq with (P := fun o l' => exists now, l' = l ++ [Clock now] /\
    o = if decide (ExpiresAt x < now + TokenExpiryBuffer (config c))%Z then None
        else Some (Token x)).
  { unfold IsExpired. apply wp_bind. wp_call now Hnow. cbn in Hnow. subst.
    apply wp_ret, wp_ret. exists now. split; [done|].
    case_bool_decide; case_decide; done. }
  intros o ? (now & -> & ->). case_decide as Hexp; [apply Hfetch|].
  apply wp_ret. split_and!; [done|by apply cache_ok_app|].
  eexists. split; [done|]. intros t [= <-].
  destruct (Hc _ _ Hx) as (Hkey & Hux & Ht & Hi).
  apply cacheKey_inj in Hkey as [-> ->]; [|done..].
  split; [done|]. exists (ExpiresAt x). split; [by apply issued_at_app_r|]. left. exists now.
  split; [done|]. lia.
Qed.

(** ** Sessions of the client *)

Definition auth_world (W : Type) : Type := ImpersonationClient * (W * list auth_event).

(** The operations of a client, for users whose e-mail has no colon, in an
    environment that changes at will between them. *)
Inductive auth_step {W} (h : handler Eff W) : auth_world W -> auth_world W -> Prop :=
| step_get c wl u r res c' wl' :
    no_char ":"%char u ->
    run (logging auth_view h) (GetImpersonatedToken c u r) wl = (Done (res, c'), wl') ->
    auth_step h (c, wl) (c', wl')
| step_clear c wl : auth_step h (c, wl) (ClearCache c, wl)
| step_clear_user c wl u r : auth_step h (c, wl) (ClearUserToken c u r, wl)
| step_environment c w w' l : auth_step h (c, (w, l)) (c, (w', l)).

Lemma run_wp_auth {W} (h : handler Eff W) {A} (p : go A) (Q : A -> list auth_event -> Prop) wl :
  wp (anyI auth_view) p (ok Q) wl.2 ->
  exists a w' l', run (logging auth_view h) p wl = (Done a, (w', l')) /\ Q a l'.
Proof.
  intros Hp. destruct (wp_run _ _ _ _ _ wl _ (anyI_sound auth_view h) eq_refl Hp)
    as (g' & HQ & HR).
  destruct (run _ p _) as [[a|why] [w' l']]; simpl in *; [|done]. subst. eauto 10.
Qed.

Definition session_ok (cfg : ImpersonationConfig) {W} (s : auth_world W) : Prop :=
  cache_ok s.1 s.2.2 /\ config s.1 = cfg.

Lemma auth_step_ok {W} (h : handler Eff W) cfg s s' :
  auth_step h s s' -> session_ok cfg s -> session_ok cfg s'.
Proof.
  intros Hstep [Hc Hg]. destruct Hstep as [c wl u r res c' wl' Hu Hrun|c wl|c wl u r|c w w' l];
    cbn [fst snd] in *.
  - destruct (run_wp_auth h _ _ wl (wp_GetImpersonatedToken c u r _ Hu Hc))
      as ([res' c1] & w1 & l1 & Hrun' & Hcfg & Hok & _).
    rewrite Hrun in Hrun'. simplify_eq. cbn in *. by split.
  - split; [|done]. intros k e. cbn. by rewrite lookup_empty.
  - split; [|done]. intros k e. cbn. rewrite lookup_delete_Some. intros [_ H]. by apply Hc.
  - done.
Qed.

Definition new_client (cfg : ImpersonationConfig) : ImpersonationClient :=
  {| config := cfg; saToken := ""; saTokenExpiresAt := zeroTime;
     rptToken := ""; rptTokenExpiresAt := zeroTime; tokenCache := ∅ |}.

Lemma session_start cfg {W} (w : W) : session_ok cfg (new_client cfg, (w, [])).
Proof. split; [|done]. intros k e. cbn. by rewrite lookup_empty. Qed.

Lemma session_reachable {W} (h : handler Eff W) cfg s s' :
  rtc (auth_step h) s s' -> session_ok cfg s -> session_ok cfg s'.
Proof. induction 1; eauto using auth_step_ok. Qed.

(** ** The client as the token service of the controllers *)

(** The environment [h] with the client answering the token requests. *)
Definition with_auth {W} (h : handler Eff W) : handler Eff (W * ImpersonationClient) :=
  fun X e '(w, c) =>
    let pass := let '(x, w') := h X e w in (x, (w', c)) in
    match e in Eff _ return X * _ -> X * (W * ImpersonationClient) with
    | EToken te =>
        match te in TokenE Y return Y * _ -> Y * (W * ImpersonationClient) with
        | World.GetImpersonatedToken u r => fun _ =>
            match run h (GetImpersonatedToken c u r) w with
            | (Done (res, c'), w') => (res, (w', c'))
            | (Panicked why, w') => (Err (ErrNew why), (w', c))
            end
        end
    | _ => fun p => p
    end pass.

(** ** Properties *)

(** C12. In every session of the client, whatever was cached, cleared or refused
    before: a token it returns was issued by the impersonation endpoint of that
    region to that very user, and either it was issued during this call or it
    still has the expiry buffer left on the clock. *)
Theorem GetImpersonatedToken_safe {W} (h : handler Eff W) cfg w c wl u r t c' wl'
    (Hu : no_char ":"%char u)
    (Hreach : rtc (auth_step h) (new_client cfg, (w, [])) (c, wl))
    (Hrun : run (logging auth_view h) (GetImpersonatedToken c u r) wl
              = (Done (Ok t, c'), wl')) :
  exists k, wl'.2 = wl.2 ++ k /\ answered (TokenExpiryBuffer cfg) u r wl.2 k t.
Proof.
  destruct (session_reachable h cfg _ _ Hreach (session_start cfg w)) as [Hc Hg].
  destruct (run_wp_auth h _ _ wl (wp_GetImpersonatedToken c u r _ Hu Hc))
    as ([res c1] & w1 & l1 & Hrun' & Hcfg & Hok & k & -> & Hans).
  rewrite Hrun in Hrun'. simplify_eq. cbn in *. exists k. split; [done|]. by apply Hans.
Qed.

(** A user and region without an entry: the token is issued by this call. *)
Lemma wp_GetImpersonatedToken_uncached c u r l :
  tokenCache c !! cacheKey u r = None ->
  wp (anyI auth_view) (GetImpersonatedToken c u r)
     (ok (fun o l' => exists k, l' = l ++ k /\ forall t, o.1 = Ok t ->
            exists e, issued_at k (impersonateURL r) u t e)) l.
Proof.
  intros Hx. unfold GetImpersonatedToken.
  do 2 (case_decide; [apply wp_ret; exists []; by rewrite app_nil_r|]).
  rewrite Hx. eapply (wp_seq _ _ _ (fun o l' => o = None /\ l' = l)); [by apply wp_ret|].
  intros o ? [-> ->]. eapply wp_seq; [apply wp_fetchImpersonatedToken|].
  intros [[[t e]|err] c'] ? (_ & _ & k & -> & Hf); cbn in *; apply wp_ret; exists k;
    (split; [done|]); [|done].
  intros t' [= <-]. exists e. by apply Hf.
Qed.

(** After [ClearUserToken], as after [ClearCache], a token returned for that
    user and region was issued during the call, never taken from the cache; and
    [ClearUserToken] leaves every other user's entry, and the tokens of the
    service account, in place. *)
Theorem ClearUserToken_forgets {W} (h : handler Eff W) c c0 u r wl t c' wl'
    (Hc0 : c0 = ClearUserToken c u r \/ c0 = ClearCache c)
    (Hrun : run (logging auth_view h) (GetImpersonatedToken c0 u r) wl
              = (Done (Ok t, c'), wl')) :
  (exists k e, wl'.2 = wl.2 ++ k /\ issued_at k (impersonateURL r) u t e) /\
  (c0 = ClearUserToken c u r ->
     saToken c0 = saToken c /\ rptToken c0 = rptToken c /\
     forall u' r', no_char ":"%char u -> no_char ":"%char u' -> (u', r') <> (u, r) ->
       tokenCache c0 !! cacheKey u' r' = tokenCache c !! cacheKey u' r').
Proof.
  split.
  - assert (Hnone : tokenCache c0 !! cacheKey u r = None).
    { destruct Hc0 as [->| ->]; cbn; [apply lookup_delete_eq|apply lookup_empty]. }
    destruct (run_wp_auth h _ _ wl (wp_GetImpersonatedToken_uncached c0 u r _ Hnone))
      as ([res c1] & w1 & l1 & Hrun' & k & -> & H).
    rewrite Hrun in Hrun'. simplify_eq. cbn in *. destruct (H _ eq_refl) as [e He].
    by exists k, e.
  - intros ->. cbn. split_and!; [done|done|]. intros u' r' Hu Hu' Hne.
    rewrite lookup_delete_ne; [done|]. intros H. apply cacheKey_inj in H as [-> ->]; done.
Qed.

(** The requests to the identity provider, with what they carry. *)
Inductive oauth_request :=
| SARequest
| RPTRequest (bearer : string)
| ImpRequest (url bearer user subject : string).

Definition request_view : view Eff oauth_request := fun X e =>
  match e in Eff _ return X -> list oauth_request with
  | EOAuth oe =>
      match oe in OAuthE Y return Y -> list oauth_request with
      | PostToken _ _ None => fun _ => [SARequest]
      | PostToken _ _ (Some b) => fun _ => [RPTRequest b]
      | PostImpersonate url b user sub => fun _ => [ImpRequest url b user sub]
      end
  | _ => fun _ => []
  end.

(** The requests of one call: those of the chain that were needed, in its order,
    each carrying the tokens of the steps before it. *)
Definition chain (u r : string) (l : list oauth_request) : Prop :=
  exists sa rpt l1 l2 l3, l = l1 ++ l2 ++ l3 /\
    (l1 = [] \/ l1 = [SARequest]) /\ (l2 = [] \/ l2 = [RPTRequest sa]) /\
    (l3 = [] \/ l3 = [ImpRequest (impersonateURL r) rpt u sa]).

Lemma wp_token_usable_silent c t e l :
  wp (anyI request_view) (token_usable c t e) (ok (fun _ l' => l' = l)) l.
Proof.
  unfold token_usable. case_decide; [|by apply wp_ret].
  wp_call n Hn. cbn in Hn. rewrite app_nil_r in Hn. subst. by apply wp_ret.
Qed.

Lemma wp_getServiceAccountToken_req c l :
  wp (anyI request_view) (getServiceAccountToken c)
     (ok (fun o l' => tokenCache o.2 = tokenCache c /\
            exists k, l' = l ++ k /\ (k = [] \/ k = [SARequest]))) l.
Proof.
  unfold getServiceAccountToken. eapply wp_seq; [apply wp_token_usable_silent|].
  intros [] ? ->; [apply wp_ret; split; [done|]; exists []; rewrite app_nil_r; auto|].
  wp_call x Hx. cbn in Hx. subst.
  destruct (decode_token _ x) as [[t n]|]; [|apply wp_ret; split; eauto].
  wp_call n' Hn. cbn in Hn. subst. rewrite app_nil_r. apply wp_ret; split; eauto.
Qed.

Lemma wp_getRPTToken_req c t l :
  wp (anyI request_view) (getRPTToken c t)
     (ok (fun o l' => tokenCache o.2 = tokenCache c /\
            exists k, l' = l ++ k /\ (k = [] \/ k = [RPTRequest t]))) l.
Proof.
  unfold getRPTToken. eapply wp_seq; [apply wp_token_usable_silent|].
  intros [] ? ->; [apply wp_ret; split; [done|]; exists []; rewrite app_nil_r; auto|].
  wp_call x Hx. cbn in Hx. subst.
  destruct (decode_token _ x) as [[t' n]|]; [|apply wp_ret; split; eauto].
  wp_call n' Hn. cbn in Hn. subst. rewrite app_nil_r. apply wp_ret; split; eauto.
Qed.

Lemma wp_impersonateUser_req rpt sa u r l :
  wp (anyI request_view) (impersonateUser rpt sa u r)
     (ok (fun _ l' => l' = l ++ [ImpRequest (impersonateURL r) rpt u sa])) l.
Proof.
  unfold impersonateUser. wp_call x Hx. cbn in Hx. subst.
  destruct x as [err|err|err|resp]; try by apply wp_ret.
  case_decide; [by apply wp_ret|].
  destruct (tk_decoded resp) as [[t secs]|]; [|by apply wp_ret].
  case_decide; [by apply wp_ret|].
  wp_call n Hn. cbn in Hn. rewrite app_nil_r in Hn. subst.
  case_decide; [|by apply wp_ret].
  wp_call n' Hn'. cbn in Hn'. rewrite app_nil_r in Hn'. subst. by apply wp_ret.
Qed.

Lemma wp_fetchImpersonatedToken_req c u r l :
  wp (anyI request_view) (fetchImpersonatedToken c u r)
     (ok (fun o l' => tokenCache o.2 = tokenCache c /\
            exists k, l' = l ++ k /\ chain u r k)) l.
Proof.
  unfold fetchImpersonatedToken. eapply wp_seq; [apply wp_getServiceAccountToken_req|].
  intros [[sa|err] c1] ? (Hc1 & k1 & -> & H1).
  2:{ apply wp_ret. split; [done|]. exists k1. split; [done|]. exists "", "", k1, [], [].
      rewrite !app_nil_r. auto 10. }
  eapply wp_seq; [apply wp_getRPTToken_req|].
  intros [[rpt|err] c2] ? (Hc2 & k2 & -> & H2); rewrite <- app_assoc; cbn in *;
    rewrite Hc1 in Hc2.
  2:{ apply wp_ret. split; [done|]. eexists. split; [done|]. exists sa, "", k1, k2, [].
      rewrite !app_nil_r. auto 10. }
  eapply wp_seq; [apply wp_impersonateUser_req|].
  intros [[t e]|err] ? ->; rewrite <- app_assoc; apply wp_ret;
    (split; [done|]); (eexists; split; [done|]); exists sa, rpt, k1, k2; eexists; rewrite <- app_assoc; auto 10.
Qed.

Lemma chain_nil u r : chain u r [].
Proof. exists "", "", [], [], []. auto 10. Qed.


(** ** A concrete identity provider *)

(** The clock advances by a second at each reading; service-account tokens live
    5 minutes, impersonated tokens 15. *)
Definition sim_token (token : string) (secs : Z) : exchange http_token :=
  Response {| tk_status := 200; tk_body := ""; tk_decoded := Ok (token, secs) |}.

Definition sim_oauth : handler Eff Z := fun X e now =>
  match e in Eff _ return X * Z with
  | EOAuth oe =>
      match oe in OAuthE Y return Y * Z with
      | PostToken _ _ None => (sim_token "service" 300, now)
      | PostToken _ _ (Some _) => (sim_token "rpt" 300, now)
      | PostImpersonate _ _ user _ => (sim_token ("user " +:+ user) 900, now)
      end
  | EGo ge =>
      match ge in GoE Y return Y * Z with
      | Now => (now, now + Second)%Z
      | ge => (idle_golang ge, now)
      end
  | e => (deaf e, now)
  end.

Definition wit_config : ImpersonationConfig :=
  {| OAuthURL := "https://oauth.cloudsigma.com"; ClientID := "id"; ClientSecret := "secret";
     TokenExpiryBuffer := defaultTokenExpiryBuffer; HTTPTimeout := defaultHTTPTimeout |}.

(** The session after one more call. *)
Definition wit_call (s : auth_world Z) : auth_world Z :=
  match run (logging auth_view sim_oauth) (GetImpersonatedToken s.1 "a@b.c" "zrh") s.2 with
  | (Done (_, c), wl) => (c, wl)
  | (Panicked _, wl) => (s.1, wl)
  end.

Definition wit_session : auth_world Z := wit_call (new_client wit_config, (0%Z, [])).

(** The second call of a session is answered from the cache. *)
Lemma GetImpersonatedToken_safe_witness :
  exists k, k = [Clock (3 * Second)] /\
    answered (TokenExpiryBuffer wit_config) "a@b.c" "zrh" wit_session.2.2 k "user a@b.c".
Proof.
  destruct (GetImpersonatedToken_safe sim_oauth wit_config 0%Z wit_session.1 wit_session.2
    "a@b.c" "zrh" "user a@b.c" wit_session.1 ((4 * Second)%Z, wit_session.2.2 ++ [Clock (3 * Second)]))
    as (k & Hk & Ha).
  - by vm_compute.
  - apply rtc_once. eapply step_get with (u := "a@b.c") (r := "zrh"); [by vm_compute|].
    by vm_compute.
  - by vm_compute.
  - exists k. split; [|done]. by apply app_inv_head in Hk.
Defined.

Lemma ClearUserToken_forgets_witness :
  exists k e, issued_at k (impersonateURL "zrh") "a@b.c" "user a@b.c" e.
Proof.
  pose (c0 := ClearUserToken wit_session.1 "a@b.c" "zrh").
  destruct (ClearUserToken_forgets sim_oauth wit_session.1 c0 "a@b.c" "zrh" wit_session.2
    "user a@b.c" (wit_call (c0, wit_session.2)).1 (wit_call (c0, wit_session.2)).2
    (or_introl eq_refl)) as [(k & e & _ & H) _]; [by vm_compute|].
  by exists k, e.
Defined.
