(* ===== verification/AuthConcurrent.v ===== *)
(** * The impersonation client under concurrent callers

    One client serves all goroutines of a process ([cmd/main.go] gives it to both
    controllers).  Its mutexes guard the reads and writes of its fields and are
    released in between ([pkg/auth/impersonation.go]).  Here every critical section
    is one access to the shared client, [Load] or [Store] (the clock that is read
    inside a section belongs to the caller), and the callers interleave at every
    access and every request.  Alone, a caller does what the operation of Auth.v
    does. *)

From S2P Require Import Prelude Effects GoErrors ApiTypes World Auth.

Inductive SharedE : Type -> Type :=
| Ext {X : Type} (e : Eff X) : SharedE X
| Load : SharedE ImpersonationClient
| Store (f : ImpersonationClient -> ImpersonationClient) : SharedE unit.

Abbreviation caller := (prog SharedE).

(** What does not touch the client. *)
Fixpoint lift {A} (p : go A) : caller A :=
  match p with
  | Ret a => Ret a
  | Panic why => Panic why
  | Call e k => Call (Ext e) (fun x => lift (k x))
  end.

Definition load : caller ImpersonationClient := call Load.
Definition store (f : ImpersonationClient -> ImpersonationClient) : caller unit := call (Store f).

Module Shared.

Definition getServiceAccountToken : caller (result string) :=
  let* c := load in
  let* usable := lift (token_usable c (saToken c) (saTokenExpiresAt c)) in
  if usable : bool then Ret (Ok (saToken c))
  else
    let* r := lift (oauth (PostToken (tokenURL c)
                [("grant_type", "client_credentials"); ("client_id", ClientID (config c));
                 ("client_secret", ClientSecret (config c))] None)) in
    match decode_token "token request" r with
    | Err err => Ret (Err err)
    | Ok (accessToken, expiresIn) =>
        let* now := lift (golang Now) in
        store (fun c => set_sa c accessToken (now + seconds expiresIn)%Z) ;;
        Ret (Ok accessToken)
    end.

Definition getRPTToken (accessToken : string) : caller (result string) :=
  let* c := load in
  let* usable := lift (token_usable c (rptToken c) (rptTokenExpiresAt c)) in
  if usable : bool then Ret (Ok (rptToken c))
  else
    let* r := lift (oauth (PostToken (tokenURL c)
                [("grant_type", umaGrantType); ("audience", serviceProviderAudience)]
                (Some accessToken))) in
    match decode_token "RPT token request" r with
    | Err err => Ret (Err err)
    | Ok (rpt, expiresIn) =>
        let* now := lift (golang Now) in
        store (fun c => set_rpt c rpt (now + seconds expiresIn)%Z) ;;
        Ret (Ok rpt)
    end.

Definition fetchImpersonatedToken (userEmail region : string) : caller (result (string * Z)) :=
  let* r := getServiceAccountToken in
  match r with
  | Err err => Ret (Err (ErrWrap "failed to get service account token" err))
  | Ok sa =>
      let* r := getRPTToken sa in
      match r with
      | Err err => Ret (Err (ErrWrap "failed to get RPT token" err))
      | Ok rpt =>
          let* r := lift (impersonateUser rpt sa userEmail region) in
          match r with
          | Err err => Ret (Err (ErrWrap ("failed to impersonate user " +:+ userEmail) err))
          | Ok t => Ret (Ok t)
          end
      end
  end.

Definition cache_token (userEmail region token : string) (expiresAt : Z) (c : ImpersonationClient)
    : ImpersonationClient :=
  set_cache c (<[cacheKey userEmail region :=
    {| Token := token; ExpiresAt := expiresAt; UserEmail := userEmail; Region := region |}]>
    (tokenCache c)).

Definition GetImpersonatedToken (userEmail region : string) : caller (result string) :=
  if decide (userEmail = "") then Ret (Err (ErrNew "userEmail is required for impersonation"))
  else if decide (region = "") then Ret (Err (ErrNew "region is required for impersonation"))
  else
    let* c := load in
    let* cached :=
      match tokenCache c !! cacheKey userEmail region with
      | None => Ret None
      | Some cached =>
          let* expired := lift (IsExpired cached (TokenExpiryBuffer (config c))) in
          Ret (if expired : bool then None else Some (Token cached))
      end in
    match cached with
    | Some t => Ret (Ok t)
    | None =>
        let* r := fetchImpersonatedToken userEmail region in
        match r with
        | Err err => Ret (Err err)
        | Ok (token, expiresAt) =>
            store (cache_token userEmail region token expiresAt) ;;
            Ret (Ok token)
        end
    end.

(** Three critical sections. *)
Definition ClearCache : caller unit :=
  store (fun c => set_sa c "" zeroTime) ;;
  store (fun c => set_rpt c "" zeroTime) ;;
  store (fun c => set_cache c ∅).

Definition ClearUserToken (userEmail region : string) : caller unit :=
  store (fun c => Auth.ClearUserToken c userEmail region).

End Shared.

(** ** Alone *)

Definition alone {W} (h : handler Eff W) : handler SharedE (ImpersonationClient * W) :=
  fun X e '(c, w) =>
  match e in SharedE Y return Y * (ImpersonationClient * W) with
  | Ext e => let '(x, w') := h _ e w in (x, (c, w'))
  | Load => (c, (c, w))
  | Store f => (tt, (f c, w))
  end.

(** The outcome of an operation of Auth.v, with the client moved to the state. *)
Definition moved {W A} (c : ImpersonationClient) (r : outcome (A * ImpersonationClient) * W)
    : outcome A * (ImpersonationClient * W) :=
  match r with
  | (Done (a, c'), w) => (Done a, (c', w))
  | (Panicked why, w) => (Panicked why, (c, w))
  end.

Section alone.
Context {W} (h : handler Eff W).

Lemma run_lift {A} (p : go A) c w :
  run (alone h) (lift p) (c, w) = ((run h p w).1, (c, (run h p w).2)).
Proof.
  revert w. induction p as [a|why|X e k IH]; intros w; [done..|]. cbn.
  destruct (h X e w) as [x w']. apply IH.
Qed.

Lemma run_load {A} (f : ImpersonationClient -> caller A) c w :
  run (alone h) (let* x := load in f x) (c, w) = run (alone h) (f c) (c, w).
Proof. done. Qed.

Lemma run_store {A} g (f : unit -> caller A) c w :
  run (alone h) (let* x := store g in f x) (c, w) = run (alone h) (f tt) (g c, w).
Proof. done. Qed.

Lemma alone_token_request c w (usable : go bool) (token : string) req what set :
  run (alone h)
    (let* u := lift usable in
     if u : bool then Ret (Ok token)
     else
       let* r := lift (oauth req) in
       match decode_token what r with
       | Err err => Ret (Err err)
       | Ok (t, secs) =>
           let* now := lift (golang Now) in
           store (fun c => set c t (now + seconds secs)%Z) ;; Ret (Ok t)
       end) (c, w) =
  moved c (run h
    (let* u := usable in
     if u : bool then Ret (Ok token, c)
     else
       let* r := oauth req in
       match decode_token what r with
       | Err err => Ret (Err err, c)
       | Ok (t, secs) => let* now := golang Now in Ret (Ok t, set c t (now + seconds secs)%Z)
       end) w).
Proof.
  rewrite !run_bind, run_lift. destruct (run h usable w) as [[[]|why] w1]; [done| |done]. cbn [fst snd].
  rewrite !run_bind, run_lift. destruct (run h (oauth req) w1) as [[r|why] w2]; [|done]. cbn [fst snd].
  destruct (decode_token what r) as [[t secs]|err]; [|done].
  rewrite !run_bind, run_lift. destruct (run h (golang Now) w2) as [[now|why] w3]; [|done].
  cbn [fst snd]. by rewrite run_store.
Qed.

Lemma alone_sa c w :
  run (alone h) Shared.getServiceAccountToken (c, w) = moved c (run h (getServiceAccountToken c) w).
Proof. unfold Shared.getServiceAccountToken. rewrite run_load. apply alone_token_request. Qed.

Lemma alone_rpt c w sa :
  run (alone h) (Shared.getRPTToken sa) (c, w) = moved c (run h (getRPTToken c sa) w).
Proof. unfold Shared.getRPTToken. rewrite run_load. apply alone_token_request. Qed.

(** The two token requests return. *)
Lemma run_done {A} (p : go A) (Q : A -> list auth_event -> Prop) w :
  wp (anyI auth_view) p (ok Q) [] -> exists a w', run h p w = (Done a, w').
Proof. intros Hp. destruct (wp_run_log auth_view h p w Q Hp) as (a & w' & _ & H & _). eauto. Qed.

Lemma alone_fetch c w u r :
  run (alone h) (Shared.fetchImpersonatedToken u r) (c, w)
  = moved c (run h (fetchImpersonatedToken c u r) w).
Proof.
  unfold Shared.fetchImpersonatedToken, fetchImpersonatedToken. rewrite !run_bind, alone_sa.
  destruct (run_done _ _ w (wp_getServiceAccountToken c [])) as ([[sa|err] c1] & w1 & ->); [|done].
  cbn [moved]. rewrite !run_bind, alone_rpt.
  destruct (run_done _ _ w1 (wp_getRPTToken c1 sa [])) as ([[rpt|err] c2] & w2 & ->); [|done].
  cbn [moved]. rewrite !run_bind, run_lift.
  destruct (run_done _ _ w2 (wp_impersonateUser rpt sa u r [])) as ([t|err] & w3 & ->); done.
Qed.
End alone.

(** A caller that is alone does what the operation of the sequential client does:
    the same requests, the same answer, and the same client after it. *)
Theorem shared_alone {W} (h : handler Eff W) c u r w :
  run (alone h) (Shared.GetImpersonatedToken u r) (c, w)
  = moved c (run h (GetImpersonatedToken c u r) w).
Proof.
  unfold Shared.GetImpersonatedToken, GetImpersonatedToken. do 2 (case_decide; [done|]).
  rewrite run_load.
  assert (Hfetch : forall w1, run (alone h)
      (let* r0 := Shared.fetchImpersonatedToken u r in
       match r0 with
       | Ok (token, expiresAt) => store (Shared.cache_token u r token expiresAt) ;; Ret (Ok token)
       | Err err => Ret (Err err)
       end) (c, w1) =
    moved c (run h
      (let* ' (r0, c') := fetchImpersonatedToken c u r in
       match r0 with
       | Ok (token, expiresAt) => Ret (Ok token, Shared.cache_token u r token expiresAt c')
       | Err err => Ret (Err err, c')
       end) w1)).
  { intros w1. rewrite !run_bind, alone_fetch.
    destruct (run_done h _ _ w1 (wp_fetchImpersonatedToken c u r [])) as ([[[t e]|err] c1] & w2 & ->);
      [|done]. cbn [moved]. by rewrite run_store. }
  destruct (tokenCache c !! cacheKey u r) as [x|]; [|apply Hfetch].
  rewrite !run_bind, run_lift.
  destruct (run h (IsExpired x _) w) as [[b|why] w1]; [|done]. cbn [fst snd].
  destruct b; [apply Hfetch|done].
Qed.

(** ** Callers side by side

    Every event is recorded with the goroutine it belongs to. *)

Abbreviation trace := (list (nat * auth_event)).

Definition own (i : nat) (l : trace) : list auth_event := (filter (fun x => x.1 = i) l).*2.

Inductive token_call :=
| GetToken (u r : string)
| Clear
| ClearUser (u r : string).

Definition serve_call (x : token_call) : caller (option (result string)) :=
  match x with
  | GetToken u r => let* t := Shared.GetImpersonatedToken u r in Ret (Some t)
  | Clear => Shared.ClearCache ;; Ret None
  | ClearUser u r => Shared.ClearUserToken u r ;; Ret None
  end.

Record callers (W : Type) := Callers {
  goroutines : list (caller (option (result string)));
  client : ImpersonationClient;
  outside : W;
  events : trace
}.
Arguments Callers {W} goroutines client outside events.
Arguments goroutines {W} _.
Arguments client {W} _.
Arguments outside {W} _.
Arguments events {W} _.

Definition shared_view : view SharedE auth_event := fun X e =>
  match e in SharedE Y return Y -> list auth_event with
  | Ext e => auth_view _ e
  | _ => fun _ => []
  end.

(** One access or one request of one goroutine. *)
Inductive callers_step {W} (h : handler Eff W) : callers W -> callers W -> Prop :=
| callers_step_call i ps c w l X (e : SharedE X) k x c' w' :
    ps !! i = Some (Call e k) -> alone h X e (c, w) = (x, (c', w')) ->
    callers_step h (Callers ps c w l)
      (Callers (<[i := k x]> ps) c' w' (l ++ (pair i <$> shared_view X e x))).

Definition start {W} (cfg : ImpersonationConfig) (calls : list token_call) (w : W) : callers W :=
  Callers (serve_call <$> calls) (new_client cfg) w [].

(** The callers along a schedule, a list of goroutines to step. *)
Fixpoint run_callers {W} (h : handler Eff W) (sched : list nat) (s : callers W) : callers W :=
  match sched with
  | [] => s
  | i :: sched' =>
      run_callers h sched'
        match goroutines s !! i with
        | Some (@Call _ _ X e k) =>
            let '(x, (c', w')) := alone h X e (client s, outside s) in
            Callers (<[i := k x]> (goroutines s)) c' w' (events s ++ (pair i <$> shared_view X e x))
        | _ => s
        end
  end.

Lemma run_callers_steps {W} (h : handler Eff W) sched s :
  rtc (callers_step h) s (run_callers h sched s).
Proof.
  revert s. induction sched as [|i sched IH]; intros s; [constructor|]. cbn [run_callers].
  destruct (goroutines s !! i) as [[a|why|X e k]|] eqn:Hi; [apply IH..| |apply IH].
  destruct s as [ps c w l]. cbn [goroutines client outside events] in *.
  destruct (alone h X e (c, w)) as [x [c' w']] eqn:E. eapply rtc_l; [|apply IH].
  by eapply callers_step_call.
Qed.

(** *** The logic of one goroutine *)

Lemma own_app i l l' : own i (l ++ l') = own i l ++ own i l'.
Proof. unfold own. by rewrite filter_app, fmap_app. Qed.

Lemma own_tagged i j (l : list auth_event) :
  own i (pair j <$> l) = if decide (j = i) then l else [].
Proof.
  unfold own. induction l as [|x l IH]; [by case_decide|]. cbn [fmap list_fmap].
  rewrite filter_cons. cbn. case_decide as H.
  - rewrite fmap_cons. cbn. f_equal. exact IH.
  - exact IH.
Qed.

(** The token was issued to the user, in the requests of some goroutine. *)
Definition issued_to (l : trace) (u r t : string) (e : Z) : Prop :=
  exists j, issued_at (own j l) (impersonateURL r) u t e.

Lemma issued_to_app l k u r t e : issued_to l u r t e -> issued_to (l ++ k) u r t e.
Proof. intros [j H]. exists j. rewrite own_app. by apply issued_at_app_r. Qed.

Section goroutine.
Context (cfg : ImpersonationConfig).

(** The invariant of the shared client: every entry was issued to its user. *)
Definition client_ok (c : ImpersonationClient) (l : trace) : Prop :=
  config c = cfg /\
  forall k e, tokenCache c !! k = Some e ->
    k = cacheKey (UserEmail e) (Region e) /\ no_char ":"%char (UserEmail e) /\
    issued_to l (UserEmail e) (Region e) (Token e) (ExpiresAt e).

Lemma client_ok_app c l k : client_ok c l -> client_ok c (l ++ k).
Proof.
  intros [Hc H]. split; [done|]. intros key e He. destruct (H key e He) as (? & ? & ?).
  split_and!; [done|done|by apply issued_to_app].
Qed.

(** What the other goroutines do to the trace. *)
Definition others (i : nat) (l l' : trace) : Prop := exists k, l' = l ++ k /\ own i k = [].

#[global] Instance others_preorder i : PreOrder (others i).
Proof.
  split; [intros l; exists []; by rewrite app_nil_r|].
  intros l1 l2 l3 (k1 & -> & H1) (k2 & -> & H2). exists (k1 ++ k2).
  by rewrite <- app_assoc, own_app, H1, H2.
Qed.

(** Goroutine [i]: between its calls the others extend the trace and change the
    client, which stays well formed; a store must keep it so. *)
Definition sharedI (i : nat) : iface SharedE trace :=
  Iface
    (fun X e l => match e with
                  | Store f => forall c l', others i l l' -> client_ok c l' -> client_ok (f c) l'
                  | _ => True
                  end)
    (fun X e l x l' => exists l1, others i l l1 /\
       l' = l1 ++ (pair i <$> shared_view X e x) /\
       match e in SharedE Y return Y -> Prop with
       | Load => fun c => client_ok c l1
       | _ => fun _ => True
       end x).

Lemma wp_lift i {A} (p : go A) (P : A -> list auth_event -> Prop) l :
  wp (anyI auth_view) p (ok P) (own i l) ->
  wp (sharedI i) (lift p) (ok (fun a l' => l `prefix_of` l' /\ P a (own i l'))) l.
Proof.
  assert (Hgen : forall l0, l0 `prefix_of` l -> wp (anyI auth_view) p (ok P) (own i l) ->
    wp (sharedI i) (lift p) (ok (fun a l' => l0 `prefix_of` l' /\ P a (own i l'))) l).
  { revert l. induction p as [a|why|X e k IH]; intros l l0 Hl Hp; [by split|done|].
    destruct Hp as [_ Hk]. split; [done|]. intros x l' (l1 & (k1 & -> & Hown) & -> & _).
    apply IH.
    - destruct Hl as [k0 ->]. eexists. by rewrite <- !app_assoc.
    - rewrite !own_app, Hown, app_nil_r, own_tagged, decide_True by done. by apply Hk. }
  intros Hp. apply Hgen; [exists []; by rewrite app_nil_r|done].
Qed.

Context (i : nat).

Lemma others_prefix l l' : others i l l' -> l `prefix_of` l'.
Proof. intros (k & -> & _). by eexists. Qed.

Lemma wp_load {A} (f : ImpersonationClient -> caller A) Q l :
  (forall c l1, others i l l1 -> client_ok c l1 -> wp (sharedI i) (f c) Q l1) ->
  wp (sharedI i) (let* c := load in f c) Q l.
Proof.
  intros Hk. apply wp_call; [done|]. intros c l' (l1 & Ho & -> & Hc). cbn. rewrite app_nil_r. by apply Hk.
Qed.

Lemma wp_store {A} g (k : unit -> caller A) Q l :
  (forall c l', others i l l' -> client_ok c l' -> client_ok (g c) l') ->
  (forall l1, others i l l1 -> wp (sharedI i) (k tt) Q l1) ->
  wp (sharedI i) (let* x := store g in k x) Q l.
Proof.
  intros Hg Hk. apply wp_call; [exact Hg|]. intros [] l' (l1 & Ho & -> & _). cbn. rewrite app_nil_r. by apply Hk.
Qed.

(** A request whose answer may be anything. *)
Lemma wp_lift_any {A B} (p : go A) (f : A -> caller B) Q l :
  wp (anyI auth_view) p (ok (fun _ _ => True)) (own i l) ->
  (forall a l', l `prefix_of` l' -> wp (sharedI i) (f a) Q l') ->
  wp (sharedI i) (let* x := lift p in f x) Q l.
Proof.
  intros Hp Hf. eapply wp_seq; [by apply (wp_lift i p (fun _ _ => True))|]. intros a l' [Hl _]. by apply Hf.
Qed.

(** What a store does not change of the cache and the configuration. *)
Lemma client_ok_same c c' l :
  tokenCache c' = tokenCache c -> config c' = config c -> client_ok c l -> client_ok c' l.
Proof. intros Ht Hg [Hc H]. split; [congruence|]. intros k e. rewrite Ht. apply H. Qed.

Lemma wp_shared_request (usable : ImpersonationClient -> go bool) token req what set l :
  (forall c l', wp (anyI auth_view) (usable c) (ok (fun _ _ => True)) l') ->
  (forall c t e, tokenCache (set c t e) = tokenCache c /\ config (set c t e) = config c) ->
  wp (sharedI i)
    (let* c := load in
     let* u := lift (usable c) in
     if u : bool then Ret (Ok (token c))
     else
       let* r := lift (oauth (req c)) in
       match decode_token what r with
       | Err err => Ret (Err err)
       | Ok (t, secs) =>
           let* now := lift (golang Now) in
           store (fun c => set c t (now + seconds secs)%Z) ;; Ret (Ok (t : string))
       end) (ok (fun _ l' => l `prefix_of` l')) l.
Proof.
  intros Hu Hset. apply wp_load. intros c l1 H1%others_prefix _.
  apply wp_lift_any; [apply Hu|]. intros [] l2 H2; [apply wp_ret; cbn; by etrans|].
  apply wp_lift_any; [by split|]. intros r l3 H3.
  destruct (decode_token what r) as [[t secs]|err]; [|apply wp_ret; cbn; etrans; [exact H1|by etrans]].
  apply wp_lift_any; [by split|]. intros now l4 H4. apply wp_store.
  - intros c' l' _ Hc. destruct (Hset c' t (now + seconds secs)%Z) as [E1 E2].
    by eapply client_ok_same.
  - intros l5 H5%others_prefix. apply wp_ret. cbn. etrans; [exact H1|]. etrans; [exact H2|].
    etrans; [exact H3|by etrans].
Qed.

Lemma wp_usable c t e l : wp (anyI auth_view) (token_usable c t e) (ok (fun _ _ => True)) l.
Proof. eapply wp_mono; [|apply wp_token_usable]. by intros []. Qed.

Lemma wp_shared_fetch u r l :
  wp (sharedI i) (Shared.fetchImpersonatedToken u r) (ok (fun x l' => l `prefix_of` l' /\
    forall t e, x = Ok (t, e) -> issued_at (own i l') (impersonateURL r) u t e)) l.
Proof.
  unfold Shared.fetchImpersonatedToken. eapply wp_seq.
  { apply (wp_shared_request (fun c => token_usable c (saToken c) (saTokenExpiresAt c)) saToken
      (fun c => PostToken (tokenURL c)
         [("grant_type", "client_credentials"); ("client_id", ClientID (config c));
          ("client_secret", ClientSecret (config c))] None) "token request" set_sa); [|done].
    intros c l'. apply wp_usable. }
  intros [sa|err] l1 H1; [|by apply wp_ret]. eapply wp_seq.
  { apply (wp_shared_request (fun c => token_usable c (rptToken c) (rptTokenExpiresAt c)) rptToken
      (fun c => PostToken (tokenURL c)
         [("grant_type", umaGrantType); ("audience", serviceProviderAudience)] (Some sa))
      "RPT token request" set_rpt); [|done].
    intros c l'. apply wp_usable. }
  intros [rpt|err] l2 H2; [|apply wp_ret; split; [by etrans|done]].
  assert (H12 : l `prefix_of` l2) by (by etrans).
  eapply wp_seq; [apply wp_lift, wp_impersonateUser|].
  intros [[t e]|err] l3 (H3 & k & Hk & Hi); apply wp_ret; (split; [by etrans|]); [|done].
  intros t' e' [= <- <-]. rewrite Hk. apply issued_at_app_l. by apply Hi.
Qed.

(** The token was issued to the user: by this goroutine, or by another one, with
    the buffer left at a time this goroutine read. *)
Definition handed_out (u r t : string) (l : trace) : Prop :=
  exists e, issued_to l u r t e /\
    (issued_at (own i l) (impersonateURL r) u t e \/
     exists now, Clock now ∈ own i l /\ (now + TokenExpiryBuffer cfg <= e)%Z).

Lemma handed_out_prefix u r t l l' : l `prefix_of` l' -> handed_out u r t l -> handed_out u r t l'.
Proof.
  intros [k ->] (e & Hi & H). exists e. split; [by apply issued_to_app|]. rewrite own_app.
  destruct H as [H|(now & Hn & H)]; [left; by apply issued_at_app_r|right].
  exists now. split; [|done]. apply elem_of_app. by left.
Qed.

Lemma wp_shared_get u r l :
  no_char ":"%char u ->
  wp (sharedI i) (Shared.GetImpersonatedToken u r)
    (ok (fun x l' => forall t, x = Ok t -> handed_out u r t l')) l.
Proof.
  intros Hu. unfold Shared.GetImpersonatedToken. do 2 (case_decide; [by apply wp_ret|]).
  apply wp_load. intros c l1 _ [Hcfg Hc].
  assert (Hfetch : forall l2, wp (sharedI i)
    (let* x := Shared.fetchImpersonatedToken u r in
     match x with
     | Err err => Ret (Err err)
     | Ok (token, expiresAt) => store (Shared.cache_token u r token expiresAt) ;; Ret (Ok token)
     end) (ok (fun x l' => forall t, x = Ok t -> handed_out u r t l')) l2).
  { intros l2. eapply wp_seq; [apply wp_shared_fetch|]. intros [[t e]|err] l3 [_ Hi]; [|by apply wp_ret].
    specialize (Hi t e eq_refl).
    assert (Hto : issued_to l3 u r t e) by (by exists i).
    apply wp_store.
    - intros c' l' (k & -> & _) [Hg' Hc']. split; [done|]. intros key x. cbn [tokenCache set_cache Shared.cache_token].
      rewrite lookup_insert_Some. intros [[<- <-]|[_ Hx]]; [|by apply Hc'].
      split_and!; [done|done|]. by apply issued_to_app.
    - intros l4 H4%others_prefix. apply wp_ret. intros t' [= <-]. eapply handed_out_prefix; [exact H4|].
      exists e. split; [done|by left]. }
  destruct (tokenCache c !! cacheKey u r) as [x|] eqn:Hx; [|apply Hfetch].
  eapply (wp_seq _ _ _ (fun o l' => l1 `prefix_of` l' /\ forall t, o = Some t -> t = Token x /\
    exists now, Clock now ∈ own i l' /\ (now + TokenExpiryBuffer cfg <= ExpiresAt x)%Z)).
  { eapply wp_seq; [apply (wp_lift i (IsExpired x (TokenExpiryBuffer (config c))) (fun b l' =>
      b = false -> exists now, Clock now ∈ l' /\ (now + TokenExpiryBuffer cfg <= ExpiresAt x)%Z))|].
    { unfold IsExpired. wp_call now Hnow. subst. apply wp_ret. intros Hb%bool_decide_eq_false.
      exists now. rewrite Hcfg in Hb. split; [|lia]. cbn. apply elem_of_snoc. }
    intros [] l2 [H2 Hb]; apply wp_ret; (split; [exact H2|]); [done|].
    intros t [= <-]. split; [done|by apply Hb]. }
  intros [t|] l2 [H2 Ht]; [|apply Hfetch]. apply wp_ret. intros t' [= <-].
  destruct (Ht t eq_refl) as [-> (now & Hnow & Hle)].
  destruct (Hc _ _ Hx) as (Hkey & Hux & Hi). apply cacheKey_inj in Hkey as [-> ->]; [|done..].
  exists (ExpiresAt x). split; [|right; by exists now]. destruct H2 as [k ->]. by apply issued_to_app.
Qed.
End goroutine.

(** ** All goroutines together *)

Section callers.
Context {W} (h : handler Eff W) (cfg : ImpersonationConfig) (calls : list token_call).

(** No colon in the addresses asked for. *)
Definition plain_calls : Prop := forall u r, GetToken u r ∈ calls -> no_char ":"%char u.

(** What goroutine [i] has when it returns. *)
Definition returned (i : nat) (res : option (result string)) (l : trace) : Prop :=
  forall u r t, calls !! i = Some (GetToken u r) -> res = Some (Ok t) -> handed_out cfg i u r t l.

Lemma wp_serve_call i x l :
  plain_calls -> calls !! i = Some x ->
  wp (sharedI cfg i) (serve_call x) (ok (returned i)) l.
Proof using.
  intros Hplain Hx.
  assert (Hstore : forall {A} g (k : unit -> caller A) Q l,
    (forall c, tokenCache (g c) ⊆ tokenCache c /\ config (g c) = config c) ->
    (forall l, wp (sharedI cfg i) (k tt) Q l) -> wp (sharedI cfg i) (let* x := store g in k x) Q l).
  { intros A g k Q l0 Hg Hk. apply wp_store; [|by intros].
    intros c l' _ [Hc H]. destruct (Hg c) as [Hsub Hcfg]. split; [congruence|].
    intros key e He. apply H. by eapply lookup_weaken. }
  destruct x as [u r| |u r]; cbn [serve_call].
  - eapply wp_seq; [apply wp_shared_get, (Hplain u r); by eapply list_elem_of_lookup_2|].
    intros t l' Ht. apply wp_ret. intros u' r' t' Hx' [= ->]. simplify_eq. by apply Ht.
  - unfold Shared.ClearCache. apply wp_bind. apply Hstore; [done|]. intros l1.
    apply Hstore; [done|]. intros l2.
    apply (Hstore _ (fun c => set_cache c ∅) (fun x => Ret x)); [intros c; split; [apply map_empty_subseteq|done]|].
    intros l3. apply wp_ret, wp_ret. intros u r t Hx'. simplify_eq.
  - unfold Shared.ClearUserToken. apply Hstore; [intros c; split; [apply delete_subseteq|done]|].
    intros l1. apply wp_ret. intros u' r' t Hx'. simplify_eq.
Qed.

Definition callers_ok (s : callers W) : Prop :=
  client_ok cfg (client s) (events s) /\
  forall i p, goroutines s !! i = Some p ->
    exists l, others i l (events s) /\ wp (sharedI cfg i) p (ok (returned i)) l.

Lemma callers_ok_step s s' : callers_step h s s' -> callers_ok s -> callers_ok s'.
Proof using.
  intros Hstep. destruct Hstep as [i ps c w l X e k x c' w' Hi Halone]. intros [Hc Hps]. cbn in Hc, Hps.
  destruct (Hps i _ Hi) as (li & Hli & Hpre & Hpost).
  assert (Hc' : client_ok cfg c' (l ++ (pair i <$> shared_view X e x))).
  { destruct e as [Y e| |f]; cbn in Halone.
    - destruct (h Y e w) as [y w1]. simplify_eq. by apply client_ok_app.
    - simplify_eq. by apply client_ok_app.
    - simplify_eq. apply client_ok_app. by apply Hpre. }
  split; [exact Hc'|]. intros j p Hj. cbn in Hj |- *.
  destruct (decide (i = j)) as [<-|Hne].
  - rewrite list_lookup_insert_eq in Hj by (by eapply lookup_lt_Some). simplify_eq.
    exists (l ++ (pair i <$> shared_view X e x)). split; [reflexivity|]. apply Hpost.
    exists l. split_and!; [done|done|]. destruct e; cbn in Halone; simplify_eq; done.
  - rewrite list_lookup_insert_ne in Hj by done. destruct (Hps j p Hj) as (lj & Hlj & Hwp).
    exists lj. split; [|done]. etrans; [exact Hlj|]. eexists. split; [done|].
    by rewrite own_tagged, decide_False.
Qed.

Lemma callers_reachable s s' : rtc (callers_step h) s s' -> callers_ok s -> callers_ok s'.
Proof using. induction 1; eauto using callers_ok_step. Qed.
End callers.

(** C13. The client is safe under concurrent callers: however the operations of any
    number of goroutines interleave, at every access to the shared fields and at
    every request, and whatever the identity provider answers, a token that a call
    returns was issued by the impersonation endpoint of the region to the very
    user asked for; and it was issued in this call, or still had the expiry buffer
    left when this call looked at the clock. *)
Theorem concurrent_tokens_safe {W} (h : handler Eff W) cfg calls w s i u r t
    (Hplain : plain_calls calls)
    (Hsteps : rtc (callers_step h) (start cfg calls w) s)
    (Hcall : calls !! i = Some (GetToken u r))
    (Hdone : goroutines s !! i = Some (Ret (Some (Ok t)))) :
  handed_out cfg i u r t (events s).
Proof.
  assert (H0 : callers_ok cfg calls (start cfg calls w)).
  { split; [by split|]. intros j p Hj. apply list_lookup_fmap_Some in Hj as (x & -> & Hx).
    exists []. split; [reflexivity|]. by apply wp_serve_call. }
  destruct (callers_reachable h cfg calls _ _ Hsteps H0) as [_ Hps].
  destruct (Hps i _ Hdone) as (l & Ho & Hr). eapply handed_out_prefix; [by eapply others_prefix|].
  by apply (Hr u r t Hcall).
Qed.

(** ** Two callers of the identity provider of Auth.v *)

Definition wit_calls : list token_call :=
  [GetToken "a@b.c" "zrh"; GetToken "x@y.z" "zrh"; ClearUser "a@b.c" "zrh"; GetToken "a@b.c" "zrh"].

Definition interleaved : callers Z :=
  run_callers sim_oauth (flat_map (fun _ => [0; 1; 2]%nat) (seq 0 20) ++ repeat 3 10)%nat
    (start wit_config wit_calls 0%Z).

(** The users get their own tokens; the last call takes its token from the cache. *)
Example interleaved_tokens :
  goroutines interleaved =
    [Ret (Some (Ok "user a@b.c")); Ret (Some (Ok "user x@y.z")); Ret None;
     Ret (Some (Ok "user a@b.c"))] /\
  length (own 3 (events interleaved)) = 1%nat.
Proof. by vm_compute. Qed.

(** A token that is being fetched while the user is cleared is cached afterwards:
    the call that begins after the clearing has ended is handed that token. *)
Definition cleared_too_early : callers Z :=
  run_callers sim_oauth (repeat 0 9 ++ repeat 2 3 ++ repeat 0 9 ++ repeat 3 9)%nat
    (start wit_config wit_calls 0%Z).

Example clear_misses_fetch :
  goroutines cleared_too_early !! 2%nat = Some (Ret None) /\
  goroutines cleared_too_early !! 3%nat = Some (Ret (Some (Ok "user a@b.c"))) /\
  existsb (fun x => match x with Issued _ _ _ _ => true | _ => false end)
    (own 3 (events cleared_too_early)) = false.
Proof. by vm_compute. Qed.

Lemma concurrent_tokens_safe_witness :
  handed_out wit_config 3 "a@b.c" "zrh" "user a@b.c" (events interleaved).
Proof.
  apply (concurrent_tokens_safe sim_oauth wit_config wit_calls 0%Z interleaved 3 "a@b.c" "zrh" "user a@b.c").
  - intros u r Hin. unfold wit_calls in Hin.
    repeat (apply elem_of_cons in Hin as [Hin|Hin]; [by simplify_eq|]). by apply elem_of_nil in Hin.
  - apply run_callers_steps.
  - done.
  - by vm_compute.
Defined.
