(* ===== verification/LoadBalancer.v ===== *)
(** * The load-balancer controller

    [ccm/controllers/loadbalancer_controller.go]: hands the public IPs of the
    user's pools to the LoadBalancer services of the tenant cluster.  The mutable
    fields of the controller are the record [LoadBalancerController], passed
    through every method; the controller has one goroutine, which runs
    [discoverOwnedIPs] and [syncLoadBalancers] one at a time, so that its mutex
    never arbitrates between two of them.

    Tokens come from the token service (Auth.v), tags, IPs and servers from direct
    HTTP requests, services, endpoints, nodes and pods from the Kubernetes API.
    Request URLs are taken to be well-formed. *)

From S2P Require Import Prelude Effects GoErrors ApiTypes World.

Definition AnnotationIPPoolType : string := "cloudsigma.com/ip-pool".
Definition IPPoolStatic : string := "static".
Definition IPPoolDynamic : string := "dynamic".

Record LoadBalancerController := {
  UserEmail : string;
  Region : string;
  ClusterName : string;
  Disabled : bool;
  staticIPs : list string;
  dynamicIPs : list string;
  ipAssignments : gmap string string;
  serviceIPs : gmap string string;
  manualModeNodes : gset string
}.

Definition set_pools (c : LoadBalancerController) (st dy : list string)
    : LoadBalancerController :=
  {| UserEmail := UserEmail c; Region := Region c; ClusterName := ClusterName c;
     Disabled := Disabled c; staticIPs := st; dynamicIPs := dy;
     ipAssignments := ipAssignments c; serviceIPs := serviceIPs c;
     manualModeNodes := manualModeNodes c |}.
Definition set_ipAssignments (c : LoadBalancerController) (m : gmap string string)
    : LoadBalancerController :=
  {| UserEmail := UserEmail c; Region := Region c; ClusterName := ClusterName c;
     Disabled := Disabled c; staticIPs := staticIPs c; dynamicIPs := dynamicIPs c;
     ipAssignments := m; serviceIPs := serviceIPs c;
     manualModeNodes := manualModeNodes c |}.
Definition set_serviceIPs (c : LoadBalancerController) (m : gmap string string)
    : LoadBalancerController :=
  {| UserEmail := UserEmail c; Region := Region c; ClusterName := ClusterName c;
     Disabled := Disabled c; staticIPs := staticIPs c; dynamicIPs := dynamicIPs c;
     ipAssignments := ipAssignments c; serviceIPs := m;
     manualModeNodes := manualModeNodes c |}.
Definition set_manualModeNodes (c : LoadBalancerController) (s : gset string)
    : LoadBalancerController :=
  {| UserEmail := UserEmail c; Region := Region c; ClusterName := ClusterName c;
     Disabled := Disabled c; staticIPs := staticIPs c; dynamicIPs := dynamicIPs c;
     ipAssignments := ipAssignments c; serviceIPs := serviceIPs c;
     manualModeNodes := s |}.

Definition svc_key (svc : Service.t) : string :=
  Service.Namespace svc +:+ "/" +:+ Service.Name svc.
Definition isLoadBalancer (svc : Service.t) : bool :=
  bool_decide (Service.Type_ svc = "LoadBalancer").

(** The user's token for every CloudSigma request. *)
Definition get_token (c : LoadBalancerController) : go (result string) :=
  token (GetImpersonatedToken (UserEmail c) (Region c)).

Definition apiURL (c : LoadBalancerController) (path : string) : string :=
  "https://" +:+ Region c +:+ ".cloudsigma.com/api/2.0/" +:+ path.

(** ** Pools *)

Definition discoverOwnedIPs (c : LoadBalancerController)
    : go (option error * LoadBalancerController) :=
  let* t := get_token c in
  match t with
  | Err err => Ret (Some (ErrWrap "failed to get token" err), c)
  | Ok token =>
      let* r := http (GetIPsDetail (apiURL c "ips/detail/") token) in
      match r with
      | Err err => Ret (Some (ErrWrap "failed to list IPs" err), c)
      | Ok (Err err) => Ret (Some (ErrWrap "failed to parse IPs" err), c)
      | Ok (Ok objects) =>
          Ret (None, set_pools c
            (IP.UUID <$> filter (fun ip => IP.Subscription ip <> None) objects)
            (IP.UUID <$> filter (fun ip => IP.Subscription ip = None) objects))
      end
  end.

Definition isPoolIPLocked (c : LoadBalancerController) (ip : string) : bool :=
  bool_decide (ip ∈ staticIPs c) || bool_decide (ip ∈ dynamicIPs c).

Definition isPoolIP (c : LoadBalancerController) (ip : string) : bool := isPoolIPLocked c ip.

(** Every ingress of the pool overwrites the one before. *)
Definition recoverServiceState (c : LoadBalancerController)
    : go (option error * LoadBalancerController) :=
  let* r := kube ServicesList in
  match r with
  | Err err => Ret (Some (ErrWrap "failed to list services" err), c)
  | Ok services =>
      Ret (None,
        foldl (fun c svc =>
          if isLoadBalancer svc then
            foldl (fun c ip =>
              if isPoolIPLocked c ip
              then set_serviceIPs c (<[svc_key svc := ip]> (serviceIPs c)) else c)
              c (Service.Ingress svc)
          else c) c services)
  end.

(** ** Nodes *)

Definition node_ready (node : Node.t) : bool :=
  existsb (fun '(t, s) => bool_decide (t = "Ready") && bool_decide (s = "True"))
          (Node.Conditions node).

Definition getHealthyNodes (nodes : list Node.t) : list Node.t :=
  filter (fun n => node_ready n = true) nodes.

Definition getNodeUUID (node : Node.t) : string :=
  if decide (Node.ProviderID node = "") then ""
  else if HasPrefix (Node.ProviderID node) "cloudsigma://"
       then str_drop 13 (Node.ProviderID node) else "".

(** ** Allocation *)

Definition getIPPoolType (svc : Service.t) : string :=
  match Service.Annotations svc !! AnnotationIPPoolType with
  | Some poolType => if decide (poolType = IPPoolDynamic) then IPPoolDynamic else IPPoolStatic
  | None => IPPoolStatic
  end.

(** The service tag of each IP that has one; a later tag wins. *)
Definition tagged_service_ips (tags : list Tag.t) : gmap string string :=
  foldl (fun m tag =>
    if HasPrefix (Tag.Name tag) "service:"
    then foldl (fun m r => <[r := Tag.Name tag]> m) m (Tag.Resources tag) else m)
    ∅ tags.

Definition getTaggedServiceIPs (c : LoadBalancerController)
    : go (result (gmap string string)) :=
  let* t := get_token c in
  match t with
  | Err err => Ret (Err err)
  | Ok token =>
      let* r := http (GetTags (apiURL c "tags/") token) in
      match r with
      | Err err => Ret (Err err)
      | Ok tags => Ret (Ok (tagged_service_ips tags))
      end
  end.

Definition isIPAvailable (c : LoadBalancerController) (ip : string) : go (result bool) :=
  let* r := getTaggedServiceIPs c in
  match r with
  | Err err => Ret (Err err)
  | Ok taggedIPs => Ret (Ok (bool_decide (taggedIPs !! ip = None)))
  end.

Definition pool_of (c : LoadBalancerController) (svc : Service.t) : list string :=
  if decide (getIPPoolType svc = IPPoolDynamic) then dynamicIPs c else staticIPs c.

(** The first free IP of the pool, or the empty string; the error is always nil. *)
Definition allocateIP (c : LoadBalancerController) (svc : Service.t) : go string :=
  let usedIPs := dom (ipAssignments c) in
  let* r := for_range (pool_of c svc) tt (fun ip _ =>
    if decide (ip ∈ usedIPs) then Ret (Next tt)
    else
      let* available := isIPAvailable c ip in
      match available with
      | Err _ => Ret (Next tt)
      | Ok true => Ret (Return ip)
      | Ok false => Ret (Next tt)
      end) in
  match r with inl _ => Ret "" | inr ip => Ret ip end.

(** ** Manual NIC mode *)

Fixpoint jfield (k : string) (fields : list (string * json)) : option json :=
  match fields with
  | [] => None
  | (k', v) :: l => if decide (k' = k) then Some v else jfield k l
  end.

Definition jdelete (k : string) (fields : list (string * json)) : list (string * json) :=
  filter (fun kv => kv.1 <> k) fields.

(** [m[k] = v] *)
Definition jset (k : string) (v : json) (fields : list (string * json))
    : list (string * json) := jdelete k fields ++ [(k, v)].

(** [nicMap["ip_v4_conf"].(map[string]interface{})], for a NIC that is an object. *)
Definition ip_v4_conf (nic : json) : option (list (string * json)) :=
  match nic with
  | JObj nicMap =>
      match jfield "ip_v4_conf" nicMap with Some (JObj conf) => Some conf | _ => None end
  | _ => None
  end.

Definition is_manual (nic : json) : bool :=
  match ip_v4_conf nic with
  | Some conf => match jfield "conf" conf with
                 | Some (JStr s) => bool_decide (s = "manual")
                 | _ => false
                 end
  | None => false
  end.

(** Switch the first NIC with an IPv4 configuration; [None] when there is none. *)
Fixpoint switch_first (nics : list json) : option (list json) :=
  match nics with
  | [] => None
  | nic :: nics' =>
      match nic, ip_v4_conf nic with
      | JObj nicMap, Some conf =>
          Some (JObj (jset "ip_v4_conf"
                  (JObj (jdelete "ip" (jset "conf" (JStr "manual") conf))) nicMap) :: nics')
      | _, _ => match switch_first nics' with
                | Some l => Some (nic :: l)
                | None => None
                end
      end
  end.

Definition readonly_fields : list string :=
  ["resource_uri"; "runtime"; "status"; "uuid"; "owner"; "permissions"; "mounted_on";
   "grantees"].

Definition server_nics (server : list (string * json)) : list json :=
  match jfield "nics" server with Some (JArr nics) => nics | _ => [] end.

Definition ensureNodeManualMode (c : LoadBalancerController) (serverUUID : string)
    : go (option error * LoadBalancerController) :=
  let marked := set_manualModeNodes c ({[serverUUID]} ∪ manualModeNodes c) in
  if decide (serverUUID ∈ manualModeNodes c) then Ret (None, c)
  else
  let* t := get_token c in
  match t with
  | Err err => Ret (Some (ErrWrap "failed to get token" err), c)
  | Ok token =>
  let serverURL := apiURL c ("servers/" +:+ serverUUID +:+ "/") in
  let* r := http (GetServerJson serverURL token) in
  match r with
  | Err err => Ret (Some (ErrWrap "failed to get server" err), c)
  | Ok (Err err) => Ret (Some (ErrWrap "failed to parse server" err), c)
  | Ok (Ok server) =>
  if existsb is_manual (server_nics server) then Ret (None, marked)
  else
  match switch_first (server_nics server) with
  | None => Ret (Some (ErrNew ("no public NIC found on server " +:+ serverUUID
                               +:+ " to switch to manual mode")), c)
  | Some nics =>
  let update := foldl (fun s k => jdelete k s) (jset "nics" (JArr nics) server)
                  readonly_fields in
  let* r := http (PutServerJson serverURL token update) in
  match r with
  | Err err => Ret (Some (ErrWrap "failed to update server NIC" err), c)
  | Ok (status, body) =>
      if decide (status >= 400)%Z
      then Ret (Some (ErrNew ("failed to switch NIC to manual mode: " +:+ body)), c)
      else Ret (None, marked)
  end end end end.

(** ** Tags of an IP *)

Definition isCCMManagedTag (name : string) : bool :=
  HasPrefix name "cluster:" || HasPrefix name "service:"
  || bool_decide (name = "managed-by:cloudsigma-ccm").

Definition tagURL (c : LoadBalancerController) (uuid : string) : string :=
  apiURL c ("tags/" +:+ uuid +:+ "/").

(** Remove the IP from the listed tags that are managed and not desired; failures
    are logged. *)
Definition remove_from_tags (c : LoadBalancerController) (token ip : string)
    (desired : list string) (tags : list Tag.t) : go unit :=
  for_each tags tt (fun tag _ =>
    if negb (isCCMManagedTag (Tag.Name tag)) then Ret tt
    else if decide (Tag.Name tag ∈ desired) then Ret tt
    else if decide (ip ∈ Tag.Resources tag) then
      http (PutTag (tagURL c (Tag.UUID tag)) token (Tag.Name tag)
              (filter (fun r => r <> ip) (Tag.Resources tag))) ;;
      Ret tt
    else Ret tt).

Definition cleanStaleTags (c : LoadBalancerController) (token ip : string)
    (desiredTags : list string) : go (option error) :=
  let* r := http (GetTags (apiURL c "tags/") token) in
  match r with
  | Err err => Ret (Some (ErrWrap "failed to list tags" err))
  | Ok tags => remove_from_tags c token ip desiredTags tags ;; Ret None
  end.

(** A tag whose UUID is empty counts as missing. *)
Definition ensureTagWithIP (c : LoadBalancerController) (token tagName ip : string)
    : go (option error) :=
  let* r := http (GetTags (apiURL c "tags/") token) in
  match r with
  | Err err => Ret (Some (ErrWrap "failed to list tags" err))
  | Ok tags =>
      let '(tagUUID, existing) :=
        match find (fun t => bool_decide (Tag.Name t = tagName)) tags with
        | Some t => (Tag.UUID t, Tag.Resources t)
        | None => ("", [])
        end in
      if decide (tagUUID = "") then
        let* r := http (PostTag (apiURL c "tags/") token tagName [ip]) in
        match r with
        | Err err => Ret (Some (ErrWrap "failed to create tag" err))
        | Ok (status, body) =>
            if decide (status >= 400)%Z
            then Ret (Some (ErrNew ("failed to create tag: " +:+ body))) else Ret None
        end
      else if decide (ip ∈ existing) then Ret None
      else
        let* r := http (PutTag (tagURL c tagUUID) token tagName (existing ++ [ip])) in
        match r with
        | Err err => Ret (Some (ErrWrap "failed to update tag" err))
        | Ok (status, body) =>
            if decide (status >= 400)%Z
            then Ret (Some (ErrNew ("failed to update tag: " +:+ body))) else Ret None
        end
  end.

Definition desired_tags (c : LoadBalancerController) (serviceName : string) : list string :=
  ["cluster:" +:+ ClusterName c; "service:" +:+ ReplaceAll serviceName "/" "-";
   "managed-by:cloudsigma-ccm"].

Definition tagIPInCloudSigma (c : LoadBalancerController) (ip serviceName : string)
    : go (option error) :=
  let* t := get_token c in
  match t with
  | Err err => Ret (Some (ErrWrap "failed to get token for IP tagging" err))
  | Ok token =>
      let desired := desired_tags c serviceName in
      cleanStaleTags c token ip desired ;;
      let* seed := golang MapSeed in
      for_each (permute seed desired) tt (fun tagName _ =>
        ensureTagWithIP c token tagName ip ;; Ret tt) ;;
      Ret None
  end.

Definition untagIPInCloudSigma (c : LoadBalancerController) (ip : string)
    : go (option error) :=
  let* t := get_token c in
  match t with
  | Err err => Ret (Some (ErrWrap "failed to get token for IP untagging" err))
  | Ok token =>
      let* r := http (GetTags (apiURL c "tags/") token) in
      match r with
      | Err err => Ret (Some (ErrWrap "failed to list tags" err))
      | Ok tags => remove_from_tags c token ip [] tags ;; Ret None
      end
  end.

(** The IPs of the services, each with the last service seen to use it. *)
Definition cleanupAllIPTags (c : LoadBalancerController) : go unit :=
  let* entries := range_map (serviceIPs c) in
  let ipsToClean : gmap string string :=
    foldl (fun m '(svcKey, ip) => <[ip := svcKey]> m) ∅ entries in
  if decide (ipsToClean = ∅) then Ret tt
  else
    let* ips := range_map ipsToClean in
    for_each ips tt (fun '(ip, _) _ => untagIPInCloudSigma c ip ;; Ret tt).

(** ** The pod that configures an IP on a node *)

Definition podName (ip : string) : string := "lb-ip-" +:+ ReplaceAll ip "." "-".

Definition deleteIPConfigPod (ip : string) : go unit :=
  kube (PodsDelete (podName ip) None) ;; Ret tt.

(** The first endpoint with an address, or the empty string. *)
Definition getEndpointIP (svc : Service.t) : go string :=
  let* r := kube (EndpointsGet (Service.Namespace svc) (Service.Name svc)) in
  match r with
  | Err _ => Ret ""
  | Ok subsets =>
      Ret (default "" (find (fun ip => bool_decide (ip <> "")) (mjoin subsets)))
  end.

(** [endpointIP], falling back to the cluster IP. *)
Definition endpoint_or_cluster (svc : Service.t) : go string :=
  let* endpointIP := getEndpointIP svc in
  Ret (if decide (endpointIP = "") then Service.ClusterIP svc else endpointIP).

(** A double quote. *)
Definition dq : string := String "034" "".

(** Check the rule, or else add it. *)
Definition iptables_rule (chain insert rule : string) : string :=
  "iptables -t nat -C " +:+ chain +:+ " " +:+ rule +:+ " 2>/dev/null || \
  iptables -t nat " +:+ insert +:+ " " +:+ rule.

Definition dnat (ip clusterIP port : string) : string :=
  "-d " +:+ ip +:+ " -p tcp --dport " +:+ port +:+ " -j DNAT --to-destination "
  +:+ clusterIP +:+ ":" +:+ port.

Definition configScript (ip clusterIP : string) (port : Z) : string :=
  let p := itoa port in
  "
echo " +:+ dq +:+ "Configuring LoadBalancer IP " +:+ ip +:+ dq +:+ "

# Find primary interface (first non-lo, non-cilium interface)
PRIMARY_IF=$(ip -o link show | grep -v -E 'lo:|cilium|lxc|veth' | head -1 | awk -F': ' '{print $2}')
echo " +:+ dq +:+ "Primary interface: $PRIMARY_IF" +:+ dq +:+ "

# Add LoadBalancer IP to primary interface as secondary IP
# NIC is in manual mode - CloudSigma firewall allows all subscribed IPs
ip addr add " +:+ ip +:+ "/32 dev $PRIMARY_IF 2>/dev/null || echo " +:+ dq
  +:+ "IP already configured on $PRIMARY_IF" +:+ dq +:+ "

# Send gratuitous ARP to update upstream router/switch MAC table
# Critical for failover: without GARP, traffic still routes to old node's MAC
arping -U -c 3 -I $PRIMARY_IF " +:+ ip +:+ " 2>/dev/null &
arping -A -c 3 -I $PRIMARY_IF " +:+ ip +:+ " 2>/dev/null &

# Add iptables DNAT rules for external traffic (PREROUTING)
" +:+ iptables_rule "PREROUTING" "-I PREROUTING 1" (dnat ip clusterIP p) +:+ "

# Add iptables DNAT rules for local traffic (OUTPUT) - needed for traffic originating from the node
" +:+ iptables_rule "OUTPUT" "-I OUTPUT 1" (dnat ip clusterIP p) +:+ "

# Add MASQUERADE for return traffic
" +:+ iptables_rule "POSTROUTING" "-A POSTROUTING"
        ("-d " +:+ clusterIP +:+ " -p tcp --dport " +:+ p +:+ " -j MASQUERADE") +:+ "

echo " +:+ dq +:+ "Configured LoadBalancer IP " +:+ ip +:+ " on $PRIMARY_IF with DNAT to "
  +:+ clusterIP +:+ ":" +:+ p +:+ dq +:+ "
# Keep running to maintain the iptables rules
while true; do sleep 3600; done
".

Definition config_pod (ip clusterIP : string) (port : Z) (targetNode : string) : Pod.t :=
  {| Pod.Name := podName ip; Pod.Namespace := "kube-system";
     Pod.Labels := <["app" := "cloudsigma-lb-ip"]> (<["cloudsigma.com/ip" := ip]>
                     {["cloudsigma.com/svc" := clusterIP]});
     Pod.NodeName := targetNode; Pod.HostNetwork := true; Pod.Privileged := true;
     Pod.Image := "praqma/network-multitool:alpine-extra";
     Pod.Command := ["/bin/sh"; "-c"]; Pod.Args := [configScript ip clusterIP port] |}.

Definition configureIPOnNode (ip serverUUID clusterIP : string) (port : Z)
    : go (option error) :=
  let* r := kube NodesList in
  match r with
  | Err err => Ret (Some (ErrWrap "failed to list nodes" err))
  | Ok nodes =>
  match find (fun n => HasSuffix (Node.ProviderID n) serverUUID) nodes with
  | None => Ret (Some (ErrNew ("node with providerID containing " +:+ serverUUID
                               +:+ " not found")))
  | Some targetNode =>
      kube (PodsDelete (podName ip) None) ;;
      golang (Sleep 2000000000) ;;
      let* r := kube (PodsCreate (config_pod ip clusterIP port (Node.Name targetNode))) in
      match r with
      | Err err => Ret (Some (ErrWrap "failed to create LB IP config pod" err))
      | Ok _ => Ret None
      end
  end end.

Definition ensureIPConfigured (ip serverUUID clusterIP : string) (port : Z) : go unit :=
  let* r := kube (PodsGet (podName ip)) in
  match r with
  | Ok _ => Ret tt
  | Err _ => configureIPOnNode ip serverUUID clusterIP port ;; Ret tt
  end.

(** ** Services *)

Definition updateServiceStatus (svc : Service.t) (ip : string) : go (option error) :=
  if decide (ip = "") then Ret None
  else
    let* r := kube (ServicesUpdateStatus (Service.set_Ingress svc [ip])) in
    match r with
    | Err err => Ret (Some (ErrWrap "failed to update service status" err))
    | Ok _ => Ret None
    end.

Definition assign (c : LoadBalancerController) (svcKey ip serverUUID : string)
    : LoadBalancerController :=
  set_serviceIPs (set_ipAssignments c (<[ip := serverUUID]> (ipAssignments c)))
                 (<[svcKey := ip]> (serviceIPs c)).

(** A service whose status already has an IP of the pools. *)
Definition reconcile_existing (c : LoadBalancerController) (svc : Service.t)
    (healthyNodes : list Node.t) (ip : string) : go LoadBalancerController :=
  let '(assigned, c) :=
    match ipAssignments c !! ip with
    | Some serverUUID => (Some serverUUID, c)
    | None =>
        match healthyNodes with
        | [] => (None, c)
        | node :: _ =>
            if decide (getNodeUUID node <> "")
            then (Some (getNodeUUID node), assign c (svc_key svc) ip (getNodeUUID node))
            else (None, c)
        end
    end in
  match assigned, Service.Ports svc with
  | Some serverUUID, port :: _ =>
      let* endpointIP := endpoint_or_cluster svc in
      ensureIPConfigured ip serverUUID endpointIP port ;;
      tagIPInCloudSigma c ip (svc_key svc) ;;
      Ret c
  | _, _ => Ret c
  end.

(** A freshly allocated IP is put on the first healthy node and the status
    updated; a first node without a UUID leaves the IP untracked. *)
Definition assign_new (c : LoadBalancerController) (svc : Service.t)
    (healthyNodes : list Node.t) (ip : string)
    : go (option error * LoadBalancerController) :=
  let* r :=
    match healthyNodes with
    | [] => Ret (None, c)
    | node :: _ =>
        let nodeUUID := getNodeUUID node in
        if decide (nodeUUID <> "") then
          let* ' (err, c) := ensureNodeManualMode c nodeUUID in
          match err with
          | Some err =>
              Ret (Some (ErrWrap ("failed to switch node " +:+ nodeUUID
                                  +:+ " to manual NIC mode") err), c)
          | None =>
              let c := assign c (svc_key svc) ip nodeUUID in
              tagIPInCloudSigma c ip (svc_key svc) ;;
              match Service.Ports svc with
              | [] => Ret (None, c)
              | port :: _ =>
                  let* endpointIP := endpoint_or_cluster svc in
                  configureIPOnNode ip nodeUUID endpointIP port ;;
                  Ret (None, c)
              end
          end
        else Ret (None, c)
    end in
  let '(err, c) := r in
  match err with
  | Some err => Ret (Some err, c)
  | None => let* err := updateServiceStatus svc ip in Ret (err, c)
  end.

Definition reconcileService (c : LoadBalancerController) (svc : Service.t)
    (healthyNodes : list Node.t) : go (option error * LoadBalancerController) :=
  match find (isPoolIP c) (Service.Ingress svc) with
  | Some ip => let* c := reconcile_existing c svc healthyNodes ip in Ret (None, c)
  | None =>
  match serviceIPs c !! svc_key svc with
  | Some existingIP => let* err := updateServiceStatus svc existingIP in Ret (err, c)
  | None =>
      let* ip := allocateIP c svc in
      if decide (ip = "") then Ret (None, c) else assign_new c svc healthyNodes ip
  end end.

(** ** Failover *)

(** Configure the IP on its new node for the service that has it. *)
Definition failover_configure (c : LoadBalancerController) (ip newUUID svcKey : string)
    : go unit :=
  match SplitN2 svcKey "/" with
  | (ns, Some name) =>
      let* r := kube (ServicesGet ns name) in
      match r with
      | Ok svc =>
          match Service.Ports svc with
          | [] => Ret tt
          | port :: _ =>
              let* endpointIP := endpoint_or_cluster svc in
              configureIPOnNode ip newUUID endpointIP port ;; Ret tt
          end
      | Err _ => Ret tt
      end
  | (_, None) => Ret tt
  end.

Definition checkIPFailover (c : LoadBalancerController) (healthyNodes : list Node.t)
    : go LoadBalancerController :=
  match healthyNodes with
  | [] => Ret c
  | newNode :: _ =>
      let healthyUUIDs := filter (fun u => u <> "") (getNodeUUID <$> healthyNodes) in
      let newUUID := getNodeUUID newNode in
      let* assignments := range_map (ipAssignments c) in
      for_each assignments c (fun '(ip, currentUUID) c =>
        if decide (currentUUID ∈ healthyUUIDs) then Ret c
        else if decide (newUUID = "") then Ret c
        else
          let* ' (err, c) := ensureNodeManualMode c newUUID in
          match err with
          | Some _ => Ret c
          | None =>
              kube (PodsDelete (podName ip) (Some 0%Z)) ;;
              let c := set_ipAssignments c (<[ip := newUUID]> (ipAssignments c)) in
              let* entries := range_map (serviceIPs c) in
              match find (fun '(_, svcIP) => bool_decide (svcIP = ip)) entries with
              | None => Ret c
              | Some (svcKey, _) =>
                  if decide (svcKey = "") then Ret c
                  else failover_configure c ip newUUID svcKey ;; Ret c
              end
          end)
  end.

(** ** Synchronisation *)

(** Release the IPs of the services that are gone. *)
Definition release_deleted (c : LoadBalancerController) (currentServices : list string)
    : go LoadBalancerController :=
  let* entries := range_map (serviceIPs c) in
  for_each entries c (fun '(svcKey, ip) c =>
    if decide (svcKey ∈ currentServices) then Ret c
    else
      untagIPInCloudSigma c ip ;;
      deleteIPConfigPod ip ;;
      Ret (set_ipAssignments (set_serviceIPs c (delete svcKey (serviceIPs c)))
             (delete ip (ipAssignments c)))).

(** Errors of single services are logged. *)
Definition reconcile_all (c : LoadBalancerController) (services : list Service.t)
    (healthyNodes : list Node.t) : go LoadBalancerController :=
  for_each services c (fun svc c =>
    if isLoadBalancer svc then
      let* ' (_, c) := reconcileService c svc healthyNodes in Ret c
    else Ret c).

Definition lb_keys (services : list Service.t) : list string :=
  svc_key <$> filter (fun svc => isLoadBalancer svc = true) services.

Definition syncLoadBalancers (c : LoadBalancerController)
    : go (option error * LoadBalancerController) :=
  let* r := kube ServicesList in
  match r with
  | Err err => Ret (Some (ErrWrap "failed to list services" err), c)
  | Ok services =>
  let* r := kube NodesList in
  match r with
  | Err err => Ret (Some (ErrWrap "failed to list nodes" err), c)
  | Ok nodes =>
  match getHealthyNodes nodes with
  | [] => Ret (None, c)
  | healthyNodes =>
      let* c := release_deleted c (lb_keys services) in
      let* c := reconcile_all c services healthyNodes in
      let* c := checkIPFailover c healthyNodes in
      Ret (None, c)
  end end end.

(** [Start]: the tables are made anew; errors are logged and the loop started. *)
Definition Start (c : LoadBalancerController) : go LoadBalancerController :=
  if Disabled c then Ret c
  else
    let c := set_manualModeNodes (set_serviceIPs (set_ipAssignments c ∅) ∅) ∅ in
    let* ' (_, c) := discoverOwnedIPs c in
    let* ' (_, c) := recoverServiceState c in
    let* ' (_, c) := syncLoadBalancers c in
    Ret c.

(** What wakes the loop of the goroutine, and what it does. *)
Inductive loop_event := ctx_Done | ipRefresh | tick.

Definition syncLoop_step (e : loop_event) (c : LoadBalancerController)
    : go LoadBalancerController :=
  match e with
  | ctx_Done => cleanupAllIPTags c ;; Ret c
  | ipRefresh => let* ' (_, c) := discoverOwnedIPs c in Ret c
  | tick => let* ' (_, c) := syncLoadBalancers c in Ret c
  end.

(** The loop, for the events that wake it; it ends with the context. *)
Fixpoint syncLoop (events : list loop_event) (c : LoadBalancerController)
    : go LoadBalancerController :=
  match events with
  | [] => Ret c
  | e :: events' =>
      let* c := syncLoop_step e c in
      match e with ctx_Done => Ret c | _ => syncLoop events' c end
  end.

(** ** What is published

    The status updates the controller requests: a service key and the IPs. *)

Definition publish_view : view Eff (string * list string) := fun X e =>
  match e in Eff _ return X -> list (string * list string) with
  | EKube ke =>
      match ke in KubeE Y return Y -> list (string * list string) with
      | ServicesUpdateStatus svc => fun _ => [(svc_key svc, Service.Ingress svc)]
      | _ => fun _ => []
      end
  | _ => fun _ => []
  end.

(** The fields that decide who has which IP. *)
Definition same_ips (c c' : LoadBalancerController) : Prop :=
  c' = set_manualModeNodes c (manualModeNodes c').

Lemma same_ips_refl c : same_ips c c.
Proof. by destruct c. Qed.

Lemma same_ips_marked c s : same_ips c (set_manualModeNodes c s).
Proof. done. Qed.

#[export] Hint Resolve same_ips_refl same_ips_marked : quiet.

Section quiet_methods.
Abbreviation quiet := (quiet publish_view).
Abbreviation any := (fun _ => True).

Lemma quiet_getTaggedServiceIPs c : quiet (getTaggedServiceIPs c) any.
Proof. unfold getTaggedServiceIPs, get_token, token, http. quiet_go. Qed.
Hint Resolve quiet_getTaggedServiceIPs : quiet.

Lemma quiet_isIPAvailable c ip : quiet (isIPAvailable c ip) any.
Proof. unfold isIPAvailable. quiet_go. Qed.
Hint Resolve quiet_isIPAvailable : quiet.

(** What is allocated is a free IP of the pool the service asks for. *)
Lemma quiet_allocateIP c svc :
  quiet (allocateIP c svc)
    (fun ip => ip = "" \/ (ip ∈ pool_of c svc /\ ip ∉ dom (ipAssignments c))).
Proof.
  unfold allocateIP. eapply (quiet_bind _ _ _ (fun r => match r with inl _ => True
    | inr ip => ip ∈ pool_of c svc /\ ip ∉ dom (ipAssignments c) end)).
  - apply (quiet_for_range _ _ _ _ any); [done| |done]. intros ip [] Hin _.
    destruct (decide _); [by apply quiet_ret|].
    eapply (quiet_bind _ _ _ any); [auto with quiet|]. intros [[]|] _; by apply quiet_ret.
  - intros [|ip] H; apply quiet_ret; auto.
Qed.

Lemma quiet_ensureNodeManualMode c u :
  quiet (ensureNodeManualMode c u) (fun r => same_ips c r.2).
Proof. unfold ensureNodeManualMode, get_token, token, http. quiet_go; apply same_ips_refl. Qed.

Lemma quiet_remove_from_tags c t ip d tags : quiet (remove_from_tags c t ip d tags) any.
Proof. unfold remove_from_tags, http. quiet_go. Qed.
Hint Resolve quiet_remove_from_tags : quiet.

Lemma quiet_cleanStaleTags c t ip d : quiet (cleanStaleTags c t ip d) any.
Proof. unfold cleanStaleTags, http. quiet_go. Qed.

Lemma quiet_ensureTagWithIP c t n ip : quiet (ensureTagWithIP c t n ip) any.
Proof. unfold ensureTagWithIP, http. quiet_go. Qed.
Hint Resolve quiet_cleanStaleTags quiet_ensureTagWithIP : quiet.

Lemma quiet_tagIPInCloudSigma c ip s : quiet (tagIPInCloudSigma c ip s) any.
Proof. unfold tagIPInCloudSigma, get_token, token, golang. quiet_go. Qed.

Lemma quiet_untagIPInCloudSigma c ip : quiet (untagIPInCloudSigma c ip) any.
Proof. unfold untagIPInCloudSigma, get_token, token, http. quiet_go. Qed.

Lemma quiet_deleteIPConfigPod ip : quiet (deleteIPConfigPod ip) any.
Proof. unfold deleteIPConfigPod, kube. quiet_go. Qed.

Lemma quiet_endpoint_or_cluster svc : quiet (endpoint_or_cluster svc) any.
Proof. unfold endpoint_or_cluster, getEndpointIP, kube. quiet_go. Qed.

Lemma quiet_configureIPOnNode ip u cip p : quiet (configureIPOnNode ip u cip p) any.
Proof. unfold configureIPOnNode, kube, golang. quiet_go. Qed.
Hint Resolve quiet_configureIPOnNode quiet_endpoint_or_cluster : quiet.

Lemma quiet_ensureIPConfigured ip u cip p : quiet (ensureIPConfigured ip u cip p) any.
Proof. unfold ensureIPConfigured, kube. quiet_go. Qed.

Lemma quiet_failover_configure c ip u k : quiet (failover_configure c ip u k) any.
Proof. unfold failover_configure, kube. quiet_go. Qed.

Lemma quiet_range_map {V} (m : gmap string V) :
  quiet (range_map m) (fun l => l ≡ₚ map_to_list m).
Proof.
  unfold range_map, golang. apply quiet_call; [done|]. intros seed. apply quiet_ret.
  apply permute_perm.
Qed.
End quiet_methods.

#[export] Hint Resolve quiet_remove_from_tags quiet_tagIPInCloudSigma
  quiet_untagIPInCloudSigma quiet_deleteIPConfigPod quiet_endpoint_or_cluster
  quiet_configureIPOnNode quiet_ensureIPConfigured quiet_failover_configure : quiet.

(** ** The tables of the controller

    Every IP of a service is assigned to a node, and no two services have the
    same IP: up to the IPs [R], which [Start] takes over from the statuses of the
    services without assigning them. *)

Record tracked (R : string -> Prop) (c : LoadBalancerController) : Prop := {
  tracked_assigned k ip : serviceIPs c !! k = Some ip -> ip ∈ dom (ipAssignments c) \/ R ip;
  tracked_exclusive k k' ip :
    serviceIPs c !! k = Some ip -> serviceIPs c !! k' = Some ip -> k = k' \/ R ip
}.

(** No IP is published for two services. *)
Definition exclusive (R : string -> Prop) (l : list (string * list string)) : Prop :=
  forall k1 k2 ips1 ips2 ip,
    (k1, ips1) ∈ l -> (k2, ips2) ∈ l -> ip ∈ ips1 -> ip ∈ ips2 -> k1 = k2 \/ R ip.

(** What was published is still assigned, and belongs to no other service. *)
Record published_ok (R : string -> Prop) (c : LoadBalancerController)
    (l : list (string * list string)) : Prop := {
  published_owned k ips ip : (k, ips) ∈ l -> ip ∈ ips ->
    R ip \/ (ip ∈ dom (ipAssignments c) /\ forall k', serviceIPs c !! k' = Some ip -> k' = k);
  published_exclusive : exclusive R l
}.

Section tables.
Context (R : string -> Prop).

Lemma tracked_same_ips c c' : same_ips c c' -> tracked R c -> tracked R c'.
Proof. intros -> [H1 H2]. split; [exact H1|exact H2]. Qed.

Lemma tracked_set_pools c st dy : tracked R c -> tracked R (set_pools c st dy).
Proof. intros [H1 H2]. split; [exact H1|exact H2]. Qed.

(** An IP nobody is assigned can be given to a service. *)
Lemma tracked_assign c k ip u :
  ip ∉ dom (ipAssignments c) -> tracked R c -> tracked R (assign c k ip u).
Proof.
  intros Hfree [H1 H2].
  assert (Hnew : forall k', serviceIPs c !! k' = Some ip -> R ip)
    by (intros k' H; by destruct (H1 _ _ H)).
  split; cbn.
  - intros k' ip'. rewrite dom_insert, lookup_insert_Some.
    intros [[_ <-]|[_ H]]; [set_solver|]. destruct (H1 _ _ H); set_solver.
  - intros k1 k2 ip'. rewrite !lookup_insert_Some.
    intros [[<- <-]|[? Ha]] [[<- Hb]|[? Hb]]; subst; eauto.
Qed.

Lemma tracked_reassign c ip u :
  ip ∈ dom (ipAssignments c) -> tracked R c ->
  tracked R (set_ipAssignments c (<[ip := u]> (ipAssignments c))).
Proof.
  intros Hip [H1 H2]. split; cbn; [|done]. intros k ip' H. destruct (H1 _ _ H); set_solver.
Qed.

Lemma published_nil c : published_ok R c [].
Proof.
  split; [by intros k ips ip H%not_elem_of_nil|].
  by intros k1 k2 ips1 ips2 ip H%not_elem_of_nil.
Qed.

Lemma published_same_ips c c' l : same_ips c c' -> published_ok R c l -> published_ok R c' l.
Proof. intros -> [H1 H2]. split; [exact H1|exact H2]. Qed.

Lemma published_assign c k ip u l :
  ip ∉ dom (ipAssignments c) -> published_ok R c l -> published_ok R (assign c k ip u) l.
Proof.
  intros Hfree [H1 H2]. split; [|done]. intros k1 ips ip1 Hl Hip. cbn.
  destruct (H1 _ _ _ Hl Hip) as [?|[Hd Ho]]; [by left|right]. split; [set_solver|].
  intros k'. rewrite lookup_insert_Some. intros [[_ ->]|[_ H]]; [done|auto].
Qed.

(** Publishing the IP of a service. *)
Lemma published_snoc c l k ip :
  tracked R c -> serviceIPs c !! k = Some ip -> published_ok R c l ->
  published_ok R c (l ++ [(k, [ip])]).
Proof.
  intros [Ht1 Ht2] Hk [H1 H2].
  assert (Hold : forall k1 ips1, (k1, ips1) ∈ l -> ip ∈ ips1 -> k = k1 \/ R ip).
  { intros k1 ips1 Hl Hi. destruct (H1 _ _ _ Hl Hi) as [?|[_ Ho]]; auto. }
  split.
  - intros k1 ips ip1 [Hl|[= -> ->]%list_elem_of_singleton]%elem_of_app; [by eapply H1|].
    intros ->%list_elem_of_singleton.
    destruct (Ht1 _ _ Hk) as [Hd|?]; [|by left].
    (* owned, unless some other service has it, and then it was taken over *)
    destruct (decide (map_Forall (fun k' ip' => ip' = ip -> k' = k) (serviceIPs c))) as [Ha|Ha].
    + right. split; [done|]. intros k' Hk'. by apply (Ha k' ip Hk').
    + left. apply map_not_Forall in Ha as (k' & ip' & Hk' & Ha); [|apply _].
      destruct (decide (ip' = ip)) as [->|]; [|tauto]. destruct (Ht2 _ _ _ Hk Hk'); [|done].
      exfalso. by apply Ha.
  - intros k1 k2 ips1 ips2 ip1 [Hl1|[= -> ->]%list_elem_of_singleton]%elem_of_app
      [Hl2|[= -> ->]%list_elem_of_singleton]%elem_of_app.
    + by apply (H2 k1 k2 ips1 ips2 ip1).
    + intros Hi ->%list_elem_of_singleton. destruct (Hold _ _ Hl1 Hi); auto.
    + intros ->%list_elem_of_singleton Hi. by apply (Hold _ _ Hl2 Hi).
    + by left.
Qed.
End tables.

Definition identified (nodes : list Node.t) : Prop :=
  Forall (fun n => getNodeUUID n <> "") nodes.

(** What a step of the controller on the services [ks] may do to the tables. *)
Record lb_rel (R : string -> Prop) (ks : list string) (ident : Prop) (c : LoadBalancerController)
    (l : list (string * list string)) (c' : LoadBalancerController)
    (l' : list (string * list string)) : Prop := {
  rel_tracked : tracked R c';
  rel_keys k : is_Some (serviceIPs c' !! k) -> is_Some (serviceIPs c !! k) \/ k ∈ ks;
  rel_published : ident -> published_ok R c l -> published_ok R c' l'
}.

Section steps.
Context (R : string -> Prop).

Lemma lb_rel_refl ks i c l : tracked R c -> lb_rel R ks i c l c l.
Proof. split; auto. Qed.

Lemma lb_rel_same ks (i : Prop) c l c1 c2 :
  same_ips c1 c2 -> lb_rel R ks i c l c1 l -> lb_rel R ks i c l c2 l.
Proof.
  intros Hs [Ht Hk Hp]. split.
  - by eapply tracked_same_ips.
  - intros k. rewrite Hs. apply Hk.
  - intros Hi Hl. eapply published_same_ips; [exact Hs|auto].
Qed.

Lemma lb_rel_assign ks (i : Prop) c l k ip u :
  k ∈ ks -> ip ∉ dom (ipAssignments c) -> tracked R c ->
  lb_rel R ks i c l (assign c k ip u) l.
Proof.
  intros Hks Hfree Ht. split.
  - by apply tracked_assign.
  - intros k' [ip' H]. cbn in H. apply lookup_insert_Some in H as [[<- _]|[_ H]]; eauto.
  - intros _. by apply published_assign.
Qed.

Lemma lb_rel_trans ks (i : Prop) c1 l1 c2 l2 c3 l3 :
  lb_rel R ks i c1 l1 c2 l2 -> lb_rel R ks i c2 l2 c3 l3 -> lb_rel R ks i c1 l1 c3 l3.
Proof.
  intros [_ Hk1 Hp1] [Ht Hk2 Hp2]. split; [done| |auto].
  intros k Hk. destruct (Hk2 k Hk) as [H|H]; auto.
Qed.

Lemma lb_rel_keys ks ks' (i : Prop) c1 l1 c2 l2 :
  ks ⊆ ks' -> lb_rel R ks i c1 l1 c2 l2 -> lb_rel R ks' i c1 l1 c2 l2.
Proof. intros Hs [Ht Hk Hp]. split; [done| |done]. intros k Hk'. destruct (Hk k Hk'); auto. Qed.

Lemma wp_updateServiceStatus svc ip l :
  wp (anyI publish_view) (updateServiceStatus svc ip)
     (ok (fun _ l' => l' = if decide (ip = "") then l else l ++ [(svc_key svc, [ip])])) l.
Proof.
  unfold updateServiceStatus. case_decide; [by apply wp_ret|].
  wp_call x Hx. cbn in Hx. subst. destruct x; by apply wp_ret.
Qed.

(** Publishing the IP the tables have for the service. *)
Lemma wp_publish_tracked ks (i : Prop) c0 l0 c svc ip l :
  lb_rel R ks i c0 l0 c l -> (i -> serviceIPs c !! svc_key svc = Some ip) ->
  wp (anyI publish_view) (updateServiceStatus svc ip)
     (ok (fun _ l' => lb_rel R ks i c0 l0 c l')) l.
Proof.
  intros [Ht Hk Hp] Hip. eapply wp_mono; [|apply wp_updateServiceStatus].
  intros [r|] l' H; simpl in *; [|done]. subst. split; [done|done|].
  intros Hi Hl. case_decide; [auto|]. apply published_snoc; auto.
Qed.

(** The quiet part of a program, followed by the rest. *)
Lemma wp_quiet_seq {A B C} (v : view Eff C) (p : go A) (f : A -> go B) (P : A -> Prop) Q l :
  quiet v p P -> (forall a, P a -> wp (anyI v) (f a) Q l) ->
  wp (anyI v) (let* x := p in f x) Q l.
Proof.
  intros Hp Hf. eapply wp_seq; [by apply quiet_wp|]. intros a l' [Ha ->]. by apply Hf.
Qed.

Lemma wp_reconcile_existing c svc nodes ip l i :
  tracked R c ->
  wp (anyI publish_view) (reconcile_existing c svc nodes ip)
     (ok (fun c' l' => l' = l /\ lb_rel R [svc_key svc] i c l c' l)) l.
Proof.
  intros Ht. unfold reconcile_existing.
  assert (Hrefl : lb_rel R [svc_key svc] i c l c l) by by apply lb_rel_refl.
  assert (Hout : forall p, quiet publish_view p (fun c' => lb_rel R [svc_key svc] i c l c' l) ->
    wp (anyI publish_view) p
      (ok (fun c' l' => l' = l /\ lb_rel R [svc_key svc] i c l c' l)) l).
  { intros p Hp. eapply wp_mono; [|by apply quiet_wp]. intros [] ?; simpl; [tauto|done]. }
  apply Hout. destruct (ipAssignments c !! ip) as [u|] eqn:Hu; [quiet_go|].
  destruct nodes as [|node nodes]; [quiet_go|]. destruct (decide _); [|quiet_go].
  assert (Hnew : lb_rel R [svc_key svc] i c l (assign c (svc_key svc) ip (getNodeUUID node)) l);
    [|quiet_go].
  apply lb_rel_assign; [set_solver| |done]. by apply not_elem_of_dom.
Qed.

Lemma wp_assign_new c svc nodes ip l :
  tracked R c -> ip ∉ dom (ipAssignments c) -> nodes <> [] ->
  wp (anyI publish_view) (assign_new c svc nodes ip)
     (ok (fun r l' => lb_rel R [svc_key svc] (identified nodes) c l r.2 l')) l.
Proof.
  intros Ht Hfree Hne. unfold assign_new. destruct nodes as [|node nodes]; [done|].
  destruct (decide (getNodeUUID node <> "")) as [Hu|Hu].
  2:{ apply wp_bind, wp_ret. cbn [fst snd]. eapply wp_seq.
      - apply (wp_publish_tracked [svc_key svc] (identified (node :: nodes)) c l);
          [by apply lb_rel_refl|]. intros Hi. by apply Forall_cons in Hi as [? _].
      - intros err l' H. by apply wp_ret. }
  eapply (wp_quiet_seq _ _ _ (fun r => match r.1 with
    | Some _ => same_ips c r.2
    | None => exists c1, same_ips c c1 /\ r.2 = assign c1 (svc_key svc) ip (getNodeUUID node)
    end)).
  { eapply (quiet_bind _ _ _ (fun r => same_ips c r.2)); [apply quiet_ensureNodeManualMode|].
    intros [[err|] c1] Hs; [by apply quiet_ret|]. cbn zeta. quiet_go; by exists c1. }
  intros [[err|] c1] H; cbn in H.
  - apply wp_ret. cbn. eapply lb_rel_same; [exact H|by apply lb_rel_refl].
  - destruct H as (c2 & Hs & ->). eapply wp_seq.
    + apply (wp_publish_tracked [svc_key svc] (identified (node :: nodes)) c l
        (assign c2 (svc_key svc) ip (getNodeUUID node))).
      * eapply lb_rel_trans; [eapply lb_rel_same; [exact Hs|by apply lb_rel_refl]|].
        apply lb_rel_assign; [apply elem_of_one|by rewrite Hs|by eapply tracked_same_ips].
      * intros _. cbn. by rewrite lookup_insert_eq.
    + intros err l' H. by apply wp_ret.
Qed.

Lemma wp_reconcileService c svc nodes l :
  tracked R c -> nodes <> [] ->
  wp (anyI publish_view) (reconcileService c svc nodes)
     (ok (fun r l' => lb_rel R [svc_key svc] (identified nodes) c l r.2 l')) l.
Proof.
  intros Ht Hne. unfold reconcileService. destruct (find _ _) as [ip|].
  { eapply wp_seq; [by apply wp_reconcile_existing|]. intros c' l' [-> H]. by apply wp_ret. }
  destruct (serviceIPs c !! svc_key svc) as [ip|] eqn:Hip.
  { eapply wp_seq.
    { apply (wp_publish_tracked [svc_key svc] (identified nodes) c l);
        [by apply lb_rel_refl|done]. }
    intros err l' H. by apply wp_ret. }
  eapply wp_quiet_seq; [apply quiet_allocateIP|]. intros ip H.
  case_decide; [by apply wp_ret, lb_rel_refl|].
  destruct H as [?|[_ Hfree]]; [done|]. by apply wp_assign_new.
Qed.

Lemma wp_reconcile_all c services nodes l :
  tracked R c -> nodes <> [] ->
  wp (anyI publish_view) (reconcile_all c services nodes)
     (ok (fun c' l' => lb_rel R (lb_keys services) (identified nodes) c l c' l')) l.
Proof.
  intros Ht Hne. unfold reconcile_all.
  apply (wp_for_each _ (fun _ c' l' => lb_rel R (lb_keys services) (identified nodes) c l c' l'));
    [by apply lb_rel_refl| |done].
  intros svc todo c1 l1 [pre Hpre] Hrel. destruct (isLoadBalancer svc) eqn:Hlb;
    [|by apply wp_ret].
  eapply wp_seq; [apply wp_reconcileService; [by eapply rel_tracked|done]|].
  intros [err c2] l2 H. apply wp_ret. eapply lb_rel_trans; [exact Hrel|].
  eapply lb_rel_keys; [|exact H]. intros k ->%list_elem_of_singleton.
  unfold lb_keys. apply list_elem_of_fmap. exists svc. split; [done|].
  apply list_elem_of_filter. split; [done|]. rewrite Hpre. set_solver.
Qed.
End steps.

(** ** Releasing *)

(** The IPs of the services that are gone. *)
Definition dropped (cur : list string) (c : LoadBalancerController) : list string :=
  snd <$> filter (fun e => e.1 ∉ cur) (map_to_list (serviceIPs c)).

(** The tables without them. *)
Definition released (cur : list string) (c : LoadBalancerController) : LoadBalancerController :=
  set_ipAssignments (set_serviceIPs c (filter (fun e => e.1 ∈ cur) (serviceIPs c)))
    (filter (fun e => e.1 ∉ dropped cur c) (ipAssignments c)).

(** The same, one entry at a time. *)
Definition drop_entry (cur : list string) (c : LoadBalancerController) (e : string * string)
    : LoadBalancerController :=
  if decide (e.1 ∈ cur) then c
  else set_ipAssignments (set_serviceIPs c (delete e.1 (serviceIPs c)))
         (delete e.2 (ipAssignments c)).

Lemma drop_entry_keep cur c k ip : k ∈ cur -> drop_entry cur c (k, ip) = c.
Proof. intros H. unfold drop_entry. by rewrite decide_True. Qed.

Lemma drop_entry_drop cur c k ip :
  k ∉ cur -> drop_entry cur c (k, ip) =
  set_ipAssignments (set_serviceIPs c (delete k (serviceIPs c))) (delete ip (ipAssignments c)).
Proof. intros H. unfold drop_entry. by rewrite decide_False. Qed.

Lemma elem_of_dropped cur c ip :
  ip ∈ dropped cur c <-> exists k, (k ∉ cur) /\ serviceIPs c !! k = Some ip.
Proof.
  unfold dropped. rewrite list_elem_of_fmap. split.
  - intros ([k ip'] & -> & [Hk Hin]%list_elem_of_filter). exists k. split; [done|].
    by apply elem_of_map_to_list.
  - intros (k & Hk & Hip). exists (k, ip). split; [done|]. apply list_elem_of_filter.
    split; [done|]. by apply elem_of_map_to_list.
Qed.

Lemma drop_entries_lookup cur entries c :
  (forall k, serviceIPs (foldl (drop_entry cur) c entries) !! k =
     if decide ((k ∉ cur) /\ k ∈ entries.*1) then None else serviceIPs c !! k) /\
  (forall ip, ipAssignments (foldl (drop_entry cur) c entries) !! ip =
     if decide (ip ∈ (filter (fun e => e.1 ∉ cur) entries).*2) then None
     else ipAssignments c !! ip) /\
  (exists m m', foldl (drop_entry cur) c entries = set_ipAssignments (set_serviceIPs c m) m').
Proof.
  revert c. induction entries as [|[k0 ip0] entries IH]; intros c.
  { split_and!; [|done|by destruct c; eexists _, _].
    intros k. rewrite decide_False; [done|]. by intros [_ ?%elem_of_nil]. }
  cbn [foldl]. destruct (IH (drop_entry cur c (k0, ip0))) as (H1 & H2 & m & m' & H3).
  unfold drop_entry in *. cbn [fst snd] in *. rewrite fmap_cons, filter_cons. cbn [fst snd].
  destruct (decide (k0 ∈ cur)) as [Hc|Hc].
  - rewrite (decide_False (P := k0 ∉ cur)) by tauto. split_and!; [|exact H2|by eexists _, _].
    intros k. rewrite H1. repeat case_decide; set_solver.
  - rewrite (decide_True (P := k0 ∉ cur)) by done. split_and!.
    + intros k. rewrite H1. cbn. destruct (decide (k = k0)) as [->|Hne].
      * rewrite lookup_delete_eq. repeat case_decide; set_solver.
      * rewrite lookup_delete_ne by done. repeat case_decide; set_solver.
    + intros ip. rewrite H2. cbn. destruct (decide (ip = ip0)) as [->|Hne].
      * rewrite lookup_delete_eq. repeat case_decide; set_solver.
      * rewrite lookup_delete_ne by done. repeat case_decide; set_solver.
    + exists m, m'. by rewrite H3.
Qed.

Lemma drop_entries cur entries c :
  entries ≡ₚ map_to_list (serviceIPs c) -> foldl (drop_entry cur) c entries = released cur c.
Proof.
  intros Hperm. destruct (drop_entries_lookup cur entries c) as (H1 & H2 & m & m' & H3).
  rewrite H3 in *. cbn in H1, H2. unfold released. f_equal; [f_equal|].
  - apply map_eq. intros k. rewrite H1, map_lookup_filter.
    assert (Hk : k ∈ entries.*1 <-> is_Some (serviceIPs c !! k)).
    { rewrite Hperm. rewrite list_elem_of_fmap. split.
      - intros ([k' ip] & -> & H%elem_of_map_to_list). by exists ip.
      - intros [ip H]. exists (k, ip). split; [done|]. by apply elem_of_map_to_list. }
    destruct (serviceIPs c !! k) as [ip|]; cbn; [|by case_decide].
    destruct (decide (k ∈ cur)).
    + rewrite option_guard_True by done. rewrite decide_False; [done|tauto].
    + rewrite option_guard_False by done. rewrite decide_True; [done|]. split; [done|]. by apply Hk.
  - apply map_eq. intros ip. rewrite H2, map_lookup_filter. unfold dropped.
    assert (Hi : (filter (fun e : string * string => e.1 ∉ cur) entries).*2
                 ≡ₚ (filter (fun e : string * string => e.1 ∉ cur) (map_to_list (serviceIPs c))).*2)
      by (by rewrite Hperm).
    destruct (ipAssignments c !! ip) as [u|]; cbn; [|by case_decide].
    case_decide as Hd; rewrite Hi in Hd; [by rewrite option_guard_False by tauto|by rewrite option_guard_True].
Qed.

(** Releasing keeps the tables as they are: what was assigned to a service that is
    left stays assigned. *)
Lemma tracked_released R cur c : tracked R c -> tracked R (released cur c).
Proof.
  intros [H1 H2]. split; cbn.
  - intros k ip [Hk Hin]%map_lookup_filter_Some. cbn in Hin.
    destruct (H1 _ _ Hk) as [Hd|?]; [|by right].
    destruct (decide (ip ∈ dropped cur c)) as [(k' & Hk' & Hip)%elem_of_dropped|Hn].
    + destruct (H2 _ _ _ Hk Hip) as [->|?]; [done|by right].
    + left. apply elem_of_dom in Hd as [u Hu]. apply elem_of_dom. exists u.
      by apply map_lookup_filter_Some.
  - intros k k' ip [Hk _]%map_lookup_filter_Some [Hk' _]%map_lookup_filter_Some. eauto.
Qed.

(** *** What releasing requests *)

Inductive release_event :=
| TokenAsked (r : result string)
| TagsListed (r : result (list Tag.t))
| TagPut (url name : string) (resources : list string)
| PodDeleted (name : string).

Definition release_view : view Eff release_event := fun X e =>
  match e in Eff _ return X -> list release_event with
  | EToken te =>
      match te in TokenE Y return Y -> list release_event with
      | GetImpersonatedToken _ _ => fun r => [TokenAsked r]
      end
  | EHttp he =>
      match he in HttpE Y return Y -> list release_event with
      | GetTags _ _ => fun r => [TagsListed r]
      | PutTag url _ name res => fun _ => [TagPut url name res]
      | _ => fun _ => []
      end
  | EKube ke =>
      match ke in KubeE Y return Y -> list release_event with
      | PodsDelete name _ => fun _ => [PodDeleted name]
      | _ => fun _ => []
      end
  | _ => fun _ => []
  end.

(** The IP is removed from every tag of this program that has it. *)
Definition untag_put (region : string) (ip : string) (tag : Tag.t) : list release_event :=
  if isCCMManagedTag (Tag.Name tag) && bool_decide (ip ∈ Tag.Resources tag)
  then [TagPut ("https://" +:+ region +:+ ".cloudsigma.com/api/2.0/tags/" +:+ Tag.UUID tag +:+ "/")
          (Tag.Name tag) (filter (fun r => r <> ip) (Tag.Resources tag))]
  else [].

(** Untagging as far as the token and the listing allow. *)
Inductive untagging (region ip : string) : list release_event -> Prop :=
| untagging_no_token err : untagging region ip [TokenAsked (Err err)]
| untagging_no_list t err : untagging region ip [TokenAsked (Ok t); TagsListed (Err err)]
| untagging_tags t tags :
    untagging region ip (TokenAsked (Ok t) :: TagsListed (Ok tags) :: mjoin (untag_put region ip <$> tags)).

(** One IP after the other is untagged and its pod deleted. *)
Definition releasing (region : string) (ips : list string) (l : list release_event) : Prop :=
  exists chunks, l = mjoin chunks /\
    Forall2 (fun ip chunk => exists l', untagging region ip l' /\ chunk = l' ++ [PodDeleted (podName ip)])
      ips chunks.

Lemma releasing_snoc region ips l ip l' :
  releasing region ips l -> untagging region ip l' ->
  releasing region (ips ++ [ip]) (l ++ l' ++ [PodDeleted (podName ip)]).
Proof.
  intros (chunks & -> & Hf) Hu. exists (chunks ++ [l' ++ [PodDeleted (podName ip)]]). split.
  - rewrite join_app. cbn. by rewrite app_nil_r.
  - apply Forall2_app; [done|]. constructor; [by exists l'|constructor].
Qed.

Lemma wp_remove_all_tags c t ip tags l :
  wp (anyI release_view) (remove_from_tags c t ip [] tags)
     (ok (fun _ l' => l' = l ++ mjoin (untag_put (Region c) ip <$> tags))) l.
Proof.
  unfold remove_from_tags.
  apply (wp_for_each _ (fun todo _ l' => exists done_, done_ ++ todo = tags /\
    l' = l ++ mjoin (untag_put (Region c) ip <$> done_))).
  - exists []. by rewrite app_nil_r.
  - intros tag todo [] l' _ (done_ & <- & ->).
    assert (Hstep : forall l2, l2 = (l ++ mjoin (untag_put (Region c) ip <$> done_)) ++ untag_put (Region c) ip tag ->
      exists d, d ++ todo = done_ ++ tag :: todo /\ l2 = l ++ mjoin (untag_put (Region c) ip <$> d)).
    { intros l2 ->. exists (done_ ++ [tag]). split; [by rewrite <- app_assoc|].
      rewrite fmap_app, join_app, app_assoc. cbn. by rewrite app_nil_r. }
    unfold untag_put at 2 in Hstep. destruct (isCCMManagedTag _); cbn [negb andb] in *.
    2:{ apply wp_ret, Hstep. by rewrite app_nil_r. }
    rewrite decide_False by apply not_elem_of_nil.
    destruct (decide (ip ∈ Tag.Resources tag)) as [Hin|Hin].
    + rewrite bool_decide_true in Hstep by done. wp_call x Hx. apply wp_ret, Hstep. exact Hx.
    + rewrite bool_decide_false in Hstep by done. apply wp_ret, Hstep. by rewrite app_nil_r.
  - intros [] l' (done_ & Hd & ->). rewrite app_nil_r in Hd. by subst.
Qed.

Lemma wp_untag_events c ip l :
  wp (anyI release_view) (untagIPInCloudSigma c ip)
     (ok (fun _ l' => exists u, untagging (Region c) ip u /\ l' = l ++ u)) l.
Proof.
  unfold untagIPInCloudSigma, get_token. wp_call t Ht. cbn in Ht. subst. destruct t as [t|err].
  2:{ apply wp_ret. eexists. split; [apply untagging_no_token|done]. }
  wp_call r Hr. cbn in Hr. subst. destruct r as [tags|err].
  2:{ apply wp_ret. eexists. split; [apply untagging_no_list|]. by rewrite <- app_assoc. }
  eapply wp_seq; [apply wp_remove_all_tags|]. intros [] l' ->. apply wp_ret.
  eexists. split; [apply untagging_tags|]. by rewrite <- !app_assoc.
Qed.

Lemma wp_release_deleted c cur :
  wp (anyI release_view) (release_deleted c cur)
     (ok (fun c' l => c' = released cur c /\
        exists entries, entries ≡ₚ map_to_list (serviceIPs c) /\
          releasing (Region c) (filter (fun e => e.1 ∉ cur) entries).*2 l)) [].
Proof.
  unfold release_deleted, range_map. apply wp_bind. wp_call seed Hs. cbn in Hs. subst. apply wp_ret.
  set (entries := permute seed (map_to_list (serviceIPs c))).
  assert (Hperm : entries ≡ₚ map_to_list (serviceIPs c)) by apply permute_perm.
  clearbody entries.
  apply (wp_for_each _ (fun todo c' l => exists done_, done_ ++ todo = entries /\
    c' = foldl (drop_entry cur) c done_ /\
    releasing (Region c) (filter (fun e : string * string => e.1 ∉ cur) done_).*2 l)).
  - exists []. split_and!; [done|done|]. exists []. by split.
  - intros [k ip] todo c' l _ (done_ & <- & -> & Hl).
    assert (Hreg : Region (foldl (drop_entry cur) c done_) = Region c).
    { destruct (drop_entries_lookup cur done_ c) as (_ & _ & m & m' & ->). done. }
    assert (Happ : (done_ ++ [(k, ip)]) ++ todo = done_ ++ (k, ip) :: todo) by (by rewrite <- app_assoc).
    case_decide as Hk.
    + apply wp_ret. exists (done_ ++ [(k, ip)]). split_and!; [done| |].
      * rewrite foldl_app. cbn [foldl]. by rewrite drop_entry_keep.
      * rewrite filter_app, filter_cons_False, filter_nil, app_nil_r; [done|]. cbn. tauto.
    + eapply wp_seq; [apply wp_untag_events|]. intros _ l1 (u & Hu & ->). rewrite Hreg in Hu.
      unfold deleteIPConfigPod. apply wp_bind. wp_call x Hx. cbn in Hx. subst. apply wp_ret, wp_ret.
      exists (done_ ++ [(k, ip)]). split_and!; [done| |].
      * rewrite foldl_app. cbn [foldl]. by rewrite drop_entry_drop.
      * rewrite filter_app, filter_cons_True, filter_nil, fmap_app by done. cbn [fmap list_fmap snd].
        rewrite <- app_assoc. by apply releasing_snoc.
  - intros c' l (done_ & Hd & -> & Hl). rewrite app_nil_r in Hd. subst.
    split; [by apply drop_entries|]. by exists entries.
Qed.

Lemma quiet_release_deleted c cur :
  quiet publish_view (release_deleted c cur) (fun c' => c' = released cur c).
Proof.
  unfold release_deleted. eapply quiet_bind; [apply quiet_range_map|]. intros entries Hperm.
  apply (wp_for_each _ (fun todo c' _ => exists done_, done_ ++ todo = entries /\
    c' = foldl (drop_entry cur) c done_)); [by exists []| |].
  - intros [k ip] todo c1 [] _ (done_ & <- & ->).
    assert (Hstep : forall c2, c2 = drop_entry cur (foldl (drop_entry cur) c done_) (k, ip) ->
      exists d, d ++ todo = done_ ++ (k, ip) :: todo /\ c2 = foldl (drop_entry cur) c d).
    { intros c2 ->. exists (done_ ++ [(k, ip)]). by rewrite foldl_app, <- app_assoc. }
    case_decide as Hk; [by apply wp_ret, Hstep; rewrite drop_entry_keep|].
    rewrite drop_entry_drop in Hstep by done.
    eapply wp_seq; [apply quiet_untagIPInCloudSigma|]. intros _ [] _.
    eapply wp_seq; [apply quiet_deleteIPConfigPod|]. intros _ [] _. by apply wp_ret, Hstep.
  - intros c1 [] (done_ & Hd & ->). rewrite app_nil_r in Hd. subst. by apply drop_entries.
Qed.

(** ** Failing over *)

(** An assignment changes only from a node that is not healthy to the new one. *)
Record failed_over (healthy : list string) (newUUID : string)
    (c c' : LoadBalancerController) : Prop := {
  failover_services : serviceIPs c' = serviceIPs c;
  failover_moved ip : ipAssignments c' !! ip = ipAssignments c !! ip \/
    exists u, ipAssignments c !! ip = Some u /\ (u ∉ healthy) /\ newUUID <> "" /\
              ipAssignments c' !! ip = Some newUUID
}.

Lemma failed_over_dom h n c c' :
  failed_over h n c c' -> dom (ipAssignments c') = dom (ipAssignments c).
Proof.
  intros [_ H]. apply set_eq. intros ip. rewrite !elem_of_dom.
  destruct (H ip) as [->|(u & -> & _ & _ & ->)]; naive_solver.
Qed.

Lemma failed_over_same h n c c1 c2 :
  same_ips c1 c2 -> failed_over h n c c1 -> failed_over h n c c2.
Proof. intros -> [H1 H2]. by split. Qed.

Lemma failed_over_move h n c c' ip u :
  ipAssignments c !! ip = Some u -> u ∉ h -> n <> "" -> failed_over h n c c' ->
  failed_over h n c (set_ipAssignments c' (<[ip := n]> (ipAssignments c'))).
Proof.
  intros Hip Hu Hn [H1 H2]. split; [done|]. intros ip'. cbn.
  destruct (decide (ip = ip')) as [<-|Hne].
  - right. exists u. by rewrite lookup_insert_eq.
  - rewrite lookup_insert_ne by done. apply H2.
Qed.

Definition healthy_uuids (nodes : list Node.t) : list string :=
  filter (fun u => u <> "") (getNodeUUID <$> nodes).

Definition first_uuid (nodes : list Node.t) : string :=
  match nodes with node :: _ => getNodeUUID node | [] => "" end.

(** The part of a failover after the assignment is moved. *)
Definition failover_tail (c : LoadBalancerController) (ip newUUID : string)
    : go LoadBalancerController :=
  let* entries := range_map (serviceIPs c) in
  match find (fun '(_, svcIP) => bool_decide (svcIP = ip)) entries with
  | None => Ret c
  | Some (svcKey, _) =>
      if decide (svcKey = "") then Ret c
      else failover_configure c ip newUUID svcKey ;; Ret c
  end.

Lemma quiet_failover_tail c ip u (P : LoadBalancerController -> Prop) :
  P c -> quiet publish_view (failover_tail c ip u) P.
Proof.
  intros HP. unfold failover_tail. eapply quiet_bind; [apply quiet_range_map|].
  intros entries _. quiet_go.
Qed.

Lemma quiet_checkIPFailover c nodes :
  quiet publish_view (checkIPFailover c nodes)
    (failed_over (healthy_uuids nodes) (first_uuid nodes) c).
Proof.
  assert (Hrefl : forall h n, failed_over h n c c) by (intros; split; [done|by left]).
  unfold checkIPFailover. destruct nodes as [|node nodes]; [by apply quiet_ret|].
  eapply quiet_bind; [apply quiet_range_map|]. intros entries Hperm.
  apply quiet_for_each; [done|]. intros [ip u] c1 Hin Hrel.
  rewrite Hperm in Hin. apply elem_of_map_to_list in Hin.
  case_decide as Hu; [by apply quiet_ret|]. case_decide as Hn; [by apply quiet_ret|].
  eapply quiet_bind; [apply quiet_ensureNodeManualMode|]. intros [[err|] c2] Hs; cbn in Hs.
  { apply quiet_ret. by eapply failed_over_same. }
  unfold kube. apply quiet_call; [done|]. intros _. cbv zeta. apply quiet_failover_tail.
  eapply failed_over_move; [done|done|done|]. by eapply failed_over_same.
Qed.

(** ** One synchronisation *)

Lemma quiet_discoverOwnedIPs R c :
  tracked R c -> quiet publish_view (discoverOwnedIPs c) (fun r => tracked R r.2).
Proof.
  intros Ht. unfold discoverOwnedIPs, get_token, token, http.
  quiet_go; by apply tracked_set_pools.
Qed.

Lemma quiet_cleanupAllIPTags c : quiet publish_view (cleanupAllIPTags c) (fun _ => True).
Proof.
  unfold cleanupAllIPTags. eapply quiet_bind; [apply quiet_range_map|]. intros entries _.
  cbv zeta. case_decide; [by apply quiet_ret|].
  eapply quiet_bind; [apply quiet_range_map|]. intros ips _.
  apply quiet_for_each; [done|]. intros [ip k] [] _ _. quiet_go.
Qed.

Lemma tracked_failed_over R h n c c' : failed_over h n c c' -> tracked R c -> tracked R c'.
Proof.
  intros Hf [H1 H2]. pose proof (failed_over_dom _ _ _ _ Hf) as Hd.
  destruct Hf as [Hs _]. split; rewrite Hs; [|done]. intros k ip. rewrite Hd. apply H1.
Qed.

Lemma published_failed_over R h n c c' l :
  failed_over h n c c' -> published_ok R c l -> published_ok R c' l.
Proof.
  intros Hf [H1 H2]. pose proof (failed_over_dom _ _ _ _ Hf) as Hd.
  destruct Hf as [Hs _]. split; [|done]. intros k ips ip. rewrite Hd, Hs. apply H1.
Qed.

(** The listing of nodes answers nodes with a CloudSigma UUID. *)
Definition identifies {X} (e : Eff X) : X -> Prop :=
  match e in Eff _ return X -> Prop with
  | EKube ke =>
      match ke in KubeE Y return Y -> Prop with
      | NodesList => fun r => match r with
                              | Ok nodes => identified (getHealthyNodes nodes)
                              | Err _ => True
                              end
      | _ => fun _ => True
      end
  | _ => fun _ => True
  end.

(** Any environment; if [idn] holds, ready nodes have a UUID. *)
Definition lbI (idn : Prop) : iface Eff (list (string * list string)) :=
  Iface (fun _ _ _ => True)
        (fun X e g x g' => g' = g ++ publish_view X e x /\ (idn -> identifies e x)).

Lemma wp_lbI {A} idn (p : go A) Q l : wp (anyI publish_view) p Q l -> wp (lbI idn) p Q l.
Proof. apply wp_refine; [done|]. by intros X e g x g' [H _]. Qed.

Lemma wp_lb_seq {A B} idn (p : go A) (f : A -> go B) (P : A -> list _ -> Prop) Q l :
  wp (anyI publish_view) p (ok P) l -> (forall a l', P a l' -> wp (lbI idn) (f a) Q l') ->
  wp (lbI idn) (let* x := p in f x) Q l.
Proof. intros Hp Hf. eapply wp_seq; [by apply wp_lbI|done]. Qed.

Lemma wp_syncLoadBalancers R (idn : Prop) c :
  tracked R c ->
  wp (lbI idn) (syncLoadBalancers c)
     (ok (fun r l' => tracked R r.2 /\ (idn -> published_ok R r.2 l'))) [].
Proof.
  intros Ht. unfold syncLoadBalancers.
  assert (Hrefl : forall e : option error,
    wp (lbI idn) (Ret (e, c)) (ok (fun r l' => tracked R r.2 /\ (idn -> published_ok R r.2 l'))) [])
    by (intros e; apply wp_ret; split; [done|intros _; apply published_nil]).
  wp_call svcs Hs. destruct Hs as [-> _]. destruct svcs as [services|err]; [|apply Hrefl].
  wp_call ns Hn. destruct Hn as [-> Hn]. destruct ns as [nodes|err]; [|apply Hrefl].
  cbn in Hn. destruct (getHealthyNodes nodes) as [|n ns] eqn:Hh; [apply Hrefl|].
  set (healthy := n :: ns) in *.
  eapply wp_lb_seq; [by apply quiet_wp, quiet_release_deleted|]. intros c1 ? [-> ->].
  eapply wp_lb_seq; [apply wp_reconcile_all; [by apply tracked_released|done]|].
  intros c2 l2 [Ht2 _ Hp2].
  eapply wp_lb_seq; [apply quiet_wp, quiet_checkIPFailover|]. intros c3 ? [Hf ->].
  apply wp_ret. split; [by eapply tracked_failed_over|]. intros Hi.
  eapply published_failed_over; [exact Hf|]. apply Hp2; [auto|apply published_nil].
Qed.

Lemma wp_anyI_lbI {A} (p : go A) Q l : wp (lbI False) p Q l -> wp (anyI publish_view) p Q l.
Proof. apply wp_refine; [done|]. by intros X e g x g' ->. Qed.

Lemma wp_syncLoop_step R e c :
  tracked R c -> wp (anyI publish_view) (syncLoop_step e c) (ok (fun c' _ => tracked R c')) [].
Proof.
  intros Ht. destruct e; cbn [syncLoop_step].
  - eapply wp_quiet_seq; [apply quiet_cleanupAllIPTags|]. intros _ _. by apply wp_ret.
  - eapply wp_quiet_seq; [by apply quiet_discoverOwnedIPs|]. intros [err c'] H. by apply wp_ret.
  - eapply wp_seq; [by apply wp_anyI_lbI, wp_syncLoadBalancers|].
    intros [err c'] l' [H _]. by apply wp_ret.
Qed.

(** ** The controller comes up

    [Start] returns in every environment: it logs what fails. *)

Create HintDb quiet_publish.

Section returns.
#[local] Hint Resolve quiet_getTaggedServiceIPs quiet_allocateIP quiet_ensureNodeManualMode
  quiet_tagIPInCloudSigma quiet_untagIPInCloudSigma quiet_deleteIPConfigPod
  quiet_endpoint_or_cluster quiet_configureIPOnNode quiet_ensureIPConfigured
  quiet_range_map quiet_checkIPFailover : quiet_publish.

#[local] Hint Extern 1 (quiet blind _ _) =>
  eapply (quiet_returns publish_view); solve [auto with quiet_publish] : quiet.

Lemma returns_updateServiceStatus svc ip : returns (updateServiceStatus svc ip).
Proof. unfold updateServiceStatus, kube. quiet_go. Qed.

Lemma returns_reconcileService c svc nodes : returns (reconcileService c svc nodes).
Proof.
  pose proof returns_updateServiceStatus. unfold reconcileService, reconcile_existing, assign_new.
  quiet_go.
Qed.

Lemma returns_syncLoadBalancers c : returns (syncLoadBalancers c).
Proof.
  pose proof returns_reconcileService. unfold syncLoadBalancers, release_deleted, reconcile_all, kube. quiet_go.
  destruct x1. quiet_go.
Qed.

Lemma returns_Start c : returns (Start c).
Proof.
  pose proof returns_syncLoadBalancers.
  unfold Start, discoverOwnedIPs, recoverServiceState, get_token, kube, token, http. cbv zeta.
  quiet_go.
Qed.

(** What no operation of the controller changes: whom it acts for, and where. *)
Definition same_config (c c' : LoadBalancerController) : Prop :=
  UserEmail c' = UserEmail c /\ Region c' = Region c /\ ClusterName c' = ClusterName c /\
  Disabled c' = Disabled c.

#[local] Instance same_config_preorder : PreOrder same_config.
Proof. split; unfold same_config; [done|]. intros c1 c2 c3 (?&?&?&?) (?&?&?&?). split_and!; congruence. Qed.

#[local] Hint Extern 1 (same_config _ _) => done : quiet.

Lemma config_discoverOwnedIPs c : quiet blind (discoverOwnedIPs c) (fun x => same_config c x.2).
Proof. unfold discoverOwnedIPs, get_token, token, http. quiet_go. Qed.

Lemma config_recoverServiceState c : quiet blind (recoverServiceState c) (fun x => same_config c x.2).
Proof.
  unfold recoverServiceState, kube. apply quiet_call; [done|]. intros [services|err]; apply quiet_ret; [|done].
  cbn. assert (Hin : forall ips key c', same_config c' (foldl (fun c ip => if isPoolIPLocked c ip
      then set_serviceIPs c (<[key := ip]> (serviceIPs c)) else c) c' ips)).
  { induction ips as [|ip ips IH]; intros key c'; cbn; [done|]. etrans; [|apply IH]. by case_match. }
  assert (H : forall l c', same_config c' (foldl (fun c svc => if isLoadBalancer svc
      then foldl (fun c ip => if isPoolIPLocked c ip
             then set_serviceIPs c (<[svc_key svc := ip]> (serviceIPs c)) else c) c (Service.Ingress svc)
      else c) c' l)); [|apply H].
  induction l as [|svc l IH]; intros c'; cbn; [done|]. etrans; [|apply IH]. by case_match.
Qed.

Lemma config_ensureNodeManualMode c u : quiet blind (ensureNodeManualMode c u) (fun x => same_config c x.2).
Proof. unfold ensureNodeManualMode, get_token, token, http. cbv zeta. quiet_go. Qed.

Lemma config_reconcile_existing c svc nodes ip :
  quiet blind (reconcile_existing c svc nodes ip) (same_config c).
Proof.
  unfold reconcile_existing.
  assert (H : forall (assigned : option string) c', same_config c c' ->
    quiet blind (match assigned, Service.Ports svc with
      | Some serverUUID, port :: _ =>
          let* endpointIP := endpoint_or_cluster svc in
          ensureIPConfigured ip serverUUID endpointIP port ;;
          tagIPInCloudSigma c' ip (svc_key svc) ;;
          Ret c'
      | _, _ => Ret c'
      end) (same_config c)).
  { intros [u|] c' Hc; [|done]. destruct (Service.Ports svc) as [|port ports]; [done|].
    apply (quiet_bind _ _ _ (fun _ => True)); [auto with quiet|]. intros endpointIP _.
    apply (quiet_bind _ _ _ (fun _ => True)); [auto with quiet|]. intros _ _.
    apply (quiet_bind _ _ _ (fun _ => True)); [auto with quiet|]. by intros _ _. }
  destruct (ipAssignments c !! ip) as [u|]; [by apply (H (Some u))|].
  destruct nodes as [|node nodes]; [by apply (H None)|].
  case_decide; [by apply (H (Some _))|by apply (H None)].
Qed.

Lemma config_assign_new c svc nodes ip :
  quiet blind (assign_new c svc nodes ip) (fun x => same_config c x.2).
Proof.
  pose proof returns_updateServiceStatus. unfold assign_new.
  apply (quiet_bind _ _ _ (fun x => same_config c x.2)).
  - destruct nodes as [|node nodes]; [done|]. cbv zeta. case_decide; [|done].
    apply (quiet_bind _ _ _ (fun x => same_config c x.2)); [apply config_ensureNodeManualMode|].
    intros [[err|] c'] Hc; [done|]. cbn in Hc.
    apply (quiet_bind _ _ _ (fun _ => True)); [auto with quiet|]. intros _ _.
    destruct (Service.Ports svc) as [|port ports]; [done|].
    apply (quiet_bind _ _ _ (fun _ => True)); [auto with quiet|]. intros endpointIP _.
    apply (quiet_bind _ _ _ (fun _ => True)); [auto with quiet|]. by intros _ _.
  - intros [[err|] c'] Hc; [done|]. apply (quiet_bind _ _ _ (fun _ => True)); [done|]. by intros err _.
Qed.

Lemma config_reconcileService c svc nodes :
  quiet blind (reconcileService c svc nodes) (fun x => same_config c x.2).
Proof.
  unfold reconcileService. destruct (find _ _) as [ip|].
  { eapply quiet_bind; [apply config_reconcile_existing|]. by intros c' Hc. }
  destruct (serviceIPs c !! svc_key svc) as [ip|].
  { apply (quiet_bind _ _ _ (fun _ => True)); [apply returns_updateServiceStatus|]. by intros err _. }
  apply (quiet_bind _ _ _ (fun _ => True)); [auto with quiet|]. intros ip _.
  case_decide; [done|]. apply config_assign_new.
Qed.

Lemma config_reconcile_all c services nodes :
  quiet blind (reconcile_all c services nodes) (same_config c).
Proof.
  apply quiet_for_each; [done|]. intros svc c1 _ Hc. case_match; [|done].
  eapply quiet_bind; [apply config_reconcileService|]. intros [err c2] H2. apply quiet_ret.
  cbn in H2. by etrans.
Qed.

Lemma config_release_deleted c cur : quiet blind (release_deleted c cur) (same_config c).
Proof.
  unfold release_deleted. apply (quiet_bind _ _ _ (fun _ => True)); [auto with quiet|].
  intros entries _. apply quiet_for_each; [done|]. intros [key ip] c1 _ Hc.
  case_decide; [done|].
  apply (quiet_bind _ _ _ (fun _ => True)); [auto with quiet|]. intros _ _.
  apply (quiet_bind _ _ _ (fun _ => True)); [auto with quiet|]. by intros _ _.
Qed.

Lemma config_checkIPFailover c nodes : quiet blind (checkIPFailover c nodes) (same_config c).
Proof.
  unfold checkIPFailover. destruct nodes as [|node nodes]; [done|]. cbv zeta.
  apply (quiet_bind _ _ _ (fun _ => True)); [auto with quiet|].
  intros assignments _. apply quiet_for_each; [done|]. intros [ip u] c1 _ Hc.
  do 2 (case_decide; [done|]).
  eapply quiet_bind; [apply config_ensureNodeManualMode|]. intros [[err|] c2] H2; cbn in H2;
    [apply quiet_ret; by etrans|].
  assert (H12 : same_config c c2) by (by etrans). unfold kube. apply quiet_call; [done|]. intros r.
  apply (quiet_bind _ _ _ (fun _ => True)); [auto with quiet|]. intros entries _.
  destruct (find _ _) as [[key ip']|]; [|exact H12]. case_decide; [exact H12|].
  apply (quiet_bind _ _ _ (fun _ => True)); [|by intros _ _].
  unfold failover_configure, kube. destruct (SplitN2 key "/") as [ns [name|]]; quiet_go.
Qed.

Lemma config_syncLoadBalancers c : quiet blind (syncLoadBalancers c) (fun x => same_config c x.2).
Proof.
  unfold syncLoadBalancers, kube.
  apply quiet_call; [done|]. intros [services|err]; [|done].
  apply quiet_call; [done|]. intros [nodes|err]; [|done].
  destruct (getHealthyNodes nodes); [done|].
  eapply quiet_bind; [apply config_release_deleted|]. intros c1 H1.
  eapply quiet_bind; [apply config_reconcile_all|]. intros c2 H2.
  eapply quiet_bind; [apply config_checkIPFailover|]. intros c3 H3.
  apply quiet_ret. cbn. etrans; [exact H1|by etrans].
Qed.

Lemma config_Start c : quiet blind (Start c) (same_config c).
Proof.
  unfold Start. case_match; [done|]. cbv zeta.
  eapply quiet_bind; [apply config_discoverOwnedIPs|]. intros [e1 c1] H1.
  eapply quiet_bind; [apply config_recoverServiceState|]. intros [e2 c2] H2.
  eapply quiet_bind; [apply config_syncLoadBalancers|]. intros [e3 c3] H3.
  apply quiet_ret. cbn in *. etrans; [|etrans; [exact H1|]; etrans; [exact H2|exact H3]]. done.
Qed.
End returns.

(** The controller at work: what wakes it does one step, in an environment that
    also changes by itself. *)
Inductive lb_step {W} (h : handler Eff W)
    : LoadBalancerController * W -> LoadBalancerController * W -> Prop :=
| lb_event e c w c' w' :
    run h (syncLoop_step e c) w = (Done c', w') -> lb_step h (c, w) (c', w')
| lb_environment c w w' : lb_step h (c, w) (c, w').

Lemma lb_step_tracked {W} (h : handler Eff W) R s s' :
  lb_step h s s' -> tracked R s.1 -> tracked R s'.1.
Proof.
  intros [e c w c' w' Hrun|c w w'] Ht; cbn in *; [|done].
  destruct (wp_run_log _ h _ w _ (wp_syncLoop_step R e c Ht)) as (a & w1 & l & Hrun' & Ha).
  rewrite Hrun in Hrun'. by simplify_eq.
Qed.

Lemma lb_reachable_tracked {W} (h : handler Eff W) R s s' :
  rtc (lb_step h) s s' -> tracked R s.1 -> tracked R s'.1.
Proof. induction 1; eauto using lb_step_tracked. Qed.

(** A handler whose ready nodes have a UUID. *)
Class IdentifiedNodes {W} (h : handler Eff W) : Prop :=
  nodes_identified : forall w, identifies (EKube NodesList) (h _ (EKube NodesList) w).1.

Lemma lbI_sound {W} (h : handler Eff W) `{!IdentifiedNodes h} :
  implements (logging publish_view h) (fun wl g => wl.2 = g) (lbI True).
Proof.
  intros X e [w l] g Heq _. simpl in *. subst l.
  destruct (h X e w) as [x w'] eqn:Hx; simpl. eexists. split; [|done]. split; [done|]. intros _.
  pose proof (nodes_identified w) as Hn.
  destruct e as [|?|ke| | | | |]; try done. destruct ke; try done. by rewrite Hx in Hn.
Qed.

(** ** A concrete cluster *)

Record sim_cluster := {
  sc_services : list Service.t;
  sc_nodes : list Node.t;
  sc_ips : list IP.t;
  sc_tags : list Tag.t
}.

Definition with_services (w : sim_cluster) (l : list Service.t) : sim_cluster :=
  {| sc_services := l; sc_nodes := sc_nodes w; sc_ips := sc_ips w; sc_tags := sc_tags w |}.
Definition with_tags (w : sim_cluster) (l : list Tag.t) : sim_cluster :=
  {| sc_services := sc_services w; sc_nodes := sc_nodes w; sc_ips := sc_ips w; sc_tags := l |}.

(** A server with one NIC on DHCP. *)
Definition sim_server : list (string * json) :=
  [("name", JStr "worker"); ("uuid", JStr "node-uuid");
   ("nics", JArr [JObj [("ip_v4_conf", JObj [("conf", JStr "dhcp"); ("ip", JStr "10.0.0.1")])]])].

Definition sim_lb_http {X} (e : HttpE X) (w : sim_cluster) : X * sim_cluster :=
  match e in HttpE Y return Y * sim_cluster with
  | GetIPsDetail _ _ => (Ok (Ok (sc_ips w)), w)
  | GetTags _ _ => (Ok (sc_tags w), w)
  | PostTag _ _ name res => (Ok (201%Z, ""), with_tags w (sc_tags w ++ [Tag.mk name name res]))
  | PutTag _ _ name res =>
      (Ok (200%Z, ""),
       with_tags w ((fun t => if decide (Tag.Name t = name)
                              then Tag.mk (Tag.UUID t) name res else t) <$> sc_tags w))
  | GetServerJson _ _ => (Ok (Ok sim_server), w)
  | PutServerJson _ _ _ => (Ok (200%Z, ""), w)
  | e => (deaf_http e, w)
  end.

Definition sim_lb_kube {X} (e : KubeE X) (w : sim_cluster) : X * sim_cluster :=
  match e in KubeE Y return Y * sim_cluster with
  | ServicesList => (Ok (sc_services w), w)
  | NodesList => (Ok (sc_nodes w), w)
  | ServicesUpdateStatus svc =>
      (Ok tt, with_services w ((fun s => if decide (svc_key s = svc_key svc) then svc else s)
                                 <$> sc_services w))
  | EndpointsGet _ _ => (Ok [], w)
  | PodsGet _ => (Ok tt, w)
  | PodsCreate _ => (Ok tt, w)
  | PodsDelete _ _ => (Ok tt, w)
  | e => (deaf_kube e, w)
  end.

Definition sim_lb : handler Eff sim_cluster :=
  handle (fun _ _ e w => (deaf_cloud e, w)) (fun _ => sim_lb_http) (fun _ => sim_lb_kube)
    (fun _ e w => (deaf_oauth e, w))
    (fun X e w => (match e in TokenE Y return Y with GetImpersonatedToken _ _ => Ok "tok" end, w))
    (fun _ e w => (idle_golang e, w)).

Definition sim_svc (name : string) (ingress : list string) : Service.t :=
  Service.mk "default" name ∅ "LoadBalancer" "10.96.0.1" [80%Z] ingress.

Definition sim_node (name providerID : string) : Node.t :=
  Node.mk name providerID [("Ready", "True")] [] [].

Definition sim_controller : LoadBalancerController :=
  {| UserEmail := "a@b.c"; Region := "zrh"; ClusterName := "prod"; Disabled := false;
     staticIPs := []; dynamicIPs := []; ipAssignments := ∅; serviceIPs := ∅;
     manualModeNodes := ∅ |}.

Definition static_ip (ip : string) : IP.t := IP.mk ip None (Some 1%Z).

(** Two services, of which [b] may have an IP, two pool IPs and one node. *)
Definition sim_world (b_ingress ips : list string) (providerID : string) : sim_cluster :=
  {| sc_services := [sim_svc "a" []; sim_svc "b" b_ingress];
     sc_nodes := [sim_node "n1" providerID]; sc_ips := static_ip <$> ips; sc_tags := [] |}.

Definition ingresses (w : sim_cluster) : list (list string) := Service.Ingress <$> sc_services w.

(** After a graceful restart (the tags of the IPs were removed on shutdown) the
    recovered IP of service [b] is not assigned to a node, so that the first
    synchronisation gives it to service [a] as well. *)
Example restart_double_allocation :
  ingresses (run sim_lb (Start sim_controller)
               (sim_world ["31.0.0.1"] ["31.0.0.1"] "cloudsigma://u1")).2
  = [["31.0.0.1"]; ["31.0.0.1"]].
Proof. by vm_compute. Qed.

(** When the first ready node has no CloudSigma UUID the IP is published but not
    recorded, and the next service gets it again. *)
Example unidentified_node_double_allocation :
  ingresses (run sim_lb (Start sim_controller) (sim_world [] ["31.0.0.1"] "")).2
  = [["31.0.0.1"]; ["31.0.0.1"]].
Proof. by vm_compute. Qed.

(** ** Properties *)

(** The answers to the listings of services. *)
Definition services_view : view Eff (result (list Service.t)) := fun X e =>
  match e in Eff _ return X -> list (result (list Service.t)) with
  | EKube ke =>
      match ke in KubeE Y return Y -> list (result (list Service.t)) with
      | ServicesList => fun r => [r]
      | _ => fun _ => []
      end
  | _ => fun _ => []
  end.

(** The IPs in the statuses of the services when the controller comes up. *)
Definition taken_over (l : list (result (list Service.t))) (ip : string) : Prop :=
  match l with
  | Ok services :: _ =>
      exists svc, svc ∈ services /\ isLoadBalancer svc = true /\ ip ∈ Service.Ingress svc
  | _ => False
  end.

(** [Start] before its synchronisation. *)
Definition take_over (c : LoadBalancerController) : go LoadBalancerController :=
  let c := set_manualModeNodes (set_serviceIPs (set_ipAssignments c ∅) ∅) ∅ in
  let* ' (_, c) := discoverOwnedIPs c in
  let* ' (_, c) := recoverServiceState c in
  Ret c.

Lemma run_Start {W} (h : handler Eff W) c0 w0 c w :
  Disabled c0 = false -> run h (Start c0) w0 = (Done c, w) ->
  exists c1 w1 err, run h (take_over c0) w0 = (Done c1, w1) /\
    run h (syncLoadBalancers c1) w1 = (Done (err, c), w).
Proof.
  intros Hon. unfold Start, take_over. rewrite Hon. cbv zeta. rewrite !run_bind.
  destruct (run h (discoverOwnedIPs _) w0) as [[[e1 c1]|why] w1]; [|done]. rewrite !run_bind.
  destruct (run h (recoverServiceState c1) w1) as [[[e2 c2]|why] w2]; [|done]. rewrite !run_bind.
  destruct (run h (syncLoadBalancers c2) w2) as [[[e3 c3]|why] w3] eqn:E; [|done].
  cbn. intros [= <- <-]. by exists c2, w2, e3.
Qed.

(** Only the IPs of the statuses are recorded, and none is assigned. *)
Definition recovered (R : string -> Prop) (c : LoadBalancerController) : Prop :=
  ipAssignments c = ∅ /\ forall k ip, serviceIPs c !! k = Some ip -> R ip.

Lemma recovered_tracked R c : recovered R c -> tracked R c.
Proof. intros [_ H]. split; eauto. Qed.

Lemma wp_take_over c :
  wp (anyI services_view) (take_over c)
     (ok (fun c' l => exists r, l = [r] /\ recovered (taken_over l) c')) [].
Proof.
  unfold take_over. cbv zeta.
  eapply (wp_quiet_seq _ _ _ (fun r => ipAssignments r.2 = ∅ /\ serviceIPs r.2 = ∅)).
  { unfold discoverOwnedIPs, get_token, token, http. quiet_go. }
  intros [err c1] [H1 H2]; cbn in H1, H2. unfold recoverServiceState. apply wp_bind.
  wp_call r Hr. cbn in Hr. subst. destruct r as [services|err']; do 2 apply wp_ret.
  2:{ eexists. split; [done|]. split; [done|]. rewrite H2. intros k ip. by rewrite lookup_empty. }
  eexists. split; [done|].
  assert (Hinv : forall todo c', recovered (taken_over [Ok services]) c' -> todo ⊆ services ->
    recovered (taken_over [Ok services]) (foldl (fun c svc =>
          if isLoadBalancer svc then
            foldl (fun c ip =>
              if isPoolIPLocked c ip
              then set_serviceIPs c (<[svc_key svc := ip]> (serviceIPs c)) else c)
              c (Service.Ingress svc)
          else c) c' todo)).
  2:{ apply Hinv; [|done]. split; [done|]. rewrite H2. intros k ip. by rewrite lookup_empty. }
  induction todo as [|svc todo IH]; intros c' Hc Hsub; [done|]. cbn [foldl].
  apply IH; [|set_solver]. destruct (isLoadBalancer svc) eqn:Hlb; [|done].
  assert (Hips : forall ips c', recovered (taken_over [Ok services]) c' -> ips ⊆ Service.Ingress svc ->
    recovered (taken_over [Ok services]) (foldl (fun c ip =>
              if isPoolIPLocked c ip
              then set_serviceIPs c (<[svc_key svc := ip]> (serviceIPs c)) else c) c' ips));
    [|by apply Hips].
  induction ips as [|ip ips IHi]; intros c2 [Ha Hs] Hi; [done|]. cbn [foldl]. apply IHi; [|set_solver].
  case_match; [|done]. split; [done|]. cbn. intros k ip'.
  rewrite lookup_insert_Some. intros [[_ <-]|[_ Hk]]; [|exact (Hs k ip' Hk)].
  exists svc. split_and!; [set_solver|done|set_solver].
Qed.

Lemma quiet_take_over c : quiet publish_view (take_over c) (fun _ => True).
Proof. unfold take_over, discoverOwnedIPs, recoverServiceState, get_token, token, http, kube. cbv zeta. quiet_go. Qed.

Lemma taken_over_prefix l l' : (exists r, l = [r]) -> l `prefix_of` l' -> taken_over l = taken_over l'.
Proof. by intros [r ->] [k ->]. Qed.

(** What [Start] leaves for its synchronisation. *)
Lemma run_take_over {W} (h : handler Eff W) c0 w0 c w l :
  run (logging services_view h) (take_over c0) (w0, []) = (Done c, (w, l)) ->
  (exists r, l = [r]) /\ recovered (taken_over l) c.
Proof.
  intros Hrun. destruct (wp_run (anyI services_view) _ _ _ _ (w0, []) []
    (anyI_sound services_view h) eq_refl (wp_take_over c0)) as (l' & HQ & HR).
  rewrite Hrun in HQ, HR. cbn in HQ, HR. subst. destruct HQ as (r & -> & H). eauto.
Qed.

#[global] Instance logging_identified {W C} (v : view Eff C) (h : handler Eff W) :
  IdentifiedNodes h -> IdentifiedNodes (logging v h).
Proof.
  intros Hh [w l]. specialize (Hh w). cbn [logging].
  destruct (h _ (EKube NodesList) w) as [x w'] eqn:E. exact Hh.
Qed.

Lemma sync_published {W} (h : handler Eff W) `{!IdentifiedNodes h} R c w :
  tracked R c ->
  exists err c' w' pubs, run (logging publish_view h) (syncLoadBalancers c) (w, []) = (Done (err, c'), (w', pubs)) /\
    tracked R c' /\ published_ok R c' pubs.
Proof.
  intros Ht. destruct (wp_run (lbI True) (logging publish_view h) _ _ _ (w, []) [] (lbI_sound h) eq_refl
              (wp_syncLoadBalancers R True c Ht)) as (l' & HQ & HR).
  destruct (run _ _ _) as [[[err c']|why] [w' l]]; cbn in *; [|done].
  subst l'. destruct HQ as [? Hp]. exists err, c', w', l. split_and!; [done|done|by apply Hp].
Qed.

(** C4. However the loop is woken after [Start], and whatever the API servers
    answer, fail or change in between: the IP recorded for a service is assigned to
    a node, and no two services are recorded with the same IP, except for the IPs
    that [Start] found in the statuses of the services (for those it fails, see
    [restart_double_allocation]). *)
Theorem lb_tables_tracked {W} (h : handler Eff W) c0 w0 c w l c' w'
    (Hon : Disabled c0 = false)
    (Hstart : run (logging services_view h) (Start c0) (w0, []) = (Done c, (w, l)))
    (Hreach : rtc (lb_step h) (c, w) (c', w')) :
  tracked (taken_over l) c'.
Proof.
  destruct (run_Start _ _ _ _ _ Hon Hstart) as (c1 & [w1 l1] & err & Htake & Hsync).
  apply run_take_over in Htake as [Hone Hrec].
  pose proof (run_logging_prefix services_view h (syncLoadBalancers c1) w1 l1) as Hpre.
  rewrite Hsync in Hpre. cbn in Hpre. rewrite (taken_over_prefix _ _ Hone Hpre) in Hrec.
  apply (lb_reachable_tracked h _ _ _ Hreach). cbn.
  destruct (wp_run_log publish_view (logging services_view h) _ (w1, l1) _
    (wp_anyI_lbI _ _ _ (wp_syncLoadBalancers (taken_over l) False c1 (recovered_tracked _ _ Hrec))))
    as (a & w2 & k & Hrun & Ht & _).
  rewrite Hsync in Hrun. by simplify_eq.
Qed.

(** C5. No synchronisation publishes one IP in the statuses of two services, when
    every ready node has a CloudSigma UUID: neither the one of [Start] nor any
    later one, except for IPs that [Start] found in the statuses; and the other IPs
    published are, at its end, assigned to a node and recorded for no other
    service.  (Without a UUID this fails, see [unidentified_node_double_allocation];
    for the IPs found it fails in [restart_double_allocation].) *)
Theorem sync_publishes_exclusively {W} (h : handler Eff W) `{!IdentifiedNodes h}
    c0 w0 c w l pubs (Hon : Disabled c0 = false)
    (Hstart : run (logging publish_view (logging services_view h)) (Start c0) ((w0, []), [])
              = (Done c, ((w, l), pubs))) :
  published_ok (taken_over l) c pubs /\
  forall c1 w1, rtc (lb_step h) (c, w) (c1, w1) ->
    let '(o, pubs1) := observe publish_view h (syncLoadBalancers c1) w1 in
    exists err c2, o = Done (err, c2) /\ published_ok (taken_over l) c2 pubs1.
Proof.
  destruct (run_Start _ _ _ _ _ Hon Hstart) as (c1 & [[w1 l1] p1] & err & Htake & Hsync).
  destruct (quiet_run_log publish_view (logging services_view h) (take_over c0) (w0, []) _ []
    (quiet_take_over c0)) as (c1' & w1' & Htake' & Htake2 & _).
  rewrite Htake in Htake2. injection Htake2 as <- <- ->.
  apply run_take_over in Htake' as [Hone Hrec].
  destruct (run_logging publish_view (logging services_view h) (syncLoadBalancers c1) (w1, l1) []) as [E1 E2].
  rewrite Hsync in E1, E2. cbn in E1, E2.
  pose proof (run_logging_prefix services_view h (syncLoadBalancers c1) w1 l1) as Hpre.
  rewrite <- E2 in Hpre. cbn in Hpre. rewrite (taken_over_prefix _ _ Hone Hpre) in Hrec.
  destruct (sync_published (logging services_view h) (taken_over l) c1 (w1, l1)
    (recovered_tracked _ _ Hrec)) as (err' & c2 & w2 & pubs2 & Hrun & Ht & Hp).
  rewrite Hsync in Hrun. simplify_eq. split; [exact Hp|]. intros c3 w3 Hreach.
  apply (lb_reachable_tracked h (taken_over l) _ _) in Hreach; [|exact Ht]. cbn in Hreach.
  destruct (sync_published h (taken_over l) c3 w3 Hreach) as (err3 & c4 & w4 & pubs4 & Hrun & _ & Hp4).
  unfold observe. rewrite Hrun. by exists err3, c4.
Qed.


Lemma first_uuid_healthy nodes :
  first_uuid nodes <> "" -> first_uuid nodes ∈ healthy_uuids nodes.
Proof.
  destruct nodes as [|node nodes]; [done|]. cbn [first_uuid]. intros Hne.
  unfold healthy_uuids. apply list_elem_of_filter. split; [done|]. rewrite fmap_cons. constructor.
Qed.

(** With the new node already in manual mode every assignment ends on a healthy
    node. *)
Lemma quiet_checkIPFailover_healthy c nodes :
  first_uuid nodes <> "" -> first_uuid nodes ∈ manualModeNodes c ->
  quiet publish_view (checkIPFailover c nodes)
    (fun c' => forall ip u, ipAssignments c' !! ip = Some u -> u ∈ healthy_uuids nodes).
Proof.
  intros Hne Hm. pose proof (first_uuid_healthy _ Hne) as Hnew.
  unfold checkIPFailover. destruct nodes as [|node nodes]; [done|].
  eapply quiet_bind; [apply quiet_range_map|]. intros entries Hperm.
  set (nodes' := node :: nodes) in *.
  apply (wp_for_each _ (fun todo c' _ => manualModeNodes c' = manualModeNodes c /\
    forall ip u, ipAssignments c' !! ip = Some u -> u ∈ healthy_uuids nodes' \/ (ip, u) ∈ todo)).
  - split; [done|]. intros ip u H. right. rewrite Hperm. by apply elem_of_map_to_list.
  - intros [ip u] todo c1 [] _ [Hm1 Hinv]. case_decide as Hu.
    { apply wp_ret. split; [done|]. intros ip' u' H.
      destruct (Hinv _ _ H) as [?|[[= -> ->]|?]%elem_of_cons]; auto. }
    rewrite decide_False by done. eapply wp_seq.
    { unfold ensureNodeManualMode. rewrite decide_True by (rewrite Hm1; exact Hm).
      apply (wp_ret _ _ (ok (fun r _ => r = (None, c1)))). done. }
    intros r [] ->. unfold kube. apply wp_call; [done|]. intros _ [] _. cbv zeta.
    apply quiet_failover_tail. split; [done|]. intros ip' u'. cbn.
    rewrite lookup_insert_Some. intros [[<- <-]|[Hni H]]; [by left|].
    destruct (Hinv _ _ H) as [?|[[= -> ->]|?]%elem_of_cons]; auto. done.
  - intros c1 [] [_ H] ip u Hip.
    destruct (H _ _ Hip) as [?|Hin]; [done|]. by apply not_elem_of_nil in Hin.
Qed.

(** C23. Failover, in every environment: services keep their IPs, an assignment
    only moves from a node that is not healthy to the first healthy one, and when
    that node is already in manual mode every IP ends up on a healthy node. *)
Theorem checkIPFailover_spec {W} (h : handler Eff W) c nodes w :
  exists c' w', run h (checkIPFailover c nodes) w = (Done c', w') /\
    serviceIPs c' = serviceIPs c /\
    (forall ip, ipAssignments c' !! ip = ipAssignments c !! ip \/
       exists u, ipAssignments c !! ip = Some u /\ (u ∉ healthy_uuids nodes) /\
                 ipAssignments c' !! ip = Some (first_uuid nodes)) /\
    (first_uuid nodes <> "" -> first_uuid nodes ∈ manualModeNodes c ->
     forall ip u, ipAssignments c' !! ip = Some u -> u ∈ healthy_uuids nodes).
Proof.
  destruct (quiet_run publish_view h _ w _ (quiet_checkIPFailover c nodes))
    as (c' & w' & Hrun & [H1 H2]).
  exists c', w'. split_and!; [done|done| |].
  - intros ip. destruct (H2 ip) as [?|(u & ? & ? & _ & ?)]; eauto.
  - intros Hne Hm.
    destruct (quiet_run publish_view h _ w _ (quiet_checkIPFailover_healthy c nodes Hne Hm))
      as (c2 & w2 & Hrun2 & H). rewrite Hrun in Hrun2. by simplify_eq.
Qed.

(** The tag listings the controller sees. *)
Definition listing_view : view Eff (list Tag.t) := fun X e =>
  match e in Eff _ return X -> list (list Tag.t) with
  | EHttp he =>
      match he in HttpE Y return Y -> list (list Tag.t) with
      | GetTags _ _ => fun r => match r with Ok tags => [tags] | Err _ => [] end
      | _ => fun _ => []
      end
  | _ => fun _ => []
  end.

Lemma wp_isIPAvailable c ip l :
  wp (anyI listing_view) (isIPAvailable c ip)
     (ok (fun r l' => forall b, r = Ok b -> exists tags, l' = l ++ [tags] /\
            b = bool_decide (tagged_service_ips tags !! ip = None))) l.
Proof.
  unfold isIPAvailable, getTaggedServiceIPs, get_token. apply wp_bind.
  wp_call t Ht. cbn in Ht. rewrite app_nil_r in Ht. subst. destruct t as [t|err].
  2:{ by do 2 apply wp_ret. }
  wp_call r Hr. subst. destruct r as [tags|err]; do 2 apply wp_ret; [|done].
  intros b [= <-]. by exists tags.
Qed.

Lemma tagged_service_ips_spec tags ip :
  is_Some (tagged_service_ips tags !! ip) <->
  exists t, t ∈ tags /\ HasPrefix (Tag.Name t) "service:" = true /\ ip ∈ Tag.Resources t.
Proof.
  unfold tagged_service_ips.
  assert (Hres : forall name rs (m : gmap string string),
    is_Some (foldl (fun m r => <[r := name]> m) m rs !! ip) <-> is_Some (m !! ip) \/ ip ∈ rs).
  { intros name rs. induction rs as [|r rs IH]; intros m; simpl; [set_solver|].
    rewrite IH, lookup_insert_is_Some', elem_of_cons. naive_solver. }
  assert (Hall : forall (m : gmap string string),
    is_Some (foldl (fun m tag => if HasPrefix (Tag.Name tag) "service:"
      then foldl (fun m r => <[r := Tag.Name tag]> m) m (Tag.Resources tag) else m) m tags !! ip)
    <-> is_Some (m !! ip) \/
        exists t, t ∈ tags /\ HasPrefix (Tag.Name t) "service:" = true /\ ip ∈ Tag.Resources t).
  { induction tags as [|t tags IH]; intros m; simpl.
    - split; [auto|]. intros [?|(t & Hin & _)]; [done|]. by apply not_elem_of_nil in Hin.
    - rewrite IH. setoid_rewrite elem_of_cons.
      destruct (HasPrefix (Tag.Name t) "service:") eqn:Hp; rewrite ?Hres; naive_solver congruence. }
  rewrite Hall, lookup_empty. split; [intros [[? [=]]|]; done|auto].
Qed.

(** C24. Allocation, in every environment: what is allocated is an IP of the pool
    the service's annotation asks for, that is assigned to no node, and that no
    [service:] tag of the listing just fetched holds; otherwise nothing is. *)
Theorem allocateIP_spec {W} (h : handler Eff W) c svc w :
  let '(o, l) := observe listing_view h (allocateIP c svc) w in
  exists ip, o = Done ip /\
    (ip = "" \/
     ip ∈ pool_of c svc /\ (ip ∉ dom (ipAssignments c)) /\
     exists l0 tags, l = l0 ++ [tags] /\
       forall t, t ∈ tags -> HasPrefix (Tag.Name t) "service:" = true ->
                 ip ∉ Tag.Resources t).
Proof.
  apply observe_intro. unfold allocateIP.
  set (P := fun ip (l : list (list Tag.t)) => ip ∈ pool_of c svc /\ (ip ∉ dom (ipAssignments c)) /\
     exists l0 tags, l = l0 ++ [tags] /\
       forall t, t ∈ tags -> HasPrefix (Tag.Name t) "service:" = true ->
                 ip ∉ Tag.Resources t).
  eapply (wp_seq _ _ _ (fun r l => match r with inl _ => True | inr ip => P ip l end)).
  2:{ intros [[]|ip] l H; apply wp_ret; eexists; (split; [done|]); auto. }
  apply (wp_for_range _ (fun _ _ _ => True)); [done| |done].
  intros ip todo [] l [pre Hpre] _. case_decide as Hfree; [by apply wp_ret|].
  eapply wp_seq; [apply wp_isIPAvailable|]. intros [[]|] l' H; apply wp_ret; try done.
  destruct (H _ eq_refl) as (tags & -> & Hb). cbn. split_and!.
  - rewrite Hpre. set_solver.
  - done.
  - exists l, tags. split; [done|]. intros t Ht Hp Hin. symmetry in Hb.
    apply bool_decide_eq_true in Hb.
    assert (Hs : is_Some (tagged_service_ips tags !! ip)) by (apply tagged_service_ips_spec; eauto).
    rewrite Hb in Hs. by destruct Hs.
Qed.

(** ** The edit of a server *)

Lemma jfield_jdelete k k' fs :
  jfield k (jdelete k' fs) = if decide (k = k') then None else jfield k fs.
Proof.
  unfold jdelete. induction fs as [|[k1 v] fs IH]; [by case_decide|].
  rewrite filter_cons. cbn [fst]. destruct (decide (k1 <> k')) as [Hne|He].
  - cbn [jfield]. rewrite IH. repeat case_decide; congruence.
  - apply dec_stable in He as ->. rewrite IH. cbn [jfield].
    repeat case_decide; congruence.
Qed.

Lemma jfield_app k fs gs :
  jfield k (fs ++ gs) = match jfield k fs with Some v => Some v | None => jfield k gs end.
Proof. induction fs as [|[k1 v] fs IH]; [done|]. cbn. by case_decide. Qed.

Lemma jfield_jset k k' v fs :
  jfield k (jset k' v fs) = if decide (k = k') then Some v else jfield k fs.
Proof.
  unfold jset. rewrite jfield_app, jfield_jdelete. cbn [jfield].
  repeat case_decide; subst; try done; by destruct (jfield k fs).
Qed.

Lemma jfield_without k ks fs :
  jfield k (foldl (fun s k => jdelete k s) fs ks) =
  if decide (k ∈ ks) then None else jfield k fs.
Proof.
  revert fs. induction ks as [|k1 ks IH]; intros fs; simpl; [done|].
  rewrite IH, jfield_jdelete. repeat case_decide; set_solver.
Qed.

(** [nic'] is [nic] in manual mode: its IPv4 configuration says so and names no
    IP, everything else in it is as it was. *)
Definition in_manual_mode (nic nic' : json) : Prop :=
  exists m m' conf conf', nic = JObj m /\ nic' = JObj m' /\
    ip_v4_conf nic = Some conf /\ ip_v4_conf nic' = Some conf' /\
    jfield "conf" conf' = Some (JStr "manual") /\ jfield "ip" conf' = None /\
    (forall k, k <> "conf" -> k <> "ip" -> jfield k conf' = jfield k conf) /\
    (forall k, k <> "ip_v4_conf" -> jfield k m' = jfield k m).

Lemma switch_first_spec nics nics' :
  switch_first nics = Some nics' ->
  exists pre nic nic' post, nics = pre ++ nic :: post /\ nics' = pre ++ nic' :: post /\
    Forall (fun n => ip_v4_conf n = None) pre /\ in_manual_mode nic nic'.
Proof.
  revert nics'. induction nics as [|nic nics IH]; intros nics' H; [done|].
  assert (Hskip : ip_v4_conf nic = None -> exists l, switch_first nics = Some l /\ nics' = nic :: l).
  { intros Hn. destruct nic; cbn [switch_first] in H; try rewrite Hn in H;
      destruct (switch_first nics); simplify_eq; eauto. }
  destruct (ip_v4_conf nic) as [conf|] eqn:Hconf.
  - destruct nic as [| | | | |m]; try done. cbn [switch_first] in H. rewrite Hconf in H.
    simplify_eq. eexists [], (JObj m), _, nics. split_and!; [done|done|constructor|].
    eexists m, _, conf, _. split_and!; [done|done|exact Hconf| | | | |].
    + cbn [ip_v4_conf]. by rewrite jfield_jset, decide_True.
    + by rewrite jfield_jdelete, jfield_jset.
    + by rewrite jfield_jdelete.
    + intros k H1 H2. by rewrite jfield_jdelete, jfield_jset, !decide_False.
    + intros k Hk. by rewrite jfield_jset, decide_False.
  - destruct (Hskip eq_refl) as (l & Hl & ->).
    destruct (IH _ Hl) as (pre & n & n' & post & -> & -> & Hpre & Hm).
    exists (nic :: pre), n, n', post. split_and!; [done|done|by constructor|done].
Qed.

Inductive server_event :=
| ServerRead (server : list (string * json))
| ServerWritten (url : string) (server : list (string * json)).

Definition server_view : view Eff server_event := fun X e =>
  match e in Eff _ return X -> list server_event with
  | EHttp he =>
      match he in HttpE Y return Y -> list server_event with
      | GetServerJson _ _ => fun r =>
          match r with Ok (Ok s) => [ServerRead s] | _ => [] end
      | PutServerJson url _ s => fun _ => [ServerWritten url s]
      | _ => fun _ => []
      end
  | _ => fun _ => []
  end.

(** What is sent back for a server. *)
Definition manual_update (server update : list (string * json)) : Prop :=
  (forall k, k ∈ readonly_fields -> jfield k update = None) /\
  (forall k, k ∉ "nics" :: readonly_fields -> jfield k update = jfield k server) /\
  exists pre nic nic' post, server_nics server = pre ++ nic :: post /\
    jfield "nics" update = Some (JArr (pre ++ nic' :: post)) /\
    Forall (fun n => ip_v4_conf n = None) pre /\ in_manual_mode nic nic'.

Definition manual_outcome (c : LoadBalancerController) (u : string)
    (o : outcome (option error * LoadBalancerController)) (l : list server_event) : Prop :=
  exists err c', o = Done (err, c') /\ same_ips c c' /\
    (err = None -> u ∈ manualModeNodes c') /\ (err <> None -> c' = c) /\
    match l with
    | [] => True
    | [ServerRead s] => err = None -> existsb is_manual (server_nics s) = true
    | [ServerRead s; ServerWritten url p] =>
        url = apiURL c ("servers/" +:+ u +:+ "/") /\
        existsb is_manual (server_nics s) = false /\ manual_update s p
    | _ => False
    end.

Lemma manual_update_switch server nics' :
  switch_first (server_nics server) = Some nics' ->
  manual_update server (foldl (fun s k => jdelete k s) (jset "nics" (JArr nics') server)
                          readonly_fields).
Proof.
  intros (pre & nic & nic' & post & Hn & -> & Hpre & Hm)%switch_first_spec.
  split_and!.
  - intros k Hk. by rewrite jfield_without, decide_True.
  - intros k [Hk1 Hk2]%not_elem_of_cons. by rewrite jfield_without, decide_False, jfield_jset, decide_False.
  - exists pre, nic, nic', post. split_and!; [done| |done|done].
    rewrite jfield_without, decide_False; [by rewrite jfield_jset|].
    apply (bool_decide_unpack _). by vm_compute.
Qed.

(** Switching a node to manual mode, in every environment: a server with a
    NIC in manual mode is not written; otherwise the one update sent puts the
    first NIC that has an IPv4 configuration in manual mode, without its IP, and
    leaves the other NICs and all other fields alone, less the read-only ones.
    The node is recorded exactly when the call succeeds. *)
Theorem ensureNodeManualMode_spec {W} (h : handler Eff W) c u w :
  let '(o, l) := observe server_view h (ensureNodeManualMode c u) w in
  manual_outcome c u o l.
Proof.
  apply observe_intro. unfold ensureNodeManualMode, get_token.
  assert (Hrefl := same_ips_refl c). cbv zeta.
  case_decide; [apply wp_ret; by eexists _, _|].
  wp_call t Ht. cbn in Ht. subst. destruct t as [t|err]; [|apply wp_ret; by eexists _, _].
  wp_call r Hr. cbn in Hr. subst.
  destruct r as [[server|err]|err]; [|apply wp_ret; by eexists _, _..].
  destruct (existsb is_manual _) eqn:Hman.
  { apply wp_ret. eexists _, _. split_and!; [done|done|cbn; set_solver|done|done]. }
  destruct (switch_first _) as [nics|] eqn:Hsw; [|apply wp_ret; by eexists _, _].
  apply manual_update_switch in Hsw.
  wp_call r Hr. cbn in Hr. subst. destruct r as [[st body]|err].
  - case_decide; apply wp_ret; eexists _, _; split_and!; try done. cbn; set_solver.
  - apply wp_ret. by eexists _, _.
Qed.

(** ** Witnesses *)

(** The cluster whose only node is [n1] on server [u1]. *)
Definition sim_one_node : handler Eff sim_cluster := fun X e w =>
  sim_lb X e {| sc_services := sc_services w; sc_nodes := [sim_node "n1" "cloudsigma://u1"];
                sc_ips := sc_ips w; sc_tags := sc_tags w |}.

#[global] Instance sim_one_node_identified : IdentifiedNodes sim_one_node.
Proof. intros w. cbn. repeat constructor. by vm_compute. Qed.

Definition wit_cluster : sim_cluster := sim_world [] ["31.0.0.1"; "31.0.0.2"] "cloudsigma://u1".

(** The controller after it came up, with the cluster and the logs of that. *)
Definition wit_started {W} (h : handler Eff W) (w : W) : LoadBalancerController * W :=
  match run h (Start sim_controller) w with
  | (Done c, w) => (c, w)
  | (Panicked _, w) => (sim_controller, w)
  end.

Definition wit_logged : LoadBalancerController * ((sim_cluster * list _) * list _) :=
  wit_started (logging publish_view (logging services_view sim_one_node)) ((wit_cluster, []), []).

Lemma lb_tables_tracked_witness :
  let c := wit_started (logging services_view sim_one_node) (wit_cluster, []) in
  serviceIPs c.1 !! "default/b" = Some "31.0.0.2" /\ tracked (fun _ => False) c.1.
Proof.
  intros c. split; [by vm_compute|].
  assert (H : tracked (taken_over c.2.2) c.1).
  { apply (lb_tables_tracked sim_one_node sim_controller wit_cluster c.1 c.2.1 c.2.2 c.1 c.2.1);
      [done|by vm_compute|constructor]. }
  destruct H as [H1 H2].
  assert (Hno : forall ip, taken_over c.2.2 ip -> False).
  { vm_compute. intros ip (svc & [->|[->|[]%elem_of_nil]%elem_of_cons]%elem_of_cons & _ & H);
      by apply elem_of_nil in H. }
  split; [intros k ip H; destruct (H1 k ip H); eauto|intros k k' ip H H'; destruct (H2 k k' ip H H'); eauto].
Defined.

Lemma sync_publishes_exclusively_witness :
  published_ok (taken_over wit_logged.2.1.2) wit_logged.1 wit_logged.2.2 /\
  wit_logged.2.2 = [("default/a", ["31.0.0.1"]); ("default/b", ["31.0.0.2"])].
Proof.
  split; [|by vm_compute].
  apply (sync_publishes_exclusively sim_one_node sim_controller wit_cluster wit_logged.1
    wit_logged.2.1.1 wit_logged.2.1.2 wit_logged.2.2); [done|by vm_compute].
Defined.
