(* ===== verification/LBTags.v ===== *)
(** * The tags of load-balancer IPs

    The load-balancer controller records which service of which cluster has an IP
    in the tags of the CloudSigma account, by direct HTTP requests
    ([tagIPInCloudSigma], [cleanStaleTags], [ensureTagWithIP],
    [untagIPInCloudSigma] and [getTaggedServiceIPs] of
    [ccm/controllers/loadbalancer_controller.go]).  Here these requests meet a tag
    store, and the operations are shown to refine an abstract one on the relation
    "tag [n] has resource [u]": [retagged].  Controllers of several clusters that
    share an account keep off each other's IPs through this relation. *)

From S2P Require Import Prelude Effects GoErrors ApiTypes World Tags LoadBalancer.

(** ** The tag service behind the HTTP requests *)

Definition list_url (region : string) : string :=
  "https://" +:+ region +:+ ".cloudsigma.com/api/2.0/" +:+ "tags/".

Definition tag_url (region uuid : string) : string :=
  "https://" +:+ region +:+ ".cloudsigma.com/api/2.0/" +:+ "tags/" +:+ uuid +:+ "/".

Definition accepted (x : result (Z * string)) : Prop :=
  match x with Ok (status, _) => (status < 400)%Z | Err _ => False end.

(** The documented behaviour of the tags of one region.  When requests may fail, a
    failed listing is an error or decodes to nothing, as the body of an error
    status does, and a failed change may or may not have been applied. *)
Definition http_tag_post (may_fail : bool) (region : string) {X} (e : HttpE X)
    : list Tag.t -> X -> list Tag.t -> Prop :=
  match e in HttpE Y return list Tag.t -> Y -> list Tag.t -> Prop with
  | GetTags url _ => fun g x g' => g' = g /\
      (url = list_url region ->
         x = Ok g \/ (may_fail = true /\ (x = Ok [] \/ exists err, x = Err err)))
  | PostTag url _ name res => fun g x g' => url = list_url region ->
      exists uuid, uuid <> "" /\ (uuid ∉ Tag.UUID <$> g) /\
      ((accepted x /\ g' = g ++ [Tag.mk uuid name res]) \/
       (may_fail = true /\ ~ accepted x /\ (g' = g \/ g' = g ++ [Tag.mk uuid name res])))
  | PutTag url _ name res => fun g x g' => forall uuid, url = tag_url region uuid ->
      (accepted x /\ g' = store_update uuid name res g) \/
      (may_fail = true /\ ~ accepted x /\ (g' = g \/ g' = store_update uuid name res g))
  | _ => fun g _ g' => g' = g
  end.

Definition httpTagI (may_fail : bool) (region : string) : iface Eff (list Tag.t) :=
  Iface (fun _ _ _ => True)
        (fun X e => match e with
                    | EHttp e => http_tag_post may_fail region e
                    | _ => fun g _ g' => g' = g
                    end).

Class HttpTagService (may_fail : bool) (region : string) {W} (h : handler Eff W)
    `{!TagStore h} : Prop :=
  http_tag_laws : implements h (fun w g => tag_store h w = g) (httpTagI may_fail region).

(** ** The abstract operation *)

(** Which tag has which resource. *)
Abbreviation membership := (string -> string -> Prop).

(** [ip] gets the tags [desired] and loses its other managed tags; nothing else
    changes. *)
Definition retagged (desired : list string) (ip : string) (A A' : membership) : Prop :=
  forall n u, A' n u <->
    (A n u /\ ~ (u = ip /\ isCCMManagedTag n = true /\ n ∉ desired)) \/
    (u = ip /\ n ∈ desired).

(** What holds even when requests fail: other resources keep their tags, [ip] gets
    no other tag than the desired ones and keeps those that are not managed. *)
Definition frame (desired : list string) (ip : string) (A A' : membership) : Prop :=
  (forall n u, u <> ip -> A' n u <-> A n u) /\
  (forall n, A' n ip -> A n ip \/ n ∈ desired) /\
  (forall n, A n ip -> isCCMManagedTag n = false \/ n ∈ desired -> A' n ip).

(** The stale tags of an IP. *)
Definition stale (desired : list string) (n : string) : bool :=
  isCCMManagedTag n && bool_decide (n ∉ desired).

Definition store_ok (g : list Tag.t) : Prop :=
  uuids_distinct g /\ ("" ∉ Tag.UUID <$> g).

Lemma extends_inv names ip g g' n u :
  extends names ip g g' -> tagged g' n u -> tagged g n u \/ (u = ip /\ n ∈ names).
Proof.
  intros (g1 & g2 & -> & H1 & H2) (t' & Ht' & <- & Hu).
  apply elem_of_app in Ht' as [Ht'|Ht'].
  - apply list_elem_of_lookup in Ht' as [i Hi].
    destruct (Forall2_lookup_r _ _ _ _ _ H1 Hi) as (t & Hi' & Hg).
    assert (Hin : t ∈ g) by (by eapply list_elem_of_lookup_2).
    destruct Hg as [->|(Hn & _ & ->)]; [left; by exists t|]. cbn in *.
    apply elem_of_app in Hu as [Hu|Hu%list_elem_of_singleton]; [left; by exists t|by right].
  - rewrite Forall_forall in H2. destruct (H2 _ Ht') as [Hn Hr]. rewrite Hr in Hu.
    apply list_elem_of_singleton in Hu as ->. by right.
Qed.

Lemma untag_tagged m ip g g' n u :
  Forall2 (fun t t' => t' = untag m ip t) g g' ->
  tagged g' n u <-> tagged g n u /\ ~ (u = ip /\ m n = true).
Proof.
  intros Hf. assert (Hone : forall t, u ∈ Tag.Resources (untag m ip t) <->
    u ∈ Tag.Resources t /\ ~ (u = ip /\ m (Tag.Name t) = true)).
  { intros t. unfold untag. destruct (m (Tag.Name t)) eqn:Hm; cbn; [|naive_solver].
    unfold without. rewrite list_elem_of_filter. naive_solver. }
  assert (Hname : forall t, Tag.Name (untag m ip t) = Tag.Name t)
    by (intros t; unfold untag; by case_match).
  split.
  - intros (t' & Ht' & <- & Hu). apply list_elem_of_lookup in Ht' as [i Hi].
    destruct (Forall2_lookup_r _ _ _ _ _ Hf Hi) as (t & Hi' & ->).
    apply Hone in Hu as [Hu Hn]. rewrite Hname. split; [|done]. exists t.
    split_and!; [by eapply list_elem_of_lookup_2|done..].
  - intros ((t & Ht & <- & Hu) & Hn). apply list_elem_of_lookup in Ht as [i Hi].
    destruct (Forall2_lookup_l _ _ _ _ _ Hf Hi) as (t' & Hi' & ->).
    exists (untag m ip t). split_and!; [by eapply list_elem_of_lookup_2|done|by apply Hone].
Qed.

Lemma maybe_untagged_members mf m ip g g' :
  Forall2 (maybe_untagged mf ip m) g g' ->
  (forall n u, tagged g' n u -> tagged g n u) /\
  (forall n u, tagged g n u -> ~ (u = ip /\ m n = true) -> tagged g' n u) /\
  (mf = false -> Forall2 (fun t t' => t' = untag m ip t) g g').
Proof.
  intros Hf.
  assert (Hone : forall t t', maybe_untagged mf ip m t t' -> Tag.Name t' = Tag.Name t /\
    forall u, (u ∈ Tag.Resources t' -> u ∈ Tag.Resources t) /\
              (u ∈ Tag.Resources t -> ~ (u = ip /\ m (Tag.Name t) = true) -> u ∈ Tag.Resources t')).
  { intros t t' [->|[_ ->]]; [|naive_solver]. unfold untag. destruct (m (Tag.Name t)) eqn:Hm;
      [|naive_solver]. split; [done|]. intros u. cbn. unfold without. rewrite !list_elem_of_filter.
    naive_solver. }
  split_and!.
  - intros n u (t' & Ht' & <- & Hu). apply list_elem_of_lookup in Ht' as [i Hi].
    destruct (Forall2_lookup_r _ _ _ _ _ Hf Hi) as (t & Hi' & Hm).
    destruct (Hone _ _ Hm) as [Hn Hr]. exists t.
    split_and!; [by eapply list_elem_of_lookup_2|done|by apply Hr].
  - intros n u (t & Ht & <- & Hu) Hn. apply list_elem_of_lookup in Ht as [i Hi].
    destruct (Forall2_lookup_l _ _ _ _ _ Hf Hi) as (t' & Hi' & Hm).
    destruct (Hone _ _ Hm) as [Hn' Hr]. exists t'.
    split_and!; [by eapply list_elem_of_lookup_2|done|by apply Hr].
  - intros ->. eapply Forall2_impl; [exact Hf|]. by intros t t' [->|[? _]].
Qed.

(** ** What the operations do to the store *)

Section operations.
Context (mf : bool) (c : LoadBalancerController).
Abbreviation lwp := (wp (httpTagI mf (Region c))).

Lemma store_ok_untagged m ip g g' :
  Forall2 (maybe_untagged mf ip m) g g' -> store_ok g -> store_ok g'.
Proof.
  intros Hf. unfold store_ok, uuids_distinct. by rewrite (maybe_untagged_UUID _ _ _ _ _ Hf).
Qed.

Lemma maybe_untagged_refl m ip g :
  mf = true \/ Forall (fun t => untag m ip t = t) g -> Forall2 (maybe_untagged mf ip m) g g.
Proof.
  intros H. apply Forall_Forall2_diag, Forall_forall. intros t Ht.
  destruct H as [->|H]; [by right|left]. rewrite Forall_forall in H. by rewrite H.
Qed.

Lemma wp_remove_from_tags tok ip desired g :
  store_ok g ->
  lwp (remove_from_tags c tok ip desired g)
      (ok (fun _ g' => Forall2 (maybe_untagged mf ip (stale desired)) g g')) g.
Proof.
  intros [Hd Hne]. unfold remove_from_tags.
  apply (wp_for_each _ (fun todo (_ : unit) g' =>
    exists l l', g = l ++ todo /\ g' = l' ++ todo /\
                 Forall2 (maybe_untagged mf ip (stale desired)) l l')).
  { by exists [], []. }
  2:{ intros [] g' (l & l' & -> & -> & Hf). by rewrite !app_nil_r. }
  intros t todo [] g1 _ (l & l' & -> & -> & Hf).
  assert (Hnext : forall t', maybe_untagged mf ip (stale desired) t t' ->
    exists k k', l ++ t :: todo = k ++ todo /\ l' ++ t' :: todo = k' ++ todo /\
                 Forall2 (maybe_untagged mf ip (stale desired)) k k').
  { intros t' Ht. exists (l ++ [t]), (l' ++ [t']). rewrite <- !app_assoc.
    split_and!; [done|done|]. apply Forall2_app; auto. }
  assert (Hkeep : stale desired (Tag.Name t) = false -> maybe_untagged mf ip (stale desired) t t)
    by (intros Hs; left; unfold untag; by rewrite Hs).
  destruct (isCCMManagedTag (Tag.Name t)) eqn:Hm; cbn [negb].
  2:{ apply wp_ret, Hnext, Hkeep. unfold stale. by rewrite Hm. }
  destruct (decide (Tag.Name t ∈ desired)) as [Hin|Hin].
  { apply wp_ret, Hnext, Hkeep. unfold stale. by rewrite Hm, bool_decide_false by auto. }
  destruct (decide (ip ∈ Tag.Resources t)) as [Hip|Hip];
    [|apply wp_ret, Hnext; left; by rewrite untag_id].
  assert (Hd' : uuids_distinct (l' ++ t :: todo)).
  { unfold uuids_distinct in *. rewrite fmap_app in *. by rewrite (maybe_untagged_UUID _ _ _ _ _ Hf). }
  wp_call y Hy. specialize (Hy (Tag.UUID t) eq_refl). rewrite store_update_mid in Hy by done.
  apply wp_ret.
  replace (Tag.mk (Tag.UUID t) (Tag.Name t) (filter (fun r => r <> ip) (Tag.Resources t)))
    with (untag (stale desired) ip t) in Hy.
  2:{ unfold untag, stale. by rewrite Hm, bool_decide_true. }
  destruct Hy as [[_ ->]|(Hmf & _ & [->| ->])]; apply Hnext; [by left|by right|by left].
Qed.

Lemma wp_cleanStaleTags tok ip desired g :
  store_ok g ->
  lwp (cleanStaleTags c tok ip desired)
      (ok (fun _ g' => Forall2 (maybe_untagged mf ip (stale desired)) g g')) g.
Proof.
  intros Hok. unfold cleanStaleTags. wp_call x Hx. destruct Hx as [-> Hx].
  specialize (Hx eq_refl).
  destruct Hx as [->|(Hmf & [->|[err ->]])].
  - eapply wp_seq; [by apply wp_remove_from_tags|]. intros [] g' Hg. by apply wp_ret.
  - apply wp_ret. apply maybe_untagged_refl. by left.
  - apply wp_ret. apply maybe_untagged_refl. by left.
Qed.

(** The store after tagging with [names]. *)
Definition grown_ok (names : list string) (ip : string) (g0 g : list Tag.t) : Prop :=
  store_ok g /\ extends names ip g0 g.

Lemma wp_ensureTagWithIP tok n ip g :
  store_ok g ->
  lwp (ensureTagWithIP c tok n ip)
      (ok (fun r g' => grown_ok [n] ip g g' /\ (mf = false -> tagged g' n ip))) g.
Proof.
  intros [Hd Hne]. unfold ensureTagWithIP.
  assert (Hrefl : grown_ok [n] ip g g) by (split; [done|reflexivity]).
  wp_call x Hx. destruct Hx as [-> Hx]. specialize (Hx eq_refl).
  (* adding the tag *)
  assert (Hcreate : lwp
    (let* r := http (PostTag (apiURL c "tags/") tok n [ip]) in
     match r with
     | Ok (status, body) =>
         if decide (status >= 400)%Z
         then Ret (Some (ErrNew ("failed to create tag: " +:+ body))) else Ret None
     | Err err => Ret (Some (ErrWrap "failed to create tag" err))
     end) (ok (fun r g' => grown_ok [n] ip g g' /\ (mf = false -> tagged g' n ip))) g).
  { wp_call y Hy. destruct (Hy eq_refl) as (u & Hu & Hfresh & Hpost).
    destruct (tag_inv_create ip n u g Hd Hfresh) as [Hd' Hext].
    assert (Hnew : grown_ok [n] ip g (g ++ [Tag.mk u n [ip]]) /\
                   tagged (g ++ [Tag.mk u n [ip]]) n ip).
    { split; [split; [split; [done|]|done]|].
      - rewrite fmap_app. set_solver.
      - eexists. split_and!; [apply elem_of_snoc|done|apply elem_of_one]. }
    assert (Hdone : grown_ok [n] ip g g' /\ (mf = false -> tagged g' n ip)).
    { destruct Hpost as [[_ ->]|(Hmf & _ & [->| ->])]; destruct Hnew; split; (done || congruence). }
    destruct y as [[status body]|err]; [case_decide|]; by apply wp_ret. }
  destruct Hx as [->|(Hmf & [->|[err ->]])];
    [|exact Hcreate|apply wp_ret; split; [done|congruence]].
  destruct (find _ g) as [t|] eqn:Hfind; [|exact Hcreate].
  apply find_app_split in Hfind as (l1 & l2 & -> & Hn%bool_decide_eq_true).
  rewrite decide_False.
  2:{ intros He. apply Hne. rewrite fmap_app, fmap_cons, He. set_solver. }
  case_decide as Hin.
  { apply wp_ret. split; [done|]. intros _. exists t. split_and!; [apply elem_of_mid|done..]. }
  wp_call y Hy. specialize (Hy (Tag.UUID t) eq_refl).
  destruct (tag_inv_update ip n l1 t l2 Hd Hn Hin) as [Hd' Hext]. rewrite Hn in Hd', Hext.
  rewrite store_update_mid in Hy, Hd', Hext by done.
  assert (Hnew : grown_ok [n] ip (l1 ++ t :: l2)
      (l1 ++ Tag.mk (Tag.UUID t) n (Tag.Resources t ++ [ip]) :: l2) /\
    tagged (l1 ++ Tag.mk (Tag.UUID t) n (Tag.Resources t ++ [ip]) :: l2) n ip).
  { split; [split; [split; [done|]|done]|].
    - rewrite fmap_app, fmap_cons in *. done.
    - eexists. split_and!; [apply elem_of_mid|done|apply elem_of_snoc]. }
  assert (Hdone : grown_ok [n] ip (l1 ++ t :: l2) g' /\ (mf = false -> tagged g' n ip)).
  { destruct Hy as [[_ ->]|(Hmf & _ & [->| ->])]; destruct Hnew; split; (done || congruence). }
  destruct y as [[status body]|err]; [case_decide|]; by apply wp_ret.
Qed.

Lemma extends_frame names ip g g' :
  extends names ip g g' -> frame names ip (tagged g) (tagged g').
Proof.
  intros Hext. split_and!.
  - intros n u Hu. split; [|by eapply extends_tagged].
    intros Ht. by destruct (extends_inv _ _ _ _ n u Hext Ht) as [|[? _]].
  - intros n Ht. destruct (extends_inv _ _ _ _ n ip Hext Ht) as [|[_ ?]]; auto.
  - intros n Ht _. by eapply extends_tagged.
Qed.

(** Cleaning the stale tags and adding the desired ones. *)
Lemma retag_steps desired ip g g1 g2 :
  Forall2 (maybe_untagged mf ip (stale desired)) g g1 -> extends desired ip g1 g2 ->
  frame desired ip (tagged g) (tagged g2) /\
  (mf = false -> (forall n, n ∈ desired -> tagged g2 n ip) ->
     retagged desired ip (tagged g) (tagged g2)).
Proof.
  intros Hf Hext. pose proof (maybe_untagged_members _ _ _ _ _ Hf) as (H1 & H2 & H3).
  pose proof (extends_frame _ _ _ _ Hext) as (F1 & F2 & F3).
  assert (Hst : forall n, stale desired n = true <-> isCCMManagedTag n = true /\ n ∉ desired).
  { intros n. unfold stale. by rewrite andb_true_iff, bool_decide_eq_true. }
  split; [split_and!|].
  - intros n u Hu. rewrite F1 by done. split; [apply H1|]. intros Ht. apply H2; [done|naive_solver].
  - intros n Ht. destruct (F2 n Ht) as [Ht1|]; [|by right]. left. by apply H1.
  - intros n Ht Hkeep. destruct (decide (n ∈ desired)) as [Hd|Hd].
    + destruct (decide (stale desired n = true)) as [Hs%Hst|Hs]; [naive_solver|].
      apply F3; [|by right]. apply H2; [done|naive_solver].
    + apply F3; [|by destruct Hkeep; [left|]]. apply H2; [done|]. rewrite Hst. naive_solver congruence.
  - intros Hmf Hall n u. specialize (H3 Hmf). pose proof (untag_tagged _ _ _ _ n u H3) as Hu.
    rewrite Hst in Hu. split.
    + intros Ht. destruct (extends_inv _ _ _ _ n u Hext Ht) as [Ht1|]; [left; naive_solver|by right].
    + intros [Ht|[-> Hn]]; [|by apply Hall]. eapply extends_tagged; [exact Hext|]. naive_solver.
Qed.

Lemma wp_ensure_all tok ip names g :
  store_ok g ->
  lwp (for_each names tt (fun tagName _ => ensureTagWithIP c tok tagName ip ;; Ret tt))
      (ok (fun _ g' => grown_ok names ip g g' /\
             (mf = false -> forall n, n ∈ names -> tagged g' n ip))) g.
Proof.
  intros Hok.
  apply (wp_for_each _ (fun todo (_ : unit) g' => grown_ok names ip g g' /\
    (mf = false -> forall n, n ∈ names -> n ∈ todo \/ tagged g' n ip))).
  - split; [split; [done|reflexivity]|]. auto.
  - intros n todo [] g1 [pre ->] [[Hok1 Hext] Htag].
    eapply wp_seq; [by apply wp_ensureTagWithIP|]. intros r g2 ([Hok2 Hext2] & Hr).
    apply wp_ret. split; [split; [done|]|].
    + etrans; [exact Hext|]. eapply extends_weaken, Hext2. set_solver.
    + intros Hmf m Hm. destruct (Htag Hmf m Hm) as [Hin|Ht].
      * apply elem_of_cons in Hin as [->|Hin]; auto.
      * right. by eapply extends_tagged.
  - intros [] g' [Hinv Htag]. split; [done|]. intros Hmf n Hn.
    destruct (Htag Hmf n Hn) as [H|H]; [by apply not_elem_of_nil in H|done].
Qed.

(** The outcome of retagging: no token and no change, or the new tags. *)
Definition retag_outcome (desired : list string) (ip : string) (g : list Tag.t)
    (r : option error) (g' : list Tag.t) : Prop :=
  store_ok g' /\ frame desired ip (tagged g) (tagged g') /\
  (is_Some r -> g' = g) /\
  (mf = false -> r = None -> retagged desired ip (tagged g) (tagged g')).

Lemma frame_refl desired ip A : frame desired ip A A.
Proof. split_and!; auto. Qed.

Lemma wp_tagIP ip svcKey g :
  store_ok g ->
  lwp (tagIPInCloudSigma c ip svcKey) (ok (retag_outcome (desired_tags c svcKey) ip g)) g.
Proof.
  intros Hok. unfold tagIPInCloudSigma, get_token. wp_call t Ht. cbn in Ht. subst g'.
  destruct t as [tok|err].
  2:{ apply wp_ret. split_and!; [done|apply frame_refl|done|done]. }
  eapply wp_seq; [by apply wp_cleanStaleTags|]. intros cleaned g1 Hclean. cbv beta in Hclean.
  assert (Hok1 : store_ok g1) by (by eapply store_ok_untagged).
  wp_call seed Hs. cbn in Hs. rewrite Hs. clear Hs.
  eapply wp_seq; [by apply wp_ensure_all|]. intros [] g2 [[Hok2 Hext] Hall]. apply wp_ret.
  assert (Hext' : extends (desired_tags c svcKey) ip g1 g2).
  { eapply extends_weaken, Hext. intros n. by rewrite elem_of_permute. }
  destruct (retag_steps _ _ _ _ _ Hclean Hext') as [Hframe Hre].
  split_and!; [done|done|by intros []|]. intros Hmf _. apply Hre; [done|].
  intros n Hn. apply (Hall Hmf). by rewrite elem_of_permute.
Qed.

Lemma wp_untagIP ip g :
  store_ok g -> lwp (untagIPInCloudSigma c ip) (ok (fun r g' =>
    store_ok g' /\ frame [] ip (tagged g) (tagged g') /\
    (mf = false -> r = None -> retagged [] ip (tagged g) (tagged g')))) g.
Proof.
  intros Hok. unfold untagIPInCloudSigma, get_token. wp_call t Ht. cbn in Ht. subst g'.
  destruct t as [tok|err].
  2:{ apply wp_ret. split_and!; [done|apply frame_refl|done]. }
  wp_call x Hx. destruct Hx as [-> Hx]. specialize (Hx eq_refl).
  destruct Hx as [->|(Hmf & [->|[err ->]])].
  - eapply wp_seq; [by apply wp_remove_from_tags|]. intros [] g' Hf. apply wp_ret.
    destruct (retag_steps [] ip g g' g' Hf) as [Hframe Hre]; [reflexivity|].
    split_and!; [by eapply store_ok_untagged|done|]. intros Hmf _. apply Hre; [done|].
    by intros n Hn%not_elem_of_nil.
  - apply wp_ret. split_and!; [done|apply frame_refl|congruence].
  - apply wp_ret. split_and!; [done|apply frame_refl|congruence].
Qed.
End operations.

(** ** The theorems *)

Lemma run_wp_http_tags {W} mf region (h : handler Eff W)
    `{!TagStore h, !HttpTagService mf region h} {A} (p : go A) (Q : A -> list Tag.t -> Prop) w :
  wp (httpTagI mf region) p (ok Q) (tag_store h w) ->
  exists a w', run h p w = (Done a, w') /\ Q a (tag_store h w').
Proof.
  intros Hp. destruct (wp_run _ _ _ _ _ w _ http_tag_laws eq_refl Hp) as (g' & HQ & HR).
  destruct (run h p w) as [[a|why] w']; simpl in *; [|done]. subst. eauto.
Qed.

(** C9. Tagging an IP for a service refines the abstract operation on the relation
    between tags and resources: when no request fails the IP ends up in exactly
    the tags of its cluster, of its service and of the controller, and in its
    tags that the controller does not manage, whatever it was tagged with before
    and in whatever order the tags are visited.  Requests that fail never touch
    the tags of another resource. *)
Theorem tagIPInCloudSigma_refines {W} mf (h : handler Eff W) c ip svcKey w
    `{!TagStore h, !HttpTagService mf (Region c) h} (Hok : store_ok (tag_store h w)) :
  exists r w', run h (tagIPInCloudSigma c ip svcKey) w = (Done r, w') /\
    retag_outcome mf (desired_tags c svcKey) ip (tag_store h w) r (tag_store h w').
Proof. exact (run_wp_http_tags mf (Region c) h _ _ w (wp_tagIP mf c ip svcKey _ Hok)). Qed.

Lemma service_tag_desired c svcKey :
  ("service:" +:+ ReplaceAll svcKey "/" "-") ∈ desired_tags c svcKey.
Proof. unfold desired_tags. set_solver. Qed.

(** An IP in a service tag is available only to a listing that showed nothing. *)
Lemma wp_isIPAvailable_tagged c n ip ip' g l :
  HasPrefix n "service:" = true -> tagged g n ip ->
  wp (with_log listing_view (httpTagI true (Region c))) (isIPAvailable c ip')
     (ok (fun r gl => gl.1 = g /\ (ip' = ip -> r = Ok true -> last gl.2 = Some []))) (g, l).
Proof.
  intros Hpre Htag. unfold isIPAvailable, getTaggedServiceIPs, get_token.
  eapply wp_seq with (P := fun r gl => gl.1 = g /\
    (forall m, r = Ok m -> is_Some (m !! ip) \/ last gl.2 = Some [])).
  - wp_call t Ht. destruct g' as [g' l']. cbn in Ht. destruct Ht as [-> ->].
    destruct t as [tok|err]; [|by apply wp_ret].
    wp_call x Hx. destruct g' as [g' l']. cbn in Hx. destruct Hx as [[-> Hx] ->]. specialize (Hx eq_refl).
    destruct x as [tags|err]; apply wp_ret; (split; [done|]); [|done]. intros m [= <-].
    destruct Hx as [[= ->]|[_ [[= ->]|[? ?]]]]; [left| |done].
    + apply tagged_service_ips_spec. destruct Htag as (t & Ht & <- & Hu). eauto.
    + right. cbn. by rewrite last_snoc.
  - intros [m|err] [g' l'] [Hg Hm]; apply wp_ret; (split; [done|]); [|done]. intros -> [= Hr].
    destruct (Hm m eq_refl) as [[v Hv]|?]; [|done]. by rewrite Hv in Hr.
Qed.

Lemma wp_allocateIP_tagged c svc n ip g :
  HasPrefix n "service:" = true -> tagged g n ip -> ip <> "" ->
  wp (with_log listing_view (httpTagI true (Region c))) (allocateIP c svc)
     (ok (fun r gl => r = ip -> last gl.2 = Some [])) (g, []).
Proof.
  intros Hpre Htag Hip. unfold allocateIP.
  eapply wp_seq with (P := fun r gl => r = inr ip -> last gl.2 = Some []).
  2:{ intros [[]|ip1] gl Hr; apply wp_ret; cbn; [by intros <-|]. intros ->. by apply Hr. }
  apply (wp_for_range _ (fun _ (_ : unit) gl => gl.1 = g)); [done| |by intros [] ? _].
  intros ip' todo [] [g' l'] _ Hg. cbn in Hg. subst g'. case_decide; [by apply wp_ret|].
  eapply wp_seq; [by apply (wp_isIPAvailable_tagged c n ip ip')|].
  intros [[]|err] [g' l''] [Hg Hlast]; apply wp_ret; cbn; [|exact Hg..].
  intros [= ->]. by apply Hlast.
Qed.

(** C20. Controllers of two clusters in one account and region: once the first has
    tagged an IP for a service without a failing request, and as long as that tag
    stays, the second does not allocate the IP, for any of its services, whatever
    its own tables say and whichever of its requests fail, unless the listing of
    the tags it decided on showed no tag at all (as the body of a refused request
    does, see [listing_error_frees_ips]). *)
Theorem tagged_ip_not_allocated {W} (h h' : handler Eff W) region c1 c2 ip svcKey svc w w1 w2
    `{!TagStore h, !HttpTagService false region h, !TagStore h', !HttpTagService true region h'}
    (Hr1 : Region c1 = region) (Hr2 : Region c2 = region) (Hip : ip <> "")
    (Hok : store_ok (tag_store h w))
    (Htag : run h (tagIPInCloudSigma c1 ip svcKey) w = (Done None, w1))
    (Hkept : forall n, HasPrefix n "service:" = true ->
       tagged (tag_store h w1) n ip -> tagged (tag_store h' w2) n ip) :
  let '(o, l) := observe listing_view h' (allocateIP c2 svc) w2 in
  exists r, o = Done r /\ (r = ip -> last l = Some []).
Proof.
  subst region.
  destruct (run_wp_http_tags false (Region c1) h _ _ w (wp_tagIP false c1 ip svcKey _ Hok))
    as (e & w1' & Hrun & _ & _ & _ & Hre).
  rewrite Htag in Hrun. simplify_eq. specialize (Hre eq_refl eq_refl).
  set (n := "service:" +:+ ReplaceAll svcKey "/" "-").
  assert (Hn : tagged (tag_store h' w2) n ip).
  { apply Hkept; [apply HasPrefix_app|]. apply Hre. right. split; [done|apply service_tag_desired]. }
  rewrite <- Hr2 in *.
  apply (wp_observe_with listing_view h' _ _ _ w2 _
    (fun o l => exists r, o = Done r /\ (r = ip -> last l = Some [])) http_tag_laws eq_refl).
  eapply wp_mono; [|by apply (wp_allocateIP_tagged c2 svc n ip); [apply HasPrefix_app|..]].
  intros [r|why] [g' l]; cbn; [eauto|done].
Qed.

(** ** A concrete tag service *)

Lemma append_inj_r a b t : a +:+ t = b +:+ t -> a = b.
Proof.
  revert b. induction a as [|x a IH]; intros [|y b] H; [done| | |].
  - apply (f_equal String.length) in H. rewrite !str_length_app in H. simpl in H. lia.
  - apply (f_equal String.length) in H. rewrite !str_length_app in H. simpl in H. lia.
  - rewrite !append_cons in H. injection H as -> H. by rewrite (IH _ H).
Qed.

Lemma tag_url_inj region u u' : tag_url region u = tag_url region u' -> u = u'.
Proof. unfold tag_url. intros H. simplify_eq. by eapply append_inj_r. Qed.

Definition sim_region : string := "zrh".

Definition sim_put (url name : string) (res : list string) (g : list Tag.t) : list Tag.t :=
  (fun t => if decide (tag_url sim_region (Tag.UUID t) = url)
            then Tag.mk (Tag.UUID t) name res else t) <$> g.

Definition sim_tag_http {X} (e : HttpE X) (g : list Tag.t) : X * list Tag.t :=
  match e in HttpE Y return Y * list Tag.t with
  | GetTags _ _ => (Ok g, g)
  | PostTag _ _ name res => (Ok (201%Z, ""), g ++ [Tag.mk (fresh_uuid g) name res])
  | PutTag url _ name res => (Ok (200%Z, ""), sim_put url name res g)
  | e => (deaf_http e, g)
  end.

Definition sim_http_tags : handler Eff (list Tag.t) := fun X e g =>
  match e with
  | EHttp he => sim_tag_http he g
  | EToken te => (match te in TokenE Y return Y with GetImpersonatedToken _ _ => Ok "tok" end, g)
  | e => (deaf e, g)
  end.

#[global] Instance sim_http_tags_store : TagStore sim_http_tags := fun g => g.

Lemma fresh_uuid_nonempty g : fresh_uuid g <> "".
Proof.
  unfold fresh_uuid. induction (Tag.UUID <$> g) as [|u l IH]; [done|]. intros H.
  apply (f_equal String.length) in H. simpl in H. rewrite str_length_app in H.
  destruct (foldr String.append "x" l); [done|]. simpl in H. lia.
Qed.

#[global] Instance sim_http_tags_ok mf : HttpTagService mf sim_region sim_http_tags.
Proof.
  intros X e w g HR _. unfold tag_store, sim_http_tags_store in *. subst w.
  destruct e as [c e|e|e|e|e|e|e|e]; simpl; [by eauto| |by eauto..].
  destruct e; simpl; eauto.
  - eexists. split; [|done]. intros _. exists (fresh_uuid g).
    split_and!; [apply fresh_uuid_nonempty|apply fresh_uuid_fresh|]. by left.
  - eexists. split; [|done]. intros uuid ->. left. split; [done|].
    unfold sim_put, store_update. apply list_fmap_ext. intros i t _.
    destruct (decide (Tag.UUID t = uuid)) as [->|Hne]; [by rewrite decide_True|].
    rewrite decide_False; [done|]. by intros ?%tag_url_inj.
Qed.

Definition lb_of (cluster : string) : LoadBalancerController :=
  {| UserEmail := "a@b.c"; Region := sim_region; ClusterName := cluster; Disabled := false;
     staticIPs := ["31.0.0.1"]; dynamicIPs := []; ipAssignments := ∅; serviceIPs := ∅;
     manualModeNodes := ∅ |}.

(** The IP was tagged for another service of the cluster. *)
Definition wit_tags : list Tag.t :=
  [Tag.mk "t1" "cluster:prod" ["31.0.0.1"; "srv"]; Tag.mk "t2" "service:ns-old" ["31.0.0.1"];
   Tag.mk "t3" "keep" ["31.0.0.1"]].

Lemma wit_tags_ok : store_ok wit_tags.
Proof.
  split; [unfold uuids_distinct|]; apply (bool_decide_unpack _); by vm_compute.
Qed.

(** The tags of the IP before and after it is tagged for a service. *)
Example retag_example :
  (fun t => (Tag.Name t, Tag.Resources t)) <$>
    (run sim_http_tags (tagIPInCloudSigma (lb_of "prod") "31.0.0.1" "ns/web") wit_tags).2
  = [("cluster:prod", ["31.0.0.1"; "srv"]); ("service:ns-old", []); ("keep", ["31.0.0.1"]);
     ("service:ns-web", ["31.0.0.1"]); ("managed-by:cloudsigma-ccm", ["31.0.0.1"])].
Proof. by vm_compute. Qed.

(** Looking at the tags and adding one are separate requests: two controllers that
    both look before either has tagged allocate the same IP. *)
Example allocation_race :
  let look cluster := run sim_http_tags
    (allocateIP (lb_of cluster) (sim_svc "web" [])) [] in
  (look "prod").1 = Done "31.0.0.1" /\ (look "test").1 = Done "31.0.0.1" /\
  (look "prod").2 = [].
Proof. by vm_compute. Qed.

(** The status of the listing is not looked at: the body of an error decodes to no
    tags, and an IP that is tagged for a service is available. *)
Definition sim_broken : handler Eff (list Tag.t) := fun X e g =>
  match e with
  | EHttp he => (match he in HttpE Y return Y with
                 | GetTags _ _ => Ok [] | he => deaf_http he end, g)
  | EToken te => (match te in TokenE Y return Y with GetImpersonatedToken _ _ => Ok "tok" end, g)
  | e => (deaf e, g)
  end.

Example listing_error_frees_ips :
  (run sim_broken (allocateIP (lb_of "prod") (sim_svc "web" [])) wit_tags).1 = Done "31.0.0.1".
Proof. by vm_compute. Qed.

(** ** Witnesses *)

Lemma tagIPInCloudSigma_refines_witness :
  exists r w', run sim_http_tags (tagIPInCloudSigma (lb_of "prod") "31.0.0.1" "ns/web") wit_tags
                 = (Done r, w') /\
    retag_outcome false (desired_tags (lb_of "prod") "ns/web") "31.0.0.1"
      (tag_store sim_http_tags wit_tags) r (tag_store sim_http_tags w').
Proof.
  apply (tagIPInCloudSigma_refines false sim_http_tags (lb_of "prod") "31.0.0.1" "ns/web" wit_tags
           wit_tags_ok).
Defined.

(** The second controller meets a service that fails. *)
#[global] Instance sim_broken_store : TagStore sim_broken := fun g => g.

#[global] Instance sim_broken_ok : HttpTagService true sim_region sim_broken.
Proof.
  intros X e w g HR _. unfold tag_store, sim_broken_store in *. subst w.
  destruct e as [c e|e|e|e|e|e|e|e]; simpl; [by eauto| |by eauto..].
  destruct e; simpl; eauto.
  - eexists. split; [|done]. split; [done|]. intros _. right. split; [done|by left].
  - eexists. split; [|done]. intros _. exists (fresh_uuid g).
    split_and!; [apply fresh_uuid_nonempty|apply fresh_uuid_fresh|]. right. split_and!; [done|tauto|by left].
  - eexists. split; [|done]. intros uuid ->. right. split_and!; [done|tauto|by left].
Qed.

Definition wit_tagged : list Tag.t :=
  (run sim_http_tags (tagIPInCloudSigma (lb_of "prod") "31.0.0.1" "ns/web") []).2.

Lemma tagged_ip_not_allocated_witness :
  let '(o, l) := observe listing_view sim_broken (allocateIP (lb_of "test") (sim_svc "web" [])) wit_tagged in
  (exists r, o = Done r /\ (r = "31.0.0.1" -> last l = Some [])) /\
  (run sim_http_tags (allocateIP (lb_of "test") (sim_svc "web" [])) wit_tagged).1 = Done "".
Proof.
  pose proof (tagged_ip_not_allocated sim_http_tags sim_broken sim_region (lb_of "prod") (lb_of "test")
    "31.0.0.1" "ns/web" (sim_svc "web" []) [] wit_tagged wit_tagged) as H.
  assert (Hout : (run sim_http_tags (allocateIP (lb_of "test") (sim_svc "web" [])) wit_tagged).1 = Done "")
    by (by vm_compute).
  destruct (observe _ _ _ _) as [o l]. split; [|exact Hout].
  apply H; try done. split; apply (bool_decide_unpack _); by vm_compute.
Defined.
