(* ===== verification/Servers.v ===== *)
(** * Servers, drives, IPs and VLANs

    The package [pkg/cloud]: the wrapper around the CloudSigma SDK that the
    machine and cluster controllers use.  Creating a server clones its drives,
    waits for each of them, and posts the server; deleting one deletes its drives.

    Waiting for a drive is a loop on a ticker.  Its fuel is the number of ticks
    that fit in the timeout, plus one; the theorem [WaitForDriveReady_terminates]
    shows that it never runs out. *)

From S2P Require Import Prelude Effects GoErrors ApiTypes World.

(** ** The client *)

Record Client := {
  sdk : SdkClient;
  region : string;
  username : string;
  password : string;
  apiEndpoint : string;
  impersonatedUser : string;
  useImpersonation : bool;
  accessToken : string
}.

Definition NewClient (username password region : string) : result Client :=
  if decide (username = "" \/ password = "") then
    Err (ErrNew "username and password are required")
  else
    let region := if decide (region = "") then "zrh" else region in
    Ok {| sdk := {| sdk_cred := UserPass username password; sdk_location := region |};
          region := region; username := username; password := password;
          apiEndpoint := "https://" +:+ region +:+ ".cloudsigma.com/api/2.0";
          impersonatedUser := ""; useImpersonation := false; accessToken := "" |}.

Definition impersonated_sdk (token region : string) : SdkClient :=
  {| sdk_cred := TokenCred token; sdk_location := "direct." +:+ region |}.

(** [impersonationClient] says whether the client given is not nil. *)
Definition NewClientWithImpersonation (impersonationClient : bool) (userEmail region : string)
    : go (result Client) :=
  if negb impersonationClient then Ret (Err (ErrNew "impersonationClient is required"))
  else if decide (userEmail = "") then
    Ret (Err (ErrNew "userEmail is required for impersonation"))
  else
    let region := if decide (region = "") then "zrh" else region in
    let* r := token (GetImpersonatedToken userEmail region) in
    match r with
    | Err err =>
        Ret (Err (ErrWrap ("failed to get impersonated token for user " +:+ userEmail) err))
    | Ok token =>
        Ret (Ok {| sdk := impersonated_sdk token region; region := region;
                   username := ""; password := "";
                   apiEndpoint := "https://direct." +:+ region +:+ ".cloudsigma.com/api/2.0";
                   impersonatedUser := userEmail; useImpersonation := true;
                   accessToken := token |})
    end.

Definition RefreshImpersonatedToken (c : Client) : go (option error * Client) :=
  if negb (useImpersonation c) then Ret (None, c)
  else
    let* r := token (GetImpersonatedToken (impersonatedUser c) (region c)) in
    match r with
    | Err err => Ret (Some (ErrWrap "failed to refresh impersonated token" err), c)
    | Ok token =>
        Ret (None, {| sdk := impersonated_sdk token (region c); region := region c;
                      username := username c; password := password c;
                      apiEndpoint := apiEndpoint c; impersonatedUser := impersonatedUser c;
                      useImpersonation := true; accessToken := token |})
    end.

Definition VerifyConnection (c : Client) : go (option error) :=
  let* r := cloud (sdk c) ProfileGet in
  match r with
  | SdkErr _ err => Ret (Some (ErrWrap "failed to verify CloudSigma connection" err))
  | SdkOk _ => Ret None
  end.

(** ** Drives *)

Definition drive_ready (d : Drive.t) : bool :=
  bool_decide (Drive.Status d = "mounted") || bool_decide (Drive.Status d = "unmounted").

(** One round of the loop per unit of fuel. *)
Fixpoint wait_drive (c : Client) (uuid : string) (deadline : Z) (fuel : nat)
    : go (result Drive.t) :=
  match fuel with
  | O => Panic "out of fuel"
  | S fuel' =>
      let* woken := golang TickOrDone in
      match woken with
      | Some err => Ret (Err err)
      | None =>
          let* now := golang Now in
          if decide (now > deadline)%Z then
            Ret (Err (ErrNew "timeout waiting for drive to be ready"))
          else
            let* r := cloud (sdk c) (DrivesGet uuid) in
            match r with
            | SdkErr resp err =>
                if decide (resp = Some 404%Z) then Ret (Err (ErrNew "drive not found"))
                else wait_drive c uuid deadline fuel'
            | SdkOk drive =>
                if drive_ready drive then Ret (Ok drive)
                else if decide (Drive.Status drive = "unavailable") then
                  Ret (Err (ErrNew "drive is unavailable"))
                else wait_drive c uuid deadline fuel'
            end
      end
  end.

Definition tick_period : Z := 5 * 1000000000.

Definition wait_fuel (timeout : Z) : nat := Z.to_nat (timeout / tick_period) + 1.

Definition WaitForDriveReady (c : Client) (uuid : string) (timeout : Z)
    : go (result Drive.t) :=
  let* now := golang Now in
  golang (NewTicker tick_period) ;;
  wait_drive c uuid (now + timeout)%Z (wait_fuel timeout).

Definition clone_timeout : Z := 5 * 60 * 1000000000.

Definition CloneDrive (c : Client) (sourceUUID name : string) (size : Z)
    : go (result Drive.t) :=
  let* r := cloud (sdk c) (DrivesClone sourceUUID name size) in
  match r with
  | SdkErr _ err => Ret (Err (ErrWrap "failed to clone drive" err))
  | SdkOk drive =>
      if decide (Drive.Status drive = "creating" \/ Drive.Status drive = "cloning") then
        let* w := WaitForDriveReady c (Drive.UUID drive) clone_timeout in
        match w with
        | Err err => Ret (Err (ErrWrap "drive did not become ready" err))
        | Ok drive => Ret (Ok drive)
        end
      else Ret (Ok drive)
  end.

Definition GetDrive (c : Client) (uuid : string) : go (result (option Drive.t)) :=
  let* r := cloud (sdk c) (DrivesGet uuid) in
  match r with
  | SdkErr resp err =>
      if decide (resp = Some 404%Z) then Ret (Ok None)
      else Ret (Err (ErrWrap "failed to get drive" err))
  | SdkOk drive => Ret (Ok (Some drive))
  end.

Definition DeleteDrive (c : Client) (uuid : string) : go (option error) :=
  let* r := cloud (sdk c) (DrivesDelete uuid) in
  match r with
  | SdkErr _ err => Ret (Some (ErrWrap "failed to delete drive" err))
  | SdkOk _ => Ret None
  end.

(** ** IPs and VLANs *)

Definition AllocatePublicIP (c : Client) : go (result IP.t) :=
  let* r := cloud (sdk c) IPsList in
  match r with
  | SdkErr _ err => Ret (Err (ErrWrap "failed to list IPs" err))
  | SdkOk ips =>
      match find (fun ip => bool_decide (IP.Server ip = None)) ips with
      | Some ip => Ret (Ok ip)
      | None => Ret (Err (ErrNew "no available public IPs in pool"))
      end
  end.

Definition GetIP (c : Client) (uuid : string) : go (result (option IP.t)) :=
  let* r := cloud (sdk c) (IPsGet uuid) in
  match r with
  | SdkErr _ err => Ret (Err (ErrWrap "failed to get IP" err))
  | SdkOk ip => Ret (Ok ip)
  end.

(** IPs are released by the service. *)
Definition DeleteIP (c : Client) (uuid : string) : go (option error) := Ret None.

Definition GetVLAN (c : Client) (uuid : string) : go (result (option VLAN.t)) :=
  let* r := cloud (sdk c) (VLANsGet uuid) in
  match r with
  | SdkErr resp err =>
      if decide (resp = Some 404%Z) then Ret (Ok None)
      else Ret (Err (ErrWrap "failed to get VLAN" err))
  | SdkOk vlan => Ret (Ok (Some vlan))
  end.

Definition ListVLANs (c : Client) : go (result (list VLAN.t)) :=
  let* r := cloud (sdk c) VLANsList in
  match r with
  | SdkErr _ err => Ret (Err (ErrWrap "failed to list VLANs" err))
  | SdkOk vlans => Ret (Ok vlans)
  end.

Definition CreateVLAN (c : Client) (name : string) : go (result VLAN.t) :=
  Ret (Err (ErrNew "VLAN creation not supported via SDK - please create VLAN through CloudSigma UI and specify UUID")).

Definition DeleteVLAN (c : Client) (uuid : string) : go (option error) := Ret None.

(** ** Requests that bypass the SDK *)

(** Bearer token when impersonating, basic authentication otherwise. *)
Definition http_auth (c : Client) : credentials :=
  if useImpersonation c && bool_decide (accessToken c <> "")
  then TokenCred (accessToken c) else UserPass (username c) (password c).

Definition endpoint_or_default (c : Client) : string :=
  if decide (apiEndpoint c = "") then "https://next.cloudsigma.com/api/2.0" else apiEndpoint c.

(** Marshalling these structures does not fail. *)
Definition createServerDirect (c : Client) (server : CustomServer) : go (result Server.t) :=
  let* r := http (PostServer (endpoint_or_default c +:+ "/servers/") (http_auth c) server) in
  match r with
  | NoRequest err => Ret (Err (ErrWrap "failed to create request" err))
  | NoResponse err => Ret (Err (ErrWrap "failed to execute request" err))
  | NoBody err => Ret (Err (ErrWrap "failed to read response" err))
  | Response (status, body, decoded) =>
      if decide (status >= 400)%Z then
        Ret (Err (ErrNew ("API error " +:+ itoa status +:+ ": " +:+ body)))
      else match decoded with
           | Err err => Ret (Err (ErrWrap "failed to unmarshal response" err))
           | Ok [] => Ret (Err (ErrNew "no server returned in response"))
           | Ok (s :: _) => Ret (Ok s)
           end
  end.

Definition UpdateServerNICs (c : Client) (serverUUID : string) (nics : list CustomServerNIC)
    : go (option error) :=
  let* r := http (PutServerNICs (endpoint_or_default c +:+ "/servers/" +:+ serverUUID +:+ "/")
                    (http_auth c) nics) in
  match r with
  | NoRequest err => Ret (Some (ErrWrap "failed to create request" err))
  | NoResponse err => Ret (Some (ErrWrap "failed to execute request" err))
  | NoBody err => Ret (Some (ErrWrap "failed to read response" err))
  | Response (status, body) =>
      if decide (status >= 400)%Z then
        Ret (Some (ErrNew ("API error " +:+ itoa status +:+ ": " +:+ body)))
      else Ret None
  end.

Definition AttachStaticIP (c : Client) (serverUUID ipUUID : string) : go (option error) :=
  UpdateServerNICs c serverUUID
    [{| csn_VLAN := ""; csn_IPv4Conf := Some {| cic_Conf := "static"; cic_IP := Some ipUUID |} |}].

Definition DetachStaticIP (c : Client) (serverUUID : string) : go (option error) :=
  UpdateServerNICs c serverUUID
    [{| csn_VLAN := ""; csn_IPv4Conf := Some {| cic_Conf := "dhcp"; cic_IP := None |} |}].

Definition GetServerNICs (c : Client) (serverUUID : string) : go (result (list ServerNIC.t)) :=
  let* r := cloud (sdk c) (ServersGet serverUUID) in
  match r with
  | SdkErr _ err => Ret (Err (ErrWrap "failed to get server" err))
  | SdkOk server => Ret (Ok (Server.NICs server))
  end.

(** ** Creating servers *)

Record ServerSpec := {
  spec_Name : string;
  spec_CPU : Z;
  spec_Memory : Z;
  spec_Disks : list CloudSigmaDisk;
  spec_NICs : list CloudSigmaNIC;
  spec_Tags : list string;
  spec_Meta : gmap string string;
  BootstrapData : string
}.

Definition dhcp_nic : CustomServerNIC :=
  {| csn_VLAN := ""; csn_IPv4Conf := Some {| cic_Conf := "dhcp"; cic_IP := None |} |}.

Definition custom_nic (nic : CloudSigmaNIC) : CustomServerNIC :=
  if decide (nic_VLAN nic <> "") then
    {| csn_VLAN := nic_VLAN nic;
       csn_IPv4Conf :=
         if decide (ipconf_Conf (nic_IPv4Conf nic) <> "") then
           Some {| cic_Conf := ipconf_Conf (nic_IPv4Conf nic);
                   cic_IP := match ipconf_IP (nic_IPv4Conf nic) with
                             | Some u => if decide (u <> "") then Some u else None
                             | None => None
                             end |}
         else None |}
  else dhcp_nic.

Definition custom_nics (nics : list CloudSigmaNIC) : list CustomServerNIC :=
  match nics with [] => [dhcp_nic] | _ => custom_nic <$> nics end.

Definition custom_drive (disk : CloudSigmaDisk) (driveUUID : string) : CustomServerDrive :=
  {| csd_BootOrder := disk_BootOrder disk;
     csd_DevChannel := "0:" +:+ itoa (disk_BootOrder disk);
     csd_Device := disk_Device disk; csd_Drive := driveUUID |}.

(** The entries of the spec overwrite those of the bootstrap data. *)
Definition server_meta (spec : ServerSpec) : gmap string string :=
  let meta : gmap string string :=
    if decide (BootstrapData spec <> "") then
      <["cloudinit-user-data" := BootstrapData spec]>
        {["base64_fields" := "cloudinit-user-data"]}
    else ∅ in
  spec_Meta spec ∪ meta.

(** Megabytes to bytes, in an [int]. *)
Definition memory_bytes (mb : Z) : Z := wrap64 (wrap64 (mb * 1024) * 1024).

Definition custom_server (spec : ServerSpec) (clonedDrives : list string) : CustomServer :=
  {| cs_Name := spec_Name spec; cs_CPU := spec_CPU spec;
     cs_Memory := memory_bytes (spec_Memory spec); cs_VNCPassword := "kubernetes";
     cs_Drives := zip_with custom_drive (spec_Disks spec) clonedDrives;
     cs_NICs := custom_nics (spec_NICs spec); cs_Meta := server_meta spec |}.

Definition delete_all (c : Client) (uuids : list string) : go unit :=
  for_each uuids tt (fun uuid _ => DeleteDrive c uuid ;; Ret tt).

(** Clone the disks in order; on a failure delete those cloned so far. *)
Definition clone_all (c : Client) (spec : ServerSpec) : go (list string + error) :=
  for_range (zip (seq 0 (length (spec_Disks spec))) (spec_Disks spec)) []
    (fun '(i, disk) clonedDrives =>
       let driveName := spec_Name spec +:+ "-drive-" +:+ itoa (Z.of_nat i) in
       let* r := CloneDrive c (disk_UUID disk) driveName (disk_Size disk) in
       match r with
       | Err err =>
           delete_all c clonedDrives ;;
           Ret (Return (ErrWrap ("failed to clone drive " +:+ disk_UUID disk) err))
       | Ok clonedDrive => Ret (Next (clonedDrives ++ [Drive.UUID clonedDrive]))
       end).

Definition CreateServer (c : Client) (spec : ServerSpec) : go (result Server.t) :=
  let* r := clone_all c spec in
  match r with
  | inr err => Ret (Err err)
  | inl clonedDrives =>
      let* r := createServerDirect c (custom_server spec clonedDrives) in
      match r with
      | Err err =>
          delete_all c clonedDrives ;;
          Ret (Err (ErrWrap "failed to create server" err))
      | Ok createdServer => Ret (Ok createdServer)
      end
  end.

(** ** Reading servers *)

(** [None] when the server does not exist. *)
Definition GetServer (c : Client) (uuid : string) : go (result (option Server.t)) :=
  let* r := cloud (sdk c) (ServersGet uuid) in
  match r with
  | SdkOk server => Ret (Ok (Some server))
  | SdkErr resp err =>
      let errStr := Error err in
      let denied := NewPermissionDeniedError "server" uuid 403 (impersonatedUser c) err in
      if decide (resp = Some 404%Z) then Ret (Ok None)
      else if decide (resp = Some 403%Z) then Ret (Err denied)
      else if Contains errStr "404" || Contains errStr "not found" then Ret (Ok None)
      else if Contains errStr "403" || Contains errStr "permission" then Ret (Err denied)
      else Ret (Err (ErrWrap "failed to get server" err))
  end.

(** Only logs what it finds. *)
Definition GetServerAddresses (server : option Server.t) : list Address := [].

Definition MachineInternalIP : string := "InternalIP".

Definition static_ip_uuid (nic : ServerNIC.t) : list string :=
  match ServerNIC.IP4Configuration nic with
  | Some conf => match IPv4Conf.IPAddress conf with
                 | Some u => if decide (u <> "") then [u] else []
                 | None => []
                 end
  | None => []
  end.

(** The IPs of the running server, or else those of its configuration. *)
Definition server_ip_uuids (server : Server.t) : gset string :=
  let runtime : gset string :=
    list_to_set (filter (fun u => u <> "") (Server.RuntimeNICs server)) in
  if decide (runtime = ∅) then list_to_set (mjoin (static_ip_uuid <$> Server.NICs server))
  else runtime.

(** An IP that is nil without an error is dereferenced. *)
Definition GetServerAddressesWithClient (c : Client) (server : option Server.t)
    : go (result (list Address)) :=
  match server with
  | None => Ret (Ok [])
  | Some server =>
      let* seed := golang MapSeed in
      let* addresses :=
        for_each (permute seed (elements (server_ip_uuids server))) []
          (fun uuid addresses =>
             let* r := GetIP c uuid in
             match r with
             | Err _ => Ret addresses
             | Ok None => Panic "nil pointer dereference: ip"
             | Ok (Some ip) =>
                 if decide (IP.UUID ip <> "") then
                   Ret (addresses ++ [{| addr_Type := MachineInternalIP;
                                         addr_Address := IP.UUID ip |}])
                 else Ret addresses
             end) in
      Ret (Ok addresses)
  end.

Definition StartServer (c : Client) (uuid : string) : go (option error) :=
  let* r := cloud (sdk c) (ServersStart uuid) in
  match r with
  | SdkErr _ err => Ret (Some (ErrWrap "failed to start server" err))
  | SdkOk _ => Ret None
  end.

Definition StopServer (c : Client) (uuid : string) : go (option error) :=
  let* r := cloud (sdk c) (ServersStop uuid) in
  match r with
  | SdkErr _ err => Ret (Some (ErrWrap "failed to stop server" err))
  | SdkOk _ => Ret None
  end.

(** ** Deleting servers *)

Definition drive_uuids (server : Server.t) : list string :=
  omap (fun sd => Drive.UUID <$> ServerDrive.Drive sd) (Server.Drives server).

Definition public_ip_uuids (server : Server.t) : list string :=
  omap (fun nic => match ServerNIC.VLAN nic, ServerNIC.IP4Configuration nic with
                   | None, Some conf => IPv4Conf.IPAddress conf
                   | _, _ => None
                   end) (Server.NICs server).

Definition DeleteServer (c : Client) (uuid : string) : go (option error) :=
  let* r := GetServer c uuid in
  match r with
  | Err err => Ret (Some err)
  | Ok None => Ret None
  | Ok (Some server) =>
      let driveUUIDs := drive_uuids server in
      let ipUUIDs := public_ip_uuids server in
      let* stopped :=
        (if decide (Server.Status server = "running") then StopServer c uuid else Ret None) in
      match stopped with
      | Some err => Ret (Some (ErrWrap "failed to stop server before deletion" err))
      | None =>
          let* r := cloud (sdk c) (ServersDelete uuid) in
          match r with
          | SdkErr _ err => Ret (Some (ErrWrap "failed to delete server" err))
          | SdkOk _ =>
              delete_all c driveUUIDs ;;
              for_each ipUUIDs tt (fun ipUUID _ => DeleteIP c ipUUID ;; Ret tt) ;;
              Ret None
          end
      end
  end.

(** ** Finding servers *)

Definition ListServers (c : Client) : go (result (list Server.t)) :=
  let* r := cloud (sdk c) ServersList in
  match r with
  | SdkErr _ err => Ret (Err (ErrWrap "failed to list servers" err))
  | SdkOk servers => Ret (Ok servers)
  end.

Definition has_uid (machineUID : string) (s : Server.t) : bool :=
  bool_decide (Server.Meta s !! "machine-uid" = Some machineUID).

Definition find_server (name machineUID : string) (servers : list Server.t)
    : option Server.t :=
  let by_name := find (fun s => bool_decide (Server.Name s = name)) servers in
  if decide (machineUID <> "") then
    match find (has_uid machineUID) servers with Some s => Some s | None => by_name end
  else by_name.

Definition FindServerByNameOrMeta (c : Client) (name machineUID : string)
    : go (result (option Server.t)) :=
  let* r := cloud (sdk c) ServersList in
  match r with
  | SdkErr _ err => Ret (Err (ErrWrap "failed to list servers" err))
  | SdkOk servers => Ret (Ok (find_server name machineUID servers))
  end.

Definition FindServerByName (c : Client) (name : string) : go (result (option Server.t)) :=
  FindServerByNameOrMeta c name "".

(** ** The clock and the drive service

    What waiting relies on: the clock does not go back, the n-th tick of a ticker
    comes at least n periods after it was made, and [Drives.Get] answers the drive
    asked for.  The ghost state is the latest time read, the time of the latest
    tick and the period. *)

Record clock := { ck_latest : Z; ck_tick : Z; ck_period : Z }.

Definition clock_post {X} (e : Eff X) : clock -> X -> clock -> Prop :=
  match e in Eff _ return clock -> X -> clock -> Prop with
  | EGo ge =>
      match ge in GoE Y return clock -> Y -> clock -> Prop with
      | Now => fun c now c' => (ck_latest c <= now)%Z /\ (ck_tick c <= now)%Z /\
          c' = {| ck_latest := now; ck_tick := ck_tick c; ck_period := ck_period c |}
      | NewTicker p => fun c _ c' =>
          c' = {| ck_latest := ck_latest c; ck_tick := ck_latest c; ck_period := p |}
      | TickOrDone => fun c woken c' =>
          match woken with
          | None => c' = {| ck_latest := ck_latest c;
                            ck_tick := (ck_tick c + ck_period c)%Z;
                            ck_period := ck_period c |}
          | Some _ => c' = c
          end
      | _ => fun c _ c' => c' = c
      end
  | ECloud _ ce =>
      match ce in CloudE Y return clock -> Y -> clock -> Prop with
      | DrivesGet uuid => fun c x c' => c' = c /\
          match x with SdkOk d => Drive.UUID d = uuid | SdkErr _ _ => True end
      | _ => fun c _ c' => c' = c
      end
  | _ => fun c _ c' => c' = c
  end.

Definition clockI : iface Eff clock := Iface (fun _ _ _ => True) (fun _ e => clock_post e).

Class ClockState {W} (h : handler Eff W) := clock_state : W -> clock -> Prop.
#[global] Arguments clock_state {W} h {_} w c.

Class ClockedCloud {W} (h : handler Eff W) `{!ClockState h} : Prop := {
  clock_laws : implements h (clock_state h) clockI;
  clock_exists w : exists c, clock_state h w c
}.

(** What creating and deleting a server does: a clone may have to be waited for,
    until the drive is seen mounted or unmounted. *)
Inductive server_event :=
| Cloned (uuid : string) (pending : bool)
| SeenReady (uuid : string)
| Posted (server : CustomServer)
| ServerRead (server : Server.t)
| ServerDeleted (uuid : string) (ok : bool)
| DriveDeleted (uuid : string).

Definition server_view : view Eff server_event := fun X e =>
  match e in Eff _ return X -> list server_event with
  | ECloud _ ce =>
      match ce in CloudE Y return Y -> list server_event with
      | DrivesClone _ _ _ => fun x =>
          match x with
          | SdkOk d => [Cloned (Drive.UUID d)
              (bool_decide (Drive.Status d = "creating" \/ Drive.Status d = "cloning"))]
          | SdkErr _ _ => []
          end
      | DrivesGet _ => fun x =>
          match x with
          | SdkOk d => if drive_ready d then [SeenReady (Drive.UUID d)] else []
          | SdkErr _ _ => []
          end
      | DrivesDelete uuid => fun _ => [DriveDeleted uuid]
      | ServersGet _ => fun x => match x with SdkOk s => [ServerRead s] | SdkErr _ _ => [] end
      | ServersDelete uuid => fun x =>
          [ServerDeleted uuid (match x with SdkOk _ => true | SdkErr _ _ => false end)]
      | _ => fun _ => []
      end
  | EHttp he =>
      match he in HttpE Y return Y -> list server_event with
      | PostServer _ _ s => fun _ => [Posted s]
      | _ => fun _ => []
      end
  | _ => fun _ => []
  end.

Abbreviation serversI := (with_log server_view clockI).

(** A drive that is returned is the one asked for, and was seen ready just now; an
    error leaves it unseen. *)
Definition waited (uuid : string) (r : result Drive.t) (l l' : list server_event) : Prop :=
  match r with
  | Ok d => l' = l ++ [SeenReady uuid] /\ Drive.UUID d = uuid /\ drive_ready d = true
  | Err _ => l' = l
  end.

(** With fuel for the ticks up to the deadline the loop does not run out. *)
Lemma wp_wait_drive c uuid deadline fuel ck l :
  fuel <> O -> ck_period ck = tick_period ->
  (deadline < ck_tick ck + tick_period * Z.of_nat fuel)%Z ->
  wp serversI (wait_drive c uuid deadline fuel)
     (ok (fun r gl => waited uuid r l gl.2)) (ck, l).
Proof.
  assert (Hp : tick_period = 5000000000%Z) by done.
  revert ck. induction fuel as [|fuel IH]; intros ck Hne Hper Hfuel; [done|].
  cbn [wait_drive].
  wp_call woken Hw. destruct Hw as [Hw Hl]. cbn in Hw, Hl. rewrite app_nil_r in Hl.
  destruct woken as [err|]; [by apply wp_ret|].
  wp_call now Hn. destruct Hn as [Hn Hl']. cbn in Hn, Hl'. rewrite app_nil_r in Hl'.
  destruct Hn as (_ & Htick & Hck).
  case_decide as Hdl; [apply wp_ret; cbn; congruence|].
  wp_call x Hx. destruct Hx as [[Hx Hu] Hl'']. cbn in Hl''.
  assert (Hrec : g'1.2 = l -> wp serversI (wait_drive c uuid deadline fuel)
     (ok (fun r gl => waited uuid r l gl.2)) g'1).
  { intros Hl1. clear Hl''. destruct g'1 as [ck1 l1]. cbn in *. subst l1.
    rewrite Hx, Hck, Hw in *. cbn in *. apply IH; cbn; lia. }
  destruct x as [d|resp err].
  - destruct (drive_ready d) eqn:Hr.
    + apply wp_ret. cbn. split_and!; [congruence|done|done].
    + rewrite app_nil_r in Hl''. case_decide; [apply wp_ret; cbn; congruence|].
      apply Hrec. congruence.
  - rewrite app_nil_r in Hl''. case_decide; [apply wp_ret; cbn; congruence|].
    apply Hrec. congruence.
Qed.

Lemma wait_fuel_enough now timeout :
  (now + timeout < now + tick_period * Z.of_nat (wait_fuel timeout))%Z.
Proof.
  unfold wait_fuel.
  pose proof (Z.div_mod timeout tick_period ltac:(done)) as Hd.
  pose proof (Z.mod_pos_bound timeout tick_period ltac:(done)) as Hb.
  assert (tick_period = 5000000000%Z) as E by done. rewrite E in *. lia.
Qed.

Lemma wp_WaitForDriveReady c uuid timeout ck l :
  wp serversI (WaitForDriveReady c uuid timeout)
     (ok (fun r gl => waited uuid r l gl.2)) (ck, l).
Proof.
  unfold WaitForDriveReady. wp_call now Hn. destruct Hn as [(_ & _ & Hn) Hl].
  cbn in Hl. rewrite app_nil_r in Hl.
  wp_call u Hu. destruct Hu as [Hu Hl']. cbn in Hu, Hl'. rewrite app_nil_r in Hl'.
  destruct g'0 as [ck0 l0]. cbn in *. rewrite Hl in Hl'. subst l0. rewrite Hn in Hu. subst ck0.
  apply wp_wait_drive; [unfold wait_fuel; lia|done|apply wait_fuel_enough].
Qed.

(** A clone that became ready, at once or after waiting for it. *)
Definition ready_clone (d : string * bool) : list server_event :=
  if d.2 then [Cloned d.1 true; SeenReady d.1] else [Cloned d.1 false].

(** A drive behind an error: none, or one that had to be waited for and was not
    seen ready. *)
Definition left_over (l : list server_event) : Prop := l = [] \/ exists u, l = [Cloned u true].

Lemma wp_CloneDrive c src name size ck l :
  wp serversI (CloneDrive c src name size)
     (ok (fun r gl => match r with
        | Ok d => exists pending, gl.2 = l ++ ready_clone (Drive.UUID d, pending)
        | Err _ => exists extra, left_over extra /\ gl.2 = l ++ extra
        end)) (ck, l).
Proof.
  unfold CloneDrive. wp_call x Hx. destruct Hx as [_ Hl]. destruct g' as [ck' l']. cbn in Hl.
  subst l'. destruct x as [d|resp err]; [|apply wp_ret; exists []; by split; [left|]].
  case_decide as Hst.
  2:{ apply wp_ret. exists false. cbn. by rewrite bool_decide_false. }
  rewrite bool_decide_true by done.
  eapply wp_seq; [apply wp_WaitForDriveReady|]. intros [d'|err] [ck1 l1] Hd; cbn in Hd; apply wp_ret; cbn.
  - destruct Hd as (-> & -> & _). exists true. by rewrite <- app_assoc.
  - subst l1. eexists. split; [right; by eexists|done].
Qed.

Section delete.
Context {G : Type} (I : iface Eff G) (Hany : forall X (e : Eff X) g, i_pre I e g).

Lemma wp_delete_all c uuids g l :
  wp (with_log server_view I) (delete_all c uuids)
     (ok (fun _ gl => gl.2 = l ++ (DriveDeleted <$> uuids))) (g, l).
Proof using Hany.
  unfold delete_all.
  apply (wp_for_each _ (fun todo (_ : unit) gl =>
    exists pre, uuids = pre ++ todo /\ gl.2 = l ++ (DriveDeleted <$> pre))).
  - exists []. by rewrite app_nil_r.
  - intros u todo [] [ck1 l1] _ (pre & -> & Hl). cbn in Hl.
    eapply (wp_seq _ _ _ (fun _ gl => gl.2 = l1 ++ [DriveDeleted u])).
    { apply wp_call; [apply Hany|]. intros x gl [_ Hl']. destruct x; by apply wp_ret. }
    intros _ [ck2 l2] Hl2. cbn in Hl2. apply wp_ret. exists (pre ++ [u]). cbn.
    rewrite Hl2, Hl, fmap_app, <- !app_assoc. done.
  - intros [] gl (pre & -> & Hl). by rewrite app_nil_r.
Qed.

(** Reading a server records it when there is one. *)
Lemma wp_GetServer c uuid g l :
  wp (with_log server_view I) (GetServer c uuid)
     (ok (fun r gl => gl.2 = match r with Ok (Some s) => l ++ [ServerRead s] | _ => l end))
     (g, l).
Proof using Hany.
  apply wp_call; [apply Hany|]. intros x [g1 l1] [_ Hl]. cbn in Hl.
  destruct x as [s|resp err]; [by apply wp_ret|]. rewrite app_nil_r in Hl. cbv zeta.
  repeat (case_decide; [by apply wp_ret|]).
  destruct (_ || _); [by apply wp_ret|]. destruct (_ || _); by apply wp_ret.
Qed.

(** What deleting a server does: nothing but the server deletion that failed,
    or the server deletion followed by that of every drive it had. *)
Definition deleted_result (uuid : string) (r : option error) (l : list server_event)
    : Prop :=
  l = [] \/ exists s,
    (l = [ServerRead s] /\ r <> None) \/
    (l = [ServerRead s; ServerDeleted uuid false] /\ r <> None) \/
    (l = ServerRead s :: ServerDeleted uuid true :: (DriveDeleted <$> drive_uuids s) /\
     r = None).

Lemma wp_DeleteServer c uuid g :
  wp (with_log server_view I) (DeleteServer c uuid)
     (ok (fun r gl => deleted_result uuid r gl.2)) (g, []).
Proof using Hany.
  unfold DeleteServer. eapply wp_seq; [apply wp_GetServer|].
  intros [[s|]|err] [g1 l1] Hl; cbn in Hl; subst l1; [|apply wp_ret; by left..]. cbv zeta.
  eapply (wp_seq _ _ _ (fun _ gl => gl.2 = [ServerRead s])).
  { case_decide; [|by apply wp_ret].
    apply wp_call; [apply Hany|]. intros x [g2 l2] [_ Hl]. destruct x; by apply wp_ret. }
  intros [err|] [g2 l2] Hl; cbn in Hl; subst l2.
  { apply wp_ret. right. exists s. by left. }
  apply wp_call; [apply Hany|]. intros x [g3 l3] [_ Hl]. cbn in Hl. subst l3.
  destruct x as [[]|resp err]; [|apply wp_ret; right; exists s; by right; left].
  eapply wp_seq; [apply wp_delete_all|]. intros _ [g4 l4] Hl. cbn in Hl. subst l4.
  apply (wp_seq _ _ _ (fun _ gl => gl.2 = ServerRead s :: ServerDeleted uuid true
                          :: (DriveDeleted <$> drive_uuids s))).
  - apply (wp_for_each _ (fun _ (_ : unit) gl => gl.2 = ServerRead s ::
      ServerDeleted uuid true :: (DriveDeleted <$> drive_uuids s))); [done| |done].
    intros ip todo [] gl _ H. by apply wp_bind, wp_ret, wp_ret.
  - intros _ gl H. apply wp_ret. right. exists s. right. by right.
Qed.
End delete.

(** The course of cloning: [cs] are the clones that became ready, in order. *)
Definition cloned_result (spec : ServerSpec) (r : list string + error)
    (l : list server_event) : Prop :=
  exists cs : list (string * bool),
  match r with
  | inl uuids => uuids = cs.*1 /\ length cs = length (spec_Disks spec) /\ l = cs ≫= ready_clone
  | inr _ => exists extra, left_over extra /\
      l = (cs ≫= ready_clone) ++ extra ++ (DriveDeleted <$> cs.*1)
  end.

Lemma wp_clone_all c spec ck :
  wp serversI (clone_all c spec) (ok (fun r gl => cloned_result spec r gl.2)) (ck, []).
Proof.
  unfold clone_all. set (disks := zip (seq 0 (length (spec_Disks spec))) (spec_Disks spec)).
  assert (Hlen : length disks = length (spec_Disks spec)).
  { unfold disks. rewrite length_zip_with, length_seq. lia. }
  apply (wp_for_range _ (fun todo uuids gl => exists cs : list (string * bool),
    uuids = cs.*1 /\ (length cs + length todo = length disks)%nat /\ gl.2 = cs ≫= ready_clone)).
  - by exists [].
  - intros [i disk] todo uuids [ck1 l1] _ (cs & -> & Hn & Hl). cbn in Hl. subst l1. cbv zeta.
    eapply wp_seq; [apply wp_CloneDrive|]. intros [d|err] [ck2 l2] H; cbn in H.
    + destruct H as [pending ->]. apply wp_ret. exists (cs ++ [(Drive.UUID d, pending)]).
      cbn [length ok] in *. rewrite fmap_app, length_app, bind_app. cbn [mbind list_bind].
      rewrite app_nil_r. split_and!; [done|cbn; lia|done].
    + destruct H as (extra & Hex & ->).
      eapply wp_seq; [by apply wp_delete_all|]. intros _ [ck3 l3] Hl. cbn in Hl. subst l3.
      apply wp_ret. exists cs, extra. cbn. by rewrite <- app_assoc.
  - intros uuids gl (cs & -> & Hn & Hl). cbn in *. exists cs. split_and!; [done|lia|done].
Qed.

(** The course of creating a server. *)
Definition created_result (spec : ServerSpec) (r : result Server.t)
    (l : list server_event) : Prop :=
  exists cs : list (string * bool),
  match r with
  | Ok _ => length cs = length (spec_Disks spec) /\
      l = (cs ≫= ready_clone) ++ [Posted (custom_server spec cs.*1)]
  | Err _ => exists extra,
      (left_over extra \/ extra = [Posted (custom_server spec cs.*1)]) /\
      l = (cs ≫= ready_clone) ++ extra ++ (DriveDeleted <$> cs.*1)
  end.

Lemma wp_CreateServer c spec ck :
  wp serversI (CreateServer c spec) (ok (fun r gl => created_result spec r gl.2)) (ck, []).
Proof.
  unfold CreateServer. eapply wp_seq; [apply wp_clone_all|].
  intros [uuids|err] [ck1 l1] [cs H]; cbn in H.
  2:{ destruct H as (extra & Hex & ->). apply wp_ret. exists cs, extra. auto. }
  destruct H as (-> & Hlen & ->).
  eapply (wp_seq _ _ _ (fun _ gl => gl.2 = (cs ≫= ready_clone) ++ [Posted (custom_server spec cs.*1)])).
  { unfold createServerDirect. wp_call x Hx. destruct Hx as [_ Hl]. cbn in Hl.
    destruct x as [| | |[[st body] dec]]; [by apply wp_ret..|].
    case_decide; [by apply wp_ret|]. destruct dec as [[|s ss]|]; by apply wp_ret. }
  intros [s|err] [ck2 l2] Hl; cbn in Hl; subst l2.
  { apply wp_ret. by exists cs. }
  eapply wp_seq; [by apply wp_delete_all|]. intros _ [ck3 l3] Hl. cbn in Hl. subst l3.
  apply wp_ret. exists cs, [Posted (custom_server spec cs.*1)]. rewrite <- app_assoc. auto.
Qed.

(** ** Properties *)

(** C28. Waiting for a drive ends, for every timeout: the loop makes at most
    timeout / 5 s + 1 rounds before the deadline stops it, and a drive it returns
    is the one asked for, mounted or unmounted. *)
Theorem WaitForDriveReady_terminates {W} (h : handler Eff W) `{!ClockState h, !ClockedCloud h}
    c uuid timeout w :
  exists r w', run h (WaitForDriveReady c uuid timeout) w = (Done r, w') /\
    forall d, r = Ok d -> Drive.UUID d = uuid /\ drive_ready d = true.
Proof.
  destruct (clock_exists w) as [ck Hck].
  apply (wp_run_with server_view h _ _ _ w ck _ clock_laws Hck).
  eapply wp_mono; [|apply wp_WaitForDriveReady]. intros [r|] gl; simpl; [|done].
  intros H d ->. apply H.
Qed.


Lemma topI_sound {W} (h : handler Eff W) : implements h (fun _ _ => True) topI.
Proof. intros X e w g _ _. by exists tt. Qed.

(** C27. Deleting a server, in every environment: drives are deleted only after
    the deletion of the server succeeded, and then all the drives that were
    attached to it, in order, whoever attached them; no error is reported then,
    and one is when the server was found and is not deleted. *)
Theorem DeleteServer_order {W} (h : handler Eff W) c uuid w :
  let '(o, l) := observe server_view h (DeleteServer c uuid) w in
  exists r, o = Done r /\ deleted_result uuid r l.
Proof.
  apply (wp_observe_with server_view h _ topI _ w tt
    (fun o l => exists r, o = Done r /\ deleted_result uuid r l) (topI_sound h) Logic.I).
  eapply wp_mono; [|by apply wp_DeleteServer]. intros [r|] gl; simpl; [eauto|done].
Qed.

(** Finding a server: the machine UID decides when some server carries it,
    the name only when none does; nothing is found exactly when neither
    matches. *)
Theorem find_server_spec name uid servers :
  match find_server name uid servers with
  | Some s => s ∈ servers /\
      ((uid <> "" /\ Server.Meta s !! "machine-uid" = Some uid) \/
       (Server.Name s = name /\
        (uid <> "" -> forall s', s' ∈ servers -> Server.Meta s' !! "machine-uid" <> Some uid)))
  | None => forall s, s ∈ servers ->
      Server.Name s <> name /\ (uid <> "" -> Server.Meta s !! "machine-uid" <> Some uid)
  end.
Proof.
  assert (Hname : match find (fun s => bool_decide (Server.Name s = name)) servers with
    | Some s => s ∈ servers /\ Server.Name s = name
    | None => forall s, s ∈ servers -> Server.Name s <> name end).
  { destruct (find _ _) eqn:Hf.
    - apply find_some in Hf as [Hin Hb%bool_decide_eq_true]. by rewrite list_elem_of_In.
    - intros s Hin Hs. apply list_elem_of_In in Hin.
      apply (find_none _ _ Hf) in Hin. by apply bool_decide_eq_false in Hin. }
  unfold find_server. destruct (decide (uid <> "")) as [Hu|Hu].
  2:{ destruct (find _ _); [destruct Hname; split; [done|]; right; by split|].
      intros s Hin. split; [by apply Hname|done]. }
  destruct (find (has_uid uid) servers) as [s|] eqn:Hf.
  { apply find_some in Hf as [Hin Hb%bool_decide_eq_true]. rewrite list_elem_of_In. auto. }
  assert (Hno : forall s', s' ∈ servers -> Server.Meta s' !! "machine-uid" <> Some uid).
  { intros s' Hin. apply list_elem_of_In, (find_none _ _ Hf), bool_decide_eq_false in Hin. done. }
  destruct (find _ _); [destruct Hname; split; [done|]; right; by split|].
  intros s Hin. split; [by apply Hname|by intros _; apply Hno].
Qed.

(** ** Impersonating clients *)

(** The client talks to the direct endpoint of its region with the user's token. *)
Definition direct_client (c : Client) : Prop :=
  useImpersonation c = true /\ sdk c = impersonated_sdk (accessToken c) (region c) /\
  apiEndpoint c = "https://direct." +:+ region c +:+ ".cloudsigma.com/api/2.0".

Inductive client_step {W} (h : handler Eff W) : Client * W -> Client * W -> Prop :=
| client_refresh c w err c' w' :
    run h (RefreshImpersonatedToken c) w = (Done (err, c'), w') ->
    client_step h (c, w) (c', w')
| client_environment c w w' : client_step h (c, w) (c, w').

Lemma refresh_direct c :
  direct_client c ->
  wp topI (RefreshImpersonatedToken c)
     (ok (fun r _ => direct_client r.2 /\ region r.2 = region c /\
                     impersonatedUser r.2 = impersonatedUser c)) tt.
Proof.
  intros Hc. pose proof Hc as (Hi & Hs & Ha).
  unfold RefreshImpersonatedToken. rewrite Hi. cbn [negb]. wp_call r Hr.
  destruct r as [t|err]; apply wp_ret; [|done]. by split_and!.
Qed.

Lemma client_step_direct {W} (h : handler Eff W) s s' :
  client_step h s s' -> direct_client s.1 ->
  direct_client s'.1 /\ region s'.1 = region s.1 /\
  impersonatedUser s'.1 = impersonatedUser s.1.
Proof.
  intros [c w err c' w' Hrun|c w w'] Hc; [|done]. cbn in *.
  pose proof (wp_top h _ w _ (refresh_direct c Hc)) as H. by rewrite Hrun in H.
Qed.

(** A client made for impersonation, however often its token is refreshed and
    whatever the token service answers, sends every request to the direct
    endpoint of its region: the SDK and the requests that bypass it alike, both
    with the current token of the same user. *)
Theorem impersonation_direct {W} (h : handler Eff W) user rgn w c w1 c' w2
    (Hnew : run h (NewClientWithImpersonation true user rgn) w = (Done (Ok c), w1))
    (Hsteps : rtc (client_step h) (c, w1) (c', w2)) :
  direct_client c' /\ impersonatedUser c' = user /\
  region c' = (if decide (rgn = "") then "zrh" else rgn) /\
  (accessToken c' <> "" -> http_auth c' = sdk_cred (sdk c')).
Proof.
  assert (H : direct_client c /\ impersonatedUser c = user /\
              region c = if decide (rgn = "") then "zrh" else rgn).
  { assert (Hwp : wp topI (NewClientWithImpersonation true user rgn) (ok (fun r _ =>
      forall c, r = Ok c -> direct_client c /\ impersonatedUser c = user /\
                region c = if decide (rgn = "") then "zrh" else rgn)) tt).
    { unfold NewClientWithImpersonation. cbn [negb]. case_decide; [by apply wp_ret|].
      cbv zeta. wp_call r Hr. destruct r as [t|err]; apply wp_ret; [|done].
      by intros ? [= <-]. }
    pose proof (wp_top h _ w _ Hwp) as H. rewrite Hnew in H. by apply H. }
  assert (Hend : direct_client (c', w2).1 /\ impersonatedUser (c', w2).1 = user /\
                 region (c', w2).1 = if decide (rgn = "") then "zrh" else rgn).
  { clear Hnew. change c with (c, w1).1 in H.
    induction Hsteps as [s|s s1 s2 Hstep _ IH]; [done|]. apply IH.
    destruct H as (Hc & Hu & Hr).
    destruct (client_step_direct h _ _ Hstep Hc) as (? & -> & ->). auto. }
  destruct Hend as (Hc & Hu & Hr). split_and!; [done..|].
  intros Ht. destruct Hc as (Hi & Hs & _). cbn in *. unfold http_auth.
  by rewrite Hi, Hs, bool_decide_true.
Qed.

(** ** A concrete cloud *)

(** Cloned drives are in the state [status] when looked up. *)
Definition sim_servers_cloud (status : string) {X} (e : CloudE X) : X :=
  match e in CloudE Y return Y with
  | DrivesClone src name size => SdkOk (Drive.mk ("clone of " +:+ src) name size "cloning" "disk" "dssd" [])
  | DrivesGet uuid => SdkOk (Drive.mk uuid "" 0 status "disk" "dssd" [])
  | DrivesDelete _ => SdkOk tt
  | ServersGet uuid => SdkOk (Server.mk uuid "w" "stopped"
      [ServerDrive.mk 1 "0:1" "virtio" (Some (Drive.mk "d1" "" 0 "mounted" "disk" "" []))] [] ∅ [])
  | ServersDelete _ => SdkOk tt
  | e => deaf_cloud e
  end.

Definition sim_servers (status : string) : handler Eff clock := fun X e ck =>
  match e in Eff _ return X * clock with
  | ECloud _ ce => (sim_servers_cloud status ce, ck)
  | EHttp he =>
      (match he in HttpE Y return Y with
       | PostServer _ _ s =>
           Response (201%Z, "", Ok [Server.mk "s1" (cs_Name s) "stopped" [] [] (cs_Meta s) []])
       | he => deaf_http he
       end, ck)
  | EGo ge =>
      match ge in GoE Y return Y * clock with
      | Now => let now := Z.max (ck_latest ck) (ck_tick ck) in
               (now, {| ck_latest := now; ck_tick := ck_tick ck; ck_period := ck_period ck |})
      | NewTicker p => (tt, {| ck_latest := ck_latest ck; ck_tick := ck_latest ck;
                               ck_period := p |})
      | TickOrDone => (None, {| ck_latest := ck_latest ck;
                                ck_tick := (ck_tick ck + ck_period ck)%Z;
                                ck_period := ck_period ck |})
      | ge => (idle_golang ge, ck)
      end
  | EToken te => (match te in TokenE Y return Y with GetImpersonatedToken u r => Ok (u +:+ "@" +:+ r) end, ck)
  | e => (deaf e, ck)
  end.

#[global] Instance sim_servers_clock status : ClockState (sim_servers status) :=
  fun w c => w = c.

#[global] Instance sim_servers_ok status : ClockedCloud (sim_servers status).
Proof.
  split; [|by eexists]. intros X e w c HR _. unfold clock_state, sim_servers_clock in *. subst w.
  destruct e as [cl ce|he|ke|oe|te|ge|pe|se]; simpl; eauto.
  - destruct ce; simpl; eauto.
  - destruct ge; simpl; eauto. eexists. split; [|done]. split_and!; [lia|lia|done].
Qed.

Definition wit_client : Client :=
  {| sdk := impersonated_sdk "tok" "zrh"; region := "zrh"; username := ""; password := "";
     apiEndpoint := "https://direct.zrh.cloudsigma.com/api/2.0"; impersonatedUser := "a@b.c";
     useImpersonation := true; accessToken := "tok" |}.

Definition wit_spec : ServerSpec :=
  {| spec_Name := "worker"; spec_CPU := 2000; spec_Memory := 4096;
     spec_Disks := [{| disk_UUID := "image"; disk_Device := "virtio"; disk_BootOrder := 1;
                       disk_Size := 10737418240 |}];
     spec_NICs := []; spec_Tags := []; spec_Meta := ∅; BootstrapData := "" |}.

Definition clock0 : clock := {| ck_latest := 0; ck_tick := 0; ck_period := 0 |}.

(** A drive that never becomes ready is cloned and not deleted. *)
Example CreateServer_leaves_drive :
  (observe server_view (sim_servers "cloning") (CreateServer wit_client wit_spec) clock0).2
  = [Cloned "clone of image" true].
Proof. by vm_compute. Qed.

(** A cloud whose server look-ups fail with an internal error; the text of the
    SDK's errors contains the URL. *)
Definition sim_error : handler Eff unit := fun X e w =>
  (match e in Eff _ return X with
   | ECloud _ ce =>
       match ce in CloudE Y return Y with
       | ServersGet u =>
           SdkErr (Some 500%Z)
             (ErrNew ("GET https://direct.zrh.cloudsigma.com/api/2.0/servers/" +:+ u
                      +:+ "/: 500 internal error"))
       | ce => deaf_cloud ce
       end
   | e => deaf e
   end, w).

(** An internal error on a server whose UUID contains 404 counts as "not found". *)
Example GetServer_misreads_404 :
  (run sim_error (GetServer wit_client "a404-0000") tt).1 = Done (Ok None).
Proof. by vm_compute. Qed.

Lemma impersonation_direct_witness :
  direct_client {| sdk := impersonated_sdk "a@b.c@zrh" "zrh"; region := "zrh"; username := "";
    password := ""; apiEndpoint := "https://direct.zrh.cloudsigma.com/api/2.0";
    impersonatedUser := "a@b.c"; useImpersonation := true; accessToken := "a@b.c@zrh" |}.
Proof.
  eapply (impersonation_direct (sim_servers "unmounted") "a@b.c" "" clock0 _ clock0 _ clock0);
    [by vm_compute|].
  apply rtc_once, client_refresh with (err := None). by vm_compute.
Defined.

Lemma WaitForDriveReady_terminates_witness :
  exists r w', run (sim_servers "cloning") (WaitForDriveReady wit_client "d" clone_timeout) clock0
                 = (Done r, w') /\
    forall d, r = Ok d -> Drive.UUID d = "d" /\ drive_ready d = true.
Proof. apply (WaitForDriveReady_terminates (sim_servers "cloning")). Defined.

