(* ===== verification/Base64.v ===== *)
(** * Base64

    [base64.StdEncoding] of Go's standard library, which the machine controller
    uses on the bootstrap data: the encoder, and a decoder to say what the
    encoding preserves. *)

From S2P Require Import Prelude.

Open Scope nat_scope.

Definition alphabet : string :=
  "ABCDEFGHIJKLMNOPQRSTUVWXYZabcdefghijklmnopqrstuvwxyz0123456789+/".

(** The character of a 6-bit value, and the value of a character. *)
Definition digit (n : nat) : ascii :=
  match String.get n alphabet with Some c => c | None => "="%char end.

Definition value (c : ascii) : option nat :=
  let n := nat_of_ascii c in
  if decide (65 <= n <= 90) then Some (n - 65)
  else if decide (97 <= n <= 122) then Some (n - 71)
  else if decide (48 <= n <= 57) then Some (n + 4)
  else if decide (n = 43) then Some 62
  else if decide (n = 47) then Some 63
  else None.

(** Three bytes are four digits; one or two bytes at the end are padded. *)
Fixpoint EncodeToString (s : string) : string :=
  match s with
  | EmptyString => EmptyString
  | String a EmptyString =>
      let a := nat_of_ascii a in
      String (digit (a / 4)) (String (digit (a mod 4 * 16)) "==")
  | String a (String b EmptyString) =>
      let a := nat_of_ascii a in
      let b := nat_of_ascii b in
      String (digit (a / 4)) (String (digit (a mod 4 * 16 + b / 16))
        (String (digit (b mod 16 * 4)) "="))
  | String a (String b (String c s')) =>
      let a := nat_of_ascii a in
      let b := nat_of_ascii b in
      let c := nat_of_ascii c in
      String (digit (a / 4)) (String (digit (a mod 4 * 16 + b / 16))
        (String (digit (b mod 16 * 4 + c / 64)) (String (digit (c mod 64)) (EncodeToString s'))))
  end.

(** The first, second and third byte of four digits. *)
Definition byte1 (v w : nat) : ascii := ascii_of_nat (v * 4 + w / 16).
Definition byte2 (w x : nat) : ascii := ascii_of_nat (w mod 16 * 16 + x / 4).
Definition byte3 (x y : nat) : ascii := ascii_of_nat (x mod 4 * 64 + y).

Fixpoint DecodeString (s : string) : option string :=
  match s with
  | EmptyString => Some EmptyString
  | String p (String q (String r (String t s'))) =>
      match value p, value q with
      | Some v, Some w =>
          match value r, value t with
          | Some x, Some y =>
              (fun d => String (byte1 v w) (String (byte2 w x) (String (byte3 x y) d)))
                <$> DecodeString s'
          | Some x, None =>
              if decide (t = "="%char /\ s' = "") then
                Some (String (byte1 v w) (String (byte2 w x) ""))
              else None
          | _, _ =>
              if decide (r = "="%char /\ t = "="%char /\ s' = "") then
                Some (String (byte1 v w) "")
              else None
          end
      | _, _ => None
      end
  | _ => None
  end.

Lemma value_digit n : n < 64 -> value (digit n) = Some n.
Proof.
  intros Hn.
  assert (H : forallb (fun n => bool_decide (value (digit n) = Some n)) (seq 0 64) = true)
    by by vm_compute.
  rewrite forallb_forall in H. specialize (H n). rewrite bool_decide_eq_true in H.
  apply H, in_seq. lia.
Qed.

Lemma ascii_intro (a : ascii) n : n = nat_of_ascii a -> ascii_of_nat n = a.
Proof. intros ->. apply ascii_nat_embedding. Qed.

(** Digits of the first, second and third byte. *)
Section digits.
Context (a b c : ascii).
Abbreviation na := (nat_of_ascii a).
Abbreviation nb := (nat_of_ascii b).
Abbreviation nc := (nat_of_ascii c).

Lemma value1 : value (digit (na / 4)) = Some (na / 4).
Proof.
  apply value_digit. pose proof (nat_ascii_bounded a).
  apply Nat.Div0.div_lt_upper_bound. lia.
Qed.

Lemma value2 n : n < 16 -> value (digit (na mod 4 * 16 + n)) = Some (na mod 4 * 16 + n).
Proof. intros Hn. apply value_digit. pose proof (Nat.mod_upper_bound na 4). lia. Qed.

Lemma value3 n : n < 4 -> value (digit (nb mod 16 * 4 + n)) = Some (nb mod 16 * 4 + n).
Proof. intros Hn. apply value_digit. pose proof (Nat.mod_upper_bound nb 16). lia. Qed.

Lemma value4 : value (digit (nc mod 64)) = Some (nc mod 64).
Proof. apply value_digit. pose proof (Nat.mod_upper_bound nc 64). lia. Qed.

Lemma byte1_spec n : n < 16 -> byte1 (na / 4) (na mod 4 * 16 + n) = a.
Proof.
  intros Hn. apply ascii_intro. rewrite Nat.div_add_l, (Nat.div_small n) by lia.
  pose proof (Nat.div_mod_eq na 4). lia.
Qed.

Lemma byte2_spec m n : n < 4 -> byte2 (m * 16 + nb / 16) (nb mod 16 * 4 + n) = b.
Proof.
  intros Hn. apply ascii_intro.
  rewrite Nat.div_add_l, (Nat.div_small n), (Nat.add_comm (m * 16)), Nat.Div0.mod_add by lia.
  rewrite (Nat.mod_small (nb / 16)).
  - pose proof (Nat.div_mod_eq nb 16). lia.
  - pose proof (nat_ascii_bounded b). apply Nat.Div0.div_lt_upper_bound. lia.
Qed.

Lemma byte3_spec m : byte3 (m * 4 + nc / 64) (nc mod 64) = c.
Proof.
  apply ascii_intro. rewrite (Nat.add_comm (m * 4)), Nat.Div0.mod_add.
  rewrite (Nat.mod_small (nc / 64)).
  - pose proof (Nat.div_mod_eq nc 64). lia.
  - pose proof (nat_ascii_bounded c). apply Nat.Div0.div_lt_upper_bound. lia.
Qed.

Lemma quotient16 : nb / 16 < 16.
Proof. pose proof (nat_ascii_bounded b). apply Nat.Div0.div_lt_upper_bound. lia. Qed.

Lemma quotient64 : nc / 64 < 4.
Proof. pose proof (nat_ascii_bounded c). apply Nat.Div0.div_lt_upper_bound. lia. Qed.
End digits.

Lemma value_pad : value "="%char = None.
Proof. done. Qed.

#[global] Arguments value : simpl never.
#[global] Arguments digit : simpl never.

(** Decoding gives back what was encoded. *)
Lemma decode_encode (s : string) : DecodeString (EncodeToString s) = Some s.
Proof.
  induction s as [s IH] using (induction_ltof1 _ String.length). unfold ltof in IH.
  destruct s as [|a [|b [|c s]]]; [done|..].
  - cbn -[Nat.div Nat.modulo]. rewrite <- (Nat.add_0_r (_ mod 4 * 16)).
    rewrite value1, value2, value_pad, decide_True, byte1_spec by (done || lia). done.
  - cbn -[Nat.div Nat.modulo]. rewrite <- (Nat.add_0_r (_ mod 16 * 4)).
    pose proof (quotient16 b).
    rewrite value1, value2, value3, value_pad, decide_True, byte1_spec, byte2_spec
      by (done || lia). done.
  - pose proof (quotient16 b). pose proof (quotient64 c).
    cbn -[Nat.div Nat.modulo]. rewrite value1, value2, value3, value4 by done.
    rewrite IH by (cbn; lia). cbn -[Nat.div Nat.modulo].
    by rewrite byte1_spec, byte2_spec, byte3_spec.
Qed.
