(* ===== verification/MachineController.v ===== *)
(** * The machine controller

    [controllers/cloudsigmamachine_controller.go]: a [CloudSigmaMachine] becomes
    a server of the user's account.  The object in memory is threaded through the
    functions: a successful update replaces it by the stored object, so that a
    status changed in memory and not yet written is lost there. *)

From S2P Require Import Prelude Effects GoErrors ApiTypes World Tags Servers Base64.
From S2P Require Import LoadBalancer.

Definition CloudSigmaMachineFinalizer : string :=
  "cloudsigmamachine.infrastructure.cluster.x-k8s.io".

Definition ServerReadyCondition : string := "ServerReady".
Definition ServerCreateFailedReason : string := "ServerCreateFailed".
Definition ServerNotRunningReason : string := "ServerNotRunning".

(** [ImpersonationClient] says whether the pointer is not nil. *)
Record CloudSigmaMachineReconciler := {
  LegacyCredentialsEnabled : bool;
  CloudSigmaUsername : string;
  CloudSigmaPassword : string;
  CloudSigmaRegion : string;
  ImpersonationClient : bool
}.

(** ** Results of a reconciliation *)

Definition second : Z := 1000000000.

(** [ctrl.Result]: the delay until the next reconciliation, 0 for none. *)
Record Result := { RequeueAfter : Z }.

Definition answer : Type := Result * option error.

Definition requeue (seconds : Z) : answer := ({| RequeueAfter := seconds * second |}, None).
Definition finished : answer := ({| RequeueAfter := 0 |}, None).
Definition failure (err : error) : answer := ({| RequeueAfter := 0 |}, Some err).

(** Either the function returns, or it goes on with the server found so far. *)
Inductive stage :=
| Stop (r : answer) (m : CSMachine.t)
| Proceed (server : option Server.t) (m : CSMachine.t).

(** ** The object in memory *)

Definition Update (m : CSMachine.t) : go (option error * CSMachine.t) :=
  let* r := capi (CSMachineUpdate m) in
  match r with Ok m' => Ret (None, m') | Err err => Ret (Some err, m) end.

Definition StatusUpdate (m : CSMachine.t) : go (option error * CSMachine.t) :=
  let* r := capi (CSMachineStatusUpdate m) in
  match r with Ok m' => Ret (None, m') | Err err => Ret (Some err, m) end.

Definition label (m : CSMachine.t) (key : string) : string :=
  default "" (CSMachine.Labels m !! key).

Definition cluster_label : string := "cluster.x-k8s.io/cluster-name".
Definition pool_label : string := "cluster.x-k8s.io/deployment-name".

Definition provider_id (uuid : string) : string := "cloudsigma://" +:+ uuid.

(** ** The cloud client *)

Definition getUserEmail (c : CSCluster.t) : go string :=
  if decide (CSCluster.UserEmail c <> "") then Ret (CSCluster.UserEmail c)
  else match CSCluster.UserRef c with
       | None => Ret ""
       | Some ref =>
           let ns := if decide (ref_Namespace ref = "") then CSCluster.Namespace c
                     else ref_Namespace ref in
           let* r := capi (SecretData ns (ref_Name ref)) in
           match r with
           | Ok data => Ret (default "" (data !! "userEmail"))
           | Err _ => Ret ""
           end
       end.

Definition getCloudClient (r : CloudSigmaMachineReconciler) (cluster : option CSCluster.t)
    : go (result Client) :=
  let region := match cluster with Some c => CSCluster.Region c | None => "" end in
  let region := if decide (region = "") then CloudSigmaRegion r else region in
  let* userEmail := match cluster with Some c => getUserEmail c | None => Ret "" end in
  if ImpersonationClient r && bool_decide (userEmail <> "") then
    NewClientWithImpersonation (ImpersonationClient r) userEmail region
  else if LegacyCredentialsEnabled r && bool_decide (CloudSigmaUsername r <> "")
          && bool_decide (CloudSigmaPassword r <> "") then
    Ret (NewClient (CloudSigmaUsername r) (CloudSigmaPassword r) region)
  else if ImpersonationClient r && bool_decide (userEmail = "") then
    Ret (Err (ErrNew "impersonation configured but userEmail not set in CloudSigmaCluster spec - ensure CloudSigmaCluster has spec.userEmail set"))
  else
    Ret (Err (ErrNew "no CloudSigma authentication available: impersonation requires userEmail in CloudSigmaCluster, legacy credentials not enabled")).

(** ** Creating the server *)

Definition getBootstrapData (machine : Machine.t) : go (result string) :=
  match Machine.DataSecretName machine with
  | None => Ret (Err (ErrNew "bootstrap data secret is not set"))
  | Some name =>
      let* r := capi (SecretData (Machine.Namespace machine) name) in
      match r with
      | Err err => Ret (Err (ErrWrap "failed to get bootstrap data secret" err))
      | Ok data =>
          match data !! "value" with
          | None => Ret (Err (ErrNew "bootstrap data secret does not contain 'value' key"))
          | Some value => Ret (Ok (EncodeToString value))
          end
      end
  end.

Definition machine_meta (m : CSMachine.t) : gmap string string :=
  <["pool" := label m pool_label]>
    (<["cluster" := label m cluster_label]>
      (<["machine-uid" := CSMachine.UID m]> (Meta (CSMachine.Spec m)))).

Definition machine_spec (m : CSMachine.t) (bootstrapData : string) : ServerSpec :=
  let spec := CSMachine.Spec m in
  {| spec_Name := CSMachine.Name m; spec_CPU := CPU spec; spec_Memory := Memory spec;
     spec_Disks := Disks spec; spec_NICs := NICs spec; spec_Tags := Tags spec;
     spec_Meta := machine_meta m; BootstrapData := bootstrapData |}.

(** Write the server's identity to the status and then to the spec.  The answer,
    if any, is what the reconciliation returns because a write failed; [retry] is
    the delay when the first one did. *)
Definition record_server (retry : Z) (m : CSMachine.t) (server : Server.t)
    : go (option answer * CSMachine.t) :=
  let m := CSMachine.set_Instance m (Server.UUID server) (Server.Status server) in
  let* '(err, m) := StatusUpdate m in
  match err with
  | Some _ => Ret (Some (requeue retry), m)
  | None =>
      let* '(err, m) := Update (CSMachine.set_ProviderID m (provider_id (Server.UUID server))) in
      match err with
      | Some _ => Ret (Some (requeue 5), m)
      | None => Ret (None, m)
      end
  end.

(** The condition set when the creation fails stays in memory. *)
Definition create_server (c : Client) (machine : Machine.t) (m : CSMachine.t) : go stage :=
  let* r := getBootstrapData machine in
  match r with
  | Err _ => Ret (Stop (requeue 10) m)
  | Ok bootstrapData =>
      let* r := CreateServer c (machine_spec m bootstrapData) in
      match r with
      | Err err =>
          let m := CSMachine.set_Ready m (CSMachine.Ready m) ServerReadyCondition
                     (false, ServerCreateFailedReason) in
          Ret (Stop (failure (ErrWrap "failed to create server" err)) m)
      | Ok server =>
          TagServer (Some (sdk c)) (Server.UUID server) (label m cluster_label)
            (label m pool_label) ;;
          let* '(stop, m) := record_server 10 m server in
          match stop with
          | Some r => Ret (Stop r m)
          | None =>
              let* err :=
                (if decide (Server.Status server <> "running")
                 then StartServer c (Server.UUID server) else Ret None) in
              match err with
              | Some err => Ret (Stop (failure (ErrWrap "failed to start server" err)) m)
              | None => Ret (Stop (requeue 10) m)
              end
          end
      end
  end.

Definition find_or_create (c : Client) (machine : Machine.t) (m : CSMachine.t) : go stage :=
  let* r := FindServerByNameOrMeta c (CSMachine.Name m) (CSMachine.UID m) in
  match r with
  | Err _ => Ret (Stop (requeue 10) m)
  | Ok (Some existingServer) =>
      let* '(stop, m) := record_server 5 m existingServer in
      match stop with
      | Some r => Ret (Stop r m)
      | None => Ret (Proceed (Some existingServer) m)
      end
  | Ok None => create_server c machine m
  end.

(** ** Keeping the server *)

Definition ensure_finalizer (m : CSMachine.t) : go (option error * CSMachine.t) :=
  if decide (CloudSigmaMachineFinalizer ∈ CSMachine.Finalizers m) then Ret (None, m)
  else Update (CSMachine.set_Finalizers m
                 (CSMachine.Finalizers m ++ [CloudSigmaMachineFinalizer])).

(** Forget the instance; a failure to write is ignored. *)
Definition clear_instance (m : CSMachine.t) : go CSMachine.t :=
  let* '(_, m) := StatusUpdate (CSMachine.set_Instance m "" "") in Ret m.

Definition check_existing (c : Client) (m : CSMachine.t) : go stage :=
  if decide (CSMachine.InstanceID m = "") then Ret (Proceed None m)
  else
    let* r := GetServer c (CSMachine.InstanceID m) in
    match r with
    | Err err =>
        if IsPermissionDeniedError err then
          let* f := FindServerByNameOrMeta c (CSMachine.Name m) (CSMachine.UID m) in
          match f with
          | Ok (Some existingServer) =>
              let* '(stop, m) := record_server 5 m existingServer in
              match stop with
              | Some r => Ret (Stop r m)
              | None => Ret (Proceed (Some existingServer) m)
              end
          | _ =>
              let* m := clear_instance m in
              Ret (Stop (requeue 5) m)
          end
        else Ret (Stop (failure (ErrWrap "failed to get server" err)) m)
    | Ok None =>
        let* m := clear_instance m in
        Ret (Proceed None m)
    | Ok (Some server) => Ret (Proceed (Some server) m)
    end.

Definition ensure_provider_id (m : CSMachine.t) (server : Server.t)
    : go (option error * CSMachine.t) :=
  let expected := provider_id (Server.UUID server) in
  if decide (ProviderID (CSMachine.Spec m) = Some expected) then Ret (None, m)
  else Update (CSMachine.set_ProviderID m expected).

Definition update_server (c : Client) (m : CSMachine.t) (server : Server.t)
    : go (answer * CSMachine.t) :=
  let m := CSMachine.set_Instance m (CSMachine.InstanceID m) (Server.Status server) in
  let* '(err, m) := ensure_provider_id m server in
  match err with
  | Some _ => Ret (requeue 5, m)
  | None =>
      let* r := GetServerAddressesWithClient c (Some server) in
      let addresses := match r with Ok l => l | Err _ => [] end in
      let m := if decide (addresses = []) then m else CSMachine.set_Addresses m addresses in
      let* '(_, m) := StatusUpdate m in
      if decide (Server.Status server = "stopped") then
        let* err := StartServer c (Server.UUID server) in
        match err with
        | Some err => Ret (failure (ErrWrap "failed to start server" err), m)
        | None => Ret (requeue 10, m)
        end
      else if decide (Server.Status server = "running") then
        let* '(_, m) := StatusUpdate (CSMachine.set_Ready m true ServerReadyCondition (true, "")) in
        if decide (addresses = []) then Ret (requeue 5, m) else Ret (requeue 60, m)
      else
        let* '(_, m) := StatusUpdate (CSMachine.set_Ready m false ServerReadyCondition
                                        (false, ServerNotRunningReason)) in
        Ret (requeue 60, m)
  end.

Definition reconcileNormal (c : Client) (machine : Machine.t) (m : CSMachine.t)
    : go (answer * CSMachine.t) :=
  let* '(err, m) := ensure_finalizer m in
  match err with
  | Some err => Ret (failure (ErrWrap "failed to add finalizer" err), m)
  | None =>
      let* st := check_existing c m in
      let* st :=
        match st with
        | Stop r m => Ret (Stop r m)
        | Proceed server m =>
            if decide (CSMachine.InstanceID m = "") then find_or_create c machine m
            else Ret (Proceed server m)
        end in
      match st with
      | Stop r m => Ret (r, m)
      | Proceed None m => Ret (requeue 60, m)
      | Proceed (Some server) m => update_server c m server
      end
  end.

(** ** Deleting *)

Definition without_finalizer (m : CSMachine.t) : CSMachine.t :=
  CSMachine.set_Finalizers m
    (filter (fun f => f <> CloudSigmaMachineFinalizer) (CSMachine.Finalizers m)).

Definition remove_finalizer (what : string) (m : CSMachine.t) : go (answer * CSMachine.t) :=
  let* '(err, m) := Update (without_finalizer m) in
  match err with
  | Some err => Ret (failure (ErrWrap what err), m)
  | None => Ret (finished, m)
  end.

(** The errors of a deletion that count as success. *)
Definition excused (errMsg : string) : bool :=
  Contains errMsg "in state 'deleting'" || Contains errMsg "in state 'stopping'" ||
  Contains errMsg "not found" || Contains errMsg "404".

(** Twelve rounds of ten seconds; the server as it was last seen. *)
Definition wait_stopped (c : Client) (uuid : string) (server : Server.t)
    : go (option Server.t + error) :=
  for_range (seq 0 12) (Some server) (fun _ _ =>
    let* r := GetServer c uuid in
    match r with
    | Err err => Ret (Return (ErrWrap "failed to get server status" err))
    | Ok None => Ret (Break None)
    | Ok (Some server) =>
        if decide (Server.Status server = "stopped") then Ret (Break (Some server))
        else golang (Sleep (10 * second)) ;; Ret (Next (Some server))
    end).

(** Stop the server, wait for it and delete it; the error that ends the
    reconciliation, if any. *)
Definition delete_server (c : Client) (uuid : string) (server : Server.t)
    : go (option error) :=
  let* err :=
    (if decide (Server.Status server = "running" \/ Server.Status server = "starting")
     then StopServer c uuid else Ret None) in
  match err with
  | Some err => Ret (Some (ErrWrap "failed to stop server" err))
  | None =>
      let* w := wait_stopped c uuid server in
      match w with
      | inr err => Ret (Some err)
      | inl None => Ret None
      | inl (Some _) =>
          let* err := DeleteServer c uuid in
          match err with
          | None => Ret None
          | Some err =>
              if excused (Error err) then Ret None
              else Ret (Some (ErrWrap "failed to delete server" err))
          end
      end
  end.

Definition reconcileDelete (c : Client) (m : CSMachine.t) : go (answer * CSMachine.t) :=
  if decide (CSMachine.InstanceID m = "") then remove_finalizer "failed to remove finalizer" m
  else
    UntagServer (Some (sdk c)) (CSMachine.InstanceID m) ;;
    let* r := GetServer c (CSMachine.InstanceID m) in
    match r with
    | Err err =>
        if IsPermissionDeniedError err
        then remove_finalizer "failed to remove finalizer after permission denied" m
        else Ret (failure (ErrWrap "failed to get server for deletion" err), m)
    | Ok None => remove_finalizer "failed to remove finalizer" m
    | Ok (Some server) =>
        let* err := delete_server c (CSMachine.InstanceID m) server in
        match err with
        | Some err => Ret (failure err, m)
        | None => remove_finalizer "failed to remove finalizer" m
        end
    end.

(** Not called by the controller. *)
Definition updateStatus (m : CSMachine.t) : go (answer * CSMachine.t) :=
  let* '(err, m) := StatusUpdate (CSMachine.set_Ready m true ServerReadyCondition (true, "")) in
  match err with
  | Some err => Ret (failure (ErrWrap "failed to update status" err), m)
  | None => Ret (finished, m)
  end.

(** ** The reconciler *)

Definition IsPaused (cluster : Cluster.t) (paused : bool) : bool :=
  Cluster.Paused cluster || paused.

(** No client: a provisioned machine is looked at again later. *)
Definition without_client (m : CSMachine.t) : answer :=
  if negb (CSMachine.Deleted m) && bool_decide (CSMachine.InstanceID m <> "")
     && CSMachine.Ready m
  then requeue (5 * 60) else requeue 30.

Definition Reconcile (r : CloudSigmaMachineReconciler) (ns name : string) : go answer :=
  let* x := capi (CSMachineGet ns name) in
  match x with
  | Err err => Ret (if IsNotFound err then finished else failure err)
  | Ok m =>
      let* x := capi (GetOwnerMachine m) in
      match x with
      | Err err => Ret (failure err)
      | Ok None => Ret finished
      | Ok (Some machine) =>
          let* x := capi (GetClusterFromMetadata machine) in
          match x with
          | Err _ => Ret finished
          | Ok cluster =>
              if IsPaused cluster (CSMachine.Paused m) then Ret finished
              else
                let* x := capi (CSClusterGet (CSMachine.Namespace m) (Cluster.Name cluster)) in
                let* x := getCloudClient r (match x with Ok c => Some c | Err _ => None end) in
                match x with
                | Err _ => Ret (without_client m)
                | Ok cloudClient =>
                    let* '(a, _) :=
                      (if CSMachine.Deleted m then reconcileDelete cloudClient m
                       else reconcileNormal cloudClient machine m) in
                    Ret a
                end
          end
      end
  end.

(** ** One server per machine

    What the controller relies on: a request to create a server adds at most the
    server asked for (whatever the answer), and no other request adds one.  The
    servers are those of all accounts together; a listing may answer anything: it
    may lag behind, or be of another account. *)

(** The servers that carry a machine's UID. *)
Definition carriers (uid : string) (g : list Server.t) : nat :=
  length (filter (fun mt : gmap string string => mt !! "machine-uid" = Some uid)
            (Server.Meta <$> g)).

#[global] Arguments carriers : simpl never.

(** No machine has two servers. *)
Definition unique_servers (g : list Server.t) : Prop :=
  forall uid, uid <> "" -> (carriers uid g <= 1)%nat.

Definition account_post {X} (e : Eff X) (g g' : list Server.t) : Prop :=
  match e with
  | EHttp (PostServer _ _ s) => exists server, Server.Meta server = cs_Meta s /\
      (Server.Meta <$> g') ⊆+ (Server.Meta <$> server :: g)
  | _ => (Server.Meta <$> g') ⊆+ (Server.Meta <$> g)
  end.

(** The interface between the accounts and the controller: the servers of a state
    of the world, and the behaviour above. *)
Class AccountState {W} (h : handler Eff W) := account_servers : W -> list Server.t.
#[global] Arguments account_servers {W} h {_} w.

Class CloudAccount {W} (h : handler Eff W) `{!AccountState h} : Prop :=
  account_laws : forall X (e : Eff X) w,
    account_post e (account_servers h w) (account_servers h (h X e w).2).

(** *** The ledger

    Kept beside the world: the listing read last in the running reconciliation,
    and for every machine the creations that were overlooking: they added a server
    although there was one, after a listing that showed none. *)

Record ledger := Ledger { listed : option (list Server.t); overlooked : string -> nat }.

Definition new_ledger : ledger := Ledger None (fun _ => O).

Definition overlooks (L : ledger) (g g' : list Server.t) (uid : string) : bool :=
  (0 <? carriers uid g)%nat && (carriers uid g <? carriers uid g')%nat &&
  match listed L with Some l => (carriers uid l =? 0)%nat | None => false end.

Definition note {X} (e : Eff X) (x : X) (g g' : list Server.t) (L : ledger) : ledger :=
  match e in Eff _ return X -> ledger with
  | ECloud _ ce =>
      match ce in CloudE Y return Y -> ledger with
      | ServersList => fun x =>
          Ledger (match x with SdkOk l => Some l | SdkErr _ _ => None end) (overlooked L)
      | _ => fun _ => L
      end
  | EHttp he =>
      match he in HttpE Y return Y -> ledger with
      | PostServer _ _ _ => fun _ =>
          Ledger (listed L) (fun uid =>
            if overlooks L g g' uid then S (overlooked L uid) else overlooked L uid)
      | _ => fun _ => L
      end
  | ECapi pe =>
      match pe in CapiE Y return Y -> ledger with
      | CSMachineGet _ _ => fun _ => Ledger None (overlooked L)
      | _ => fun _ => L
      end
  | _ => fun _ => L
  end x.

Definition overseen {W} (h : handler Eff W) `{!AccountState h} : handler Eff (W * ledger) :=
  fun X e '(w, L) =>
    let '(x, w') := h X e w in
    (x, (w', note e x (account_servers h w) (account_servers h w') L)).

(** The invariant is an obligation of every call: it holds wherever the
    controller may be killed. *)
Definition accounted (gl : list Server.t * ledger) : Prop :=
  forall uid, uid <> "" -> (carriers uid gl.1 <= 1 + overlooked gl.2 uid)%nat.

Definition accountI : iface Eff (list Server.t * ledger) :=
  Iface (fun _ _ => accounted)
        (fun _ e gl x gl' => account_post e gl.1 gl'.1 /\ gl'.2 = note e x gl.1 gl'.1 gl.2).

Lemma overseen_sound {W} (h : handler Eff W) `{!AccountState h, !CloudAccount h} :
  implements (overseen h) (fun s gl => gl = (account_servers h s.1, s.2)) accountI.
Proof.
  intros X e [w L] gl -> _. cbn. pose proof (account_laws X e w) as Hp.
  destruct (h X e w) as [x w']. cbn in *. eexists. split; [|done]. by split.
Qed.

Lemma carriers_cons uid s g :
  carriers uid (s :: g) =
  ((if decide (Server.Meta s !! "machine-uid" = Some uid) then 1 else 0) + carriers uid g)%nat.
Proof. unfold carriers. rewrite fmap_cons, filter_cons. by case_decide. Qed.

(** Calls that do not create servers. *)
Definition creates_nothing (X : Type) (e : Eff X) : Prop :=
  match e with EHttp (PostServer _ _ _) => False | _ => True end.

Lemma carriers_mono uid g g' :
  (Server.Meta <$> g') ⊆+ (Server.Meta <$> g) -> (carriers uid g' <= carriers uid g)%nat.
Proof.
  unfold carriers. intros [k Hk]%submseteq_Permutation. rewrite Hk, filter_app, length_app. lia.
Qed.

Lemma creates_nothing_mono {X} (e : Eff X) g g' :
  creates_nothing X e -> account_post e g g' ->
  forall uid, (carriers uid g' <= carriers uid g)%nat.
Proof.
  intros He Hpost uid. apply carriers_mono. destruct e as [cl ce|he| | | | | |]; try done.
  by destruct he.
Qed.

Lemma creates_nothing_note {X} (e : Eff X) x g g' L :
  creates_nothing X e -> overlooked (note e x g g' L) = overlooked L.
Proof. revert x. destruct e as [cl []|[]| | | | |[]|]; done. Qed.

Lemma wp_accounted {A} (p : go A) gl :
  only creates_nothing p -> accounted gl -> wp accountI p (fun _ => accounted) gl.
Proof.
  apply (only_wp _ accountI accounted); [done|].
  intros X e [g L] x [g' L'] He [Hpost HL] Hacc uid Hu. cbn in *. subst L'.
  rewrite (creates_nothing_note e) by done.
  pose proof (creates_nothing_mono e g g' He Hpost uid). specialize (Hacc uid Hu). cbn in Hacc. lia.
Qed.

(** *** The operations that create nothing *)

(** Nor do they write the machine object: the calls below the controller. *)
Definition server_calls (X : Type) (e : Eff X) : Prop :=
  match e with
  | EHttp (PostServer _ _ _) => False
  | ECapi (CSMachineUpdate _) | ECapi (CSMachineStatusUpdate _) => False
  | _ => True
  end.

Lemma only_below {A} (p : go A) : only server_calls p -> only creates_nothing p.
Proof. apply only_mono. intros X [| [] | | | | | |]; done. Qed.
#[export] Hint Resolve only_below : only.

Lemma only_wait_drive c uuid deadline fuel : only server_calls (wait_drive c uuid deadline fuel).
Proof. induction fuel; cbn [wait_drive]; unfold golang, cloud; only_go. Qed.
#[export] Hint Resolve only_wait_drive : only.

Ltac only_cloud :=
  intros; unfold cloud, http, kube, oauth, token, golang, capi, os; only_go.

Lemma only_GetServer c uuid : only server_calls (GetServer c uuid).
Proof. unfold GetServer. only_cloud. Qed.

Lemma only_FindServer c name uid : only server_calls (FindServerByNameOrMeta c name uid).
Proof. unfold FindServerByNameOrMeta. only_cloud. Qed.

Lemma only_CloneDrive c src name size : only server_calls (CloneDrive c src name size).
Proof. unfold CloneDrive, WaitForDriveReady. only_cloud. Qed.

Lemma only_delete_all c uuids : only server_calls (delete_all c uuids).
Proof. unfold delete_all, DeleteDrive. only_cloud. Qed.

Lemma only_StartServer c uuid : only server_calls (StartServer c uuid).
Proof. unfold StartServer. only_cloud. Qed.

Lemma only_StopServer c uuid : only server_calls (StopServer c uuid).
Proof. unfold StopServer. only_cloud. Qed.
#[export] Hint Resolve only_GetServer only_FindServer only_CloneDrive only_delete_all
  only_StartServer only_StopServer : only.

Lemma only_DeleteServer c uuid : only server_calls (DeleteServer c uuid).
Proof. unfold DeleteServer, DeleteIP. only_cloud. Qed.

Lemma only_clone_all c spec : only server_calls (clone_all c spec).
Proof. unfold clone_all. apply only_for_range. intros [i disk] cs. only_cloud. Qed.

Lemma only_TagServer cl uuid cluster pool : only server_calls (TagServer cl uuid cluster pool).
Proof. unfold TagServer, tagAll, ensureTag. only_cloud. Qed.

Lemma only_UntagServer cl uuid : only server_calls (UntagServer cl uuid).
Proof. unfold UntagServer, untagAll. only_cloud. Qed.

Lemma only_addresses c s : only server_calls (GetServerAddressesWithClient c s).
Proof. unfold GetServerAddressesWithClient, GetIP. only_cloud. Qed.

Lemma only_Update m : only creates_nothing (Update m).
Proof. unfold Update. only_cloud. Qed.

Lemma only_StatusUpdate m : only creates_nothing (StatusUpdate m).
Proof. unfold StatusUpdate. only_cloud. Qed.
#[export] Hint Resolve only_DeleteServer only_clone_all only_TagServer only_UntagServer
  only_addresses only_Update only_StatusUpdate : only.

Lemma only_record_server retry m s : only creates_nothing (record_server retry m s).
Proof. unfold record_server. only_cloud. Qed.

Lemma only_clear_instance m : only creates_nothing (clear_instance m).
Proof. unfold clear_instance. only_cloud. Qed.
#[export] Hint Resolve only_record_server only_clear_instance : only.

Lemma only_ensure_finalizer m : only creates_nothing (ensure_finalizer m).
Proof. unfold ensure_finalizer. only_cloud. Qed.

Lemma only_check_existing c m : only creates_nothing (check_existing c m).
Proof. unfold check_existing. only_cloud. Qed.

Lemma only_update_server c m s : only creates_nothing (update_server c m s).
Proof. unfold update_server, ensure_provider_id. only_cloud. Qed.

Lemma only_reconcileDelete c m : only creates_nothing (reconcileDelete c m).
Proof. unfold reconcileDelete, remove_finalizer, delete_server, wait_stopped. only_cloud. Qed.

Lemma only_getCloudClient r c : only server_calls (getCloudClient r c).
Proof. unfold getCloudClient, getUserEmail, NewClientWithImpersonation. only_cloud. Qed.

Lemma only_getBootstrapData machine : only server_calls (getBootstrapData machine).
Proof. unfold getBootstrapData. only_cloud. Qed.
#[export] Hint Resolve only_ensure_finalizer only_check_existing only_update_server
  only_reconcileDelete only_getCloudClient only_getBootstrapData : only.

(** *** Creating a server only when the listing shows none *)

(** Calls between the listing and the creation. *)
Definition between (X : Type) (e : Eff X) : Prop :=
  match e with
  | EHttp (PostServer _ _ _) | ECloud _ ServersList | ECapi (CSMachineGet _ _) => False
  | _ => True
  end.

Lemma between_wait_drive c uuid deadline fuel : only between (wait_drive c uuid deadline fuel).
Proof. induction fuel; cbn [wait_drive]; unfold golang, cloud; only_go. Qed.
#[export] Hint Resolve between_wait_drive : only.

Lemma between_CloneDrive c src name size : only between (CloneDrive c src name size).
Proof. unfold CloneDrive, WaitForDriveReady. only_cloud. Qed.

Lemma between_delete_all c uuids : only between (delete_all c uuids).
Proof. unfold delete_all, DeleteDrive. only_cloud. Qed.
#[export] Hint Resolve between_CloneDrive between_delete_all : only.

Lemma between_clone_all c spec : only between (clone_all c spec).
Proof. unfold clone_all. apply only_for_range. intros [i disk] cs. only_cloud. Qed.

Lemma between_getBootstrapData machine : only between (getBootstrapData machine).
Proof. unfold getBootstrapData. only_cloud. Qed.

(** The listing read last shows no server of the machine. *)
Definition unlisted (uid : string) (gl : list Server.t * ledger) : Prop :=
  accounted gl /\ exists l, listed gl.2 = Some l /\ (uid <> "" -> carriers uid l = O).

Lemma wp_unlisted {A} uid (p : go A) gl :
  only between p -> unlisted uid gl -> wp accountI p (fun _ => unlisted uid) gl.
Proof.
  intros Ho. apply (only_wp between accountI (unlisted uid)); [by intros ? ? ? _ []| |done].
  intros X e [g L] x [g' L'] He [Hpost HL] [Hacc Hl]. cbn in *. subst L'.
  assert (Hc : creates_nothing X e) by (destruct e as [cl []|[]| | | | |[]|]; done).
  split.
  - intros u Hu. cbn. rewrite (creates_nothing_note e) by done.
    pose proof (creates_nothing_mono e g g' Hc Hpost u). specialize (Hacc u Hu). cbn in Hacc. lia.
  - clear Hc Hpost. cbn. revert x He. by destruct e as [cl []|[]| | | | |[]|].
Qed.

Lemma find_none_carriers name uid l :
  find_server name uid l = None -> uid <> "" -> carriers uid l = O.
Proof.
  intros Hf Hu. unfold carriers, find_server in *.
  rewrite decide_True in Hf by done. destruct (find (has_uid uid) l) eqn:E; [done|]. clear Hf.
  induction l as [|s l IH]; [done|]. cbn in E. unfold has_uid in E at 1.
  case_bool_decide as Hs; [done|]. rewrite fmap_cons, filter_cons_False by done. by apply IH.
Qed.

Lemma machine_uid_meta m bootstrapData drives :
  cs_Meta (custom_server (machine_spec m bootstrapData) drives) !! "machine-uid"
  = Some (CSMachine.UID m).
Proof.
  cbn. unfold server_meta. apply lookup_union_Some_l. cbn. unfold machine_meta.
  rewrite !lookup_insert_ne by done. apply lookup_insert_eq.
Qed.

Lemma wp_createServerDirect c s uid gl :
  cs_Meta s !! "machine-uid" = Some uid -> unlisted uid gl ->
  wp accountI (createServerDirect c s) (fun _ => accounted) gl.
Proof.
  intros Hs [Hacc (l & Hl & Hnone)]. unfold createServerDirect. apply wp_eff; [exact Hacc|].
  intros x [g' L'] [(server & Hm & Hsub) HL]. cbn in Hsub, HL. subst L'.
  apply wp_accounted; [only_cloud|]. intros u Hu. cbn.
  pose proof (carriers_mono u (server :: gl.1) g' Hsub) as Hle. rewrite carriers_cons, Hm, Hs in Hle.
  specialize (Hacc u Hu). cbn in Hacc. unfold overlooks. rewrite Hl.
  destruct (decide (Some uid = Some u)) as [[= ->]|Hne]; [|case_match; lia].
  rewrite Hnone by done.
  destruct (Nat.ltb_spec 0 (carriers u gl.1)), (Nat.ltb_spec (carriers u gl.1) (carriers u g'));
    cbn; lia.
Qed.

Lemma wp_CreateServer_accounted c m bootstrapData gl :
  unlisted (CSMachine.UID m) gl ->
  wp accountI (CreateServer c (machine_spec m bootstrapData)) (fun _ => accounted) gl.
Proof.
  intros Hg. unfold CreateServer.
  eapply wp_then; [apply wp_unlisted; [apply between_clone_all|exact Hg]| |by intros ? ? []].
  intros [drives|err] g' Hg'; [|exact (proj1 Hg')].
  eapply wp_then; [eapply wp_createServerDirect; [apply machine_uid_meta|exact Hg']| |done].
  intros r g'' Hg''. apply wp_accounted; [only_cloud|done].
Qed.

Lemma wp_create_server c machine m gl :
  unlisted (CSMachine.UID m) gl ->
  wp accountI (create_server c machine m) (fun _ => accounted) gl.
Proof.
  intros Hg. unfold create_server.
  eapply wp_then; [apply wp_unlisted; [apply between_getBootstrapData|exact Hg]| |by intros ? ? []].
  intros [data|err] g' Hg'; [|exact (proj1 Hg')].
  eapply wp_then; [by apply wp_CreateServer_accounted| |done].
  intros r g'' Hg''. apply wp_accounted; [only_cloud|done].
Qed.

Lemma wp_find_or_create c machine m gl :
  accounted gl -> wp accountI (find_or_create c machine m) (fun _ => accounted) gl.
Proof.
  intros Hg. unfold find_or_create, FindServerByNameOrMeta. apply wp_bind, wp_eff; [done|].
  intros x [g' L'] [Hpost HL]. cbn in Hpost, HL. subst L'.
  assert (Hg' : accounted (g', Ledger (match x with SdkOk l => Some l | SdkErr _ _ => None end)
                                 (overlooked gl.2))).
  { intros u Hu. apply (carriers_mono u) in Hpost. specialize (Hg u Hu). cbn. lia. }
  destruct x as [servers|resp err]; cbv beta iota; apply wp_ret; [|by apply wp_ret].
  destruct (find_server _ _ servers) as [server|] eqn:E.
  - apply wp_accounted; [only_cloud|done].
  - apply wp_create_server. split; [done|]. exists servers. split; [done|]. by eapply find_none_carriers.
Qed.

Lemma wp_reconcileNormal c machine m gl :
  accounted gl -> wp accountI (reconcileNormal c machine m) (fun _ => accounted) gl.
Proof.
  intros Hg. unfold reconcileNormal.
  eapply wp_then; [apply wp_accounted; [apply only_ensure_finalizer|done]| |done].
  intros [[err|] m'] g1 Hg1; [by apply wp_ret|].
  eapply wp_then; [apply wp_accounted; [apply only_check_existing|done]| |done].
  intros st g2 Hg2. apply (wp_then _ _ _ accounted); [| |done].
  - destruct st as [r m2|server m2]; [by apply wp_ret|]. case_decide; [|by apply wp_ret].
    by apply wp_find_or_create.
  - intros st' g3 Hg3. apply wp_accounted; [only_cloud|done].
Qed.

Lemma wp_Reconcile r ns name gl :
  accounted gl -> wp accountI (Reconcile r ns name) (fun _ => accounted) gl.
Proof.
  intros Hg. unfold Reconcile, capi.
  assert (Hcall : forall X (e : CapiE X) g, accounted g ->
            wp accountI (call (ECapi e)) (fun _ => accounted) g).
  { intros X e g0 Hg0. apply wp_accounted; [by apply only_call0|done]. }
  eapply wp_then; [by apply Hcall| |done]. intros [m|err] g1 Hg1; [|by apply wp_ret].
  eapply wp_then; [by apply Hcall| |done]. intros [[machine|]|err] g2 Hg2; [|by apply wp_ret..].
  eapply wp_then; [by apply Hcall| |done]. intros [cluster|err] g3 Hg3; [|by apply wp_ret].
  destruct (IsPaused _ _); [by apply wp_ret|].
  eapply wp_then; [by apply Hcall| |done]. intros cl g4 Hg4.
  eapply wp_then; [apply wp_accounted; [apply only_below, only_getCloudClient|done]| |done].
  intros [c|err] g5 Hg5; [|by apply wp_ret].
  apply (wp_then _ _ _ accounted); [| |done].
  - destruct (CSMachine.Deleted m); [|by apply wp_reconcileNormal].
    apply wp_accounted; [apply only_reconcileDelete|done].
  - intros [a m'] g6 Hg6. by apply wp_ret.
Qed.

(** The steps of the system: a reconciliation of any machine, carried out or
    killed at some call, and changes made by others, who do not add servers with
    the UID of a machine. *)
Inductive machine_step {W} (h : handler Eff W) `{!AccountState h}
    : W * ledger -> W * ledger -> Prop :=
| step_reconcile r ns name s : machine_step h s (run (overseen h) (Reconcile r ns name) s).2
| step_killed n r ns name s : machine_step h s (run (overseen h) (cut n (Reconcile r ns name)) s).2
| step_others w w' L :
    (forall uid, uid <> "" ->
       (carriers uid (account_servers h w') <= carriers uid (account_servers h w))%nat) ->
    machine_step h (w, L) (w', L).

Lemma machine_step_accounted {W} (h : handler Eff W) `{!AccountState h, !CloudAccount h} s s' :
  machine_step h s s' -> accounted (account_servers h s.1, s.2) ->
  accounted (account_servers h s'.1, s'.2).
Proof.
  intros Hstep Hg. destruct Hstep as [r ns name s|n r ns name s|w w' L Hothers].
  - destruct (wp_run accountI _ _ _ _ s _ (overseen_sound h) eq_refl (wp_Reconcile r ns name _ Hg))
      as (g' & ? & ->). done.
  - destruct (wp_run accountI _ _ _ _ s _ (overseen_sound h) eq_refl
      (wp_cut accountI accounted _ n _ (fun _ _ _ H => H) (wp_Reconcile r ns name _ Hg)))
      as (g' & ? & ->). done.
  - intros uid Hu. specialize (Hothers uid Hu). specialize (Hg uid Hu). cbn in *. lia.
Qed.

(** C1. One server per machine: whatever machines are reconciled, in whatever
    order and with whatever failures, wherever the controller is killed, and
    whatever the listings answer: the servers that carry the UID of a machine, in
    all accounts together, are at most one more than the creations for it that
    overlooked one: those after a listing, read in the same reconciliation, that
    left out every server of the machine although there was one. *)
Theorem no_duplicate_servers {W} (h : handler Eff W) `{!AccountState h, !CloudAccount h}
    w w' L uid (Hg : unique_servers (account_servers h w))
    (Hsteps : rtc (machine_step h) (w, new_ledger) (w', L)) (Hu : uid <> "") :
  (carriers uid (account_servers h w') <= 1 + overlooked L uid)%nat.
Proof.
  assert (Hacc : forall s s', rtc (machine_step h) s s' -> accounted (account_servers h s.1, s.2) ->
            accounted (account_servers h s'.1, s'.2)).
  { induction 1; eauto using machine_step_accounted. }
  apply (Hacc _ _ Hsteps); [|done]. intros u Hu'. cbn. specialize (Hg u Hu'). lia.
Qed.

(** ** Releasing the machine object

    What the deletion of a machine does: the look-ups of its server, the requests
    to stop and to delete it, and the writes of the machine object. *)

Inductive deletion_event :=
| Looked (uuid : string) (x : World.sdk Server.t)
| StopAnswered (uuid : string) (x : World.sdk unit)
| DeleteAnswered (uuid : string) (x : World.sdk unit)
| Written (m : CSMachine.t).

Definition deletion_view : view Eff deletion_event := fun X e =>
  match e in Eff _ return X -> list deletion_event with
  | ECloud _ ce =>
      match ce in CloudE Y return Y -> list deletion_event with
      | ServersGet uuid => fun x => [Looked uuid x]
      | ServersStop uuid => fun x => [StopAnswered uuid x]
      | ServersDelete uuid => fun x => [DeleteAnswered uuid x]
      | _ => fun _ => []
      end
  | ECapi pe =>
      match pe in CapiE Y return Y -> list deletion_event with
      | CSMachineUpdate m => fun _ => [Written m]
      | _ => fun _ => []
      end
  | _ => fun _ => []
  end.

(** Look-ups that are read as "no such server" and as "not ours". *)
Definition gone (x : World.sdk Server.t) : Prop :=
  match x with
  | SdkOk _ => False
  | SdkErr resp err =>
      resp = Some 404%Z \/ Contains (Error err) "404" = true
      \/ Contains (Error err) "not found" = true
  end.

Definition denied (x : World.sdk Server.t) : Prop :=
  match x with
  | SdkOk _ => False
  | SdkErr resp err =>
      resp = Some 403%Z \/ Contains (Error err) "403" = true
      \/ Contains (Error err) "permission" = true \/ IsPermissionDeniedError err = true
  end.

(** The errors of [DeleteServer] for the server [uuid], by the request that failed. *)
Definition refusal (uuid : string) (err : error) (l : list deletion_event) : Prop :=
  exists resp e,
    (DeleteAnswered uuid (SdkErr resp e) ∈ l /\ err = ErrWrap "failed to delete server" e) \/
    (StopAnswered uuid (SdkErr resp e) ∈ l /\
     err = ErrWrap "failed to stop server before deletion" (ErrWrap "failed to stop server" e)) \/
    (Looked uuid (SdkErr resp e) ∈ l /\ err = ErrWrap "failed to get server" e).

(** What justifies giving up the finalizer of the machine with instance [uuid]. *)
Definition justified (uuid : string) (l : list deletion_event) : Prop :=
  uuid = "" \/
  (exists x, Looked uuid x ∈ l /\ (gone x \/ denied x)) \/
  DeleteAnswered uuid (SdkOk tt) ∈ l \/
  (exists err, excused (Error err) = true /\ refusal uuid err l).

Lemma justified_app uuid l l' : justified uuid l -> justified uuid (l ++ l').
Proof.
  intros [?|[(x & Hx & ?)|[?|(err & ? & resp & e & Hr)]]]; [by left|..]; right.
  - left. exists x. by rewrite elem_of_app; auto.
  - right. left. rewrite elem_of_app. by left.
  - right. right. exists err. split; [done|]. exists resp, e. rewrite !elem_of_app. tauto.
Qed.

Definition unwritten (l : list deletion_event) : Prop := forall m, Written m ∉ l.

Lemma unwritten_app l l' : unwritten l -> unwritten l' -> unwritten (l ++ l').
Proof. intros H H' m [Hm|Hm]%elem_of_app; [by apply (H m)|by apply (H' m)]. Qed.

Abbreviation deletionI := (anyI deletion_view).

(** What a look-up answered, and how it was read. *)
Definition looked (uuid : string) (r : result (option Server.t)) (l : list deletion_event) : Prop :=
  exists x, Looked uuid x ∈ l /\
  match r with
  | Ok (Some s) => x = SdkOk s
  | Ok None => gone x
  | Err err => (denied x /\ IsPermissionDeniedError err = true) \/
      exists resp e, x = SdkErr resp e /\ err = ErrWrap "failed to get server" e
  end.

Lemma wp_GetServer_looked c uuid l :
  unwritten l ->
  wp deletionI (GetServer c uuid) (ok (fun r l' => unwritten l' /\ looked uuid r l')) l.
Proof.
  intros Hl. unfold GetServer. wp_call x Hx. subst g'. cbn [deletion_view].
  assert (Hl' : unwritten (l ++ [Looked uuid x])).
  { apply unwritten_app; [done|]. intros m [=]%list_elem_of_singleton. }
  destruct x as [s|resp err]; cbv zeta;
    [|repeat case_decide; [| |
       destruct (Contains (Error err) "404" || Contains (Error err) "not found") eqn:E1;
       [|destruct (Contains (Error err) "403" || Contains (Error err) "permission") eqn:E2]]];
    apply wp_ret; (split; [done|]); eexists; (split; [apply elem_of_snoc|]).
  - done.
  - by left.
  - left. split; [by left|done].
  - apply orb_true_iff in E1 as [E|E]; right; auto.
  - left. split; [|done]. apply orb_true_iff in E2 as [E|E]; right; auto.
  - right. eauto.
Qed.

Lemma looked_justified uuid l : looked uuid (Ok None) l -> justified uuid l.
Proof. intros (x & Hx & Hg). right. left. eauto. Qed.

Lemma looked_denied uuid err l :
  looked uuid (Err err) l -> IsPermissionDeniedError err = true -> justified uuid l.
Proof.
  intros (x & Hx & [[Hd _]|(resp & e & -> & ->)]) Hp; right; left; exists x || eexists;
    (split; [done|]); right; [done|]. cbn. auto.
Qed.

Lemma quiet_delete_all c uuids : quiet deletion_view (delete_all c uuids) (fun _ => True).
Proof. unfold delete_all, DeleteDrive, cloud. quiet_go. Qed.

(** Requests whose answers are [unit]. *)
Lemma wp_StopServer_answered c uuid l :
  unwritten l ->
  wp deletionI (StopServer c uuid) (ok (fun r l' => unwritten l' /\
    match r with
    | None => True
    | Some err => exists resp e, StopAnswered uuid (SdkErr resp e) ∈ l' /\
                                 err = ErrWrap "failed to stop server" e
    end)) l.
Proof.
  intros Hl. unfold StopServer. wp_call x Hx. subst g'. cbn [deletion_view].
  assert (Hl' : unwritten (l ++ [StopAnswered uuid x])).
  { apply unwritten_app; [done|]. intros m [=]%list_elem_of_singleton. }
  destruct x as [u|resp err]; apply wp_ret; (split; [done|]); [done|].
  exists resp, err. split; [apply elem_of_snoc|done].
Qed.

Lemma wp_DeleteServer_justified c uuid l :
  unwritten l ->
  wp deletionI (DeleteServer c uuid) (ok (fun r l' => unwritten l' /\
    match r with
    | None => justified uuid l'
    | Some err => excused (Error err) = true -> justified uuid l'
    end)) l.
Proof.
  intros Hl. unfold DeleteServer.
  eapply wp_seq; [by apply wp_GetServer_looked|].
  intros [[s|]|err] l1 [Hl1 Hr].
  2:{ apply wp_ret. split; [done|]. by apply looked_justified. }
  2:{ apply wp_ret. split; [done|]. intros He.
      pose proof Hr as (x & Hx & [[Hd Hp]|(resp & e & -> & ->)]); [by eapply looked_denied|].
      right. right. right. eexists. split; [exact He|]. exists resp, e. auto. }
  cbv zeta. eapply wp_seq.
  { instantiate (1 := fun r l' => unwritten l' /\ match r with None => True | Some err =>
      exists resp e, StopAnswered uuid (SdkErr resp e) ∈ l' /\
                     err = ErrWrap "failed to stop server" e end).
    case_decide; [by apply wp_StopServer_answered|by apply wp_ret]. }
  intros [err|] l2 [Hl2 Hs].
  { apply wp_ret. split; [done|]. intros He. destruct Hs as (resp & e & Hin & ->).
    right. right. right. eexists. split; [exact He|]. exists resp, e. auto. }
  wp_call x Hx. subst g'. cbn [deletion_view].
  assert (Hl3 : unwritten (l2 ++ [DeleteAnswered uuid x])).
  { apply unwritten_app; [done|]. intros ? [=]%list_elem_of_singleton. }
  destruct x as [[]|resp err].
  2:{ apply wp_ret. split; [done|]. intros He. right. right. right.
      eexists. split; [exact He|]. exists resp, err. left. split; [apply elem_of_snoc|done]. }
  eapply wp_seq; [apply quiet_wp, quiet_delete_all|]. intros _ ? [_ ->].
  apply (wp_seq _ _ _ (fun _ l' => l' = l2 ++ [DeleteAnswered uuid (SdkOk tt)])).
  - apply (wp_for_each _ (fun _ (_ : unit) l' => l' = l2 ++ [DeleteAnswered uuid (SdkOk tt)]));
      [done| |done]. intros. by apply wp_bind, wp_ret, wp_ret.
  - intros _ ? ->. apply wp_ret. split; [done|]. right. right. left. apply elem_of_snoc.
Qed.

Lemma wp_wait_stopped c uuid s l :
  unwritten l ->
  wp deletionI (wait_stopped c uuid s) (ok (fun r l' => unwritten l' /\
    match r with inl None => justified uuid l' | _ => True end)) l.
Proof.
  intros Hl. apply (wp_for_range _ (fun _ o l' => unwritten l' /\
    match o with None => justified uuid l' | _ => True end)); [done| |done].
  intros i todo o l1 _ [Hl1 _]. eapply wp_seq; [by apply wp_GetServer_looked|].
  intros [[s'|]|err] l2 [Hl2 Hr]; [|by apply wp_ret; split; [|apply looked_justified]|by apply wp_ret].
  case_decide; [by apply wp_ret|]. wp_call u Hu. subst g'. cbn. rewrite app_nil_r.
  by apply wp_ret.
Qed.

Lemma wp_delete_server c uuid s l :
  unwritten l ->
  wp deletionI (delete_server c uuid s) (ok (fun r l' => unwritten l' /\
    match r with None => justified uuid l' | Some _ => True end)) l.
Proof.
  intros Hl. unfold delete_server.
  apply (wp_seq _ _ _ (fun _ l' => unwritten l')).
  { case_decide; [|by apply wp_ret]. eapply wp_mono; [|by apply wp_StopServer_answered].
    intros [r|] l'; simpl; [by intros []|done]. }
  intros [err|] l1 Hl1; [by apply wp_ret|].
  eapply wp_seq; [by apply (wp_wait_stopped c uuid s)|].
  intros [[s'|]|err] l2 [Hl2 Hj]; [|by apply wp_ret..].
  eapply wp_seq; [by apply (wp_DeleteServer_justified c uuid)|].
  intros [err|] l3 [Hl3 Hr]; [|by apply wp_ret].
  destruct (excused (Error err)); apply wp_ret; split; auto.
Qed.

(** The log of a deletion: no write, or one write at the end that releases the
    machine, and is justified. *)
Definition released (m : CSMachine.t) (l : list deletion_event) : Prop :=
  unwritten l \/
  exists l', l = l' ++ [Written (without_finalizer m)] /\ unwritten l' /\
    justified (CSMachine.InstanceID m) l'.

Lemma wp_remove_finalizer what m l :
  unwritten l -> justified (CSMachine.InstanceID m) l ->
  wp deletionI (remove_finalizer what m) (ok (fun _ l' => released m l')) l.
Proof.
  intros Hl Hj. unfold remove_finalizer, Update.
  apply wp_bind. wp_call x Hx. subst g'. cbn [deletion_view].
  destruct x; apply wp_ret, wp_ret; right; eauto.
Qed.

Lemma quiet_untag cl uuid : quiet deletion_view (UntagServer cl uuid) (fun _ => True).
Proof. unfold UntagServer, untagAll, cloud. quiet_go. Qed.

Lemma wp_reconcileDelete c m :
  wp deletionI (reconcileDelete c m) (ok (fun _ l => released m l)) [].
Proof.
  assert (H0 : unwritten []) by (intros ? []%not_elem_of_nil).
  unfold reconcileDelete. case_decide; [apply wp_remove_finalizer; [done|by left]|].
  eapply wp_seq; [apply quiet_wp, quiet_untag|]. intros _ ? [_ ->].
  eapply wp_seq; [by apply wp_GetServer_looked|].
  intros [[s|]|err] l1 [Hl1 Hr].
  - eapply wp_seq; [by apply (wp_delete_server c _ s)|].
    intros [err|] l2 [Hl2 Hj]; [apply wp_ret; by left|by apply wp_remove_finalizer].
  - apply wp_remove_finalizer; [done|by apply looked_justified].
  - destruct (IsPermissionDeniedError err) eqn:E; [|apply wp_ret; by left].
    apply wp_remove_finalizer; [done|by eapply looked_denied].
Qed.

(** C15. Deleting a machine, in every environment: the controller does not panic,
    and it gives up its finalizer only when the machine has no instance, when a
    look-up of that instance answered that it is gone or not accessible, when the
    server of that instance was deleted, or when its deletion was refused with one
    of the four excused texts. *)
Theorem reconcileDelete_releases {W} (h : handler Eff W) c m w :
  let '(o, l) := observe deletion_view h (reconcileDelete c m) w in
  (exists r, o = Done r) /\ released m l.
Proof.
  apply (observe_intro deletion_view h (reconcileDelete c m) w
    (fun o l => (exists r, o = Done r) /\ released m l)).
  eapply wp_mono; [|apply wp_reconcileDelete]. intros [r|] l; simpl; [eauto|done].
Qed.

(** ** Machines are looked at again *)

(** The reconciliation fails (and is retried) or is scheduled again. *)
Definition watched (a : answer) : bool :=
  (0 <? RequeueAfter a.1)%Z || negb (bool_decide (a.2 = None)).

Definition watched_stage (st : stage) : bool :=
  match st with Stop a _ => watched a | Proceed _ _ => true end.

(** A view that sees nothing: its quiet programs are those that return. *)
Definition no_view : view Eff unit := fun _ _ _ => [].

Abbreviation returns p P := (quiet no_view p P).

Ltac returns_go := unfold cloud, http, kube, oauth, token, golang, capi, os; quiet_go.

Lemma clock_returns {A} (p : go A) (P : A -> Prop) ck :
  returns p P -> wp clockI p (ok (fun a _ => P a)) ck.
Proof. by apply quiet_any. Qed.

Lemma returns_Update m : returns (Update m) (fun _ => True).
Proof. unfold Update. returns_go. Qed.

Lemma returns_StatusUpdate m : returns (StatusUpdate m) (fun _ => True).
Proof. unfold StatusUpdate. returns_go. Qed.

Lemma returns_GetServer c uuid : returns (GetServer c uuid) (fun _ => True).
Proof. unfold GetServer. returns_go. Qed.

Lemma returns_Find c name uid : returns (FindServerByNameOrMeta c name uid) (fun _ => True).
Proof. unfold FindServerByNameOrMeta. returns_go. Qed.

Lemma returns_StartServer c uuid : returns (StartServer c uuid) (fun _ => True).
Proof. unfold StartServer. returns_go. Qed.

Lemma returns_TagServer cl uuid cluster pool :
  returns (TagServer cl uuid cluster pool) (fun _ => True).
Proof. unfold TagServer, tagAll, ensureTag. returns_go. Qed.
#[export] Hint Resolve returns_Update returns_StatusUpdate returns_GetServer returns_Find
  returns_StartServer returns_TagServer : quiet.

Lemma returns_record_server retry m s :
  (0 < retry)%Z ->
  returns (record_server retry m s)
    (fun r => match r.1 with Some a => watched a = true | None => True end).
Proof.
  intros Hr.
  assert (Hw : watched (requeue retry) = true).
  { apply orb_true_iff. left. apply Z.ltb_lt. cbn. unfold second. lia. }
  unfold record_server. returns_go.
Qed.

Lemma returns_check_existing c m :
  returns (check_existing c m) (fun st => watched_stage st = true).
Proof.
  unfold check_existing, clear_instance. case_decide; [by apply quiet_ret|].
  eapply quiet_bind; [apply returns_GetServer|]. intros r _.
  destruct r as [[s|]|err]; [by apply quiet_ret|returns_go|].
  destruct (IsPermissionDeniedError err); [|by apply quiet_ret].
  eapply quiet_bind; [apply returns_Find|]. intros [[s|]|e] _; [|returns_go..].
  eapply quiet_bind; [by apply returns_record_server|]. intros [[a|] m'] Ha; by apply quiet_ret.
Qed.

Lemma wp_CreateServer_returns c spec ck :
  wp clockI (CreateServer c spec) (ok (fun _ _ => True)) ck.
Proof.
  eapply wp_mono; [|eapply wp_forget_log, wp_CreateServer].
  intros [r|why] g [l Hl]; done.
Qed.

Lemma wp_find_or_create_watched c machine m ck :
  wp clockI (find_or_create c machine m) (ok (fun st _ => watched_stage st = true)) ck.
Proof.
  unfold find_or_create. eapply wp_seq; [apply clock_returns, returns_Find|].
  intros [[s|]|err] ck1 _; [| |by apply wp_ret].
  { apply clock_returns. eapply quiet_bind; [by apply returns_record_server|].
    intros [[a|] m'] Ha; by apply quiet_ret. }
  unfold create_server. eapply (wp_seq _ _ _ (fun _ _ => True)).
  { apply clock_returns. unfold getBootstrapData. returns_go. }
  intros [data|err] ck2 _; [|by apply wp_ret].
  eapply wp_seq; [apply wp_CreateServer_returns|]. intros [s|err] ck3 _.
  2:{ by apply wp_ret. }
  apply clock_returns. eapply quiet_bind; [apply returns_TagServer|]. intros _ _.
  eapply quiet_bind; [by apply returns_record_server|]. intros [[a|] m'] Ha;
    [by apply quiet_ret|]. returns_go.
Qed.

Definition nil_ip : string := "nil pointer dereference: ip".

Definition watched_outcome (o : outcome (answer * CSMachine.t)) : Prop :=
  match o with Done (a, _) => watched a = true | Panicked why => why = nil_ip end.

Lemma wp_addresses c s ck :
  wp clockI (GetServerAddressesWithClient c s)
     (fun o _ => match o with Done _ => True | Panicked why => why = nil_ip end) ck.
Proof.
  unfold GetServerAddressesWithClient. destruct s as [s|]; [|by apply wp_ret].
  wp_call seed Hs. apply wp_bind. clear Hs. revert g'.
  generalize (@nil Address) at 1. induction (permute _ _) as [|u l IH]; intros addrs ck'; [by apply wp_ret|].
  simpl. apply wp_bind, wp_bind. unfold GetIP, cloud. apply wp_eff; [done|]. intros x ck2 _.
  destruct x as [[ip|]|resp err]; apply wp_ret; [case_decide|by apply wp_panic|];
    apply wp_ret, IH.
Qed.

Lemma wp_update_server_watched c m s ck :
  wp clockI (update_server c m s) (fun o _ => watched_outcome o) ck.
Proof.
  unfold update_server. cbv zeta. eapply (wp_seq _ _ _ (fun _ _ => True)).
  { apply clock_returns. unfold ensure_provider_id. returns_go. }
  intros [[err|] m1] ck1 _; [by apply wp_ret|].
  apply wp_bind. eapply wp_mono; [|apply wp_addresses].
  intros [r|why] ck2 Hw; [|exact Hw].
  set (addrs := match r with Ok l => l | Err _ => [] end).
  eapply (wp_mono _ _ (ok (fun r _ => watched r.1 = true))).
  { intros [[a m']|] g; simpl; [done|by intros []]. }
  apply clock_returns. returns_go.
Qed.

Lemma wp_reconcileNormal_watched c machine m ck :
  wp clockI (reconcileNormal c machine m) (fun o _ => watched_outcome o) ck.
Proof.
  unfold reconcileNormal. eapply (wp_seq _ _ _ (fun _ _ => True)).
  { apply clock_returns. unfold ensure_finalizer. returns_go. }
  intros [[err|] m1] ck1 _; [by apply wp_ret|].
  eapply wp_seq; [apply clock_returns, returns_check_existing|]. intros st ck2 Hst.
  apply (wp_seq _ _ _ (fun st _ => watched_stage st = true)).
  { destruct st as [a m2|server m2]; [by apply wp_ret|].
    case_decide; [apply wp_find_or_create_watched|by apply wp_ret]. }
  intros [a m3|[s|] m3] ck3 Hst'; [by apply wp_ret|apply wp_update_server_watched|by apply wp_ret].
Qed.

(** What a reconciliation reads to see whether there is something to do. *)
Inductive read_event :=
| MachineRead (x : result CSMachine.t)
| OwnerRead (x : result (option Machine.t))
| ClusterOf (x : result Cluster.t).

Definition read_view : view Eff read_event := fun X e =>
  match e in Eff _ return X -> list read_event with
  | ECapi pe =>
      match pe in CapiE Y return Y -> list read_event with
      | CSMachineGet _ _ => fun x => [MachineRead x]
      | GetOwnerMachine _ => fun x => [OwnerRead x]
      | GetClusterFromMetadata _ => fun x => [ClusterOf x]
      | _ => fun _ => []
      end
  | _ => fun _ => []
  end.

(** The machines that a reconciliation may leave alone: those that are gone, have
    no owner yet, whose cluster cannot be read, that are paused, or deleted. *)
Inductive set_aside : list read_event -> Prop :=
| aside_gone err : IsNotFound err = true -> set_aside [MachineRead (Err err)]
| aside_orphan m : set_aside [MachineRead (Ok m); OwnerRead (Ok None)]
| aside_clusterless m owner err :
    set_aside [MachineRead (Ok m); OwnerRead (Ok (Some owner)); ClusterOf (Err err)]
| aside_paused m owner c :
    IsPaused c (CSMachine.Paused m) = true ->
    set_aside [MachineRead (Ok m); OwnerRead (Ok (Some owner)); ClusterOf (Ok c)]
| aside_deleted m l : CSMachine.Deleted m = true -> set_aside (MachineRead (Ok m) :: l).

Definition reconciled_again (o : outcome answer) (l : list read_event) : Prop :=
  match o with
  | Done a => watched a = true \/ set_aside l
  | Panicked why => why = nil_ip
  end.

Lemma returns_getCloudClient r c : returns (getCloudClient r c) (fun _ => True).
Proof. unfold getCloudClient, getUserEmail, NewClientWithImpersonation. cbv zeta. returns_go. Qed.

(** Calls that do not read the machine, its owner or its cluster. *)
Definition reads_nothing (X : Type) (e : Eff X) : Prop :=
  match e with
  | ECapi (CSMachineGet _ _) | ECapi (GetOwnerMachine _) | ECapi (GetClusterFromMetadata _) => False
  | _ => True
  end.

Lemma reads_wait_drive c uuid deadline fuel : only reads_nothing (wait_drive c uuid deadline fuel).
Proof. induction fuel; cbn [wait_drive]; unfold golang, cloud; only_go. Qed.
#[export] Hint Resolve reads_wait_drive : only.

Lemma reads_GetServer c uuid : only reads_nothing (GetServer c uuid).
Proof. unfold GetServer. only_cloud. Qed.

Lemma reads_Find c name uid : only reads_nothing (FindServerByNameOrMeta c name uid).
Proof. unfold FindServerByNameOrMeta. only_cloud. Qed.

Lemma reads_record_server retry m s : only reads_nothing (record_server retry m s).
Proof. unfold record_server, StatusUpdate, Update. only_cloud. Qed.

Lemma reads_CreateServer c spec : only reads_nothing (CreateServer c spec).
Proof.
  unfold CreateServer, clone_all, createServerDirect, delete_all, DeleteDrive. apply only_bind.
  { apply only_for_range. intros [i disk] cs. unfold CloneDrive, WaitForDriveReady. only_cloud. }
  only_cloud.
Qed.

Lemma reads_TagServer cl uuid cluster pool : only reads_nothing (TagServer cl uuid cluster pool).
Proof. unfold TagServer, tagAll, ensureTag. only_cloud. Qed.

Lemma reads_UntagServer cl uuid : only reads_nothing (UntagServer cl uuid).
Proof. unfold UntagServer, untagAll. only_cloud. Qed.
#[export] Hint Resolve reads_GetServer reads_Find reads_record_server reads_CreateServer
  reads_TagServer reads_UntagServer : only.

Lemma reads_reconcileNormal c machine m : only reads_nothing (reconcileNormal c machine m).
Proof.
  unfold reconcileNormal, ensure_finalizer, check_existing, clear_instance, find_or_create,
    create_server, getBootstrapData, update_server, ensure_provider_id,
    GetServerAddressesWithClient, StartServer, GetIP, StatusUpdate, Update. only_cloud.
Qed.

Lemma reads_reconcileDelete c m : only reads_nothing (reconcileDelete c m).
Proof.
  unfold reconcileDelete, remove_finalizer, delete_server, wait_stopped, DeleteServer, StopServer,
    delete_all, DeleteDrive, DeleteIP, Update. only_cloud.
Qed.

Abbreviation readI := (with_log read_view clockI).

Lemma wp_unread {A} (p : go A) (P : outcome A -> Prop) ck l :
  only reads_nothing p -> wp clockI p (fun o _ => P o) ck ->
  wp readI p (fun o gl => P o /\ gl.2 = l) (ck, l).
Proof.
  intros Ho Hp. apply (wp_conj readI p (fun o _ => P o) (fun _ gl => gl.2 = l)).
  - by apply (wp_with_log read_view clockI p (fun o _ => P o)).
  - apply (only_wp reads_nothing readI (fun gl => gl.2 = l)); [done| |done|done].
    intros X e [g k] x [g' k'] He [_ Hk] Hl. cbn in *. subst.
    revert x. destruct e as [cl ce|he|ke|oe|te|ge|pe|se]; intros x; try apply app_nil_r.
    destruct pe; (done || apply app_nil_r).
Qed.

(** C31. A machine is never forgotten: each of its reconciliations, on every branch,
    fails or is scheduled to run again, unless the machine is gone, has no owner
    yet, is paused or being deleted, or its cluster cannot be read; and it returns
    (an IP that is nil without an error is the only panic). *)
Theorem Reconcile_watches {W} (h : handler Eff W) `{!ClockState h, !ClockedCloud h} r ns name w :
  let '(o, l) := observe read_view h (Reconcile r ns name) w in reconciled_again o l.
Proof.
  destruct (clock_exists w) as [ck Hck].
  apply (wp_observe_with read_view h _ _ _ w ck reconciled_again clock_laws Hck).
  assert (Hfin : forall a (gl : clock * list read_event), watched a = true \/ set_aside gl.2 ->
    wp readI (Ret a) (fun o gl => reconciled_again o gl.2) gl) by (intros a gl Ha; by apply wp_ret).
  unfold Reconcile. wp_call x Hx. destruct g' as [ck1 l]. cbn in Hx. destruct Hx as [_ ->].
  destruct x as [m|err].
  2:{ apply Hfin. destruct (IsNotFound err) eqn:E; [right; by constructor|by left]. }
  wp_call x Hx. destruct g' as [ck2 l]. cbn in Hx. destruct Hx as [_ ->].
  destruct x as [[owner|]|err]; [|apply Hfin; right; constructor|apply Hfin; by left].
  wp_call x Hx. destruct g' as [ck3 l]. cbn in Hx. destruct Hx as [_ ->].
  destruct x as [cluster|err]; [|apply Hfin; right; constructor].
  destruct (IsPaused _ _) eqn:Hp; [apply Hfin; right; by constructor|].
  wp_call x Hx. destruct g' as [ck4 l]. cbn in Hx. destruct Hx as [_ ->].
  cbn [app]. set (l := [_; _; _]).
  apply wp_bind. eapply wp_mono; [|eapply (wp_unread _ (fun o => exists y, o = Done y))].
  3:{ eapply wp_mono; [|apply clock_returns, returns_getCloudClient]. intros [y|] g; cbn; [eauto|done]. }
  2:{ unfold getCloudClient, getUserEmail, NewClientWithImpersonation. only_cloud. }
  intros o [ck5 l5] [[y ->] Hl]. cbn in Hl. subst l5. destruct y as [cl|err].
  2:{ apply Hfin. left. unfold without_client. by destruct (_ && _ && _). }
  apply wp_bind. destruct (CSMachine.Deleted m) eqn:Hd.
  - eapply wp_mono; [|eapply (wp_unread _ (fun o => exists y, o = Done y));
      [apply reads_reconcileDelete|]].
    + intros o [g k] [[[a m'] ->] Hk]. cbn in Hk. subst k. apply Hfin. right. by constructor.
    + eapply wp_mono; [|apply clock_returns; eapply (any_quiet deletion_view); [done|apply wp_reconcileDelete]].
      intros [y|] g; cbn; [eauto|done].
  - eapply wp_mono; [|eapply (wp_unread _ watched_outcome);
      [apply reads_reconcileNormal|apply wp_reconcileNormal_watched]].
    intros [[a m']|why] [g k]; cbn; [|by intros []]. intros [Ha _]. apply Hfin. by left.
Qed.

(** ** What the controller writes *)

Inductive machine_event :=
| SpecWritten (m : CSMachine.t) (ok : bool)
| StatusWritten (m : CSMachine.t) (ok : bool)
| StartAsked (uuid : string)
| SecretRead (ns name : string) (x : result (gmap string string)).

Definition is_ok {A} (x : result A) : bool := match x with Ok _ => true | Err _ => false end.

Definition machine_view : view Eff machine_event := fun X e =>
  match e in Eff _ return X -> list machine_event with
  | ECloud _ ce =>
      match ce in CloudE Y return Y -> list machine_event with
      | ServersStart uuid => fun _ => [StartAsked uuid]
      | _ => fun _ => []
      end
  | ECapi pe =>
      match pe in CapiE Y return Y -> list machine_event with
      | CSMachineUpdate m => fun x => [SpecWritten m (is_ok x)]
      | CSMachineStatusUpdate m => fun x => [StatusWritten m (is_ok x)]
      | SecretData ns name => fun x => [SecretRead ns name x]
      | _ => fun _ => []
      end
  | _ => fun _ => []
  end.

Abbreviation machineI := (anyI machine_view).

Lemma wp_Update_written m l :
  wp machineI (Update m) (ok (fun r l' =>
    l' = l ++ [SpecWritten m (bool_decide (r.1 = None))])) l.
Proof.
  unfold Update. wp_call x Hx. subst g'. destruct x; apply wp_ret; cbn; done.
Qed.

Lemma wp_StatusUpdate_written m l :
  wp machineI (StatusUpdate m) (ok (fun r l' =>
    l' = l ++ [StatusWritten m (bool_decide (r.1 = None))])) l.
Proof.
  unfold StatusUpdate. wp_call x Hx. subst g'. destruct x; apply wp_ret; cbn; done.
Qed.


(** The provider ID names the server to the components that read it from the
    node. *)
Lemma provider_id_node node uuid :
  Node.ProviderID node = provider_id uuid -> getNodeUUID node = uuid.
Proof.
  intros H. unfold getNodeUUID. rewrite H. rewrite decide_False by done.
  unfold provider_id. rewrite HasPrefix_app. apply (str_drop_app "cloudsigma://").
Qed.

(** The writes of [record_server]: the status, and after it the spec, whose
    provider ID names the server. *)
Definition identity_written (retry : Z) (s : Server.t) (r : option answer)
    (l : list machine_event) : Prop :=
  exists st, CSMachine.InstanceID st = Server.UUID s /\
    CSMachine.InstanceState st = Server.Status s /\
    (l = [StatusWritten st false] /\ r = Some (requeue retry) \/
     exists sp ok, l = [StatusWritten st true; SpecWritten sp ok] /\
       r = (if ok then None else Some (requeue 5)) /\
       forall node, ProviderID (CSMachine.Spec sp) = Some (Node.ProviderID node) ->
                    getNodeUUID node = Server.UUID s).

(** Recording a server, in every environment: its UUID and state are written
    to the status first; only after that succeeded the provider ID is written, and
    the cloud controller manager reads the same UUID back from a node that has
    that provider ID.  When the function goes on, both were written. *)
Theorem record_server_identity {W} (h : handler Eff W) retry m s w :
  let '(o, l) := observe machine_view h (record_server retry m s) w in
  exists r m', o = Done (r, m') /\ identity_written retry s r l.
Proof.
  apply (observe_intro machine_view h (record_server retry m s) w (fun o l =>
    exists r m', o = Done (r, m') /\ identity_written retry s r l)).
  unfold record_server. cbv zeta. eapply wp_seq; [apply wp_StatusUpdate_written|].
  set (st := CSMachine.set_Instance m _ _).
  intros [[err|] m1] l1 ->; cbn [fst snd].
  { apply wp_ret. eexists _, _. split; [done|]. exists st. split_and!; [done..|]. by left. }
  eapply wp_seq; [apply wp_Update_written|]. intros [err m2] l2 ->. cbn [fst snd].
  assert (Hid : forall node, Some (provider_id (Server.UUID s)) = Some (Node.ProviderID node) ->
                  getNodeUUID node = Server.UUID s).
  { intros node [= Hn]. by apply provider_id_node. }
  destruct err; apply wp_ret; eexists _, _; (split; [done|]); exists st;
    (split_and!; [done..|]); right; eexists _, _; by split_and!.
Qed.

(** The writes of [update_server] after the provider ID is right: the state, and
    by the server's status a request to start it or the readiness. *)
Definition readiness_written (s : Server.t) (l : list machine_event) : Prop :=
  exists m1 ok1 rest, l = StatusWritten m1 ok1 :: rest /\
  if decide (Server.Status s = "stopped") then rest = [StartAsked (Server.UUID s)]
  else exists m2 ok2, rest = [StatusWritten m2 ok2] /\
    if decide (Server.Status s = "running") then
      CSMachine.Ready m2 = true /\ CSMachine.Conditions m2 !! ServerReadyCondition = Some (true, "")
    else
      CSMachine.Ready m2 = false /\
      CSMachine.Conditions m2 !! ServerReadyCondition = Some (false, ServerNotRunningReason).

(** The write of the provider ID, if there is one. *)
Definition provider_written (s : Server.t) (ok : bool) (l : list machine_event) : Prop :=
  exists m, l = [SpecWritten m ok] /\
            ProviderID (CSMachine.Spec m) = Some (provider_id (Server.UUID s)).

Definition update_written (s : Server.t) (l : list machine_event) : Prop :=
  provider_written s false l \/
  exists pre rest, l = pre ++ rest /\ (pre = [] \/ provider_written s true pre) /\
    readiness_written s rest.

Lemma wp_ensure_provider_id m s l :
  wp machineI (ensure_provider_id m s) (ok (fun r l' =>
    match r.1 with
    | Some _ => exists pre, l' = l ++ pre /\ provider_written s false pre
    | None => exists pre, l' = l ++ pre /\ (pre = [] \/ provider_written s true pre)
    end)) l.
Proof.
  unfold ensure_provider_id. cbv zeta. case_decide.
  { apply wp_ret. cbn. exists []. rewrite app_nil_r. auto. }
  eapply wp_mono; [|apply wp_Update_written]. intros [[[err|] m']|] l'; simpl; [..|done];
    intros ->; eexists; (split; [done|]); [|right]; by eexists.
Qed.

Lemma wp_StartServer_asked c uuid l :
  wp machineI (StartServer c uuid) (ok (fun _ l' => l' = l ++ [StartAsked uuid])) l.
Proof. unfold StartServer. wp_call x Hx. subst g'. by destruct x; apply wp_ret. Qed.

(** Reading the addresses writes nothing. *)
Lemma wp_addresses_quiet c s l :
  wp machineI (GetServerAddressesWithClient c s)
     (fun o l' => match o with Done _ => l' = l | Panicked why => why = nil_ip end) l.
Proof.
  unfold GetServerAddressesWithClient. destruct s as [s|]; [|by apply wp_ret].
  wp_call seed Hs. cbn in Hs. rewrite app_nil_r in Hs. subst g'. apply wp_bind.
  generalize (@nil Address) at 1. induction (permute _ _) as [|u us IH]; intros addrs; [by apply wp_ret|].
  simpl. apply wp_bind, wp_bind. unfold GetIP, cloud. apply wp_eff; [done|].
  intros x l' ->. cbn [machine_view]. rewrite app_nil_r.
  destruct x as [[ip|]|resp err]; apply wp_ret; [case_decide|by apply wp_panic|];
    apply wp_ret, IH.
Qed.

Lemma wp_update_server_written c m s :
  wp machineI (update_server c m s)
    (fun o l => match o with Done _ => update_written s l | Panicked why => why = nil_ip end) [].
Proof.
  unfold update_server. cbv zeta. eapply wp_seq; [apply wp_ensure_provider_id|].
  intros [[err|] m1] l1 (pre & -> & Hpre); [by apply wp_ret; left|].
  apply wp_bind. eapply wp_mono; [|apply wp_addresses_quiet].
  intros [r|why] l2 Hl2; [subst l2|exact Hl2].
  set (addrs := match r with Ok l => l | Err _ => [] end).
  set (Q := fun l => readiness_written s l).
  assert (Hdone : forall rest, Q rest -> update_written s (pre ++ rest)).
  { intros rest H. right. eauto. }
  eapply wp_seq; [apply wp_StatusUpdate_written|]. intros [e1 m2] l3 ->.
  destruct (decide (Server.Status s = "stopped")) as [Hst|Hst].
  { eapply wp_seq; [apply wp_StartServer_asked|]. intros [err|] l4 ->;
      apply wp_ret; rewrite <- app_assoc; apply Hdone; eexists _, _, _;
      (split; [done|]); by rewrite decide_True. }
  destruct (decide (Server.Status s = "running")) as [Hru|Hru].
  - eapply wp_seq; [apply wp_StatusUpdate_written|]. intros [e2 m3] l4 ->.
    case_decide; apply wp_ret; rewrite <- app_assoc; apply Hdone; eexists _, _, _;
      (split; [done|]); rewrite decide_False by done; eexists _, _; (split; [done|]);
      rewrite decide_True by done; (split; [done|apply lookup_insert_eq]).
  - eapply wp_seq; [apply wp_StatusUpdate_written|]. intros [e2 m3] l4 ->.
    apply wp_ret. rewrite <- app_assoc. apply Hdone. eexists _, _, _.
    split; [done|]. rewrite decide_False by done. eexists _, _. split; [done|].
    rewrite decide_False by done. split; [done|apply lookup_insert_eq].
Qed.

(** Keeping a server, in every environment: the provider ID is written when it
    is not that of the server; then the state; then, by the server's status, a
    stopped server is started, a running one is marked ready and any other is
    marked not ready, with the matching condition. *)
Theorem update_server_readiness {W} (h : handler Eff W) c m s w :
  let '(o, l) := observe machine_view h (update_server c m s) w in
  match o with Done _ => update_written s l | Panicked why => why = nil_ip end.
Proof.
  apply (observe_intro machine_view h (update_server c m s) w (fun o l =>
    match o with Done _ => update_written s l | Panicked why => why = nil_ip end)).
  apply wp_update_server_written.
Qed.

(** ** A concrete account

    One machine object and the servers of an account, over the clock and the
    drives of [sim_servers].  [refused] is the error of every deletion, if any;
    [down] makes the request that creates a server fail. *)

Record sim_world := {
  sw_machine : CSMachine.t;
  sw_servers : list Server.t;
  sw_clock : clock
}.

Definition set_machine (w : sim_world) (m : CSMachine.t) : sim_world :=
  {| sw_machine := m; sw_servers := sw_servers w; sw_clock := sw_clock w |}.
Definition set_servers (w : sim_world) (l : list Server.t) : sim_world :=
  {| sw_machine := sw_machine w; sw_servers := l; sw_clock := sw_clock w |}.

Definition set_status (uuid status : string) (l : list Server.t) : list Server.t :=
  (fun s => if decide (Server.UUID s = uuid)
            then Server.mk (Server.UUID s) (Server.Name s) status (Server.Drives s)
                   (Server.NICs s) (Server.Meta s) (Server.RuntimeNICs s)
            else s) <$> l.

(** Spec and metadata of one object, status of the other. *)
Definition with_status (m st : CSMachine.t) : CSMachine.t :=
  CSMachine.mk (CSMachine.Namespace m) (CSMachine.Name m) (CSMachine.UID m) (CSMachine.Labels m)
    (CSMachine.Finalizers m) (CSMachine.Deleted m) (CSMachine.Paused m) (CSMachine.Spec m)
    (CSMachine.Ready st) (CSMachine.InstanceID st) (CSMachine.InstanceState st)
    (CSMachine.Addresses st) (CSMachine.Conditions st).

Definition sim_capi {X} (e : CapiE X) (w : sim_world) : X * sim_world :=
  match e in CapiE Y return Y * sim_world with
  | CSMachineGet _ _ => (Ok (sw_machine w), w)
  | CSMachineUpdate m =>
      let m' := with_status m (sw_machine w) in (Ok m', set_machine w m')
  | CSMachineStatusUpdate m =>
      let m' := with_status (sw_machine w) m in (Ok m', set_machine w m')
  | GetOwnerMachine _ => (Ok (Some (Machine.mk "ns" "m" (Some "boot"))), w)
  | GetClusterFromMetadata _ => (Ok (Cluster.mk "c" false), w)
  | SecretData _ _ => (Ok {["value" := "#cloud-config"]}, w)
  | e => (deaf_capi e, w)
  end.

Definition sim_account (refused : option error) (down : bool) : handler Eff sim_world :=
  fun X e w =>
  let others := let '(x, ck) := sim_servers "unmounted" X e (sw_clock w) in
    (x, {| sw_machine := sw_machine w; sw_servers := sw_servers w; sw_clock := ck |}) in
  match e in Eff _ return X * sim_world -> X * sim_world with
  | ECloud _ ce =>
      match ce in CloudE Y return Y * sim_world -> Y * sim_world with
      | ServersList => fun _ => (SdkOk (sw_servers w), w)
      | ServersGet uuid => fun _ =>
          (match find (fun s => bool_decide (Server.UUID s = uuid)) (sw_servers w) with
           | Some s => SdkOk s
           | None => SdkErr (Some 404%Z) (ErrNew "no such server")
           end, w)
      | ServersStart uuid => fun _ =>
          (SdkOk tt, set_servers w (set_status uuid "running" (sw_servers w)))
      | ServersDelete uuid => fun _ =>
          match refused with
          | Some err => (SdkErr (Some 403%Z) err, w)
          | None =>
              (SdkOk tt, set_servers w (filter (fun s => Server.UUID s <> uuid) (sw_servers w)))
          end
      | _ => fun others => others
      end
  | EHttp he =>
      match he in HttpE Y return Y * sim_world -> Y * sim_world with
      | PostServer _ _ s => fun _ =>
          if down then (NoResponse unavailable, w)
          else
            let server := Server.mk ("server-" +:+ itoa (Z.of_nat (length (sw_servers w))))
                            (cs_Name s) "stopped" [] [] (cs_Meta s) [] in
            (Response (201%Z, "", Ok [server]), set_servers w (server :: sw_servers w))
      | _ => fun others => others
      end
  | ECapi pe => fun _ => sim_capi pe w
  | _ => fun others => others
  end others.

#[global] Instance sim_account_servers refused down : AccountState (sim_account refused down) :=
  sw_servers.

Lemma set_status_meta uuid status l :
  (Server.Meta <$> set_status uuid status l) ⊆+ (Server.Meta <$> l).
Proof.
  induction l as [|s l IH]; [done|]. cbn.
  destruct (decide (Server.UUID s = uuid)); by apply submseteq_skip.
Qed.

Lemma account_idle {X} (e : Eff X) g : account_post e g g.
Proof.
  destruct e as [cl ce|[]|ke|oe|te|ge|pe|se]; cbn; try done.
  match goal with |- context [cs_Meta ?s] => exists (Server.mk "" "" "" [] [] (cs_Meta s) []) end.
  split; [done|]. by apply submseteq_cons.
Qed.

Lemma account_same {X} (e : Eff X) g g' : g' = g -> account_post e g g'.
Proof. intros ->. apply account_idle. Qed.

#[global] Instance sim_account_ok refused down : CloudAccount (sim_account refused down).
Proof.
  intros X e w. unfold account_servers, sim_account_servers.
  destruct e as [cl ce|he|ke|oe|te|ge|pe|se]; try (by apply account_same).
  - destruct ce; try (by apply account_same); cbn -[set_status].
    + apply set_status_meta.
    + destruct refused; cbn; [done|]. apply sublist_submseteq, fmap_sublist, sublist_filter.
  - destruct he; try (by apply account_same). destruct down; [by apply account_same|]. cbn.
    exists (Server.mk "" "" "" [] [] (cs_Meta server) []). done.
  - destruct ge; by apply account_same.
  - destruct pe; by apply account_same.
Qed.

#[global] Instance sim_account_clock refused down : ClockState (sim_account refused down) :=
  fun w c => sw_clock w = c.

#[global] Instance sim_account_clocked refused down : ClockedCloud (sim_account refused down).
Proof.
  split; [|by eexists]. intros X e w c HR _. unfold clock_state, sim_account_clock in *. subst c.
  destruct (clock_laws (h := sim_servers "unmounted") X e (sw_clock w) (sw_clock w)
              eq_refl Logic.I) as (c' & Hpost & Hc).
  unfold clock_state, sim_servers_clock in Hc. subst c'.
  eexists. split; [|reflexivity].
  destruct e as [cl ce|he|ke|oe|te|ge|pe|se]; try done.
  - destruct ce; try done; cbn; by destruct refused.
  - destruct he; try done; cbn; by destruct down.
  - by destruct ge.
  - destruct pe; done.
Qed.

Definition sim_reconciler : CloudSigmaMachineReconciler :=
  {| LegacyCredentialsEnabled := true; CloudSigmaUsername := "svc"; CloudSigmaPassword := "pw";
     CloudSigmaRegion := "zrh"; ImpersonationClient := true |}.

Definition wit_machine (deleted ready : bool) (instance : string) : CSMachine.t :=
  CSMachine.mk "ns" "worker" "uid-1" ∅ [CloudSigmaMachineFinalizer] deleted false
    {| ProviderID := None; CPU := 2000; Memory := 4096;
       Disks := [{| disk_UUID := "image"; disk_Device := "virtio"; disk_BootOrder := 1;
                    disk_Size := 10737418240 |}];
       NICs := []; Tags := []; Meta := {["machine-uid" := "spoofed"]} |}
    ready instance "" [] ∅.

Definition wit_server (status : string) : Server.t :=
  Server.mk "s1" "worker" status [] [] {["machine-uid" := "uid-1"]} [].

Definition world0 (m : CSMachine.t) (servers : list Server.t) : sim_world :=
  {| sw_machine := m; sw_servers := servers; sw_clock := clock0 |}.

Definition reconcile_once (refused : option error) (down : bool) (w : sim_world) : sim_world :=
  (run (sim_account refused down) (Reconcile sim_reconciler "ns" "worker") w).2.

(** The first reconciliation creates the server and starts it, the second finds
    it running. *)
Example create_then_ready :
  let w := reconcile_once None false
             (reconcile_once None false (world0 (wit_machine false false "") [])) in
  length (sw_servers w) = 1%nat /\ CSMachine.InstanceID (sw_machine w) = "server-0" /\
  CSMachine.Ready (sw_machine w) = true /\
  ProviderID (CSMachine.Spec (sw_machine w)) = Some "cloudsigma://server-0".
Proof. by vm_compute. Qed.

(** A deletion that is refused because the server is still stopping releases the
    machine: its object goes away and its server stays. *)
Example refused_deletion_orphans :
  let w := reconcile_once (Some (ErrNew "cannot delete server in state 'stopping'")) false
             (world0 (wit_machine true true "s1") [wit_server "stopped"]) in
  CSMachine.Finalizers (sw_machine w) = [] /\ sw_servers w = [wit_server "stopped"].
Proof. by vm_compute. Qed.

(** A ready machine whose server has stopped stays ready. *)
Example stopped_stays_ready :
  let w := reconcile_once None false
             (world0 (wit_machine false true "s1") [wit_server "stopped"]) in
  CSMachine.InstanceState (sw_machine w) = "" /\ CSMachine.Ready (sw_machine w) = true.
Proof. by vm_compute. Qed.

(** A machine is ready before it has an address. *)
Example ready_without_address :
  let w := reconcile_once None false
             (world0 (wit_machine false false "s1") [wit_server "running"]) in
  CSMachine.Ready (sw_machine w) = true /\ CSMachine.Addresses (sw_machine w) = [].
Proof. by vm_compute. Qed.

(** The condition of a failed creation does not reach the stored object. *)
Example create_failure_not_recorded :
  let m := wit_machine false false "" in
  let '(o, w) := run (sim_account None true) (reconcileNormal wit_client
                   (Machine.mk "ns" "m" (Some "boot")) m) (world0 m []) in
  (exists err m', o = Done (failure err, m') /\
     CSMachine.Conditions m' !! ServerReadyCondition = Some (false, ServerCreateFailedReason)) /\
  CSMachine.Conditions (sw_machine w) !! ServerReadyCondition = None.
Proof. vm_compute. split; [by eexists _, _|done]. Qed.

(** When the cluster object cannot be read, for whatever reason, a machine of an
    impersonated user is reconciled with the legacy account. *)
Example unreadable_cluster_changes_account :
  (run (sim_account None false)
     (let* x := capi (CSClusterGet "ns" "c") in
      getCloudClient sim_reconciler (match x with Ok c => Some c | Err _ => None end))
     (world0 (wit_machine false true "s1") [])).1
  = Done (NewClient "svc" "pw" "zrh").
Proof. by vm_compute. Qed.

(** An API that lags behind: its listing does not show the new server yet, and the
    status that names it cannot be written. *)
Definition sim_lagging : handler Eff sim_world := fun X e w =>
  match e in Eff _ return X * sim_world with
  | ECloud cl ce =>
      match ce in CloudE Y return Y * sim_world with
      | ServersList => (SdkOk [], w)
      | ce => sim_account None false _ (ECloud cl ce) w
      end
  | ECapi pe =>
      match pe in CapiE Y return Y * sim_world with
      | CSMachineStatusUpdate _ => (Err unavailable, w)
      | pe => sim_account None false _ (ECapi pe) w
      end
  | e => sim_account None false _ e w
  end.

#[global] Instance sim_lagging_servers : AccountState sim_lagging := sw_servers.

#[global] Instance sim_lagging_ok : CloudAccount sim_lagging.
Proof.
  intros X e w. pose proof (sim_account_ok None false X e w) as H.
  destruct e as [cl ce|he|ke|oe|te|ge|pe|se]; try exact H.
  - by destruct ce.
  - by destruct pe.
Qed.

Definition reconcile_lagging (s : sim_world * ledger) : sim_world * ledger :=
  (run (overseen sim_lagging) (Reconcile sim_reconciler "ns" "worker") s).2.

(** Two reconciliations create two servers there, the second one overlooking the
    first. *)
Definition lagged : sim_world * ledger :=
  reconcile_lagging (reconcile_lagging (world0 (wit_machine false false "") [], new_ledger)).

Example lagging_listing_duplicates :
  carriers "uid-1" (sw_servers lagged.1) = 2%nat /\ overlooked lagged.2 "uid-1" = 1%nat.
Proof. by vm_compute. Qed.

Lemma no_duplicate_servers_witness :
  (carriers "uid-1" (account_servers sim_lagging lagged.1) <= 1 + overlooked lagged.2 "uid-1")%nat.
Proof.
  apply (no_duplicate_servers sim_lagging (world0 (wit_machine false false "") [])).
  - intros uid _. unfold carriers. cbn. lia.
  - eapply rtc_l; [apply (step_reconcile sim_lagging sim_reconciler "ns" "worker")|].
    apply rtc_once. rewrite <- surjective_pairing.
    apply (step_reconcile sim_lagging sim_reconciler "ns" "worker").
  - done.
Defined.

Lemma Reconcile_watches_witness :
  let '(o, l) := observe read_view (sim_account None false) (Reconcile sim_reconciler "ns" "worker")
                   (world0 (wit_machine false false "") []) in reconciled_again o l.
Proof. apply (Reconcile_watches (sim_account None false)). Defined.
