(* ===== verification/MachineTypes.v ===== *)
(** * What a machine object may hold

    The validation markers of [api/v1beta1/cloudsigmamachine_types.go], as a
    predicate on specs, and what they guarantee of the servers the machine
    controller asks for: a judgement [yields P p] for the programs that create
    only well-formed servers, write only valid objects and return values with
    [P], its rules, and one lemma per function of the controller. *)

From S2P Require Import Prelude Effects GoErrors ApiTypes World Tags Servers Base64.
From S2P Require Import LoadBalancer MachineController.

(** ** Valid specs *)

Definition valid_device (device : string) : bool :=
  bool_decide (device ∈ ["virtio"; "ide"]).

Definition valid_conf (conf : string) : bool :=
  bool_decide (conf ∈ ["dhcp"; "static"; "manual"]).

Definition valid_disk (d : CloudSigmaDisk) : bool := valid_device (disk_Device d).

Definition valid_nic (n : CloudSigmaNIC) : bool := valid_conf (ipconf_Conf (nic_IPv4Conf n)).

Definition in_range (lo hi z : Z) : bool := (lo <=? z)%Z && (z <=? hi)%Z.

Definition valid_spec (s : CloudSigmaMachineSpec) : bool :=
  in_range 1000 100000 (CPU s) && in_range 512 524288 (Memory s) &&
  (1 <=? length (Disks s))%nat && forallb valid_disk (Disks s) && forallb valid_nic (NICs s).

Definition valid_machine (m : CSMachine.t) : bool := valid_spec (CSMachine.Spec m).

(** ** Well-formed servers

    The memory is that number of megabytes in bytes, without overflow. *)

Record well_formed (s : CustomServer) : Prop := {
  wf_CPU : (1000 <= cs_CPU s <= 100000)%Z;
  wf_Memory : exists mb, (512 <= mb <= 524288)%Z /\ cs_Memory s = (mb * 1048576)%Z;
  wf_Drives : cs_Drives s <> [] /\
    Forall (fun d => valid_device (csd_Device d) = true /\
                     csd_DevChannel d = "0:" +:+ itoa (csd_BootOrder d)) (cs_Drives s);
  wf_NICs : cs_NICs s <> [] /\
    Forall (fun n => exists c, csn_IPv4Conf n = Some c /\ valid_conf (cic_Conf c) = true /\
                       (csn_VLAN n = "" -> cic_Conf c = "dhcp" /\ cic_IP c = None)) (cs_NICs s);
  wf_Owner : is_Some (cs_Meta s !! "machine-uid")
}.

Lemma memory_bytes_exact mb : (512 <= mb <= 524288)%Z -> memory_bytes mb = (mb * 1048576)%Z.
Proof. intros H. unfold memory_bytes. rewrite (wrap64_id (mb * 1024)), wrap64_id; unfold int64; lia. Qed.

Lemma custom_nic_well_formed n :
  valid_nic n = true ->
  exists c, csn_IPv4Conf (custom_nic n) = Some c /\ valid_conf (cic_Conf c) = true /\
    (csn_VLAN (custom_nic n) = "" -> cic_Conf c = "dhcp" /\ cic_IP c = None).
Proof.
  unfold valid_nic, custom_nic. intros Hn. case_decide as Hv; [|by eexists].
  rewrite decide_True by (intros E; by rewrite E in Hn).
  eexists. split; [done|]. by split.
Qed.

Lemma custom_server_well_formed m data clones :
  valid_machine m = true -> length clones = length (Disks (CSMachine.Spec m)) ->
  well_formed (custom_server (machine_spec m data) clones).
Proof.
  unfold valid_machine, valid_spec, in_range. intros Hv Hlen.
  apply andb_prop in Hv as [[[[Hcpu Hmem]%andb_prop Hn]%andb_prop Hd]%andb_prop Hnics].
  apply andb_prop in Hcpu as [?%Z.leb_le ?%Z.leb_le], Hmem as [?%Z.leb_le ?%Z.leb_le].
  apply Nat.leb_le in Hn. rewrite forallb_forall in Hd, Hnics.
  split; cbn [custom_server cs_CPU cs_Memory cs_Drives cs_NICs cs_Meta machine_spec spec_CPU
              spec_Memory spec_Disks spec_NICs].
  - lia.
  - eexists. rewrite memory_bytes_exact; [|lia]. done.
  - split.
    + destruct (Disks _), clones; cbn in *; [lia..|done].
    + apply Forall_lookup. intros i d Hi.
      apply lookup_zip_with_Some in Hi as (disk & u & -> & Hi & _).
      split; [|done]. apply Hd, list_elem_of_In. by eapply list_elem_of_lookup_2.
  - destruct (NICs _) as [|n nics]; cbn [custom_nics]; (split; [done|]).
    + repeat constructor. by eexists.
    + apply Forall_fmap, Forall_forall. intros n' Hn'. apply custom_nic_well_formed, Hnics.
      by apply list_elem_of_In.
  - exists (CSMachine.UID m). exact (machine_uid_meta m data []).
Qed.

(** ** The judgement

    What the code relies on: the API server answers only valid machine objects,
    whether it reads one or has stored one. *)

Definition admissionI : iface Eff unit :=
  Iface
    (fun _ e _ =>
       match e with
       | EHttp (PostServer _ _ s) => well_formed s
       | ECapi (CSMachineUpdate m) | ECapi (CSMachineStatusUpdate m) => valid_machine m = true
       | _ => True
       end)
    (fun _ e _ =>
       match e in Eff _ return _ -> unit -> Prop with
       | ECapi pe =>
           match pe in CapiE Y return Y -> unit -> Prop with
           | CSMachineGet _ _ | CSMachineUpdate _ | CSMachineStatusUpdate _ =>
               fun x _ => forall m, x = Ok m -> valid_machine m = true
           | _ => fun _ _ => True
           end
       | _ => fun _ _ => True
       end).

(** The interface between the API server and the controller: the worlds whose
    machine objects are valid, and the behaviour above. *)
Class MachineStore {W} (h : handler Eff W) := valid_store : W -> Prop.
#[global] Arguments valid_store {W} h {_} w.

Class ValidatingStore {W} (h : handler Eff W) `{!MachineStore h} : Prop :=
  admission_laws : implements h (fun w _ => valid_store h w) admissionI.

(** [p] creates only well-formed servers, writes only valid objects, and what it
    returns has [P]. *)
Definition yields {A} (P : A -> Prop) (p : go A) : Prop :=
  wp admissionI p (fun o _ => match o with Done a => P a | Panicked _ => True end) tt.

Lemma yields_ret {A} (P : A -> Prop) a : P a -> yields P (Ret a).
Proof. done. Qed.

Lemma yields_bind {A B} (P : A -> Prop) (Q : B -> Prop) (p : go A) (f : A -> go B) :
  yields P p -> (forall a, P a -> yields Q (f a)) -> yields Q (let* x := p in f x).
Proof.
  intros Hp Hf. apply wp_bind. eapply wp_mono; [|exact Hp]. intros [a|why] []; [apply Hf|done].
Qed.

(** Calls below the controller are typed in every way. *)
Lemma yields_below {A B} (Q : B -> Prop) (p : go A) (f : A -> go B) :
  only server_calls p -> (forall a, yields Q (f a)) -> yields Q (let* x := p in f x).
Proof.
  intros Hp Hf. apply (yields_bind (fun _ => True)); [|by intros a _].
  eapply wp_mono; [|apply (only_wp server_calls admissionI (fun _ => True) p tt); [|done..|exact Hp|done]].
  - by intros [].
  - intros X e [] He _. by destruct e as [|[]| | | | |[]|].
Qed.

Lemma yields_for_range {A T R} (Inv : list A -> T -> Prop) (P : T + R -> Prop) (l : list A) s
    (body : A -> T -> go (ctl T R)) :
  Inv l s ->
  (forall x l' s', Inv (x :: l') s' ->
     yields (fun c => match c with
                      | Next s'' => Inv l' s''
                      | Break s'' => P (inl s'')
                      | Return r => P (inr r)
                      end) (body x s')) ->
  (forall s', Inv [] s' -> P (inl s')) ->
  yields P (for_range l s body).
Proof.
  revert s. induction l as [|x l IH]; intros s Hs Hbody Hdone; [by apply Hdone|].
  eapply yields_bind; [by apply Hbody|]. intros [s'|s'|r] Hc; [|done..]. by apply IH.
Qed.

Lemma yields_get ns name : yields (fun x => forall m, x = Ok m -> valid_machine m = true)
  (capi (CSMachineGet ns name)).
Proof. split; [done|]. intros x [] Hx. exact Hx. Qed.

(** ** The functions of the controller *)

(** What they return is typed when the object in memory is. *)
Definition typed_pair {A} (r : A * CSMachine.t) : Prop := valid_machine r.2 = true.

Definition typed_stage (st : stage) : Prop :=
  match st with Stop _ m | Proceed _ m => valid_machine m = true end.

Lemma yields_Update m : valid_machine m = true -> yields typed_pair (Update m).
Proof. intros Hm. split; [done|]. intros [m'|err] [] Hx; [by apply Hx|done]. Qed.

Lemma yields_StatusUpdate m : valid_machine m = true -> yields typed_pair (StatusUpdate m).
Proof. intros Hm. split; [done|]. intros [m'|err] [] Hx; [by apply Hx|done]. Qed.

Create HintDb yields.
#[export] Hint Resolve yields_Update yields_StatusUpdate : yields.

(** Apply the rule for the head of the program: a function of the controller is
    looked up, the others are below it. *)
Ltac yields_step :=
  lazymatch goal with
  | |- yields _ (Ret _) => apply yields_ret
  | |- yields _ (Panic _) => exact Logic.I
  | |- yields _ (bind (Ret ?a) ?f) => change (bind (Ret a) f) with (f a); cbv beta
  | |- yields _ (bind _ _) =>
      first [ eapply yields_bind; [solve [eauto with yields nocore] | intros [] ?]
            | eapply yields_bind; [solve [eauto with yields nocore] | intros ? ?]
            | apply yields_below; [solve [only_cloud] | intros ?] ]
  | |- yields _ (if ?b then _ else _) => destruct b
  | |- yields _ (match ?r with _ => _ end) => destruct r
  end.

Ltac yields_go :=
  repeat (first [ done | solve [eauto with yields nocore] | yields_step
                | progress cbv zeta ]).

Lemma yields_record_server retry m s :
  valid_machine m = true -> yields typed_pair (record_server retry m s).
Proof. intros Hm. unfold record_server. yields_go. Qed.

Lemma yields_clear_instance m :
  valid_machine m = true -> yields (fun m => valid_machine m = true) (clear_instance m).
Proof. intros Hm. unfold clear_instance. yields_go. Qed.

Lemma yields_ensure_finalizer m :
  valid_machine m = true -> yields typed_pair (ensure_finalizer m).
Proof. intros Hm. unfold ensure_finalizer. yields_go. Qed.
#[export] Hint Resolve yields_record_server yields_clear_instance yields_ensure_finalizer : yields.

Lemma yields_check_existing c m :
  valid_machine m = true -> yields typed_stage (check_existing c m).
Proof. intros Hm. unfold check_existing. yields_go. Qed.
#[export] Hint Resolve yields_check_existing : yields.

(** One clone per disk. *)
Lemma yields_clone_all c spec :
  yields (fun r => match r with
                   | inl clones => length clones = length (spec_Disks spec)
                   | inr _ => True
                   end) (clone_all c spec).
Proof.
  unfold clone_all. set (disks := zip (seq 0 (length (spec_Disks spec))) (spec_Disks spec)).
  assert (Hlen : length disks = length (spec_Disks spec)).
  { unfold disks. rewrite length_zip_with, length_seq. lia. }
  apply (yields_for_range (fun todo clones => length clones + length todo = length disks)%nat).
  - done.
  - intros [i disk] todo clones Hn. yields_go. cbn in *. rewrite length_app. cbn. lia.
  - intros clones Hn. cbn in Hn. lia.
Qed.

Lemma yields_createServerDirect c s :
  well_formed s -> yields (fun _ => True) (createServerDirect c s).
Proof.
  intros Hs. unfold createServerDirect, http. apply (yields_bind (fun _ => True)); [by split|].
  intros x _. yields_go.
Qed.

Lemma yields_CreateServer c m data :
  valid_machine m = true -> yields (fun _ => True) (CreateServer c (machine_spec m data)).
Proof.
  intros Hm. unfold CreateServer. eapply yields_bind; [apply yields_clone_all|].
  intros [clones|err] Hlen; [|done].
  eapply yields_bind; [by apply yields_createServerDirect, custom_server_well_formed|].
  intros [server|err] _; yields_go.
Qed.
#[export] Hint Resolve yields_CreateServer : yields.

Lemma yields_create_server c machine m :
  valid_machine m = true -> yields typed_stage (create_server c machine m).
Proof. intros Hm. unfold create_server. yields_go. Qed.
#[export] Hint Resolve yields_create_server : yields.

Lemma yields_find_or_create c machine m :
  valid_machine m = true -> yields typed_stage (find_or_create c machine m).
Proof. intros Hm. unfold find_or_create. yields_go. Qed.

Lemma yields_ensure_provider_id m s :
  valid_machine m = true -> yields typed_pair (ensure_provider_id m s).
Proof. intros Hm. unfold ensure_provider_id. yields_go. Qed.
#[export] Hint Resolve yields_ensure_provider_id : yields.

Lemma yields_update_server c m s :
  valid_machine m = true -> yields typed_pair (update_server c m s).
Proof.
  intros Hm. unfold update_server. yields_go. eapply yields_bind.
  { apply yields_StatusUpdate. by case_decide. }
  intros [err m'] Hm'. yields_go.
Qed.
#[export] Hint Resolve yields_find_or_create yields_update_server : yields.

Lemma yields_reconcileNormal c machine m :
  valid_machine m = true -> yields typed_pair (reconcileNormal c machine m).
Proof.
  intros Hm. unfold reconcileNormal.
  eapply yields_bind; [by apply yields_ensure_finalizer|]. intros [[err|] m1] Hm1; [done|].
  eapply yields_bind; [by apply yields_check_existing|]. intros st Hst.
  apply (yields_bind typed_stage); [destruct st; yields_go|].
  intros [r m2|[server|] m2] Hm2; yields_go.
Qed.

Lemma only_delete_server c uuid s : only server_calls (delete_server c uuid s).
Proof. unfold delete_server, wait_stopped. only_cloud. Qed.
#[export] Hint Resolve only_delete_server : only.

Lemma yields_remove_finalizer what m :
  valid_machine m = true -> yields typed_pair (remove_finalizer what m).
Proof. intros Hm. unfold remove_finalizer. yields_go. Qed.
#[export] Hint Resolve yields_remove_finalizer : yields.

Lemma yields_reconcileDelete c m :
  valid_machine m = true -> yields typed_pair (reconcileDelete c m).
Proof. intros Hm. unfold reconcileDelete. yields_go. Qed.
#[export] Hint Resolve yields_reconcileNormal yields_reconcileDelete : yields.

Lemma yields_Reconcile r ns name : yields (fun _ => True) (Reconcile r ns name).
Proof.
  unfold Reconcile. eapply yields_bind; [apply yields_get|].
  intros [m|err] Hm; [|done]. specialize (Hm m eq_refl).
  yields_go. apply (yields_bind typed_pair); [destruct (CSMachine.Deleted m); yields_go|].
  by intros [].
Qed.

(** ** Properties *)

(** What a reconciliation hands out: the servers it asks for and the objects it
    writes. *)
Inductive handed_out :=
| Asked (s : CustomServer)
| Stored (m : CSMachine.t).

Definition typed_view : view Eff handed_out := fun X e =>
  match e in Eff _ return X -> list handed_out with
  | EHttp he =>
      match he in HttpE Y return Y -> list handed_out with
      | PostServer _ _ s => fun _ => [Asked s]
      | _ => fun _ => []
      end
  | ECapi pe =>
      match pe in CapiE Y return Y -> list handed_out with
      | CSMachineUpdate m | CSMachineStatusUpdate m => fun _ => [Stored m]
      | _ => fun _ => []
      end
  | _ => fun _ => []
  end.

Definition well_typed (x : handed_out) : Prop :=
  match x with Asked s => well_formed s | Stored m => valid_machine m = true end.

Lemma typed_view_pre {X} (e : Eff X) g x :
  i_pre admissionI e g -> Forall well_typed (typed_view X e x).
Proof.
  revert x. destruct e as [|[]| | | | |[]|]; cbn; intros x H;
    try exact (Forall_nil_2 _); by apply Forall_singleton.
Qed.

(** C10. Types are preserved: when the API server admits only valid machine objects
    (the markers of the types), every server a reconciliation asks for is well
    formed (its CPU and memory are in range and the memory in bytes does not
    overflow, it has drives and NICs, their devices and configurations are those
    the cloud knows, and it carries the UID of a machine), and every machine
    object it writes is valid again; whatever the cloud answers. *)
Theorem machine_types_preserved {W} (h : handler Eff W) `{!MachineStore h, !ValidatingStore h}
    r ns name w (Hw : valid_store h w) :
  Forall well_typed (observe typed_view h (Reconcile r ns name) w).2.
Proof.
  apply (wp_events typed_view well_typed h (fun w _ => valid_store h w) admissionI _
           (fun _ _ => True) w tt); [|exact admission_laws|done|].
  - intros X e g x. apply typed_view_pre.
  - eapply wp_mono; [done|]. apply yields_Reconcile.
Qed.

(** ** The account of one machine *)

#[global] Instance sim_account_store refused down : MachineStore (sim_account refused down) :=
  fun w => valid_machine (sw_machine w) = true.

Lemma sim_keeps_machine refused down {X} (e : Eff X) w :
  server_calls X e -> sw_machine (sim_account refused down X e w).2 = sw_machine w.
Proof.
  destruct e as [cl []|[]|[]|[]|[]|[]|[]|[]]; cbn; intros He; by repeat case_match.
Qed.

#[global] Instance sim_account_validating refused down : ValidatingStore (sim_account refused down).
Proof.
  intros X e w [] HR Hpre. exists tt. unfold valid_store, sim_account_store in *.
  destruct e as [cl ce|he|ke|oe|te|ge|pe|se]; try (split; [done|]; by rewrite sim_keeps_machine).
  - split; [done|]. destruct he; try by rewrite sim_keeps_machine. cbn. by destruct down.
  - destruct pe; cbn in *; split; try done; by intros ? [= <-].
Qed.

Definition is_asked (x : handed_out) : bool := match x with Asked _ => true | _ => false end.

(** A server is asked for, well formed, in spite of a zero NIC list. *)
Lemma machine_types_preserved_witness :
  let l := (observe typed_view (sim_account None false) (Reconcile sim_reconciler "ns" "worker")
              (world0 (wit_machine false false "") [])).2 in
  existsb is_asked l = true /\ Forall well_typed l.
Proof.
  split; [by vm_compute|].
  by apply (machine_types_preserved (sim_account None false)).
Defined.

(** The API does not rule out two disks with the same boot order: their drives
    are asked for on one device channel. *)
Example same_boot_order_same_channel :
  let disk := {| disk_UUID := "image"; disk_Device := "virtio"; disk_BootOrder := 1;
                 disk_Size := 10737418240 |} in
  let spec := {| ProviderID := None; CPU := 2000; Memory := 4096; Disks := [disk; disk];
                 NICs := []; Tags := []; Meta := ∅ |} in
  valid_spec spec = true /\
  csd_DevChannel <$> zip_with custom_drive (Disks spec) ["d1"; "d2"] = ["0:1"; "0:1"].
Proof. by vm_compute. Qed.

(** A NIC without a VLAN gets a DHCP address, whatever its spec asks for. *)
Example static_ip_without_vlan :
  let nic := {| nic_VLAN := "";
                nic_IPv4Conf := {| ipconf_Conf := "static"; ipconf_IP := Some "ip-1" |} |} in
  valid_nic nic = true /\ custom_nic nic = dhcp_nic.
Proof. by vm_compute. Qed.
