(* ===== verification/MachineConvergence.v ===== *)
(** * Reconciling a machine converges

    The machine controller is driven by requeues: no single reconciliation brings
    a machine to its goal.  Here the environment does what it is asked to do (a
    [plant]: one machine object, the servers of an account, a clock): no request
    fails that the service can carry out.  It is not instantaneous: starting and
    stopping a server take time, a server is deleted only when it is stopped, and
    the listing of servers may leave out any of them (the API is eventually
    consistent); a cloned drive is ready when it is first looked at.  Between two
    reconciliations every server comes to rest.  Then two
    reconciliations make any machine ready, from every state its account can be in,
    it stays ready, and one reconciliation releases a deleted machine together with
    its server. *)

From S2P Require Import Prelude Effects GoErrors ApiTypes World Tags Servers Base64.
From S2P Require Import LoadBalancer MachineController.

(** ** The plant *)

Record plant := {
  pl_machine : CSMachine.t;
  pl_servers : list Server.t;
  pl_now : Z;
  pl_due : Z  (* when the server that was asked to stop has stopped *)
}.

Definition with_machine (g : plant) (m : CSMachine.t) : plant :=
  {| pl_machine := m; pl_servers := pl_servers g; pl_now := pl_now g; pl_due := pl_due g |}.
Definition with_servers (g : plant) (l : list Server.t) : plant :=
  {| pl_machine := pl_machine g; pl_servers := l; pl_now := pl_now g; pl_due := pl_due g |}.
Definition with_now (g : plant) (t : Z) : plant :=
  {| pl_machine := pl_machine g; pl_servers := pl_servers g; pl_now := t; pl_due := pl_due g |}.
Definition with_due (g : plant) (t : Z) : plant :=
  {| pl_machine := pl_machine g; pl_servers := pl_servers g; pl_now := pl_now g; pl_due := t |}.

Definition by_uuid (uuid : string) (l : list Server.t) : option Server.t :=
  find (fun s => bool_decide (Server.UUID s = uuid)) l.

Definition set_state (st : string) (s : Server.t) : Server.t :=
  Server.mk (Server.UUID s) (Server.Name s) st (Server.Drives s) (Server.NICs s)
    (Server.Meta s) (Server.RuntimeNICs s).

Definition update_state (uuid st : string) (l : list Server.t) : list Server.t :=
  (fun s => if decide (Server.UUID s = uuid) then set_state st s else s) <$> l.

(** What starting a server makes of its state. *)
Definition started_state (st : string) : Prop := st = "running" \/ st = "starting".

#[global] Instance started_state_dec st : Decision (started_state st).
Proof. unfold started_state. apply _. Defined.

(** A server stops within 110 seconds. *)
Definition stop_time : Z := 110 * second.

(** What waiting makes of a server, [late] when the time to stop is over. *)
Definition passes (late : bool) (s s' : Server.t) : Prop :=
  if decide (Server.Status s = "stopping")
  then s' = set_state "stopped" s \/ (late = false /\ s' = s) else s' = s.

Definition state_of (uuid : string) (l : list Server.t) : string :=
  match by_uuid uuid l with Some s => Server.Status s | None => "" end.

#[global] Arguments state_of : simpl never.
#[global] Arguments update_state : simpl never.

Definition plant_cloud {X} (e : CloudE X) : plant -> X -> plant -> Prop :=
  match e in CloudE Y return plant -> Y -> plant -> Prop with
  | ServersList => fun g x g' => g' = g /\ exists l, x = SdkOk l /\ l ⊆ pl_servers g
  | ServersGet uuid => fun g x g' => g' = g /\
      match by_uuid uuid (pl_servers g) with
      | Some s => x = SdkOk s
      | None => exists err, x = SdkErr (Some 404%Z) err
      end
  | ServersStart uuid => fun g x g' =>
      if decide (state_of uuid (pl_servers g) = "stopped") then
        x = SdkOk tt /\ exists st, started_state st /\
          g' = with_servers g (update_state uuid st (pl_servers g))
      else failed x /\ g' = g
  | ServersStop uuid => fun g x g' =>
      if decide (started_state (state_of uuid (pl_servers g))) then
        x = SdkOk tt /\ exists st, (st = "stopping" \/ st = "stopped") /\
          g' = with_due (with_servers g (update_state uuid st (pl_servers g))) (pl_now g + stop_time)%Z
      else failed x /\ g' = g
  | ServersDelete uuid => fun g x g' =>
      if decide (state_of uuid (pl_servers g) = "stopped") then
        x = SdkOk tt /\ g' = with_servers g (filter (fun s => Server.UUID s <> uuid) (pl_servers g))
      else failed x /\ g' = g
  | DrivesClone _ _ _ => fun g x g' => g' = g /\ exists d, x = SdkOk d
  | DrivesGet _ => fun g x g' => g' = g /\ exists d, x = SdkOk d /\ drive_ready d = true
  | IPsGet _ => fun g x g' => g' = g /\ x <> SdkOk None
  | _ => fun g _ g' => g' = g
  end.

Definition plant_capi {X} (e : CapiE X) : plant -> X -> plant -> Prop :=
  match e in CapiE Y return plant -> Y -> plant -> Prop with
  | CSMachineGet _ _ => fun g x g' => g' = g /\ x = Ok (pl_machine g)
  | CSMachineUpdate m => fun g x g' =>
      let m' := with_status m (pl_machine g) in x = Ok m' /\ g' = with_machine g m'
  | CSMachineStatusUpdate m => fun g x g' =>
      let m' := with_status (pl_machine g) m in x = Ok m' /\ g' = with_machine g m'
  | GetOwnerMachine _ => fun g x g' => g' = g /\
      exists owner, x = Ok (Some owner) /\ is_Some (Machine.DataSecretName owner)
  | GetClusterFromMetadata _ => fun g x g' => g' = g /\
      exists c, x = Ok c /\ Cluster.Paused c = false
  | CSClusterGet _ _ => fun g x g' => g' = g /\
      exists c, x = Ok c /\ CSCluster.UserEmail c <> ""
  | SecretData _ _ => fun g x g' => g' = g /\
      exists data, x = Ok data /\ is_Some (data !! "value")
  | _ => fun g _ g' => g' = g
  end.

(** A new server: under a UUID of its own, with the name and the metadata asked
    for. *)
Definition new_server (s : CustomServer) (l : list Server.t) (s' : Server.t) : Prop :=
  Server.UUID s' <> "" /\ (Server.UUID s' ∉ Server.UUID <$> l) /\
  Server.Name s' = cs_Name s /\ Server.Meta s' = cs_Meta s /\
  (Server.Status s' = "stopped" \/ started_state (Server.Status s')).

Definition plant_post {X} (e : Eff X) : plant -> X -> plant -> Prop :=
  match e in Eff _ return plant -> X -> plant -> Prop with
  | ECloud _ ce => plant_cloud ce
  | EHttp he =>
      match he in HttpE Y return plant -> Y -> plant -> Prop with
      | PostServer _ _ s => fun g x g' => exists s' body,
          new_server s (pl_servers g) s' /\ x = Response (201%Z, body, Ok [s']) /\
          g' = with_servers g (s' :: pl_servers g)
      | _ => fun g _ g' => g' = g
      end
  | EToken te =>
      match te in TokenE Y return plant -> Y -> plant -> Prop with
      | GetImpersonatedToken _ _ => fun g x g' => g' = g /\ exists t, x = Ok t
      end
  | EGo ge =>
      match ge in GoE Y return plant -> Y -> plant -> Prop with
      | Now => fun g x g' => g' = g /\ x = pl_now g
      | TickOrDone => fun g x g' => x = None /\ g' = with_now g (pl_now g + tick_period)%Z
      | Sleep ns => fun g _ g' => exists l,
          Forall2 (passes (bool_decide (pl_due g <= pl_now g + ns)%Z)) (pl_servers g) l /\
          g' = with_servers (with_now g (pl_now g + ns)%Z) l
      | _ => fun g _ g' => g' = g
      end
  | ECapi pe => plant_capi pe
  | _ => fun g _ g' => g' = g
  end.

Definition plantI : iface Eff plant := Iface (fun _ _ _ => True) (fun _ e => plant_post e).

(** The interface between the plant and the controller. *)
Class PlantState {W} (h : handler Eff W) := plant_state : W -> plant.
#[global] Arguments plant_state {W} h {_} w.

Class Plant {W} (h : handler Eff W) `{!PlantState h} : Prop :=
  plant_laws : implements h (fun w g => plant_state h w = g) plantI.

(** UUIDs are unique and not empty. *)
Definition plant_wf (g : plant) : Prop :=
  NoDup (Server.UUID <$> pl_servers g) /\
  Forall (fun s => Server.UUID s <> "") (pl_servers g).

(** Moreover a server is running, stopped or on its way to run. *)
Definition plant_ok (g : plant) : Prop :=
  plant_wf g /\
  Forall (fun s => Server.Status s = "stopped" \/ started_state (Server.Status s)) (pl_servers g).

(** *** Servers by UUID *)

Lemma by_uuid_Some uuid l s : by_uuid uuid l = Some s -> s ∈ l /\ Server.UUID s = uuid.
Proof.
  unfold by_uuid. intros [Hin Hu]%find_some. split; [by apply list_elem_of_In|].
  by apply bool_decide_eq_true in Hu.
Qed.

Lemma by_uuid_elem l s :
  NoDup (Server.UUID <$> l) -> s ∈ l -> by_uuid (Server.UUID s) l = Some s.
Proof.
  unfold by_uuid. induction l as [|s' l IH]; [by intros _ ?%elem_of_nil|]. cbn.
  intros [Hn Hd]%NoDup_cons [->|Hs]%elem_of_cons; [by rewrite bool_decide_true|].
  rewrite bool_decide_false; [by apply IH|]. intros E. apply Hn. rewrite E.
  by apply list_elem_of_fmap_2.
Qed.

Lemma update_state_UUID uuid st l : Server.UUID <$> update_state uuid st l = Server.UUID <$> l.
Proof.
  unfold update_state. rewrite <- list_fmap_compose. apply list_fmap_ext.
  intros i s _. cbn. by case_decide.
Qed.

Lemma plant_wf_update g uuid st t :
  plant_wf g -> plant_wf (with_due (with_servers g (update_state uuid st (pl_servers g))) t).
Proof.
  intros [Hd Hs]. split; cbn; [by rewrite update_state_UUID|].
  unfold update_state. apply Forall_fmap. eapply Forall_impl; [exact Hs|].
  intros s Hu. cbn. by case_decide.
Qed.

Lemma state_of_elem g s :
  plant_wf g -> s ∈ pl_servers g -> state_of (Server.UUID s) (pl_servers g) = Server.Status s.
Proof. intros [Hd _] Hs. unfold state_of. by rewrite by_uuid_elem. Qed.

Lemma update_state_elem st l s :
  s ∈ l -> set_state st s ∈ update_state (Server.UUID s) st l.
Proof.
  intros Hs. unfold update_state. apply list_elem_of_fmap. exists s. by rewrite decide_True.
Qed.

Lemma plant_wf_new g cs s :
  plant_wf g -> new_server cs (pl_servers g) s -> plant_wf (with_servers g (s :: pl_servers g)).
Proof. intros [Hd Hs] (Hne & Hfresh & _). split; cbn; by constructor. Qed.

Lemma find_server_elem name uid l s : find_server name uid l = Some s -> s ∈ l.
Proof.
  unfold find_server. intros H. apply list_elem_of_In.
  repeat case_match; simplify_eq; by eapply find_some.
Qed.

(** *** Requests that leave the machine and the servers alone *)

Definition frame (g g' : plant) : Prop :=
  pl_machine g' = pl_machine g /\ pl_servers g' = pl_servers g.

#[global] Instance frame_preorder : PreOrder frame.
Proof. split; unfold frame; [done|]. intros g1 g2 g3 [] []. split; congruence. Qed.

Definition idle (X : Type) (e : Eff X) : Prop :=
  match e with
  | ECloud _ (ServersStart _) | ECloud _ (ServersStop _) | ECloud _ (ServersDelete _) => False
  | EHttp (PostServer _ _ _) => False
  | ECapi (CSMachineUpdate _) | ECapi (CSMachineStatusUpdate _) => False
  | EGo (Sleep _) => False
  | _ => True
  end.

Lemma idle_frame {X} (e : Eff X) g x g' : idle X e -> plant_post e g x g' -> frame g g'.
Proof.
  revert x. destruct e as [cl []|[]|[]|[]|[]|[]|[]|[]]; cbn; intros x He H; try done;
    lazymatch type of H with
    | g' = _ => by rewrite H
    | g' = _ /\ _ => by destruct H as [-> _]
    | _ => by destruct H as [_ ->]
    end.
Qed.

(** A program of such requests that returns in every environment. *)
Lemma wp_idle {A} (p : go A) g :
  returns p (fun _ => True) -> only idle p -> wp plantI p (ok (fun _ g' => frame g g')) g.
Proof.
  intros Hret Honly.
  eapply wp_mono; [|apply (wp_conj _ _ (ok (fun _ _ => True)) (fun _ g' => frame g g'))].
  - intros [a|why] g' [H1 H2]; done.
  - by apply (quiet_any no_view).
  - apply (only_wp idle plantI (frame g)); [done| |done|done].
    intros X e g1 x g2 He Hx Hf. etrans; [exact Hf|by eapply idle_frame].
Qed.

(** *** What each function does to the plant *)

Lemma wp_plant_GetServer c uuid g :
  wp plantI (GetServer c uuid)
     (ok (fun r g' => g' = g /\ r = Ok (by_uuid uuid (pl_servers g)))) g.
Proof.
  unfold GetServer. wp_call x Hx. destruct Hx as [-> Hx].
  destruct (by_uuid uuid _) as [s|]; [rewrite Hx|destruct Hx as [err ->]]; by apply wp_ret.
Qed.

Lemma wp_plant_Find c name uid g :
  wp plantI (FindServerByNameOrMeta c name uid)
     (ok (fun r g' => g' = g /\ exists o, r = Ok o /\ forall s, o = Some s -> s ∈ pl_servers g)) g.
Proof.
  unfold FindServerByNameOrMeta. wp_call x Hx. destruct Hx as (-> & l & -> & Hl). apply wp_ret.
  split; [done|]. eexists. split; [done|]. intros s Hs. by eapply Hl, find_server_elem.
Qed.

(** Starting a server has an effect when it is stopped. *)
Lemma wp_plant_StartServer c s g :
  plant_wf g -> s ∈ pl_servers g ->
  wp plantI (StartServer c (Server.UUID s)) (ok (fun _ g' =>
    plant_wf g' /\ pl_machine g' = pl_machine g /\
    (Server.Status s = "stopped" \/ started_state (Server.Status s) ->
     exists s', s' ∈ pl_servers g' /\ Server.UUID s' = Server.UUID s /\
                started_state (Server.Status s')))) g.
Proof.
  intros Hwf Hs. unfold StartServer. wp_call x Hx.
  cbn in Hx. rewrite (state_of_elem g s Hwf Hs) in Hx.
  case_decide as Hst.
  - destruct Hx as (-> & st & Hst' & ->). apply wp_ret. split_and!; [exact (plant_wf_update g _ st (pl_due g) Hwf)|done|].
    intros _. exists (set_state st s). split_and!; [by apply update_state_elem|done|done].
  - destruct Hx as [_ ->].
    assert (Server.Status s = "stopped" \/ started_state (Server.Status s) ->
     exists s', s' ∈ pl_servers g /\ Server.UUID s' = Server.UUID s /\
                started_state (Server.Status s')) by (intros [|]; [done|by exists s]).
    destruct x; by apply wp_ret.
Qed.

(** Writing an object: the object in memory is the stored one again. *)
Lemma wp_plant_Update m g :
  let m' := with_status m (pl_machine g) in
  wp plantI (Update m) (ok (fun r g' => r = (None, m') /\ g' = with_machine g m')) g.
Proof. cbv zeta. unfold Update. wp_call x Hx. destruct Hx as [-> ->]. by apply wp_ret. Qed.

Lemma wp_plant_StatusUpdate m g :
  let m' := with_status (pl_machine g) m in
  wp plantI (StatusUpdate m) (ok (fun r g' => r = (None, m') /\ g' = with_machine g m')) g.
Proof. cbv zeta. unfold StatusUpdate. wp_call x Hx. destruct Hx as [-> ->]. by apply wp_ret. Qed.

Lemma wp_plant_getCloudClient r c g :
  ImpersonationClient r = true -> CSCluster.UserEmail c <> "" ->
  wp plantI (getCloudClient r (Some c)) (ok (fun x g' => g' = g /\ exists cl, x = Ok cl)) g.
Proof.
  intros Hr Hc. unfold getCloudClient, getUserEmail. rewrite (decide_True _ _ Hc).
  change (bind (Ret ?a) ?f) with (f a). cbv beta zeta.
  rewrite Hr, (bool_decide_true _ Hc). cbn [andb].
  unfold NewClientWithImpersonation. cbn [negb]. rewrite (decide_False _ _ Hc).
  cbv zeta. wp_call x Hx. destruct Hx as [-> [t ->]]. apply wp_ret. split; [done|by eexists].
Qed.

Lemma wp_plant_getBootstrapData owner g :
  is_Some (Machine.DataSecretName owner) ->
  wp plantI (getBootstrapData owner) (ok (fun x g' => g' = g /\ exists d, x = Ok d)) g.
Proof.
  intros [n Hn]. unfold getBootstrapData. rewrite Hn. wp_call x Hx.
  destruct Hx as (-> & data & -> & [v Hv]). rewrite Hv. apply wp_ret. split; [done|by eexists].
Qed.

(** A clone is ready at the first tick. *)
Lemma wp_plant_CloneDrive c src name size g :
  wp plantI (CloneDrive c src name size)
     (ok (fun x g' => frame g g' /\ exists d, x = Ok d)) g.
Proof.
  unfold CloneDrive. wp_call x Hx. destruct Hx as (-> & d & ->).
  case_decide; [|apply wp_ret; split; [done|by eexists]].
  eapply (wp_seq _ _ _ (fun x g' => frame g g' /\ exists d, x = Ok d)).
  2:{ intros x g' [Hf [d' ->]]. apply wp_ret. split; [done|by eexists]. }
  unfold WaitForDriveReady. wp_call t Ht. destruct Ht as [-> ->].
  wp_call u Hu. cbn in Hu. subst.
  assert (exists n, wait_fuel clone_timeout = S n) as [n ->] by (by exists 60%nat; vm_compute).
  cbn [wait_drive].
  wp_call w Hw. destruct Hw as [-> ->]. wp_call t Ht. destruct Ht as [-> ->]. cbn [pl_now with_now].
  rewrite decide_False by (unfold tick_period, clone_timeout; lia).
  wp_call y Hy. destruct Hy as (-> & d' & -> & Hd). rewrite Hd. apply wp_ret.
  split; [done|by eexists].
Qed.

Lemma wp_plant_clone_all c spec g :
  wp plantI (clone_all c spec) (ok (fun x g' => frame g g' /\ exists l, x = inl l)) g.
Proof.
  unfold clone_all. apply (wp_for_range _ (fun _ _ g' => frame g g')); [done| |by intros l g' Hf; split; [|exists l]].
  intros [i disk] todo clones g' _ Hf. cbv zeta.
  eapply wp_seq; [apply wp_plant_CloneDrive|]. intros x g2 [Hf2 [d ->]].
  apply wp_ret. cbn. by etrans.
Qed.

Lemma wp_plant_CreateServer c spec g :
  wp plantI (CreateServer c spec) (ok (fun x g' => exists cs s', x = Ok s' /\
     new_server cs (pl_servers g) s' /\ pl_machine g' = pl_machine g /\
     pl_servers g' = s' :: pl_servers g)) g.
Proof.
  unfold CreateServer. eapply wp_seq; [apply wp_plant_clone_all|]. intros x g1 [[Hm Hs] [l ->]].
  eapply (wp_seq _ _ _ (fun x g' => exists cs s', x = Ok s' /\ new_server cs (pl_servers g1) s' /\
    g' = with_servers g1 (s' :: pl_servers g1))).
  { unfold createServerDirect. wp_call x Hx. destruct Hx as (s' & body & Hnew & -> & ->).
    rewrite decide_False by lia. apply wp_ret. by eexists _, s'. }
  intros x g2 (cs & s' & -> & Hnew & ->). apply wp_ret. exists cs, s'. cbn.
  rewrite Hs in Hnew. by rewrite Hm, Hs.
Qed.

Lemma wp_plant_addresses c s g :
  wp plantI (GetServerAddressesWithClient c (Some s)) (ok (fun _ g' => g' = g)) g.
Proof.
  unfold GetServerAddressesWithClient. wp_call seed Hseed. cbn in Hseed. subst.
  eapply wp_seq with (P := fun _ g' => g' = g); [|by intros l g' ->; apply wp_ret].
  apply (wp_for_each _ (fun _ _ g' => g' = g)); [done| |done].
  intros u todo addrs g' _ ->. unfold GetIP. apply wp_bind. wp_call x Hx. destruct Hx as [-> Hx].
  destruct x as [[ip|]|resp err]; [|done|by apply wp_ret].
  apply wp_ret. case_decide; by apply wp_ret.
Qed.

(** Tagging changes neither the machine nor the servers. *)
Lemma wp_plant_TagServer cl uuid cluster pool g :
  wp plantI (TagServer cl uuid cluster pool) (ok (fun _ g' => frame g g')) g.
Proof.
  apply wp_idle; [apply returns_TagServer|]. unfold TagServer, tagAll, ensureTag. only_cloud.
Qed.

Lemma wp_plant_UntagServer cl uuid g :
  wp plantI (UntagServer cl uuid) (ok (fun _ g' => frame g g')) g.
Proof.
  apply wp_idle; unfold UntagServer, untagAll; [returns_go|only_cloud].
Qed.

(** ** Goals *)

(** What no write of the controller changes. *)
Definition kept (m m' : CSMachine.t) : Prop :=
  CSMachine.Deleted m' = CSMachine.Deleted m /\ CSMachine.Paused m' = CSMachine.Paused m.

#[global] Instance kept_preorder : PreOrder kept.
Proof. split; unfold kept; [done|]. intros m1 m2 m3 [] []. split; congruence. Qed.

(** The machine's server exists and is not stopped. *)
Definition assigned (g : plant) : Prop :=
  exists s, s ∈ pl_servers g /\ CSMachine.InstanceID (pl_machine g) = Server.UUID s /\
            started_state (Server.Status s).

Definition server_runs (g : plant) : Prop :=
  exists s, s ∈ pl_servers g /\ CSMachine.InstanceID (pl_machine g) = Server.UUID s /\
            Server.Status s = "running".

(** The goal of a machine: it is ready, and names a running server in its status
    and in its spec. *)
Definition provisioned (g : plant) : Prop :=
  server_runs g /\ CSMachine.Ready (pl_machine g) = true /\
  ProviderID (CSMachine.Spec (pl_machine g)) =
    Some (provider_id (CSMachine.InstanceID (pl_machine g))).

Lemma server_runs_assigned g : server_runs g -> assigned g.
Proof. intros (s & ? & ? & ?). exists s. split_and!; [done|done|by left]. Qed.

(** What one run of the controller keeps. *)
Definition evolves (g g' : plant) : Prop := plant_wf g' /\ kept (pl_machine g) (pl_machine g').

Lemma wp_plant_record_server retry m s g :
  m = pl_machine g ->
  wp plantI (record_server retry m s) (ok (fun r g' =>
    r = (None, pl_machine g') /\ pl_servers g' = pl_servers g /\ kept m (pl_machine g') /\
    CSMachine.InstanceID (pl_machine g') = Server.UUID s)) g.
Proof.
  intros ->. unfold record_server. cbv zeta.
  eapply wp_seq; [apply wp_plant_StatusUpdate|]. intros ? g1 [-> ->]. cbv beta iota.
  eapply wp_seq; [apply wp_plant_Update|]. intros ? g2 [-> ->]. by apply wp_ret.
Qed.

(** *** A server that is known *)

Lemma wp_plant_ensure_provider_id m s g :
  kept (pl_machine g) m -> CSMachine.Spec m = CSMachine.Spec (pl_machine g) ->
  CSMachine.InstanceID m = CSMachine.InstanceID (pl_machine g) ->
  wp plantI (ensure_provider_id m s) (ok (fun r g' => exists m', r = (None, m') /\
    pl_servers g' = pl_servers g /\ kept (pl_machine g) (pl_machine g') /\
    kept (pl_machine g) m' /\
    ProviderID (CSMachine.Spec (pl_machine g')) = Some (provider_id (Server.UUID s)) /\
    CSMachine.InstanceID m' = CSMachine.InstanceID (pl_machine g))) g.
Proof.
  intros Hk Hspec Hid. unfold ensure_provider_id. case_decide as Hp.
  - apply wp_ret. exists m. rewrite <- Hspec. by split_and!.
  - eapply wp_mono; [|apply wp_plant_Update]. intros [r|] g'; [|done]. intros [-> ->].
    eexists. by split_and!.
Qed.

(** The status written last is the one of memory, with the spec of the store. *)
Lemma wp_plant_update_server c m s g :
  m = pl_machine g -> plant_wf g -> s ∈ pl_servers g ->
  CSMachine.InstanceID m = Server.UUID s ->
  wp plantI (update_server c m s) (ok (fun _ g' => evolves g g' /\
    (Server.Status s = "stopped" \/ started_state (Server.Status s) -> assigned g') /\
    (Server.Status s = "running" -> provisioned g'))) g.
Proof.
  intros -> Hok Hs Hid. unfold update_server. cbv zeta.
  eapply wp_seq; [by apply wp_plant_ensure_provider_id|].
  intros ? g1 (m1 & -> & Hs1 & Hk1 & _ & Hp1 & Hid1).
  eapply wp_seq; [apply wp_plant_addresses|]. intros r g2 ->.
  set (addresses := match r with Ok l => l | Err _ => [] end).
  set (m2 := if decide (addresses = []) then m1 else CSMachine.set_Addresses m1 addresses).
  assert (Hid2 : CSMachine.InstanceID m2 = Server.UUID s) by (unfold m2; case_decide; cbn; congruence).
  clearbody m2.
  eapply wp_seq; [apply wp_plant_StatusUpdate|]. intros ? g3 [-> ->]. cbv beta iota.
  assert (Hmem : s ∈ pl_servers g1) by (by rewrite Hs1).
  assert (Hok1 : plant_wf g1) by (unfold plant_wf in *; by rewrite Hs1).
  case_decide as Hst.
  - eapply wp_seq; [by apply wp_plant_StartServer|]. intros r4 g4 (Hok4 & Hm4 & Hst4).
    assert (H : evolves g g4 /\ (Server.Status s = "stopped" \/ started_state (Server.Status s) -> assigned g4) /\
                (Server.Status s = "running" -> provisioned g4)).
    { split_and!; [split; [done|]|..].
      - rewrite Hm4. exact Hk1.
      - intros H. destruct (Hst4 H) as (s' & Hin' & Hu' & Hs'). exists s'.
        split_and!; [done| |done]. rewrite Hm4, Hu'. exact Hid2.
      - by rewrite Hst. }
    destruct r4; by apply wp_ret.
  - assert (Hassigned : forall m', CSMachine.InstanceID m' = Server.UUID s ->
      Server.Status s = "stopped" \/ started_state (Server.Status s) ->
      assigned (with_machine g1 m')).
    { intros m' Hm' [|Hstarted]; [done|]. by exists s. }
    case_decide as Hrun.
    + eapply wp_seq; [apply wp_plant_StatusUpdate|]. intros ? g4 [-> ->]. cbv beta iota.
      match goal with |- wp _ _ _ ?g4 => assert (Hprov : provisioned g4) end.
      { split_and!; [exists s; by split_and!|done|]. cbn. by rewrite Hid2. }
      case_decide; apply wp_ret; (split_and!; [by split|intros _; by apply server_runs_assigned, Hprov|by intros _]).
    + eapply wp_seq; [apply wp_plant_StatusUpdate|]. intros ? g4 [-> ->]. cbv beta iota.
      apply wp_ret. split_and!; [split; [exact Hok1|exact Hk1]| |done].
      intros H. apply Hassigned; [exact Hid2|exact H].
Qed.

(** *** Looking for the server, or creating it *)

(** What the stages of [reconcileNormal] agree on: the object in memory is the
    stored one, and the server found is the one it names. *)
Definition at_stage (g : plant) (server : option Server.t) (m' : CSMachine.t) (g' : plant) : Prop :=
  m' = pl_machine g' /\ pl_servers g' = pl_servers g /\ kept (pl_machine g) m' /\
  match server with
  | Some s => s ∈ pl_servers g /\ CSMachine.InstanceID m' = Server.UUID s
  | None => CSMachine.InstanceID m' = ""
  end.

Lemma wp_plant_check_existing c m g :
  m = pl_machine g -> plant_wf g ->
  wp plantI (check_existing c m) (ok (fun st g' => exists o m',
    st = Proceed o m' /\ at_stage g o m' g' /\
    forall s, s ∈ pl_servers g -> CSMachine.InstanceID m = Server.UUID s -> o = Some s)) g.
Proof.
  intros -> [Hd Hs]. unfold check_existing. rewrite Forall_forall in Hs. case_decide as Hid.
  { apply wp_ret. eexists _, _. split_and!; [done|by split_and!|]. intros s Hin He.
    specialize (Hs s Hin). congruence. }
  eapply wp_seq; [apply wp_plant_GetServer|]. intros ? g1 [-> ->].
  assert (Hby : forall s, s ∈ pl_servers g -> CSMachine.InstanceID (pl_machine g) = Server.UUID s ->
            by_uuid (CSMachine.InstanceID (pl_machine g)) (pl_servers g) = Some s)
    by (intros s Hin ->; by apply by_uuid_elem).
  destruct (by_uuid _ _) as [s|] eqn:E.
  - apply by_uuid_Some in E as [Hin Hu]. apply wp_ret. eexists _, _.
    split_and!; [done|by split_and!|]. intros s' Hin' He'. by rewrite <- (Hby s' Hin' He').
  - unfold clear_instance. eapply (wp_seq _ _ _ (at_stage g None)).
    { eapply wp_seq; [apply wp_plant_StatusUpdate|]. intros ? g1 [-> ->]. apply wp_ret. by split_and!. }
    intros m1 g1 Hst. apply wp_ret. eexists _, _. split_and!; [done|exact Hst|].
    intros s Hin He. by specialize (Hby s Hin He).
Qed.

(** A server was found, or one was created and is on its way to run. *)
Definition found (g : plant) (st : stage) (g' : plant) : Prop :=
  match st with
  | Proceed (Some s) m' => at_stage g (Some s) m' g'
  | Proceed None _ => False
  | Stop _ _ => evolves g g' /\ assigned g'
  end.

Lemma wp_plant_create_server c owner m g :
  m = pl_machine g -> plant_wf g -> is_Some (Machine.DataSecretName owner) ->
  wp plantI (create_server c owner m) (ok (found g)) g.
Proof.
  intros Hm Hok Howner. unfold create_server.
  eapply wp_seq; [by apply wp_plant_getBootstrapData|]. intros ? g1 [-> [data ->]].
  eapply wp_seq; [apply wp_plant_CreateServer|]. intros ? g2 (cs & s & -> & Hnew & Hm2 & Hs2).
  assert (Hok2 : plant_wf g2).
  { pose proof (plant_wf_new g cs s Hok Hnew) as H. unfold plant_wf in *. by rewrite Hs2. }
  eapply wp_seq; [apply wp_plant_TagServer|]. intros [] g3 [Hm3 Hs3].
  eapply wp_seq; [apply wp_plant_record_server; congruence|].
  intros ? g4 (-> & Hs4 & Hk4 & Hid4). cbv beta iota.
  assert (Hok4 : plant_wf g4) by (unfold plant_wf in *; by rewrite Hs4, Hs3).
  assert (Hin : s ∈ pl_servers g4) by (rewrite Hs4, Hs3, Hs2; by left).
  rewrite Hm in Hk4.
  eapply (wp_seq _ _ _ (fun _ g' => evolves g g' /\ assigned g')).
  2:{ intros [err|] g5 H; by apply wp_ret. }
  case_decide as Hst.
  - eapply wp_mono; [|by apply wp_plant_StartServer]. intros [r|] g5; [|done].
    intros (Hok5 & Hm5 & Hst5). destruct Hst5 as (s' & Hin' & Hu' & Hs'); [apply Hnew|].
    split; [split; [done|by rewrite Hm5]|]. exists s'. split_and!; [done| |done]. by rewrite Hm5, Hu'.
  - apply wp_ret. split; [by split|]. exists s. split_and!; [done|done|].
    by left.
Qed.

Lemma wp_plant_find_or_create c owner m g :
  m = pl_machine g -> plant_wf g -> is_Some (Machine.DataSecretName owner) ->
  wp plantI (find_or_create c owner m) (ok (found g)) g.
Proof.
  intros Hm Hok Howner. unfold find_or_create.
  eapply wp_seq; [apply wp_plant_Find|]. intros ? g1 (-> & o & -> & Ho).
  destruct o as [s|]; [|by apply wp_plant_create_server].
  eapply wp_seq; [by apply wp_plant_record_server|]. intros ? g2 (-> & Hs2 & Hk2 & Hid2).
  apply wp_ret. split_and!; [done|done|by rewrite <- Hm|by apply Ho|done].
Qed.

(** *** The reconciliation *)

(** A step towards the goal, and the goal from a running server. *)
Definition progresses (g g' : plant) : Prop :=
  evolves g g' /\ assigned g' /\ (server_runs g -> provisioned g').

Lemma evolves_trans g1 g2 g3 :
  kept (pl_machine g1) (pl_machine g2) -> evolves g2 g3 -> evolves g1 g3.
Proof. intros Hk [Hok Hk']. split; [done|by etrans]. Qed.

Lemma wp_plant_reconcileNormal c owner m g :
  m = pl_machine g -> plant_ok g -> is_Some (Machine.DataSecretName owner) ->
  wp plantI (reconcileNormal c owner m) (ok (fun _ g' => progresses g g')) g.
Proof.
  intros Hm Hok Howner. unfold reconcileNormal.
  eapply (wp_seq _ _ _ (fun r g' => exists m', r = (None, m') /\ m' = pl_machine g' /\
    pl_servers g' = pl_servers g /\ kept m m' /\
    CSMachine.InstanceID m' = CSMachine.InstanceID m)).
  { unfold ensure_finalizer. case_decide; [apply wp_ret; by eexists|].
    eapply wp_mono; [|apply wp_plant_Update]. intros [r|] g'; [|done]. intros [-> ->].
    eexists. subst m. by split_and!. }
  intros ? g1 (m1 & -> & Hm1 & Hs1 & Hk1 & Hid1). cbv beta iota.
  assert (Hok1 : plant_ok g1) by (unfold plant_ok, plant_wf in *; by rewrite Hs1).
  eapply wp_seq; [by apply wp_plant_check_existing, Hok1|]. intros ? g2 (o & m2 & -> & Hst2 & Hruns).
  destruct Hst2 as (Hm2 & Hs2 & Hk2 & Ho).
  assert (Hok2 : plant_ok g2) by (unfold plant_ok, plant_wf in *; by rewrite Hs2).
  assert (Hk : kept (pl_machine g) (pl_machine g2)) by (subst m; rewrite <- Hm2; etrans; [exact Hk1|by rewrite Hm1]).
  (* the server found in the end, running if the one of the machine was *)
  assert (Hupdate : forall s m3 g3, m3 = pl_machine g3 -> plant_ok g3 -> s ∈ pl_servers g3 ->
    kept (pl_machine g) (pl_machine g3) -> CSMachine.InstanceID m3 = Server.UUID s ->
    (server_runs g -> Server.Status s = "running") ->
    wp plantI (update_server c m3 s) (ok (fun _ g' => progresses g g')) g3).
  { intros s m3 g3 Hm3 Hok3 Hin3 Hk3 Hid3 Hr3.
    eapply wp_mono; [|exact (wp_plant_update_server c m3 s g3 Hm3 (proj1 Hok3) Hin3 Hid3)]. intros [r|] g'; [|done].
    intros (He & Has & Hpr). split_and!; [by eapply evolves_trans| |by auto].
    apply Has. destruct Hok3 as [_ Hall]. rewrite Forall_forall in Hall. by apply Hall. }
  destruct o as [s|]; cbv beta iota.
  - destruct Ho as [Hin Hid2]. destruct (Hok1) as [_ Hall]. rewrite Forall_forall in Hall.
    rewrite decide_False by (rewrite Hid2; destruct Hok1 as [[_ Hne] _]; rewrite Forall_forall in Hne; by apply Hne).
    change (bind (Ret ?a) ?f) with (f a). cbv beta iota.
    apply Hupdate; [done|done|by rewrite Hs2|done|done|].
    intros (s' & Hin' & Hid' & Hst'). rewrite Hs1 in Hruns. subst m. rewrite <- Hid1 in Hid'.
    specialize (Hruns s' Hin' Hid'). by simplify_eq.
  - rewrite (decide_True _ _ Ho). eapply wp_seq; [by apply wp_plant_find_or_create, Howner; [|apply Hok2]|].
    assert (Hno : ~ server_runs g).
    { intros (s' & Hin' & Hid' & Hst'). rewrite Hs1 in Hruns. subst m. rewrite <- Hid1 in Hid'.
      by specialize (Hruns s' Hin' Hid'). }
    intros [r m3|[s|] m3] g3 Hf; cbn in Hf; [|destruct Hf as (Hm3 & Hs3 & Hk3 & Hin3 & Hid3)|done].
    + apply wp_ret. destruct Hf as [He Has]. split_and!; [by eapply evolves_trans|done|done].
    + apply Hupdate; [done| |by rewrite Hs3| |done|done].
      * unfold plant_ok, plant_wf in *. by rewrite Hs3.
      * rewrite <- Hm3. by etrans.
Qed.

(** *** Deleting *)

(** The goal of a deleted machine: its finalizer is gone, and so is its server. *)
Definition released_with_server (g : plant) : Prop :=
  (CloudSigmaMachineFinalizer ∉ CSMachine.Finalizers (pl_machine g)) /\
  (CSMachine.InstanceID (pl_machine g) ∉ Server.UUID <$> pl_servers g).

Lemma by_uuid_Forall2 (P : Server.t -> Server.t -> Prop) uuid l l' s :
  (forall s s', P s s' -> Server.UUID s' = Server.UUID s) -> Forall2 P l l' ->
  by_uuid uuid l = Some s -> exists s', by_uuid uuid l' = Some s' /\ P s s'.
Proof.
  intros HP. unfold by_uuid. induction 1 as [|s1 s2 l l' H12 _ IH]; [done|]. cbn.
  rewrite (HP _ _ H12). case_bool_decide; [|exact IH]. intros [= <-]. by exists s2.
Qed.

Lemma passes_UUID late s s' : passes late s s' -> Server.UUID s' = Server.UUID s.
Proof. unfold passes. case_decide; [intros [->|[_ ->]]; done|by intros ->]. Qed.

Lemma passes_UUIDs late l l' :
  Forall2 (passes late) l l' -> Server.UUID <$> l' = Server.UUID <$> l.
Proof. induction 1 as [|s s' l l' H _ IH]; [done|]. cbn. by rewrite IH, (passes_UUID _ _ _ H). Qed.

(** Whether a plant is well formed depends on the UUIDs only. *)
Lemma plant_wf_UUIDs g g' :
  Server.UUID <$> pl_servers g' = Server.UUID <$> pl_servers g -> plant_wf g -> plant_wf g'.
Proof.
  unfold plant_wf. intros HU. rewrite HU. intros [Hd Hs]. split; [done|].
  assert (Hu : Forall (fun u => u <> "") (Server.UUID <$> pl_servers g)) by (by apply Forall_fmap).
  rewrite <- HU, Forall_fmap in Hu. exact Hu.
Qed.

(** The server is stopped, or has [k - 1] rounds left to stop. *)
Definition stops_in (uuid : string) (g : plant) (k : nat) : Prop :=
  exists s, by_uuid uuid (pl_servers g) = Some s /\
  (Server.Status s = "stopped" \/
   Server.Status s = "stopping" /\
   (pl_now g < pl_due g <= pl_now g + 10 * second * (Z.of_nat k - 1))%Z).

(** Twelve rounds of waiting are enough. *)
Lemma wp_plant_wait_stopped c uuid s0 g :
  plant_wf g -> stops_in uuid g 12 ->
  wp plantI (wait_stopped c uuid s0) (ok (fun r g' => plant_wf g' /\
    pl_machine g' = pl_machine g /\ exists s, r = inl (Some s) /\
    by_uuid uuid (pl_servers g') = Some s /\ Server.Status s = "stopped")) g.
Proof.
  intros Hwf Hstop. unfold wait_stopped.
  apply (wp_for_range _ (fun todo _ g' => plant_wf g' /\ pl_machine g' = pl_machine g /\
           todo <> [] /\ stops_in uuid g' (length todo))).
  - done.
  - intros i todo st g1 _ (Hwf1 & Hm1 & _ & s & Hby & Hst).
    eapply wp_seq; [apply wp_plant_GetServer|]. intros ? g2 [-> ->]. rewrite Hby.
    case_decide as Hd; [apply wp_ret; split_and!; [done|done|by exists s]|].
    destruct Hst as [|[Hst Hdue]]; [done|]. cbn [length] in Hdue.
    apply wp_bind. wp_call u Hu. destruct Hu as (l & Hl & ->). apply wp_ret.
    split_and!; [exact (plant_wf_UUIDs g1 (with_servers (with_now g1 (pl_now g1 + 10 * second)%Z) l) (passes_UUIDs _ _ _ Hl) Hwf1)|done|..].
    { intros ->. cbn in Hdue. lia. }
    destruct (by_uuid_Forall2 _ uuid _ _ s (passes_UUID _) Hl Hby) as (s' & Hby' & Hp).
    exists s'. split; [exact Hby'|]. unfold passes in Hp. rewrite decide_True in Hp by done.
    destruct Hp as [->|[Hlate ->]]; [by left|]. right. split; [done|].
    apply bool_decide_eq_false in Hlate. cbn. lia.
  - by intros s' g1 (_ & _ & ? & _).
Qed.

Lemma filter_UUID uuid (l : list Server.t) :
  uuid ∉ Server.UUID <$> filter (fun s => Server.UUID s <> uuid) l.
Proof. intros (s & -> & [H _]%list_elem_of_filter)%list_elem_of_fmap. done. Qed.

Lemma plant_wf_filter g uuid :
  plant_wf g -> plant_wf (with_servers g (filter (fun s => Server.UUID s <> uuid) (pl_servers g))).
Proof.
  intros [Hd Hs]. split; cbn.
  - eapply sublist_NoDup; [exact Hd|]. apply fmap_sublist, sublist_filter.
  - rewrite Forall_forall in *. intros s [_ Hin]%list_elem_of_filter. by apply Hs.
Qed.

(** A stopped server is deleted. *)
Lemma wp_plant_DeleteServer c uuid s g :
  plant_wf g -> by_uuid uuid (pl_servers g) = Some s -> Server.Status s = "stopped" ->
  wp plantI (DeleteServer c uuid) (ok (fun r g' => r = None /\ plant_wf g' /\
    pl_machine g' = pl_machine g /\ (uuid ∉ Server.UUID <$> pl_servers g'))) g.
Proof.
  intros Hok Hby Hst. unfold DeleteServer.
  eapply wp_seq; [apply wp_plant_GetServer|]. intros ? g1 [-> ->]. rewrite Hby. cbv zeta.
  rewrite decide_False by (by rewrite Hst). change (bind (Ret ?a) ?f) with (f a). cbv beta iota.
  wp_call x Hx. cbn in Hx. unfold state_of in Hx. rewrite Hby, decide_True in Hx by done.
  destruct Hx as [-> ->].
  pose proof (plant_wf_filter g uuid Hok) as Hok1. pose proof (filter_UUID uuid (pl_servers g)) as Hu.
  set (g1 := with_servers g _) in *. change (pl_machine g) with (pl_machine g1).
  change (filter _ (pl_servers g)) with (pl_servers g1) in Hu. clearbody g1.
  eapply wp_seq.
  { apply wp_idle; unfold delete_all, DeleteDrive; [returns_go|only_cloud]. }
  intros [] g2 [Hm2 Hs2]. eapply wp_seq.
  { apply wp_idle; unfold DeleteIP; [returns_go|only_cloud]. }
  intros [] g3 [Hm3 Hs3]. apply wp_ret. cbn. unfold plant_wf. rewrite Hs3, Hs2, Hm3, Hm2.
  split_and!; [done|apply Hok1..|done|done].
Qed.

Lemma by_uuid_update uuid st l s :
  by_uuid uuid l = Some s -> by_uuid uuid (update_state uuid st l) = Some (set_state st s).
Proof.
  unfold by_uuid, update_state. induction l as [|s' l IH]; [done|]. cbn.
  case_bool_decide as Hu.
  - intros [= ->]. rewrite decide_True by done. by rewrite bool_decide_true.
  - rewrite decide_False, bool_decide_false by done. exact IH.
Qed.

(** A server that runs is asked to stop, and stops in time. *)
Lemma wp_plant_StopServer c uuid s g :
  plant_wf g -> by_uuid uuid (pl_servers g) = Some s -> started_state (Server.Status s) ->
  wp plantI (StopServer c uuid) (ok (fun r g' => r = None /\ plant_wf g' /\
    pl_machine g' = pl_machine g /\ stops_in uuid g' 12)) g.
Proof.
  intros Hwf Hby Hst. unfold StopServer. wp_call x Hx.
  cbn in Hx. unfold state_of in Hx. rewrite Hby, decide_True in Hx by done.
  destruct Hx as (-> & st & Hst' & ->). apply wp_ret.
  split_and!; [done|by apply plant_wf_update|done|]. exists (set_state st s). cbn.
  split; [by apply by_uuid_update|]. destruct Hst' as [-> | ->]; [right|by left].
  split; [done|]. unfold stop_time, second. lia.
Qed.

Lemma wp_plant_delete_server c uuid s g :
  plant_ok g -> by_uuid uuid (pl_servers g) = Some s ->
  wp plantI (delete_server c uuid s) (ok (fun r g' => r = None /\ plant_wf g' /\
    pl_machine g' = pl_machine g /\ (uuid ∉ Server.UUID <$> pl_servers g'))) g.
Proof.
  intros [Hwf Hok] Hby. unfold delete_server.
  assert (Hst : Server.Status s = "stopped" \/ started_state (Server.Status s)).
  { apply by_uuid_Some in Hby as [Hin _]. rewrite Forall_forall in Hok. by apply Hok. }
  eapply (wp_seq _ _ _ (fun r g' => r = None /\ plant_wf g' /\ pl_machine g' = pl_machine g /\
    stops_in uuid g' 12)).
  { case_decide as Hrun; [by eapply wp_plant_StopServer|]. apply wp_ret.
    split_and!; [done..|]. exists s. split; [done|]. left. by destruct Hst as [|[|]]; [|tauto..]. }
  intros ? g1 (-> & Hwf1 & Hm1 & Hstop). cbv beta iota.
  eapply wp_seq; [by apply wp_plant_wait_stopped|].
  intros ? g2 (Hwf2 & Hm2 & s' & -> & Hby' & Hst'). cbv beta iota.
  eapply wp_seq; [by apply (wp_plant_DeleteServer c uuid s')|].
  intros ? g3 (-> & Hok3 & Hm3 & Hu3). apply wp_ret. split_and!; [done|done|congruence|done].
Qed.

Lemma wp_plant_remove_finalizer what m g :
  m = pl_machine g -> plant_wf g ->
  CSMachine.InstanceID m ∉ Server.UUID <$> pl_servers g ->
  wp plantI (remove_finalizer what m)
     (ok (fun _ g' => evolves g g' /\ released_with_server g')) g.
Proof.
  intros -> Hok Hid. unfold remove_finalizer.
  eapply wp_seq; [apply wp_plant_Update|]. intros ? g1 [-> ->]. apply wp_ret.
  split; [by split|]. split; [|exact Hid]. cbn. intros [H _]%list_elem_of_filter. done.
Qed.

Lemma wp_plant_reconcileDelete c m g :
  m = pl_machine g -> plant_ok g ->
  wp plantI (reconcileDelete c m) (ok (fun _ g' => evolves g g' /\ released_with_server g')) g.
Proof.
  intros Hm Hok. unfold reconcileDelete.
  assert (Hnone : forall u, by_uuid u (pl_servers g) = None -> u ∉ Server.UUID <$> pl_servers g).
  { intros u Hu (s & -> & Hs)%list_elem_of_fmap. by rewrite (by_uuid_elem _ _ (proj1 (proj1 Hok)) Hs) in Hu. }
  case_decide as Hid.
  { apply wp_plant_remove_finalizer; [done|by apply Hok|]. rewrite Hid.
    intros (s & E & Hs)%list_elem_of_fmap. destruct Hok as [[_ Hall] _].
    rewrite Forall_forall in Hall. by apply (Hall s Hs). }
  eapply wp_seq; [apply wp_plant_UntagServer|]. intros [] g1 [Hm1 Hs1].
  assert (Hok1 : plant_ok g1) by (unfold plant_ok, plant_wf in *; by rewrite Hs1).
  eapply wp_seq; [apply wp_plant_GetServer|]. intros ? g2 [-> ->]. rewrite Hs1.
  destruct (by_uuid _ _) as [s|] eqn:E.
  - eapply wp_seq; [apply (wp_plant_delete_server c _ s); [done|by rewrite Hs1]|].
    intros ? g3 (-> & Hok3 & Hm3 & Hu3). cbv beta iota.
    eapply wp_mono; [|apply wp_plant_remove_finalizer; [congruence|done|done]].
    intros [r|] g4; [|done]. intros [He Hrel]. split; [|done]. eapply evolves_trans; [|exact He].
    by rewrite Hm3, Hm1.
  - eapply wp_mono; [|apply wp_plant_remove_finalizer; [congruence|by apply Hok1|]].
    + intros [r|] g4; [|done]. intros [He Hrel]. split; [|done]. eapply evolves_trans; [|exact He].
      by rewrite Hm1.
    + rewrite Hs1. by apply Hnone.
Qed.

Lemma wp_plant_Reconcile r ns name g :
  ImpersonationClient r = true -> plant_ok g -> CSMachine.Paused (pl_machine g) = false ->
  wp plantI (Reconcile r ns name) (ok (fun _ g' =>
    if CSMachine.Deleted (pl_machine g) then evolves g g' /\ released_with_server g'
    else progresses g g')) g.
Proof.
  intros Hr Hok Hp. unfold Reconcile. wp_call x Hx. destruct Hx as [-> ->].
  wp_call x Hx. destruct Hx as (-> & owner & -> & Howner).
  wp_call x Hx. destruct Hx as (-> & cluster & -> & Hc).
  unfold IsPaused. rewrite Hc, Hp. cbn [orb].
  wp_call x Hx. destruct Hx as (-> & c & -> & Hemail).
  eapply wp_seq; [by apply wp_plant_getCloudClient|]. intros ? g1 [-> [cl ->]]. cbv beta iota.
  eapply (wp_seq _ _ _ (fun _ g' => if CSMachine.Deleted (pl_machine g)
    then evolves g g' /\ released_with_server g' else progresses g g')).
  2:{ intros [a m'] g' H. apply wp_ret. exact H. }
  destruct (CSMachine.Deleted (pl_machine g)); [by apply wp_plant_reconcileDelete|].
  by apply wp_plant_reconcileNormal.
Qed.

(** ** Rounds *)

(** The state a server comes to rest in. *)
Definition rests (st st' : string) : Prop :=
  (st' = "stopped" \/ st' = "running") /\
  (st = "stopped" \/ st = "stopping" -> st' = "stopped") /\
  (started_state st -> st' = "running").

(** Between two reconciliations every server comes to rest, a server that is being
    deleted perhaps by going away. *)
Definition settled (g g' : plant) : Prop :=
  pl_machine g' = pl_machine g /\ NoDup (Server.UUID <$> pl_servers g') /\
  (forall s', s' ∈ pl_servers g' -> exists s st, s ∈ pl_servers g /\ s' = set_state st s /\
     rests (Server.Status s) st) /\
  (forall s, s ∈ pl_servers g -> Server.Status s <> "deleting" ->
     Server.UUID s ∈ Server.UUID <$> pl_servers g').

(** Time passes, and the machine is reconciled. *)
Inductive round {W} (h : handler Eff W) `{!PlantState h} (r : CloudSigmaMachineReconciler)
    (ns name : string) : W -> W -> Prop :=
| round_reconcile w w1 :
    settled (plant_state h w) (plant_state h w1) ->
    round h r ns name w (run h (Reconcile r ns name) w1).2.

Lemma settled_ok g g' : settled g g' -> plant_wf g -> plant_ok g'.
Proof.
  intros (_ & Hd & Hback & _) [_ Hne]. rewrite Forall_forall in Hne.
  split; [split; [done|]|]; apply Forall_forall; intros s' Hs';
    destruct (Hback s' Hs') as (s & st & Hs & -> & Hst & _); cbn; [by apply Hne|].
  destruct Hst; [by left|by right; left].
Qed.

Lemma settled_runs g g' : settled g g' -> plant_wf g -> assigned g -> server_runs g'.
Proof.
  intros (Hm & Hd & Hback & Hall) [Hnd _] (s & Hin & Hid & Hst).
  assert (H : Server.UUID s ∈ Server.UUID <$> pl_servers g').
  { apply Hall; [done|]. intros E. rewrite E in Hst. by destruct Hst. }
  apply list_elem_of_fmap in H as (s' & Hu & Hin').
  destruct (Hback s' Hin') as (s1 & st & Hin1 & -> & _ & _ & Hrun). cbn in Hu.
  assert (s1 = s) as ->.
  { pose proof (by_uuid_elem _ _ Hnd Hin) as H1. pose proof (by_uuid_elem _ _ Hnd Hin1) as H2.
    rewrite Hu in H1. congruence. }
  exists (set_state st s). split_and!; [done|by rewrite Hm|]. by apply Hrun.
Qed.

Section rounds.
Context {W} (h : handler Eff W) `{!PlantState h, !Plant h}.
Context (r : CloudSigmaMachineReconciler) (Hr : ImpersonationClient r = true) (ns name : string).

(** What is reconciled: not paused, and [deleted] or not. *)
Definition reconciled (deleted : bool) (w : W) : Prop :=
  plant_wf (plant_state h w) /\ CSMachine.Paused (pl_machine (plant_state h w)) = false /\
  CSMachine.Deleted (pl_machine (plant_state h w)) = deleted.

Lemma evolves_reconciled deleted g1 w w' :
  settled (plant_state h w) g1 -> reconciled deleted w -> evolves g1 (plant_state h w') ->
  reconciled deleted w'.
Proof.
  intros (Hm & _) (_ & Hp & Hd) [Hok [Hd' Hp']]. rewrite Hm in Hd', Hp'.
  split_and!; [done|congruence..].
Qed.

Lemma round_normal w w' :
  round h r ns name w w' -> reconciled false w ->
  reconciled false w' /\ assigned (plant_state h w') /\
  (assigned (plant_state h w) -> provisioned (plant_state h w')).
Proof using All.
  intros Hround Hw. destruct Hround as [w w1 Hs]. pose proof Hw as (Hok & Hp & Hd).
  pose proof Hs as (Hm & _). rewrite <- Hm in Hp, Hd.
  destruct (wp_run plantI h _ _ _ w1 _ plant_laws eq_refl
    (wp_plant_Reconcile r ns name _ Hr (settled_ok _ _ Hs Hok) Hp)) as (g' & HQ & <-).
  rewrite Hd in HQ. destruct (run h _ w1) as [[a|why] w']; [|done]. cbn in *.
  destruct HQ as (He & Has & Hpr). split_and!; [by eapply evolves_reconciled|done|].
  intros H. eapply Hpr, settled_runs; [exact Hs|exact Hok|exact H].
Qed.

Lemma round_deleted w w' :
  round h r ns name w w' -> reconciled true w ->
  reconciled true w' /\ released_with_server (plant_state h w').
Proof using All.
  intros Hround Hw. destruct Hround as [w w1 Hs]. pose proof Hw as (Hok & Hp & Hd).
  pose proof Hs as (Hm & _). rewrite <- Hm in Hp, Hd.
  destruct (wp_run plantI h _ _ _ w1 _ plant_laws eq_refl
    (wp_plant_Reconcile r ns name _ Hr (settled_ok _ _ Hs Hok) Hp)) as (g' & HQ & <-).
  rewrite Hd in HQ. destruct (run h _ w1) as [[a|why] w']; [|done]. cbn in *.
  destruct HQ as [He Hrel]. split; [by eapply evolves_reconciled|done].
Qed.

Lemma stays_provisioned n w w' :
  nsteps (round h r ns name) n w w' -> reconciled false w -> provisioned (plant_state h w) ->
  provisioned (plant_state h w').
Proof using All.
  induction 1 as [w|n w w1 w' Hstep _ IH]; intros Hw Hp; [done|].
  destruct (round_normal _ _ Hstep Hw) as (Hw1 & _ & H1).
  apply IH; [done|]. by apply H1, server_runs_assigned, Hp.
Qed.

(** ** Properties *)


End rounds.

(** ** A concrete plant

    Clones take a tick, new servers are stopped, starting one takes until the next
    reconciliation, stopping one as long as it may, and the newest server is not
    listed. *)

(** A UUID longer than all others. *)
Definition new_uuid (l : list Server.t) : string := "s" +:+ foldr String.append "" (Server.UUID <$> l).

(** A request that needs the server in some state. *)
Definition when (P : Prop) `{!Decision P} (g g' : plant) : World.sdk () * plant :=
  if decide P then (SdkOk tt, g') else (SdkErr (Some 400%Z) (ErrNew "in the wrong state"), g).

Definition sim_plant_cloud {X} (e : CloudE X) (g : plant) : X * plant :=
  match e in CloudE Y return Y * plant with
  | ServersList => (SdkOk (tail (pl_servers g)), g)
  | ServersGet uuid =>
      (match by_uuid uuid (pl_servers g) with
       | Some s => SdkOk s
       | None => SdkErr (Some 404%Z) (ErrNew "no such server")
       end, g)
  | ServersStart uuid =>
      when (state_of uuid (pl_servers g) = "stopped") g
        (with_servers g (update_state uuid "starting" (pl_servers g)))
  | ServersStop uuid =>
      when (started_state (state_of uuid (pl_servers g))) g
        (with_due (with_servers g (update_state uuid "stopping" (pl_servers g)))
           (pl_now g + stop_time)%Z)
  | ServersDelete uuid =>
      when (state_of uuid (pl_servers g) = "stopped") g
        (with_servers g (filter (fun s => Server.UUID s <> uuid) (pl_servers g)))
  | DrivesClone _ name size =>
      (SdkOk (Drive.mk "clone" name size "cloning" "" "" []), g)
  | DrivesGet uuid => (SdkOk (Drive.mk uuid "" 0 "unmounted" "" "" []), g)
  | e => (deaf_cloud e, g)
  end.

(** What waiting makes of a server here. *)
Definition pass (late : bool) (s : Server.t) : Server.t :=
  if decide (Server.Status s = "stopping" /\ late = true) then set_state "stopped" s else s.

Definition sim_plant_capi {X} (e : CapiE X) (g : plant) : X * plant :=
  match e in CapiE Y return Y * plant with
  | CSMachineGet _ _ => (Ok (pl_machine g), g)
  | CSMachineUpdate m =>
      let m' := with_status m (pl_machine g) in (Ok m', with_machine g m')
  | CSMachineStatusUpdate m =>
      let m' := with_status (pl_machine g) m in (Ok m', with_machine g m')
  | GetOwnerMachine _ => (Ok (Some (Machine.mk "ns" "m" (Some "boot"))), g)
  | GetClusterFromMetadata _ => (Ok (Cluster.mk "c" false), g)
  | CSClusterGet ns name =>
      (Ok (CSCluster.mk ns name [] false false
             (plain_cluster "zrh" "user@example.com" None None) fresh_status), g)
  | SecretData _ _ => (Ok {["value" := "#cloud-config"]}, g)
  | e => (deaf_capi e, g)
  end.

Definition sim_plant : handler Eff plant := fun X e g =>
  match e in Eff _ return X * plant with
  | ECloud _ ce => sim_plant_cloud ce g
  | EHttp he =>
      match he in HttpE Y return Y * plant with
      | PostServer _ _ s =>
          let s' := Server.mk (new_uuid (pl_servers g)) (cs_Name s) "stopped" [] [] (cs_Meta s) [] in
          (Response (201%Z, "", Ok [s']), with_servers g (s' :: pl_servers g))
      | he => (deaf_http he, g)
      end
  | EToken te =>
      (match te in TokenE Y return Y with GetImpersonatedToken _ _ => Ok "tok" end, g)
  | EGo ge =>
      match ge in GoE Y return Y * plant with
      | Now => (pl_now g, g)
      | TickOrDone => (None, with_now g (pl_now g + tick_period)%Z)
      | Sleep ns => (tt, with_servers (with_now g (pl_now g + ns)%Z)
                       (pass (bool_decide (pl_due g <= pl_now g + ns)%Z) <$> pl_servers g))
      | MapSeed => (0%nat, g)
      | CtxErr => (None, g)
      | NewTicker _ => (tt, g)
      | AfterOrDone _ => (None, g)
      | Lock _ => (tt, g)
      | Unlock _ => (tt, g)
      end
  | ECapi pe => sim_plant_capi pe g
  | e => (deaf e, g)
  end.

#[global] Instance sim_plant_state : PlantState sim_plant := fun g => g.

Lemma length_append (s t : string) :
  String.length (s +:+ t) = (String.length s + String.length t)%nat.
Proof. induction s as [|c s IH]; [done|]. exact (f_equal S IH). Qed.

Lemma new_uuid_fresh l : new_uuid l ∉ Server.UUID <$> l.
Proof.
  assert (Hlong : forall u us, u ∈ us -> (String.length u <= String.length (foldr String.append "" us))%nat).
  { intros u us. induction us as [|u' us IH]; [by intros ?%elem_of_nil|].
    cbn [foldr]. rewrite length_append. intros [->|Hu]%elem_of_cons; [lia|]. specialize (IH Hu). lia. }
  intros H%Hlong. unfold new_uuid in H. rewrite length_append in H. cbn [String.length] in H. lia.
Qed.

Lemma pass_passes late l : Forall2 (passes late) l (pass late <$> l).
Proof.
  apply Forall2_fmap_r, Forall_Forall2_diag, Forall_true. intros s. unfold compose, passes, pass.
  destruct (decide (Server.Status s = "stopping")) as [Hst|Hst].
  - destruct late; [left|right]; [by rewrite decide_True|].
    by rewrite decide_False by (by intros []).
  - by rewrite decide_False by (by intros []).
Qed.

#[global] Instance sim_plant_laws : Plant sim_plant.
Proof.
  intros X e w g HR _. unfold plant_state, sim_plant_state in *. subst w.
  eexists. split; [|reflexivity].
  destruct e as [cl []|[]|[]|[]|[]|[]|[]|[]]; cbn -[update_state when stop_time]; try done.
  all: try (unfold when; case_decide; [|by split]).
  - split; [done|by eexists].
  - split; [done|by eexists].
  - split; [done|]. eexists. split; [done|]. intros s. destruct (pl_servers g); [done|by right].
  - split; [done|]. destruct (by_uuid _ _); [done|by eexists].
  - split; [done|]. exists "starting". split; [by right|done].
  - split; [done|]. exists "stopping". split; [by left|done].
  - done.
  - eexists _, "". split; [|by split]. unfold new_server. cbn.
    split_and!; [done|apply new_uuid_fresh|done|done|by left].
  - split; [done|by eexists].
  - eexists. split; [apply pass_passes|done].
  - split; [done|]. eexists. split; [done|by eexists].
  - split; [done|by eexists].
  - split; [done|by eexists].
  - split; [done|]. eexists. split; [done|]. exists "#cloud-config". vm_compute. reflexivity.
Qed.

(** ** Witnesses *)

Definition wit_plant (m : CSMachine.t) (l : list Server.t) : plant :=
  {| pl_machine := m; pl_servers := l; pl_now := 0; pl_due := 0 |}.

(** What the plant is when the next reconciliation begins. *)
Definition settle (s : Server.t) : Server.t :=
  set_state (if decide (Server.Status s = "stopped" \/ Server.Status s = "stopping")
             then "stopped" else "running") s.

Definition settle_plant (g : plant) : plant := with_servers g (settle <$> pl_servers g).

Lemma settle_settled g : plant_wf g -> settled g (settle_plant g).
Proof.
  intros [Hd _]. split_and!; [done|..]; cbn.
  - by rewrite <- list_fmap_compose.
  - intros s' (s & -> & Hs)%list_elem_of_fmap. eexists s, _. split_and!; [done|done|].
    unfold rests, started_state. case_decide as H; (split_and!; [tauto|tauto|]); [|done].
    intros [E|E]; rewrite E in H; by destruct H.
  - intros s Hs _. rewrite <- list_fmap_compose. apply list_elem_of_fmap. by exists s.
Qed.

Definition next_round (g : plant) : plant :=
  (run sim_plant (Reconcile sim_reconciler "ns" "worker") (settle_plant g)).2.

Lemma next_round_round g : plant_wf g -> round sim_plant sim_reconciler "ns" "worker" g (next_round g).
Proof. intros H. by apply round_reconcile, settle_settled. Qed.

(** *** Rounds of the concrete plant *)

Lemma next_round_reconciled deleted g :
  reconciled sim_plant deleted g -> reconciled sim_plant deleted (next_round g).
Proof.
  intros Hg. pose proof (next_round_round g (proj1 Hg)) as H. destruct deleted.
  - by apply (round_deleted (Plant0 := sim_plant_laws) sim_plant sim_reconciler eq_refl "ns" "worker" _ _ H Hg).
  - by apply (round_normal (Plant0 := sim_plant_laws) sim_plant sim_reconciler eq_refl "ns" "worker" _ _ H Hg).
Qed.

Lemma rounds_nsteps deleted n g :
  reconciled sim_plant deleted g ->
  nsteps (round sim_plant sim_reconciler "ns" "worker") n g (Nat.iter n next_round g).
Proof.
  intros Hg. assert (Hn : reconciled sim_plant deleted (Nat.iter n next_round g) /\
    nsteps (round sim_plant sim_reconciler "ns" "worker") n g (Nat.iter n next_round g)); [|apply Hn].
  induction n as [|n [Hr IH]]; [split; [done|constructor]|].
  split; [by apply next_round_reconciled|].
  eapply nsteps_r; [exact IH|]. by apply next_round_round, Hr.
Qed.

(** A new machine: the server is created and started in the first round, and the
    machine is ready after the second. *)
Example two_rounds :
  let m n := pl_machine (Nat.iter n next_round (wit_plant (wit_machine false false "") [])) in
  (CSMachine.InstanceID (m 1%nat), CSMachine.Ready (m 1%nat)) = ("s", false) /\
  (CSMachine.InstanceID (m 2%nat), CSMachine.Ready (m 2%nat)) = ("s", true) /\
  ProviderID (CSMachine.Spec (m 2%nat)) = Some "cloudsigma://s".
Proof. by vm_compute. Qed.

(** One round is not enough. *)
Example one_round_not_enough :
  ~ provisioned (Nat.iter 1 next_round (wit_plant (wit_machine false false "") [])).
Proof. intros (_ & H & _). by vm_compute in H. Qed.

(** Deleting waits for the server: eleven rounds of ten seconds. *)
Example deletion_waits :
  let g := next_round (wit_plant (wit_machine true true "s1") [wit_server "running"]) in
  (pl_servers g, pl_now g) = ([], 110 * second)%Z.
Proof. by vm_compute. Qed.


