(* ===== verification/ClusterController.v ===== *)
(** * The cluster controller

    [controllers/cloudsigmacluster_controller.go]: a [CloudSigmaCluster] becomes
    ready when its VLAN, if it names one, exists.  Its credentials are chosen as
    the machine controller chooses them, but only from [spec.userEmail]. *)

From S2P Require Import Prelude Effects GoErrors ApiTypes World Servers MachineController.

Definition CloudSigmaClusterFinalizer : string :=
  "cloudsigmacluster.infrastructure.cluster.x-k8s.io".

Definition NetworkReadyCondition : string := "NetworkReady".

(** The fields are those of the machine reconciler. *)
Definition CloudSigmaClusterReconciler : Type := CloudSigmaMachineReconciler.

Definition getCloudClient (r : CloudSigmaClusterReconciler) (cluster : option CSCluster.t)
    : go (result Client) :=
  let region := match cluster with
                | Some c => if decide (CSCluster.Region c <> "") then CSCluster.Region c
                            else CloudSigmaRegion r
                | None => CloudSigmaRegion r
                end in
  let userEmail := match cluster with Some c => CSCluster.UserEmail c | None => "" end in
  if ImpersonationClient r && bool_decide (userEmail <> "") then
    NewClientWithImpersonation (ImpersonationClient r) userEmail region
  else if LegacyCredentialsEnabled r && bool_decide (CloudSigmaUsername r <> "")
          && bool_decide (CloudSigmaPassword r <> "") then
    Ret (NewClient (CloudSigmaUsername r) (CloudSigmaPassword r) region)
  else if ImpersonationClient r && bool_decide (userEmail = "") then
    Ret (Err (ErrNew "impersonation configured but userEmail not set in CloudSigmaCluster spec"))
  else Ret (Err (ErrNew "no CloudSigma authentication available")).

(** A successful update replaces the object in memory. *)
Definition Update (c : CSCluster.t) : go (option error * CSCluster.t) :=
  let* r := capi (CSClusterUpdate c) in
  match r with Ok c' => Ret (None, c') | Err err => Ret (Some err, c) end.

Definition StatusUpdate (c : CSCluster.t) : go (option error * CSCluster.t) :=
  let* r := capi (CSClusterStatusUpdate c) in
  match r with Ok c' => Ret (None, c') | Err err => Ret (Some err, c) end.

Definition ensure_finalizer (c : CSCluster.t) : go (option error * CSCluster.t) :=
  if decide (CloudSigmaClusterFinalizer ∈ CSCluster.Finalizers c) then Ret (None, c)
  else Update (CSCluster.set_Finalizers c
                 (CSCluster.Finalizers c ++ [CloudSigmaClusterFinalizer])).

(** The network status with the VLAN that was found. *)
Definition network_status (c : CSCluster.t) (vlan : VLAN.t) : NetworkStatus :=
  {| net_VLANUUID := VLAN.UUID vlan;
     net_CIDR := match CSCluster.Network c with Some n => net_CIDR n | None => "" end |}.

(** [spec] is the VLAN spec of the cluster. *)
Definition reconcileVLAN (cl : Client) (c : CSCluster.t) (spec : VLANSpec)
    : go (option error * CSCluster.t) :=
  if decide (vlan_UUID spec <> "") then
    let* r := GetVLAN cl (vlan_UUID spec) in
    match r with
    | Err err => Ret (Some (ErrWrap "failed to get VLAN" err), c)
    | Ok None => Ret (Some (ErrNew "specified VLAN does not exist"), c)
    | Ok (Some vlan) => Ret (None, CSCluster.set_Network c (network_status c vlan))
    end
  else Ret (None, c).

Definition ready_cluster (c : CSCluster.t) : CSCluster.t :=
  CSCluster.MarkTrue (CSCluster.set_Ready c true) NetworkReadyCondition.

Definition reconcileNormal (cl : Client) (c : CSCluster.t) : go (answer * CSCluster.t) :=
  let* '(err, c) := ensure_finalizer c in
  match err with
  | Some err => Ret (failure (ErrWrap "failed to add finalizer" err), c)
  | None =>
      let* '(err, c) :=
        match CSCluster.VLAN c with
        | Some spec => reconcileVLAN cl c spec
        | None => Ret (None, c)
        end in
      match err with
      | Some err => Ret (failure (ErrWrap "failed to reconcile VLAN" err), c)
      | None =>
          let* '(err, c) := StatusUpdate (ready_cluster c) in
          match err with
          | Some err => Ret (failure (ErrWrap "failed to update status" err), c)
          | None => Ret (finished, c)
          end
      end
  end.

Definition without_finalizer (c : CSCluster.t) : CSCluster.t :=
  CSCluster.set_Finalizers c
    (filter (fun f => f <> CloudSigmaClusterFinalizer) (CSCluster.Finalizers c)).

Definition reconcileDelete (cl : Client) (c : CSCluster.t) : go (answer * CSCluster.t) :=
  let* '(err, c) := Update (without_finalizer c) in
  match err with
  | Some err => Ret (failure (ErrWrap "failed to remove finalizer" err), c)
  | None => Ret (finished, c)
  end.

(** Delete or keep the cluster, with a client. *)
Definition with_client (r : CloudSigmaClusterReconciler) (c : CSCluster.t) : go answer :=
  let* x := getCloudClient r (Some c) in
  match x with
  | Err _ => Ret (requeue 30)
  | Ok cl =>
      let* '(a, _) :=
        (if CSCluster.Deleted c then reconcileDelete cl c else reconcileNormal cl c) in
      Ret a
  end.

Definition Reconcile (r : CloudSigmaClusterReconciler) (ns name : string) : go answer :=
  let* x := capi (CSClusterGet ns name) in
  match x with
  | Err err => Ret (if IsNotFound err then finished else failure err)
  | Ok c =>
      let* x := capi (GetOwnerCluster c) in
      match x with
      | Err err => Ret (failure err)
      | Ok None => Ret finished
      | Ok (Some cluster) =>
          if IsPaused cluster (CSCluster.Paused c) then Ret finished
          else with_client r c
      end
  end.

(** ** What the controller writes *)

Inductive cluster_event :=
| ClusterRead (c : CSCluster.t)
| VLANRead (uuid : string) (x : World.sdk VLAN.t)
| ClusterWritten (c : CSCluster.t) (x : result CSCluster.t)
| ClusterStatus (c : CSCluster.t).

Definition cluster_view : view Eff cluster_event := fun X e =>
  match e in Eff _ return X -> list cluster_event with
  | ECloud _ ce =>
      match ce in CloudE Y return Y -> list cluster_event with
      | VLANsGet uuid => fun x => [VLANRead uuid x]
      | _ => fun _ => []
      end
  | ECapi pe =>
      match pe in CapiE Y return Y -> list cluster_event with
      | CSClusterGet _ _ => fun x => match x with Ok c => [ClusterRead c] | Err _ => [] end
      | CSClusterUpdate c => fun x => [ClusterWritten c x]
      | CSClusterStatusUpdate c => fun _ => [ClusterStatus c]
      | _ => fun _ => []
      end
  | _ => fun _ => []
  end.

Abbreviation clusterI := (anyI cluster_view).

(** The object after the finalizer was seen to: it was there, or it was added. *)
Definition finalized (c c1 : CSCluster.t) (l : list cluster_event) : Prop :=
  (l = [] /\ c1 = c /\ CloudSigmaClusterFinalizer ∈ CSCluster.Finalizers c) \/
  exists c0, l = [ClusterWritten c0 (Ok c1)] /\
             CloudSigmaClusterFinalizer ∈ CSCluster.Finalizers c0.

(** The network the cluster asks for: none, or the VLAN that its spec names by UUID,
    as the service answered it.  (For a spec without a UUID nothing is looked up.) *)
Definition network_checked (c1 : CSCluster.t) (network : option NetworkStatus)
    (l : list cluster_event) : Prop :=
  match CSCluster.VLAN c1 with
  | None => l = [] /\ network = CSCluster.Network c1
  | Some spec => vlan_UUID spec <> "" -> exists vlan,
      l = [VLANRead (vlan_UUID spec) (SdkOk vlan)] /\ network = Some (network_status c1 vlan)
  end.

(** What precedes a status that says ready. *)
Definition ready_justified (c : CSCluster.t) (l : list cluster_event) : Prop :=
  forall st, ClusterStatus st ∈ l -> exists c1 l1 l2,
    l = l1 ++ l2 ++ [ClusterStatus st] /\ finalized c c1 l1 /\
    network_checked c1 (CSCluster.Network st) l2 /\
    CSCluster.Ready st = true /\
    CSCluster.GetConditions st !! NetworkReadyCondition = Some (true, "").

Lemma wp_ensure_finalizer c :
  wp clusterI (ensure_finalizer c) (ok (fun r l =>
    match r.1 with
    | None => finalized c r.2 l
    | Some _ => forall st, ClusterStatus st ∉ l
    end)) [].
Proof.
  unfold ensure_finalizer. case_decide as Hin; [apply wp_ret; by left|].
  unfold Update. wp_call x Hx. subst g'. destruct x as [c'|err]; apply wp_ret; cbn.
  - right. eexists. split; [done|]. cbn. apply elem_of_snoc.
  - intros st [=]%list_elem_of_singleton.
Qed.

Lemma wp_reconcileVLAN cl c spec l :
  CSCluster.VLAN c = Some spec ->
  wp clusterI (reconcileVLAN cl c spec) (ok (fun r l' =>
    exists l2, l' = l ++ l2 /\ (forall st, ClusterStatus st ∉ l2) /\
    (r.1 = None -> network_checked c (CSCluster.Network r.2) l2))) l.
Proof.
  intros Hv. unfold reconcileVLAN, network_checked. rewrite Hv.
  case_decide as Hu.
  2:{ apply wp_ret. exists []. rewrite app_nil_r.
      by split_and!; [done|intros ? []%not_elem_of_nil|]. }
  unfold GetVLAN. apply wp_bind. wp_call x Hx. subst g'.
  assert (Hno : forall st, ClusterStatus st ∉ [VLANRead (vlan_UUID spec) x]).
  { intros st [=]%list_elem_of_singleton. }
  destruct x as [vlan|resp err]; [|case_decide]; apply wp_ret, wp_ret; eexists;
    (split; [done|]); (split; [exact Hno|]); cbn; [|done..].
  intros _ _. by eexists.
Qed.

Lemma wp_reconcileNormal_ready cl c :
  wp clusterI (reconcileNormal cl c) (ok (fun _ l => ready_justified c l)) [].
Proof.
  unfold reconcileNormal. eapply wp_seq; [apply wp_ensure_finalizer|].
  intros [[err|] c1] l1 H1; cbn in H1.
  { apply wp_ret. by intros st []%H1. }
  assert (Hno1 : forall st, ClusterStatus st ∉ l1).
  { intros st Hst. destruct H1 as [(-> & _)|(c0 & -> & _)];
      [by apply not_elem_of_nil in Hst|by apply list_elem_of_singleton in Hst]. }
  eapply (wp_seq _ _ _ (fun r l' => exists l2, l' = l1 ++ l2 /\
    (forall st, ClusterStatus st ∉ l2) /\
    (r.1 = None -> network_checked c1 (CSCluster.Network r.2) l2))).
  { destruct (CSCluster.VLAN c1) as [spec|] eqn:Hv; [by apply wp_reconcileVLAN|].
    apply wp_ret. exists []. rewrite app_nil_r. unfold network_checked. rewrite Hv.
    split_and!; [done|intros ? []%not_elem_of_nil|done]. }
  intros [[err|] c2] ? (l2 & -> & Hno2 & H2); cbn in H2.
  { apply wp_ret. intros st [Hst|Hst]%elem_of_app; [by apply Hno1 in Hst|by apply Hno2 in Hst]. }
  unfold StatusUpdate. apply wp_bind. wp_call x Hx. subst g'.
  assert (Hend : ready_justified c ((l1 ++ l2) ++ [ClusterStatus (ready_cluster c2)])).
  { intros st [[Hst|Hst]%elem_of_app|Hst]%elem_of_app; [by apply Hno1 in Hst|by apply Hno2 in Hst|].
    apply list_elem_of_singleton in Hst as [= ->]. exists c1, l1, l2.
    rewrite <- app_assoc. split_and!; [done|done|by apply H2|done|apply lookup_insert_eq]. }
  destruct x as [c'|err]; apply wp_ret, wp_ret; exact Hend.
Qed.

(** C35. In every environment a cluster is reported ready only after its finalizer was
    in place (there already, or written by this reconciliation); if its spec names a
    VLAN by UUID, only after the look-up of exactly that UUID was answered with a
    VLAN, which the status then carries; and if it has no VLAN spec its network status
    is as it was.  (A VLAN spec without a UUID is not part of the claim: the controller
    passes over it, although the API has its name and range stand for a VLAN to
    create.) *)
Theorem cluster_ready_justified {W} (h : handler Eff W) cl c w :
  let '(o, l) := observe cluster_view h (reconcileNormal cl c) w in
  (exists r, o = Done r) /\ ready_justified c l.
Proof.
  apply (observe_intro cluster_view h (reconcileNormal cl c) w
    (fun o l => (exists r, o = Done r) /\ ready_justified c l)).
  eapply wp_mono; [|apply wp_reconcileNormal_ready]. intros [r|] l; simpl; [eauto|done].
Qed.

(** *** Clusters without a user's address *)

(** Calls that do not read a cluster object. *)
Definition reads_no_cluster (X : Type) (e : Eff X) : Prop :=
  match e with ECapi (CSClusterGet _ _) => False | _ => True end.

Definition all_read (c : CSCluster.t) (l : list cluster_event) : Prop :=
  forall c', ClusterRead c' ∈ l -> c' = c.

Lemma wp_all_read {A} (p : go A) c l :
  only reads_no_cluster p -> returns p (fun _ => True) -> all_read c l ->
  wp clusterI p (ok (fun _ l' => all_read c l')) l.
Proof.
  intros Ho Hr Hl.
  assert (H1 : wp clusterI p (fun _ l' => all_read c l') l).
  { apply (only_wp reads_no_cluster clusterI (all_read c)); [done| |done..].
    intros X e g x g' He -> Hg c' [Hc|Hc]%elem_of_app; [by apply Hg|]. exfalso.
    destruct e as [cl ce|he|ke|oe|te|ge|pe|se]; try (by apply not_elem_of_nil in Hc).
    - destruct ce; try (by apply not_elem_of_nil in Hc). by apply list_elem_of_singleton in Hc.
    - destruct pe; try done; try (by apply not_elem_of_nil in Hc);
        by apply list_elem_of_singleton in Hc. }
  assert (H2 : wp clusterI p (ok (fun _ _ => True)) l) by (by apply (quiet_any no_view)).
  eapply wp_mono; [|exact (wp_conj _ _ _ _ _ H1 H2)]. intros [a|] l' [? ?]; done.
Qed.

Lemma only_with_client r c : only reads_no_cluster (with_client r c).
Proof.
  unfold with_client, getCloudClient, NewClientWithImpersonation, reconcileDelete, reconcileNormal,
    ensure_finalizer, reconcileVLAN, GetVLAN, Update, StatusUpdate.
  only_cloud.
Qed.

Lemma returns_with_client r c : returns (with_client r c) (fun _ => True).
Proof.
  unfold with_client, getCloudClient, NewClientWithImpersonation, reconcileDelete, reconcileNormal,
    ensure_finalizer, reconcileVLAN, GetVLAN, Update, StatusUpdate.
  cbv zeta. returns_go.
Qed.

(** Nothing but the reading of a cluster without an address. *)
Definition untouched (l : list cluster_event) : Prop :=
  forall c, ClusterRead c ∈ l -> CSCluster.UserEmail c = "" -> l = [ClusterRead c].

Lemma wp_with_client r c :
  LegacyCredentialsEnabled r = false ->
  wp clusterI (with_client r c) (ok (fun _ l => untouched l)) [ClusterRead c].
Proof.
  intros Hlegacy. destruct (decide (CSCluster.UserEmail c = "")) as [He|He].
  - unfold with_client, getCloudClient. rewrite He, Hlegacy, bool_decide_false, andb_false_r by auto.
    cbn. destruct (_ && _); apply wp_ret; by intros c' ->%list_elem_of_singleton.
  - eapply wp_mono; [|apply (wp_all_read _ c); [apply only_with_client|apply returns_with_client|]].
    + intros [a|] l; simpl; [|done]. intros Hl c' Hin Hc'. by rewrite (Hl c' Hin) in Hc'.
    + by intros c' [= ->]%list_elem_of_singleton.
Qed.

(** A cluster that does not give its user's address directly, in every
    environment without legacy credentials: a reconciliation reads it and does
    nothing else, so that it never becomes ready and, when it is deleted, never
    loses its finalizer; [spec.userRef] is not looked at. *)
Theorem user_reference_ignored {W} (h : handler Eff W) r ns name w
    (Hlegacy : LegacyCredentialsEnabled r = false) :
  let '(o, l) := observe cluster_view h (Reconcile r ns name) w in
  (exists a, o = Done a) /\ untouched l.
Proof.
  apply (observe_intro cluster_view h (Reconcile r ns name) w
    (fun o l => (exists a, o = Done a) /\ untouched l)).
  eapply (wp_mono _ _ (ok (fun _ l => untouched l))).
  { intros [a|] l; simpl; [eauto|done]. }
  unfold Reconcile. wp_call x Hx. subst g'. destruct x as [c|err]; cbn.
  2:{ apply wp_ret. by intros ? ?%not_elem_of_nil. }
  assert (Hone : untouched [ClusterRead c]) by (by intros c' [= ->]%list_elem_of_singleton).
  wp_call y Hy. subst g'. cbn. destruct y as [[cluster|]|err]; [|by apply wp_ret..].
  destruct (IsPaused _ _); [by apply wp_ret|]. by apply wp_with_client.
Qed.

(** ** The two controllers of a cluster act in the same account *)

(** A result up to the text of its error. *)
Definition without_text {A} (r : result A) : option A :=
  match r with Ok a => Some a | Err _ => None end.

(** C36. When a cluster names its user directly, or names none, the machine controller
    and the cluster controller obtain its cloud client by the same program: the
    same requests in the same order, the same client, and they fail together.
    (With a user reference they differ, see [machine_follows_user_reference].) *)
Theorem same_cloud_client r c
    (Hdirect : CSCluster.UserEmail c <> "" \/ CSCluster.UserRef c = None) :
  (let* x := MachineController.getCloudClient r (Some c) in Ret (without_text x)) =
  (let* x := getCloudClient r (Some c) in Ret (without_text x)).
Proof.
  unfold MachineController.getCloudClient, getCloudClient.
  assert (Hemail : getUserEmail c = Ret (CSCluster.UserEmail c)).
  { unfold getUserEmail. case_decide as He; [done|].
    destruct Hdirect as [|Href]; [done|]. by rewrite Href, He. }
  rewrite Hemail. change (bind (Ret ?a) ?f) with (f a). cbv beta zeta.
  set (region := if decide (CSCluster.Region c = "") then CloudSigmaRegion r else CSCluster.Region c).
  assert (Hr : (if decide (CSCluster.Region c <> "") then CSCluster.Region c else CloudSigmaRegion r) = region).
  { unfold region. destruct (decide (CSCluster.Region c = "")) as [->|]; [done|]. by rewrite decide_True. }
  rewrite Hr. destruct (_ && _); [done|]. destruct (_ && _ && _); [done|]. by destruct (_ && _).
Qed.

(** ** Witnesses *)

Definition wit_cluster (deleted : bool) : CSCluster.t :=
  CSCluster.mk "ns" "c" [CloudSigmaClusterFinalizer] deleted false
    (plain_cluster "zrh" "" (Some {| ref_Name := "user"; ref_Namespace := "" |})
       (Some {| vlan_UUID := "vlan-1"; vlan_Name := ""; vlan_CIDR := "" |})) fresh_status.

(** A management cluster with this cluster object and the secret it refers to. *)
Definition sim_cluster (deleted : bool) : handler Eff unit := fun X e w =>
  (match e in Eff _ return X with
   | ECapi pe =>
       match pe in CapiE Y return Y with
       | CSClusterGet _ _ => Ok (wit_cluster deleted)
       | GetOwnerCluster _ => Ok (Some (Cluster.mk "c" false))
       | SecretData _ _ => Ok {["userEmail" := "a@b.c"]}
       | CSClusterUpdate c => Ok c
       | CSClusterStatusUpdate c => Ok c
       | pe => deaf_capi pe
       end
   | EToken te => match te in TokenE Y return Y with GetImpersonatedToken u r => Ok u end
   | ECloud _ ce =>
       match ce in CloudE Y return Y with
       | VLANsGet uuid => SdkOk (VLAN.mk uuid)
       | ce => deaf_cloud ce
       end
   | e => deaf e
   end, w).

Definition impersonating : CloudSigmaClusterReconciler :=
  {| LegacyCredentialsEnabled := false; CloudSigmaUsername := ""; CloudSigmaPassword := "";
     CloudSigmaRegion := "zrh"; ImpersonationClient := true |}.

(** The machine controller finds the user of the same cluster. *)
Example machine_follows_user_reference :
  (run (sim_cluster true) (MachineController.getCloudClient impersonating
     (Some (wit_cluster true))) tt).1
  = (run (sim_cluster true) (NewClientWithImpersonation true "a@b.c" "zrh") tt).1 /\
  (run (sim_cluster true) (getCloudClient impersonating (Some (wit_cluster true))) tt).1
  = Done (Err (ErrNew "impersonation configured but userEmail not set in CloudSigmaCluster spec")).
Proof. by vm_compute. Qed.

(** A VLAN to be created, by its name and range: the cluster is reported ready
    without any request for a VLAN. *)
Example vlan_without_uuid_ready :
  let c := CSCluster.mk "ns" "c" [CloudSigmaClusterFinalizer] false false
    (plain_cluster "zrh" "a@b.c" None
       (Some {| vlan_UUID := ""; vlan_Name := "net"; vlan_CIDR := "10.220.0.0/16" |})) fresh_status in
  forall cl, (observe cluster_view (sim_cluster false) (reconcileNormal cl c) tt).2
             = [ClusterStatus (ready_cluster c)].
Proof. intros c cl. by vm_compute. Qed.

Lemma user_reference_ignored_witness :
  let '(o, l) := observe cluster_view (sim_cluster true) (Reconcile impersonating "ns" "c") tt in
  (exists a, o = Done a) /\ untouched l.
Proof. apply (user_reference_ignored (sim_cluster true)). reflexivity. Defined.

Lemma same_cloud_client_witness :
  let c := CSCluster.mk "ns" "c" [] false false
    (plain_cluster "" "a@b.c" (Some {| ref_Name := "user"; ref_Namespace := "" |}) None) fresh_status in
  (let* x := MachineController.getCloudClient impersonating (Some c) in Ret (without_text x)) =
  (let* x := getCloudClient impersonating (Some c) in Ret (without_text x)).
Proof. apply same_cloud_client. by left. Defined.
