(* ===== verification/Isolation.v ===== *)
(** * Tenant isolation

    The machine and the cluster controller share one impersonation client
    ([cmd/main.go]), whose cache holds the tokens of all users.  Here the
    controllers run on that client ([with_auth] of Auth.v), for any number of
    reconciliations of clusters of different users: every request to the cloud
    bears a token that the impersonation endpoint issued to the user that the
    cluster at hand names. *)

From S2P Require Import Prelude Effects GoErrors ApiTypes World Tags Servers Base64.
From S2P Require Import LoadBalancer MachineController ClusterController Auth.

(** ** What the provider reconciles *)

Inductive work := MachineWork (ns name : string) | ClusterWork (ns name : string).

Definition reconcile (r : CloudSigmaMachineReconciler) (x : work) : go answer :=
  match x with
  | MachineWork ns name => MachineController.Reconcile r ns name
  | ClusterWork ns name => ClusterController.Reconcile r ns name
  end.

(** ** What an observer sees of it *)

Inductive tenant_event :=
| ReadCluster (c : CSCluster.t)
| ReadSecret (ns name : string) (data : gmap string string)
| Used (cred : credentials).

Definition tenant_view : view Eff tenant_event := fun X e =>
  match e in Eff _ return X -> list tenant_event with
  | ECloud cl _ => fun _ => [Used (sdk_cred cl)]
  | EHttp he =>
      match he in HttpE Y return Y -> list tenant_event with
      | GetIPsDetail _ t => fun _ => [Used (TokenCred t)]
      | GetTags _ t => fun _ => [Used (TokenCred t)]
      | PostTag _ t _ _ => fun _ => [Used (TokenCred t)]
      | PutTag _ t _ _ => fun _ => [Used (TokenCred t)]
      | GetServerJson _ t => fun _ => [Used (TokenCred t)]
      | PutServerJson _ t _ => fun _ => [Used (TokenCred t)]
      | PostServer _ auth _ => fun _ => [Used auth]
      | PutServerNICs _ auth _ => fun _ => [Used auth]
      | GetObject _ auth => fun _ => [Used auth]
      | PutObject _ auth _ => fun _ => [Used auth]
      end
  | ECapi pe =>
      match pe in CapiE Y return Y -> list tenant_event with
      | CSClusterGet _ _ => fun x => match x with Ok c => [ReadCluster c] | Err _ => [] end
      | SecretData ns name => fun x =>
          match x with Ok data => [ReadSecret ns name data] | Err _ => [] end
      | _ => fun _ => []
      end
  | _ => fun _ => []
  end.

(** The user a cluster names, directly or by a secret it refers to. *)
Definition user_of (o : list tenant_event) (c : CSCluster.t) (u : string) : Prop :=
  u <> "" /\
  (u = CSCluster.UserEmail c \/
   CSCluster.UserEmail c = "" /\ exists name ns data,
     CSCluster.UserRef c = Some {| ref_Name := name; ref_Namespace := ns |} /\ data !! "userEmail" = Some u /\
     ReadSecret (if decide (ns = "") then CSCluster.Namespace c else ns) name data ∈ o).

Definition region_of (r : CloudSigmaMachineReconciler) (c : CSCluster.t) : string :=
  let region := if decide (CSCluster.Region c = "") then CloudSigmaRegion r else CSCluster.Region c in
  if decide (region = "") then "zrh" else region.

(** What a request may bear: a token issued to the user of the cluster that was
    read, for its region; or the credentials of the flags, when these are enabled. *)
Definition authorised (r : CloudSigmaMachineReconciler) (l : list auth_event)
    (o : list tenant_event) (cred : credentials) : Prop :=
  match cred with
  | TokenCred t => exists c u e, ReadCluster c ∈ o /\ user_of o c u /\
      issued_at l (impersonateURL (region_of r c)) u t e
  | UserPass user password => LegacyCredentialsEnabled r = true /\
      user = CloudSigmaUsername r /\ password = CloudSigmaPassword r
  end.

Lemma user_of_app o o' c u : user_of o c u -> user_of (o ++ o') c u.
Proof.
  intros [Hu [H|(He & name & ns & data & H1 & H2 & H3)]]; (split; [done|]); [by left|right].
  split; [done|]. exists name, ns, data. split_and!; [done|done|]. apply elem_of_app. by left.
Qed.

Lemma authorised_app r l k o o' cred :
  authorised r l o cred -> authorised r (l ++ k) (o ++ o') cred.
Proof.
  destruct cred as [t|user password]; [|done]. intros (c & u & e & Hc & Hu & Hi).
  exists c, u, e. split_and!; [apply elem_of_app; by left|by apply user_of_app|].
  by apply issued_at_app_r.
Qed.

(** One cluster is read, and every request is authorised. *)
Definition isolated (r : CloudSigmaMachineReconciler) (l : list auth_event)
    (o : list tenant_event) : Prop :=
  (forall c c', ReadCluster c ∈ o -> ReadCluster c' ∈ o -> c = c') /\
  forall cred, Used cred ∈ o -> authorised r l o cred.

(** ** The environment

    E-mail addresses without a colon; the token service answers tokens that were
    issued. *)

Definition plain_user (u : string) : Prop := no_char ":"%char u.

Definition plain {X} (e : Eff X) : X -> Prop :=
  match e in Eff _ return X -> Prop with
  | ECapi pe =>
      match pe in CapiE Y return Y -> Prop with
      | CSClusterGet _ _ => fun x => forall c, x = Ok c -> plain_user (CSCluster.UserEmail c)
      | SecretData _ _ => fun x => forall data, x = Ok data ->
          plain_user (default "" (data !! "userEmail"))
      | _ => fun _ => True
      end
  | _ => fun _ => True
  end.

Class PlainUsers {W} (h : handler Eff W) : Prop :=
  plain_users : forall X (e : Eff X) w, plain e (h X e w).1.

Definition tokens_issued {X} (e : Eff X) : X -> list auth_event -> Prop :=
  match e in Eff _ return X -> list auth_event -> Prop with
  | EToken te =>
      match te in TokenE Y return Y -> list auth_event -> Prop with
      | World.GetImpersonatedToken u rg => fun x l => forall t, x = Ok t ->
          t <> "" /\ exists e, issued_at l (impersonateURL rg) u t e
      end
  | _ => fun _ _ => True
  end.

Definition token_pre {X} (e : Eff X) : Prop :=
  match e with
  | EToken (World.GetImpersonatedToken u _) => plain_user u
  | _ => True
  end.

Definition tenantI : iface Eff (list auth_event * list tenant_event) :=
  Iface (fun _ e _ => token_pre e)
        (fun _ e g x g' => (exists k, g'.1 = g.1 ++ k) /\ g'.2 = g.2 ++ tenant_view _ e x /\
           plain e x /\ tokens_issued e x g'.1).

(** The provider's environment: [h] with the impersonation client. *)
Abbreviation provider h := (with_auth (logging auth_view h)).

Definition provider_rel {W} (wl : ((W * list auth_event) * ImpersonationClient) * list tenant_event)
    (g : list auth_event * list tenant_event) : Prop :=
  wl.1.1.2 = g.1 /\ wl.2 = g.2 /\ cache_ok wl.1.2 g.1.

Lemma provider_laws {W} (h : handler Eff W) `{!PlainUsers h} :
  implements (logging tenant_view (provider h)) provider_rel tenantI.
Proof.
  intros X e [[[w l] c] o] [l0 o0] (E1 & E2 & Hc) Hpre. cbn in E1, E2, Hc. subst l0 o0.
  assert (Hpass : (match e with EToken _ => False | _ => True end) ->
    provider h X e ((w, l), c) = ((h X e w).1, (((h X e w).2, l ++ auth_view X e (h X e w).1), c))).
  { intros He. destruct e; try done; cbn; by destruct (h _ _ w). }
  assert (Hother : (match e with EToken _ => False | _ => True end) -> exists g',
    i_post tenantI e (l, o) (logging tenant_view (provider h) X e (((w, l), c), o)).1 g' /\
    provider_rel (logging tenant_view (provider h) X e (((w, l), c), o)).2 g').
  { intros He. unfold logging at 1 3. rewrite (Hpass He). cbn.
    eexists (_, _). split; [split_and!|split_and!]; cbn;
      [by eexists|done|apply plain_users|by destruct e|done|done|by apply cache_ok_app]. }
  destruct e as [cl ce|he|ke|oe|te|ge|pe|se]; try by apply Hother.
  destruct te as [u rg]. cbn in Hpre.
  destruct (run_wp_auth h _ _ (w, l) (wp_GetImpersonatedToken c u rg l Hpre Hc))
    as ([res c'] & w' & l' & Hrun & _ & Hc' & k & Hl & Ht).
  cbn. rewrite Hrun. cbn in *. subst l'. exists (l ++ k, o).
  split; [split_and!; cbn; [by eexists|by rewrite app_nil_r|done|]|by split_and!; cbn; rewrite ?app_nil_r].
  intros t ->. destruct (Ht t eq_refl) as (Hne & e & Hi & _). split; [done|by eexists].
Qed.

(** ** The client of a reconciliation *)

(** Requests with the credentials of one client; nothing that decides whose they
    are. *)
Definition with_creds (c : Client) (X : Type) (e : Eff X) : Prop :=
  match e with
  | ECloud cl _ => cl = sdk c
  | EHttp (PostServer _ auth _) | EHttp (PutServerNICs _ auth _) => auth = http_auth c
  | EHttp _ => False
  | EToken _ => False
  | ECapi (CSClusterGet _ _) => False
  | _ => True
  end.

Section isolation.
Context (r : CloudSigmaMachineReconciler).

Definition client_authorised (c : Client) (g : list auth_event * list tenant_event) : Prop :=
  authorised r g.1 g.2 (sdk_cred (sdk c)) /\ authorised r g.1 g.2 (http_auth c).

Lemma with_creds_keeps c {X} (e : Eff X) g x g' :
  with_creds c X e -> i_post tenantI e g x g' ->
  isolated r g.1 g.2 /\ client_authorised c g -> isolated r g'.1 g'.2 /\ client_authorised c g'.
Proof.
  destruct g as [l o], g' as [l' o']. intros He ([k Hk] & Ho & _ & _) [[Hone Hall] [Hsdk Hhttp]].
  cbn [fst snd] in *. subst l' o'.
  assert (Hgrow : forall o' cred, authorised r l o cred -> authorised r (l ++ k) (o ++ o') cred)
    by (intros o' cred; apply authorised_app).
  assert (Hnew : forall ev, ev ∈ tenant_view X e x ->
    match ev with
    | ReadCluster _ => False
    | ReadSecret _ _ _ => True
    | Used cred => authorised r l o cred
    end).
  { intros ev Hev. destruct e as [cl ce|he|ke|oe|te|ge|pe|se]; cbn in He, Hev;
      try (by apply not_elem_of_nil in Hev); try done.
    - subst cl. apply list_elem_of_singleton in Hev as ->. exact Hsdk.
    - destruct he; try done; subst auth; apply list_elem_of_singleton in Hev as ->; exact Hhttp.
    - destruct pe; try done; try (by apply not_elem_of_nil in Hev).
      destruct x; [|by apply not_elem_of_nil in Hev]. by apply list_elem_of_singleton in Hev as ->. }
  split; [split|split; by apply Hgrow].
  - intros c1 c2 H1 H2. apply Hone.
    + apply elem_of_app in H1 as [|H1%Hnew]; done.
    + apply elem_of_app in H2 as [|H2%Hnew]; done.
  - intros cred [Hc|Hc%Hnew]%elem_of_app; [by apply Hgrow, Hall|by apply Hgrow].
Qed.

(** What runs with an authorised client is isolated. *)
Lemma wp_with_creds {A} (p : go A) c g :
  only (with_creds c) p -> isolated r g.1 g.2 -> client_authorised c g ->
  wp tenantI p (fun _ g' => isolated r g'.1 g'.2) g.
Proof.
  intros Ho Hi Hc.
  eapply wp_mono; [|apply (only_wp (with_creds c) tenantI
    (fun g => isolated r g.1 g.2 /\ client_authorised c g)); [| |exact Ho|done]].
  - by intros _ g' [H _].
  - intros X e g1 He _. destruct e; try done. 
  - intros X e g1 x g2. apply with_creds_keeps.
Qed.

Lemma isolated_grows l k o ev :
  match ev with ReadSecret _ _ _ => True | _ => False end ->
  isolated r l o -> isolated r (l ++ k) (o ++ [ev]).
Proof.
  intros Hev [Hone Hall]. split.
  - intros c1 c2 [H1|H1%list_elem_of_singleton]%elem_of_app; [|by subst].
    intros [H2|H2%list_elem_of_singleton]%elem_of_app; [by apply Hone|by subst].
  - intros cred [H|H%list_elem_of_singleton]%elem_of_app; [|by subst].
    by apply authorised_app, Hall.
Qed.

Lemma isolated_same l k o : isolated r l o -> isolated r (l ++ k) o.
Proof.
  intros [Hone Hall]. split; [done|]. intros cred H. rewrite <- (app_nil_r o).
  by apply authorised_app, Hall.
Qed.

(** *** Obtaining the client *)

Lemma wp_impersonating imp u c g :
  isolated r g.1 g.2 -> ReadCluster c ∈ g.2 -> user_of g.2 c u -> plain_user u ->
  let rg := if decide (CSCluster.Region c = "") then CloudSigmaRegion r else CSCluster.Region c in
  wp tenantI (NewClientWithImpersonation imp u rg)
     (ok (fun x g' => isolated r g'.1 g'.2 /\ forall cl, x = Ok cl -> client_authorised cl g')) g.
Proof.
  intros Hi Hc Hu Hplain rg. unfold NewClientWithImpersonation.
  case_match; [by apply wp_ret|]. case_decide; [by apply wp_ret|]. cbv zeta.
  apply wp_call; [done|]. intros x g' ([k Hk] & Ho & _ & Ht). cbn in Ho. rewrite app_nil_r in Ho.
  assert (Hi' : isolated r g'.1 g'.2) by (rewrite Hk, Ho; by apply isolated_same).
  destruct x as [t|err]; apply wp_ret; [|by split].
  split; [done|]. intros cl [= <-]. destruct (Ht t eq_refl) as (Hne & e & Hiss).
  assert (Ha : authorised r g'.1 g'.2 (TokenCred t)).
  { exists c, u, e. rewrite Ho. split_and!; [done|done|exact Hiss]. }
  split; [exact Ha|]. unfold http_auth. cbn. by rewrite bool_decide_true.
Qed.

Lemma wp_legacy rg g :
  isolated r g.1 g.2 -> LegacyCredentialsEnabled r = true ->
  wp tenantI (Ret (NewClient (CloudSigmaUsername r) (CloudSigmaPassword r) rg))
     (ok (fun x g' => isolated r g'.1 g'.2 /\ forall cl, x = Ok cl -> client_authorised cl g')) g.
Proof.
  intros Hi Hl. apply wp_ret. split; [done|]. unfold NewClient.
  case_decide; [done|]. intros cl [= <-]. by split.
Qed.

Lemma plain_empty : plain_user "".
Proof. done. Qed.

Lemma wp_getUserEmail c g :
  isolated r g.1 g.2 -> ReadCluster c ∈ g.2 -> plain_user (CSCluster.UserEmail c) ->
  wp tenantI (getUserEmail c) (ok (fun u g' => isolated r g'.1 g'.2 /\ ReadCluster c ∈ g'.2 /\
    plain_user u /\ (u <> "" -> user_of g'.2 c u))) g.
Proof.
  intros Hi Hc Hp. unfold getUserEmail. case_decide as He.
  { apply wp_ret. split_and!; [done|done|done|]. intros Hu. split; [done|by left]. }
  destruct (CSCluster.UserRef c) as [[name ns]|] eqn:Hr; [|by apply wp_ret]. cbv zeta.
  apply wp_call; [done|]. intros x [l' o'] ([k Hk] & Ho & Hplain & _). cbn [fst snd] in *. subst l' o'.
  destruct x as [data|err]; apply wp_ret; cbn in *.
  2:{ rewrite app_nil_r. split_and!; [by apply isolated_same|done|done|done]. }
  split_and!; [by apply isolated_grows|apply elem_of_app; by left|by apply Hplain|].
  intros Hu. split; [done|]. right. split; [done|]. exists name, ns, data.
  split_and!; [done| |by apply elem_of_snoc]. by destruct (data !! "userEmail").
Qed.

(** The user and the region are the cluster's, or the client is the one of the
    flags. *)
Abbreviation authorises p g :=
  (wp tenantI p (ok (fun x g' => isolated r g'.1 g'.2 /\
     forall cl, x = Ok cl -> client_authorised cl g')) g).

Lemma wp_choose imp u oc g err1 err2 :
  isolated r g.1 g.2 ->
  (u <> "" -> exists c, oc = Some c /\ ReadCluster c ∈ g.2 /\ user_of g.2 c u) -> plain_user u ->
  let rg := match oc with
            | Some c => if decide (CSCluster.Region c = "") then CloudSigmaRegion r else CSCluster.Region c
            | None => CloudSigmaRegion r
            end in
  authorises
    (if imp && bool_decide (u <> "") then NewClientWithImpersonation imp u rg
     else if LegacyCredentialsEnabled r && bool_decide (CloudSigmaUsername r <> "")
             && bool_decide (CloudSigmaPassword r <> "")
     then Ret (NewClient (CloudSigmaUsername r) (CloudSigmaPassword r) rg)
     else if imp && bool_decide (u = "") then Ret (Err err1) else Ret (Err err2)) g.
Proof.
  intros Hi Hu Hp rg. destruct (imp && bool_decide (u <> "")) eqn:E1.
  { apply andb_true_iff in E1 as [_ Hne%bool_decide_eq_true].
    destruct (Hu Hne) as (c & -> & Hc & Huser). by apply wp_impersonating. }
  destruct (LegacyCredentialsEnabled r && _ && _) eqn:E2.
  { apply andb_true_iff in E2 as [[E2 _]%andb_true_iff _]. by apply wp_legacy. }
  by destruct (imp && bool_decide (u = "")); apply wp_ret.
Qed.

Lemma wp_machine_client oc g :
  isolated r g.1 g.2 ->
  (forall c, oc = Some c -> ReadCluster c ∈ g.2 /\ plain_user (CSCluster.UserEmail c)) ->
  authorises (MachineController.getCloudClient r oc) g.
Proof.
  intros Hi Hc. unfold MachineController.getCloudClient.
  eapply (wp_seq _ _ _ (fun u g' => isolated r g'.1 g'.2 /\ plain_user u /\
    (u <> "" -> exists c, oc = Some c /\ ReadCluster c ∈ g'.2 /\ user_of g'.2 c u))).
  { destruct oc as [c|]; [|by apply wp_ret]. destruct (Hc c eq_refl) as [Hr Hp].
    eapply wp_mono; [|by apply wp_getUserEmail]. intros [u|] g'; [|done].
    intros (H1 & H2 & H3 & H4). split_and!; [done|done|]. intros Hu. exists c. auto. }
  intros u g' (Hi' & Hp & Hu).
  assert (Hrg : (let region := match oc with Some c => CSCluster.Region c | None => "" end in
                 if decide (region = "") then CloudSigmaRegion r else region) =
    match oc with
    | Some c => if decide (CSCluster.Region c = "") then CloudSigmaRegion r else CSCluster.Region c
    | None => CloudSigmaRegion r
    end) by (by destruct oc).
  cbv zeta in Hrg |- *. rewrite Hrg. by apply wp_choose.
Qed.

Lemma wp_cluster_client c g :
  isolated r g.1 g.2 -> ReadCluster c ∈ g.2 -> plain_user (CSCluster.UserEmail c) ->
  authorises (ClusterController.getCloudClient r (Some c)) g.
Proof.
  intros Hi Hc Hp. unfold ClusterController.getCloudClient. cbv zeta.
  assert (Hrg : (if decide (CSCluster.Region c <> "") then CSCluster.Region c else CloudSigmaRegion r)
    = if decide (CSCluster.Region c = "") then CloudSigmaRegion r else CSCluster.Region c).
  { destruct (decide (CSCluster.Region c = "")) as [He|He]; [by rewrite decide_False by auto|by rewrite decide_True]. }
  rewrite Hrg. apply (wp_choose _ _ (Some c)); [done| |done].
  intros Hu. exists c. split_and!; [done|done|]. split; [done|by left].
Qed.
End isolation.

(** *** The rest of a reconciliation uses the client *)

Create HintDb creds.

Ltac only_creds :=
  intros; unfold cloud, http, kube, oauth, token, golang, capi, os;
  repeat (first [done | solve [auto with creds nocore] | only_step | progress cbv zeta
                | progress change (bind (Ret ?a) ?f) with (f a)]).

Section creds.
Context (c : Client).

Lemma creds_wait_drive uuid deadline fuel : only (with_creds c) (wait_drive c uuid deadline fuel).
Proof. induction fuel; cbn [wait_drive]; only_creds. Qed.
#[local] Hint Resolve creds_wait_drive : creds.

Lemma creds_GetServer uuid : only (with_creds c) (GetServer c uuid).
Proof. unfold GetServer. only_creds. Qed.
#[local] Hint Resolve creds_GetServer : creds.

Lemma creds_CloneDrive src name size : only (with_creds c) (CloneDrive c src name size).
Proof. unfold CloneDrive, WaitForDriveReady. only_creds. Qed.
#[local] Hint Resolve creds_CloneDrive : creds.

Lemma creds_delete_all uuids : only (with_creds c) (delete_all c uuids).
Proof. unfold delete_all, DeleteDrive. only_creds. Qed.
#[local] Hint Resolve creds_delete_all : creds.

Lemma creds_clone_all spec : only (with_creds c) (clone_all c spec).
Proof. unfold clone_all. apply only_for_range. intros [i disk] cs. only_creds. Qed.
#[local] Hint Resolve creds_clone_all : creds.

Lemma creds_CreateServer spec : only (with_creds c) (CreateServer c spec).
Proof. unfold CreateServer, createServerDirect. only_creds. Qed.

Lemma creds_DeleteServer uuid : only (with_creds c) (DeleteServer c uuid).
Proof. unfold DeleteServer, StopServer, DeleteIP. only_creds. Qed.

Lemma creds_TagServer uuid cluster pool : only (with_creds c) (TagServer (Some (sdk c)) uuid cluster pool).
Proof. unfold TagServer, tagAll, ensureTag. only_creds. Qed.

Lemma creds_UntagServer uuid : only (with_creds c) (UntagServer (Some (sdk c)) uuid).
Proof. unfold UntagServer, untagAll. only_creds. Qed.

Lemma creds_addresses s : only (with_creds c) (GetServerAddressesWithClient c s).
Proof. unfold GetServerAddressesWithClient, GetIP. only_creds. Qed.
#[local] Hint Resolve creds_CreateServer creds_DeleteServer creds_TagServer creds_UntagServer
  creds_addresses : creds.

Lemma creds_record_server retry m s : only (with_creds c) (record_server retry m s).
Proof. unfold record_server, MachineController.StatusUpdate, MachineController.Update. only_creds. Qed.
#[local] Hint Resolve creds_record_server : creds.

Lemma creds_create_server owner m : only (with_creds c) (create_server c owner m).
Proof. unfold create_server, getBootstrapData, StartServer. only_creds. Qed.
#[local] Hint Resolve creds_create_server : creds.

Lemma creds_find_or_create owner m : only (with_creds c) (find_or_create c owner m).
Proof. unfold find_or_create, FindServerByNameOrMeta. only_creds. Qed.

Lemma creds_check_existing m : only (with_creds c) (check_existing c m).
Proof.
  unfold check_existing, FindServerByNameOrMeta, clear_instance, MachineController.StatusUpdate.
  only_creds.
Qed.

Lemma creds_update_server m s : only (with_creds c) (update_server c m s).
Proof.
  unfold update_server, ensure_provider_id, StartServer, MachineController.StatusUpdate,
    MachineController.Update. only_creds.
Qed.

Lemma creds_delete_server uuid s : only (with_creds c) (delete_server c uuid s).
Proof. unfold delete_server, wait_stopped, StopServer. only_creds. Qed.
#[local] Hint Resolve creds_find_or_create creds_check_existing creds_update_server
  creds_delete_server : creds.

Lemma creds_machine_normal owner m :
  only (with_creds c) (MachineController.reconcileNormal c owner m).
Proof.
  unfold MachineController.reconcileNormal, MachineController.ensure_finalizer,
    MachineController.Update. only_creds.
Qed.

Lemma creds_machine_delete m : only (with_creds c) (MachineController.reconcileDelete c m).
Proof.
  unfold MachineController.reconcileDelete, remove_finalizer, MachineController.Update. only_creds.
Qed.

Lemma creds_cluster_normal k : only (with_creds c) (ClusterController.reconcileNormal c k).
Proof.
  unfold ClusterController.reconcileNormal, ClusterController.ensure_finalizer, reconcileVLAN, GetVLAN,
    ClusterController.Update, ClusterController.StatusUpdate. only_creds.
Qed.

Lemma creds_cluster_delete k : only (with_creds c) (ClusterController.reconcileDelete c k).
Proof. unfold ClusterController.reconcileDelete, ClusterController.Update. only_creds. Qed.
End creds.

(** ** A reconciliation *)

Section reconcile.
Context (r : CloudSigmaMachineReconciler).

Lemma isolated_nil l : isolated r l [].
Proof. split; [by intros c c' []%not_elem_of_nil|by intros cred []%not_elem_of_nil]. Qed.

Lemma isolated_read l c : isolated r l [ReadCluster c].
Proof.
  split; [|by intros cred H%list_elem_of_singleton].
  by intros c1 c2 [= <-]%list_elem_of_singleton [= <-]%list_elem_of_singleton.
Qed.

(** A call before the cluster is read. *)
Lemma wp_before {X A} (pe : CapiE X) (k : X -> go A) (Q : outcome A -> _ -> Prop) l :
  (forall x, tenant_view X (ECapi pe) x = []) ->
  (forall x l', wp tenantI (k x) Q (l', [])) ->
  wp tenantI (let* x := capi pe in k x) Q (l, []).
Proof.
  intros Hv Hk. apply wp_call; [done|]. intros x [l' o'] (_ & Ho & _). cbn in Ho. subst o'.
  pose proof (Hv x) as Hx. cbn in Hx. rewrite Hx. apply Hk.
Qed.

Lemma wp_with_client_isolated oc (use : Client -> go answer) (err : answer) g p :
  (forall cl, only (with_creds cl) (use cl)) ->
  wp tenantI p (ok (fun x g' => isolated r g'.1 g'.2 /\
    forall cl, x = Ok cl -> client_authorised r cl g')) g ->
  oc = (let* x := p in match x with Err _ => Ret err | Ok cl => use cl end) ->
  wp tenantI oc (fun _ g' => isolated r g'.1 g'.2) g.
Proof.
  intros Huse Hp ->. eapply wp_seq; [exact Hp|]. intros [cl|e] g' [Hi Hc]; [|by apply wp_ret].
  by eapply wp_with_creds; [apply Huse| |apply Hc].
Qed.

Lemma wp_reconcile_isolated x l :
  wp tenantI (reconcile r x) (fun _ g' => isolated r g'.1 g'.2) (l, []).
Proof.
  destruct x as [ns name|ns name]; cbn [reconcile].
  - unfold MachineController.Reconcile. apply wp_before; [done|]. intros x1 l1.
    destruct x1 as [m|err]; [|apply wp_ret, isolated_nil]. apply wp_before; [done|]. intros x2 l2.
    destruct x2 as [[owner|]|err]; [|apply wp_ret, isolated_nil..]. apply wp_before; [done|].
    intros x3 l3. destruct x3 as [cluster|err]; [|apply wp_ret, isolated_nil].
    destruct (IsPaused _ _); [apply wp_ret, isolated_nil|].
    apply wp_call; [done|]. intros x4 [l4 o4] (_ & Ho & Hplain & _). cbn in Ho, Hplain. subst o4.
    eapply wp_with_client_isolated; [| |reflexivity].
    + intros cl. apply only_bind; [|by intros []].
      destruct (CSMachine.Deleted m); [apply creds_machine_delete|apply creds_machine_normal].
    + destruct x4 as [c|err]; apply wp_machine_client; cbn;
        [apply isolated_read| |apply isolated_nil|done].
      intros ? [= <-]. split; [by left|by apply Hplain].
  - unfold ClusterController.Reconcile. apply wp_call; [done|].
    intros x1 [l1 o1] (_ & Ho & Hplain & _). cbn in Ho, Hplain. subst o1.
    destruct x1 as [c|err]; [|apply wp_ret, isolated_nil]. cbn.
    apply wp_call; [done|]. intros x2 [l2 o2] (_ & Ho & _). cbn in Ho. subst o2.
    destruct x2 as [[cluster|]|err]; [|apply wp_ret, isolated_read..].
    destruct (IsPaused _ _); [apply wp_ret, isolated_read|]. unfold with_client.
    eapply wp_with_client_isolated; [| |reflexivity].
    + intros cl. apply only_bind; [|by intros []].
      destruct (CSCluster.Deleted c); [apply creds_cluster_delete|apply creds_cluster_normal].
    + apply wp_cluster_client; [apply isolated_read|by left|by apply Hplain].
Qed.

(** *** Sessions of the provider *)

Context {W} (h : handler Eff W).

(** Reconciliations of any machines and clusters, in an environment that changes
    at will between them, and the cache operations of the client. *)
Inductive provider_step : (W * list auth_event) * ImpersonationClient ->
    (W * list auth_event) * ImpersonationClient -> Prop :=
| provider_reconcile x s : provider_step s (run (provider h) (reconcile r x) s).2
| provider_clear wl c : provider_step (wl, c) (wl, ClearCache c)
| provider_clear_user wl c u rg : provider_step (wl, c) (wl, ClearUserToken c u rg)
| provider_environment w w' l c : provider_step ((w, l), c) ((w', l), c).

Lemma reconcile_run `{!PlainUsers h} x wl c :
  cache_ok c wl.2 ->
  let s' := (run (logging tenant_view (provider h)) (reconcile r x) ((wl, c), [])).2 in
  isolated r s'.1.1.2 s'.2 /\ cache_ok s'.1.2 s'.1.1.2.
Proof.
  intros Hc. destruct wl as [w l].
  destruct (wp_run tenantI _ provider_rel _ _ (((w, l), c), []) (l, []) (provider_laws h)
    (conj eq_refl (conj eq_refl Hc)) (wp_reconcile_isolated x l)) as (g' & HQ & H1 & H2 & H3).
  cbv zeta. rewrite H1, H2. split; [exact HQ|exact H3].
Qed.

Lemma provider_step_ok `{!PlainUsers h} s s' :
  provider_step s s' -> cache_ok s.2 s.1.2 -> cache_ok s'.2 s'.1.2.
Proof.
  intros Hstep Hc. destruct Hstep as [x s|wl c|wl c u rg|w w' l c]; cbn in *.
  - destruct s as [wl c]. destruct (reconcile_run x wl c Hc) as [_ Hc'].
    destruct (run_logging tenant_view (provider h) (reconcile r x) (wl, c) []) as [_ <-]. exact Hc'.
  - intros k e. cbn. by rewrite lookup_empty.
  - intros k e. cbn. rewrite lookup_delete_Some. intros [_ H]. by apply Hc.
  - done.
Qed.
End reconcile.

(** ** Properties *)

(** C3. Tenants are kept apart: whatever machines and clusters, of whichever users,
    the provider has reconciled before with the same impersonation client, a
    reconciliation reads one cluster and every request it makes to the cloud bears
    a token that the impersonation endpoint issued to the user that cluster names,
    for its region; the credentials of the flags are used only where they are
    enabled. *)
Theorem tenants_isolated {W} (h : handler Eff W) `{!PlainUsers h} r cfg w s x
    (Hreach : rtc (provider_step r h) ((w, []), new_client cfg) s) :
  let s' := (run (logging tenant_view (provider h)) (reconcile r x) (s, [])).2 in
  isolated r s'.1.1.2 s'.2.
Proof.
  assert (Hc : cache_ok s.2 s.1.2).
  { remember ((w, []), new_client cfg) as s0 eqn:E.
    assert (H0 : cache_ok s0.2 s0.1.2) by (subst s0; intros k e; cbn; by rewrite lookup_empty).
    clear E. induction Hreach as [|s0 s1 s2 Hstep _ IH]; [done|]. by eapply IH, provider_step_ok. }
  destruct s as [wl c]. by apply reconcile_run.
Qed.

(** ** Two tenants

    A namespace per tenant, whose clusters name the user [ns@example.com]; the
    identity provider is the one of Auth.v, the cloud refuses everything. *)

Definition tenant_machine (ns name : string) : CSMachine.t :=
  CSMachine.mk ns name "uid-1" ∅ [CloudSigmaMachineFinalizer] false false
    {| ProviderID := None; CPU := 2000; Memory := 4096; Disks := []; NICs := []; Tags := []; Meta := ∅ |}
    false "s1" "" [] ∅.

Definition tenant_cluster (ns name : string) : CSCluster.t :=
  CSCluster.mk ns name [] false false
    (plain_cluster "zrh" (ns +:+ "@example.com") None None) fresh_status.

Definition sim_tenants_capi {X} (e : CapiE X) : X :=
  match e in CapiE Y return Y with
  | CSMachineGet ns name => Ok (tenant_machine ns name)
  | GetOwnerMachine _ => Ok (Some (Machine.mk "ns" "m" (Some "boot")))
  | GetClusterFromMetadata _ => Ok (Cluster.mk "c" false)
  | CSClusterGet ns name =>
      if decide (no_char ":"%char (ns +:+ "@example.com")) then Ok (tenant_cluster ns name)
      else Err (ErrNew "not found")
  | e => deaf_capi e
  end.

Definition sim_tenants : handler Eff Z := fun X e now =>
  match e with
  | ECapi pe => (sim_tenants_capi pe, now)
  | e => sim_oauth X e now
  end.

#[global] Instance sim_tenants_plain : PlainUsers sim_tenants.
Proof.
  intros X e w. destruct e as [cl ce|he|ke|oe|te|ge|pe|se]; try done. destruct pe; try done.
  cbn. case_decide as Hns; [|done]. by intros c [= <-].
Qed.

Definition tenants_start : (Z * list auth_event) * ImpersonationClient :=
  ((0%Z, []), new_client wit_config).

Definition reconcile_tenant (ns : string) (s : (Z * list auth_event) * ImpersonationClient) :=
  (run (provider sim_tenants) (reconcile sim_reconciler (MachineWork ns "worker")) s).2.

Definition observe_tenant (ns : string) (s : (Z * list auth_event) * ImpersonationClient)
    : list tenant_event :=
  (run (logging tenant_view (provider sim_tenants)) (reconcile sim_reconciler (MachineWork ns "worker"))
     (s, [])).2.2.

(** The second tenant's requests bear the second tenant's token, also when the
    client holds the first one's, and the first one's again when it comes back. *)
Example tenants_take_turns :
  let s1 := reconcile_tenant "a" tenants_start in
  let s2 := reconcile_tenant "b" s1 in
  observe_tenant "b" s1 =
    [ReadCluster (tenant_cluster "b" "c"); Used (TokenCred "user b@example.com")] /\
  observe_tenant "a" s2 =
    [ReadCluster (tenant_cluster "a" "c"); Used (TokenCred "user a@example.com")] /\
  size (tokenCache s2.2) = 2%nat.
Proof. vm_compute. by split_and!. Qed.

Lemma tenants_isolated_witness :
  let s1 := reconcile_tenant "a" tenants_start in
  exists l, authorised sim_reconciler l (observe_tenant "b" s1) (TokenCred "user b@example.com").
Proof.
  pose proof (tenants_isolated sim_tenants sim_reconciler wit_config 0%Z (reconcile_tenant "a" tenants_start)
    (MachineWork "b" "worker")) as H.
  eexists. apply H.
  - apply rtc_once. apply (provider_reconcile sim_reconciler sim_tenants (MachineWork "a" "worker")).
  - assert (Ho : observe_tenant "b" (reconcile_tenant "a" tenants_start) =
      [ReadCluster (tenant_cluster "b" "c"); Used (TokenCred "user b@example.com")]) by (by vm_compute).
    unfold observe_tenant in Ho. rewrite Ho. by right; left.
Defined.
