(* ===== verification/NodeController.v ===== *)
(** * The node controller

    [ccm/controllers/node_controller.go]: initialises the nodes of the tenant
    cluster (taints and addresses) and deletes nodes whose server is not the
    user's.  The mutable fields are the record [NodeReconciler], passed through
    the methods; they are touched by the goroutine of the loop only, so that the
    mutex never arbitrates. *)

From S2P Require Import Prelude Effects GoErrors ApiTypes World Servers.

(** [ImpersonationClient] says whether the pointer is not nil; [staleNodeFailures]
    is empty when the map is nil. *)
Record NodeReconciler := {
  TenantKubeconfig : string;
  ClusterName : string;
  CloudSigmaRegion : string;
  ImpersonationClient : bool;
  UserEmail : string;
  LegacyCredentialsEnabled : bool;
  CloudSigmaUsername : string;
  CloudSigmaPassword : string;
  cloudsigmaClient : option SdkClient;
  staleNodeFailures : gmap string Z
}.

Definition set_client (r : NodeReconciler) (cl : SdkClient) : NodeReconciler :=
  {| TenantKubeconfig := TenantKubeconfig r; ClusterName := ClusterName r;
     CloudSigmaRegion := CloudSigmaRegion r; ImpersonationClient := ImpersonationClient r;
     UserEmail := UserEmail r; LegacyCredentialsEnabled := LegacyCredentialsEnabled r;
     CloudSigmaUsername := CloudSigmaUsername r; CloudSigmaPassword := CloudSigmaPassword r;
     cloudsigmaClient := Some cl; staleNodeFailures := staleNodeFailures r |}.
Definition set_failures (r : NodeReconciler) (m : gmap string Z) : NodeReconciler :=
  {| TenantKubeconfig := TenantKubeconfig r; ClusterName := ClusterName r;
     CloudSigmaRegion := CloudSigmaRegion r; ImpersonationClient := ImpersonationClient r;
     UserEmail := UserEmail r; LegacyCredentialsEnabled := LegacyCredentialsEnabled r;
     CloudSigmaUsername := CloudSigmaUsername r; CloudSigmaPassword := CloudSigmaPassword r;
     cloudsigmaClient := cloudsigmaClient r; staleNodeFailures := m |}.

(** ** The client *)

Definition refreshCloudSigmaClient (r : NodeReconciler) : go (option error * NodeReconciler) :=
  let region := if decide (CloudSigmaRegion r = "") then "zrh" else CloudSigmaRegion r in
  if ImpersonationClient r && bool_decide (UserEmail r <> "") then
    let* t := token (GetImpersonatedToken (UserEmail r) region) in
    match t with
    | Err err => Ret (Some (ErrWrap "failed to get impersonated token" err), r)
    | Ok token => Ret (None, set_client r (impersonated_sdk token region))
    end
  else if LegacyCredentialsEnabled r && bool_decide (CloudSigmaUsername r <> "")
          && bool_decide (CloudSigmaPassword r <> "") then
    match cloudsigmaClient r with
    | None => Ret (None, set_client r
        {| sdk_cred := UserPass (CloudSigmaUsername r) (CloudSigmaPassword r);
           sdk_location := region |})
    | Some _ => Ret (None, r)
    end
  else if bool_decide (cloudsigmaClient r = None) && ImpersonationClient r
          && bool_decide (UserEmail r = "")
  then Ret (Some (ErrNew "impersonation configured but userEmail not set"), r)
  else Ret (None, r).

(** ** Addresses *)

Definition NodeHostName : string := "Hostname".
Definition NodeInternalIP : string := "InternalIP".
Definition NodeExternalIP : string := "ExternalIP".

Definition hasIPAddress (node : Node.t) : bool :=
  existsb (fun a => bool_decide (addr_Type a = NodeInternalIP) ||
                    bool_decide (addr_Type a = NodeExternalIP)) (Node.Addresses node).

Definition addr_type (ip : string) : string :=
  if HasPrefix ip "10." || HasPrefix ip "192.168." || HasPrefix ip "172."
  then NodeInternalIP else NodeExternalIP.

(** The first IP attached to the server. *)
Definition attached_ip (vmUUID : string) (ips : list IP.t) : list Address :=
  match find (fun ip => bool_decide (IP.Server ip = Some vmUUID) &&
                        bool_decide (IP.UUID ip <> "")) ips with
  | Some ip => [{| addr_Type := addr_type (IP.UUID ip); addr_Address := IP.UUID ip |}]
  | None => []
  end.

Definition getVMAddresses (r : NodeReconciler) (vmUUID : string) : go (result (list Address)) :=
  match cloudsigmaClient r with
  | None => Ret (Err (ErrNew "CloudSigma client not initialized"))
  | Some client =>
      let* x := cloud client (ServersGet vmUUID) in
      match x with
      | SdkErr _ err => Ret (Err (ErrWrap "failed to get server" err))
      | SdkOk server =>
          let addresses :=
            if decide (Server.Name server <> "")
            then [{| addr_Type := NodeHostName; addr_Address := Server.Name server |}] else [] in
          let* y := cloud client IPsList in
          match y with
          | SdkErr _ _ => Ret (Ok addresses)
          | SdkOk ips => Ret (Ok (addresses ++ attached_ip vmUUID ips))
          end
      end
  end.

(** ** Nodes *)

Definition failures (r : NodeReconciler) (name : string) : Z :=
  default 0%Z (staleNodeFailures r !! name).

Definition handleStaleNode (r : NodeReconciler) (node : Node.t)
    : go (option error * NodeReconciler) :=
  let failCount := wrap64 (failures r (Node.Name node) + 1) in
  let r := set_failures r (<[Node.Name node := failCount]> (staleNodeFailures r)) in
  if decide (failCount < 3)%Z then Ret (None, r)
  else
    let* x := kube (NodesDelete (Node.Name node)) in
    let err := match x with
               | Err err => if IsNotFound err then None else Some err
               | Ok _ => None
               end in
    match err with
    | Some err =>
        Ret (Some (ErrWrap ("failed to delete stale node " +:+ Node.Name node) err), r)
    | None => Ret (None, set_failures r (delete (Node.Name node) (staleNodeFailures r)))
    end.

Definition init_taint (t : Taint.t) : bool :=
  bool_decide (Taint.Key t = "node.cloudprovider.kubernetes.io/uninitialized") ||
  bool_decide (Taint.Key t = "node.cluster.x-k8s.io/uninitialized").

Definition stale_error (err : error) : bool :=
  Contains (Error err) "403" || Contains (Error err) "permission".

(** A write that conflicts is left to the next round. *)
Definition write_error (what : string) (x : result unit) : option (option error) :=
  match x with
  | Ok _ => None
  | Err err => if IsConflict err then Some None else Some (Some (ErrWrap what err))
  end.

(** Write the taints and the addresses of the copy. *)
Definition write_node (nodeCopy : Node.t) (hasTaint needsAddressUpdate : bool)
    : go (option error) :=
  let* x := (if hasTaint then kube (NodesUpdate nodeCopy) else Ret (Ok tt)) in
  match write_error "failed to update node spec" x with
  | Some err => Ret err
  | None =>
      if needsAddressUpdate && bool_decide (Node.Addresses nodeCopy <> []) then
        let* x := kube (NodesUpdateStatus nodeCopy) in
        match write_error "failed to update node status" x with
        | Some err => Ret err
        | None => Ret None
        end
      else Ret None
  end.

Definition reconcileNode (r : NodeReconciler) (node : Node.t)
    : go (option error * NodeReconciler) :=
  let hasTaint := existsb init_taint (Node.Taints node) in
  let newTaints := filter (fun t => init_taint t = false) (Node.Taints node) in
  let needsAddressUpdate := negb (hasIPAddress node) in
  if negb hasTaint && negb needsAddressUpdate then Ret (None, r)
  else
    let* fetched :=
      (if bool_decide (Node.ProviderID node <> "")
          && bool_decide (cloudsigmaClient r <> None) && needsAddressUpdate
       then getVMAddresses r (TrimPrefix (Node.ProviderID node) "cloudsigma://")
       else Ret (Ok [])) in
    let addressed := match fetched with
                     | Ok (a :: l) => Node.set_Addresses node (a :: l)
                     | _ => node
                     end in
    match fetched with
    | Err err =>
        if stale_error err then handleStaleNode r node
        else
          let* e := write_node (if hasTaint then Node.set_Taints addressed newTaints
                                else addressed) hasTaint needsAddressUpdate in
          Ret (e, r)
    | Ok _ =>
        let* e := write_node (if hasTaint then Node.set_Taints addressed newTaints
                              else addressed) hasTaint needsAddressUpdate in
        Ret (e, r)
    end.

Definition syncNodes (r : NodeReconciler) : go (option error * NodeReconciler) :=
  let* '(_, r) := refreshCloudSigmaClient r in
  let* x := kube NodesList in
  match x with
  | Err err => Ret (Some (ErrWrap "failed to list nodes" err), r)
  | Ok nodes =>
      let* r := for_each nodes r (fun node r =>
                  let* '(_, r) := reconcileNode r node in Ret r) in
      Ret (None, r)
  end.

(** The loop: one synchronisation, and one more per tick until the context ends.
    The argument is the number of ticks before that. *)
Fixpoint syncLoop (ticks : nat) (r : NodeReconciler) : go NodeReconciler :=
  let* '(_, r) := syncNodes r in
  match ticks with
  | O => Ret r
  | S ticks' => syncLoop ticks' r
  end.

(** The loop is started on success, with the state returned. *)
Definition Start (r : NodeReconciler) : go (option error * NodeReconciler) :=
  let* x := kube (LoadKubeconfig (TenantKubeconfig r)) in
  match x with
  | Err err => Ret (Some (ErrWrap "failed to load tenant kubeconfig" err), r)
  | Ok _ =>
      let* x := kube NewTenantClient in
      match x with
      | Err err => Ret (Some (ErrWrap "failed to create tenant client" err), r)
      | Ok _ =>
          let* '(_, r) := refreshCloudSigmaClient r in
          Ret (None, r)
      end
  end.

(** ** Nodes are deleted only after refusals

    What the deletion of a node is based on: look-ups of its server that the API
    refused, and the requests to delete a node. *)

Inductive stale_event :=
| Refused (vmUUID : string)
| NodeDeleted (name : string) (ok : bool).

#[global] Instance stale_event_eq_dec : EqDecision stale_event.
Proof. solve_decision. Defined.

(** A node that is not found counts as deleted. *)
Definition deletion_ok (x : result unit) : bool :=
  match x with Ok _ => true | Err err => IsNotFound err end.

Definition stale_view : view Eff stale_event := fun X e =>
  match e in Eff _ return X -> list stale_event with
  | ECloud _ ce =>
      match ce in CloudE Y return Y -> list stale_event with
      | ServersGet uuid => fun x =>
          match x with
          | SdkErr _ err =>
              if stale_error (ErrWrap "failed to get server" err) then [Refused uuid] else []
          | SdkOk _ => []
          end
      | _ => fun _ => []
      end
  | EKube ke =>
      match ke in KubeE Y return Y -> list stale_event with
      | NodesDelete name => fun x => [NodeDeleted name (deletion_ok x)]
      | _ => fun _ => []
      end
  | _ => fun _ => []
  end.

(** [providers] gives the provider ID of each node, once it is set. *)
Definition identified (providers : string -> string) (node : Node.t) : Prop :=
  Node.ProviderID node = "" \/ Node.ProviderID node = providers (Node.Name node).

(** The nodes of a listing have these provider IDs. *)
Definition listing_identified (providers : string -> string) {X} (e : Eff X) : X -> Prop :=
  match e in Eff _ return X -> Prop with
  | EKube ke =>
      match ke in KubeE Y return Y -> Prop with
      | NodesList => fun x => forall nodes, x = Ok nodes -> Forall (identified providers) nodes
      | _ => fun _ => True
      end
  | _ => fun _ => True
  end.

Class NodeIdentities {W} (h : handler Eff W) (providers : string -> string) : Prop :=
  nodes_keep_provider : forall w nodes,
    (h _ (EKube NodesList) w).1 = Ok nodes -> Forall (identified providers) nodes.

Definition nodesI (providers : string -> string) : iface Eff (list stale_event) :=
  Iface (fun _ _ _ => True)
        (fun _ e g x g' => g' = g ++ stale_view _ e x /\ listing_identified providers e x).

Section stale.
Context (providers : string -> string).

Definition server_of (name : string) : string :=
  TrimPrefix (providers name) "cloudsigma://".

Definition count (e : stale_event) (l : list stale_event) : Z :=
  Z.of_nat (length (filter (fun e' => e' = e) l)).

Definition refusals (name : string) (l : list stale_event) : Z :=
  count (Refused (server_of name)) l.

Definition deletions (name : string) (l : list stale_event) : Z :=
  count (NodeDeleted name true) l.

(** Every deletion is paid for by three refusals, and so is the counter by its
    value. *)
Definition paid (r : NodeReconciler) (l : list stale_event) : Prop :=
  (forall name, int64 (failures r name) /\
     3 * deletions name l + failures r name <= refusals name l)%Z /\
  forall l1 name ok l2, l = l1 ++ NodeDeleted name ok :: l2 ->
    (3 * (deletions name l1 + 1) <= refusals name l1)%Z.

Lemma count_app e l l' : count e (l ++ l') = (count e l + count e l')%Z.
Proof. unfold count. rewrite filter_app, length_app. lia. Qed.

Lemma count_one e e' : count e [e'] = if decide (e' = e) then 1%Z else 0%Z.
Proof. unfold count. rewrite filter_cons. by case_decide. Qed.

Lemma wrap64_le z : (- 2 ^ 63 <= z)%Z -> (wrap64 z <= z)%Z.
Proof.
  intros Hz. unfold wrap64.
  pose proof (Z.mod_le (z + 2 ^ 63) (2 ^ 64) ltac:(lia) ltac:(lia)). lia.
Qed.

(** One more event: where the deletions of the longer log are. *)
Lemma snoc_deletion (l : list stale_event) e l1 name ok l2 :
  l ++ [e] = l1 ++ NodeDeleted name ok :: l2 ->
  (l2 = [] /\ l1 = l /\ e = NodeDeleted name ok) \/
  exists l2', l = l1 ++ NodeDeleted name ok :: l2'.
Proof.
  destruct l2 as [|x l2 _] using rev_ind; intros H.
  - apply app_inj_tail in H as [-> ->]. auto.
  - right. exists l2. rewrite app_comm_cons, app_assoc in H. by apply app_inj_tail in H as [-> _].
Qed.

(** A refusal raises the counter of its node. *)
Lemma paid_refused r l name f :
  paid r l -> int64 f -> (f <= failures r name + 1)%Z ->
  paid (set_failures r (<[name := f]> (staleNodeFailures r))) (l ++ [Refused (server_of name)]).
Proof.
  intros [Hb Hd] Hf Hle. split.
  - intros n. unfold deletions, refusals. rewrite !count_app, !count_one.
    rewrite (decide_False (P := Refused _ = NodeDeleted n true)) by done.
    destruct (Hb n) as [Hi Hn]. unfold deletions, refusals, failures in *. cbn.
    destruct (decide (name = n)) as [->|Hne].
    + rewrite lookup_insert_eq. cbn. rewrite decide_True by done. split; [done|lia].
    + rewrite lookup_insert_ne by done. split; [done|]. case_decide; lia.
  - intros l1 n ok l2 [(_ & _ & [=])|[l2' ->]]%snoc_deletion. by eapply Hd.
Qed.

(** A deletion is allowed at three, and a successful one clears the counter. *)
Lemma paid_deleted r l name ok :
  paid r l -> (3 <= failures r name)%Z ->
  paid (if ok : bool then set_failures r (delete name (staleNodeFailures r)) else r)
       (l ++ [NodeDeleted name ok]).
Proof.
  intros [Hb Hd] Hf. destruct (Hb name) as [_ Hname]. split.
  - intros n. unfold deletions, refusals. rewrite !count_app, !count_one.
    rewrite (decide_False (P := NodeDeleted _ _ = Refused _)) by done.
    destruct (Hb n) as [Hi Hn]. unfold deletions, refusals in *.
    destruct ok; [|rewrite decide_False by congruence; split; [done|lia]].
    unfold failures in *. cbn. destruct (decide (name = n)) as [->|Hne].
    + rewrite lookup_delete_eq, decide_True by done. cbn. split; [split; lia|lia].
    + rewrite lookup_delete_ne, decide_False by congruence. split; [done|lia].
  - intros l1 n ok' l2 [(_ & -> & [= <- _])|[l2' ->]]%snoc_deletion; [lia|by eapply Hd].
Qed.

Lemma wp_quiet_nodes {A} (p : go A) (P : A -> Prop) l :
  quiet stale_view p P -> wp (nodesI providers) p (ok (fun a l' => P a /\ l' = l)) l.
Proof.
  intros Hp. apply (wp_refine (anyI stale_view)); [done| |by apply quiet_wp].
  by intros X e g x g' [-> _].
Qed.

(** What a look-up leaves: a refusal exactly when its error says so. *)
Lemma wp_getVMAddresses r uuid l :
  cloudsigmaClient r <> None ->
  wp (nodesI providers) (getVMAddresses r uuid) (ok (fun x l' => l' =
    match x with
    | Err err => if stale_error err then l ++ [Refused uuid] else l
    | Ok _ => l
    end)) l.
Proof.
  intros Hc. unfold getVMAddresses. destruct (cloudsigmaClient r) as [client|]; [|done].
  wp_call x Hx. destruct Hx as [-> _]. cbn.
  destruct x as [server|resp err]; cbv zeta.
  - wp_call y Hy. destruct Hy as [-> _]. cbn. rewrite !app_nil_r. by destruct y; apply wp_ret.
  - apply wp_ret. cbn. destruct (stale_error _); [done|]. by rewrite app_nil_r.
Qed.

Lemma wp_handleStaleNode r node l :
  paid r l ->
  wp (nodesI providers) (handleStaleNode r node) (ok (fun res l' => paid res.2 l'))
     (l ++ [Refused (server_of (Node.Name node))]).
Proof.
  intros Hp. unfold handleStaleNode. cbv zeta.
  set (f := wrap64 (failures r (Node.Name node) + 1)).
  assert (Hle : (f <= failures r (Node.Name node) + 1)%Z).
  { apply wrap64_le. destruct Hp as [Hb _]. destruct (Hb (Node.Name node)) as [[Hlo _] _]. lia. }
  pose proof (paid_refused r l (Node.Name node) f Hp (wrap64_int64 _) Hle) as Hp'.
  set (r' := set_failures r _) in *.
  case_decide as Hf; [by apply wp_ret|].
  assert (H3 : (3 <= failures r' (Node.Name node))%Z).
  { unfold failures, r'. cbn. rewrite lookup_insert_eq. cbn. lia. }
  wp_call x Hx. destruct Hx as [-> _]. cbn [stale_view].
  pose proof (paid_deleted r' _ (Node.Name node) (deletion_ok x) Hp' H3) as Hd.
  destruct x as [[]|err]; [by apply wp_ret|]. cbn in Hd |- *.
  destruct (IsNotFound err); by apply wp_ret.
Qed.

Lemma quiet_write_node n t a : quiet stale_view (write_node n t a) (fun _ => True).
Proof. unfold write_node, kube. quiet_go. Qed.

Lemma wp_reconcileNode_paid r node l :
  identified providers node -> paid r l ->
  wp (nodesI providers) (reconcileNode r node) (ok (fun res l' => paid res.2 l')) l.
Proof.
  intros Hid Hp. unfold reconcileNode. cbv zeta.
  destruct (negb _ && negb _); [by apply wp_ret|].
  set (uuid := TrimPrefix (Node.ProviderID node) "cloudsigma://").
  apply (wp_seq _ _ _ (fun x l' => l' =
    match x with
    | Err err => if stale_error err then l ++ [Refused uuid] else l
    | Ok _ => l
    end /\ match x with Err _ => Node.ProviderID node <> "" | Ok _ => True end)).
  { case_bool_decide as Hne; [|by apply wp_ret]. cbn [andb].
    case_bool_decide as Hc; [|by apply wp_ret]. cbn [andb].
    destruct (negb _); [|by apply wp_ret].
    eapply wp_mono; [|by apply wp_getVMAddresses]. intros [[]|]; simpl; auto. }
  intros x l' [-> Hx]. destruct x as [addrs|err].
  - eapply wp_seq; [apply wp_quiet_nodes, quiet_write_node|]. intros e ? [_ ->]. by apply wp_ret.
  - destruct (stale_error err).
    + destruct Hid as [|Hid]; [done|]. unfold uuid. rewrite Hid. by apply wp_handleStaleNode.
    + eapply wp_seq; [apply wp_quiet_nodes, quiet_write_node|]. intros e ? [_ ->]. by apply wp_ret.
Qed.

Lemma refresh_failures r :
  quiet stale_view (refreshCloudSigmaClient r)
    (fun res => staleNodeFailures res.2 = staleNodeFailures r).
Proof. unfold refreshCloudSigmaClient, token. cbv zeta. quiet_go. Qed.

Lemma wp_syncNodes_paid r l :
  paid r l ->
  wp (nodesI providers) (syncNodes r) (ok (fun res l' => paid res.2 l')) l.
Proof.
  intros Hp. unfold syncNodes. eapply wp_seq; [apply wp_quiet_nodes, refresh_failures|].
  intros [e r1] ? [Hr ->]. cbn in Hr.
  assert (Hp1 : paid r1 l).
  { destruct Hp as [Hb Hd]. split; [|done]. intros n. unfold failures. rewrite Hr. apply Hb. }
  wp_call x Hx. destruct Hx as [-> Hl]. cbn in Hl |- *. rewrite app_nil_r.
  destruct x as [nodes|err]; [|by apply wp_ret]. specialize (Hl _ eq_refl).
  eapply (wp_seq _ _ _ (fun r' l' => paid r' l')).
  - apply (wp_for_each _ (fun _ r' l' => paid r' l')); [done| |done].
    intros node todo r' l' [pre ->] Hp'. apply Forall_app in Hl as [_ [Hn _]%Forall_cons].
    eapply wp_seq; [by apply wp_reconcileNode_paid|]. intros [e' r''] l'' Hp''. by apply wp_ret.
  - intros r' l' Hp'. by apply wp_ret.
Qed.
End stale.

Lemma nodesI_sound {W} (h : handler Eff W) providers `{!NodeIdentities h providers} :
  implements (logging stale_view h) (fun wl g => wl.2 = g) (nodesI providers).
Proof.
  intros X e [w l] g Heq _. simpl in *. subst l.
  destruct (h X e w) as [x w'] eqn:Hx; simpl. eexists. split; [|done]. split; [done|].
  destruct e as [|?|ke| | | | |]; try done. destruct ke; try done.
  intros nodes ->. apply (nodes_keep_provider w). by rewrite Hx.
Qed.

(** The controller at work: a synchronisation, or a change by others; the log
    grows along. *)
Inductive node_step {W} (h : handler Eff W)
    : NodeReconciler * (W * list stale_event) -> NodeReconciler * (W * list stale_event) -> Prop :=
| node_sync r wl err r' wl' :
    run (logging stale_view h) (syncNodes r) wl = (Done (err, r'), wl') ->
    node_step h (r, wl) (r', wl')
| node_environment r w w' l : node_step h (r, (w, l)) (r, (w', l)).

Lemma node_step_paid {W} (h : handler Eff W) providers `{!NodeIdentities h providers} s s' :
  node_step h s s' -> paid providers s.1 s.2.2 -> paid providers s'.1 s'.2.2.
Proof.
  intros [r wl err r' wl' Hrun|r w w' l] Hp; cbn in *; [|done].
  destruct (wp_run (nodesI providers) (logging stale_view h) _ _ _ wl wl.2
    (nodesI_sound h providers) eq_refl (wp_syncNodes_paid providers r wl.2 Hp)) as (g & Hg & Heq).
  rewrite Hrun in Hg, Heq. cbn in *. by subst g.
Qed.

Lemma node_reachable_paid {W} (h : handler Eff W) providers `{!NodeIdentities h providers} s s' :
  rtc (node_step h) s s' -> paid providers s.1 s.2.2 -> paid providers s'.1 s'.2.2.
Proof. induction 1; eauto using node_step_paid. Qed.

(** C32. Deleting nodes: in every history of the controller from its start, the
    k-th deletion of a node is requested only after 3k look-ups of its server were
    refused. *)
Theorem node_deletion_justified {W} (h : handler Eff W) providers `{!NodeIdentities h providers}
    r w r' w' l (Hr : staleNodeFailures r = ∅)
    (Hsteps : rtc (node_step h) (r, (w, [])) (r', (w', l))) :
  forall l1 name ok l2, l = l1 ++ NodeDeleted name ok :: l2 ->
    (3 * (deletions name l1 + 1) <= refusals providers name l1)%Z.
Proof.
  assert (H0 : paid providers r []).
  { split; [|by intros [|] ????]. intros name. unfold failures. by rewrite Hr. }
  apply (node_reachable_paid h providers _ _ Hsteps H0).
Qed.

(** ** What is written to a node *)

Inductive node_event :=
| NodeUpdated (n : Node.t)
| NodeStatusUpdated (n : Node.t)
| NodeRemoved (name : string).

Definition node_view : view Eff node_event := fun X e =>
  match e in Eff _ return X -> list node_event with
  | EKube ke =>
      match ke in KubeE Y return Y -> list node_event with
      | NodesUpdate n => fun _ => [NodeUpdated n]
      | NodesUpdateStatus n => fun _ => [NodeStatusUpdated n]
      | NodesDelete name => fun _ => [NodeRemoved name]
      | _ => fun _ => []
      end
  | _ => fun _ => []
  end.

(** The node without the initialisation taints, with other addresses. *)
Definition initialised (node : Node.t) (addrs : list Address) : Node.t :=
  Node.mk (Node.Name node) (Node.ProviderID node) (Node.Conditions node)
    (filter (fun t => init_taint t = false) (Node.Taints node)) addrs.

Definition node_written (node : Node.t) (l : list node_event) : Prop :=
  let tainted := existsb init_taint (Node.Taints node) in
  l = [] \/ (l = [NodeRemoved (Node.Name node)] /\ hasIPAddress node = false) \/
  exists addrs,
    let n := initialised node addrs in
    (l = [NodeUpdated n] /\ tainted = true) \/
    (l = [NodeStatusUpdated n] /\ tainted = false /\ hasIPAddress node = false /\ addrs <> []) \/
    (l = [NodeUpdated n; NodeStatusUpdated n] /\ tainted = true /\
     hasIPAddress node = false /\ addrs <> []).

Lemma untainted_filter ts :
  existsb init_taint ts = false -> filter (fun t => init_taint t = false) ts = ts.
Proof.
  induction ts as [|t ts IH]; [done|]. cbn [existsb]. intros [Ht Hts]%orb_false_iff.
  rewrite filter_cons_True by done. by rewrite IH.
Qed.

Lemma wp_write_node_written node addrs :
  let tainted := existsb init_taint (Node.Taints node) in
  wp (anyI node_view) (write_node (initialised node addrs) tainted (negb (hasIPAddress node)))
     (ok (fun _ l => node_written node l)) [].
Proof.
  intros tainted. unfold write_node.
  apply (wp_seq _ _ _ (fun _ l =>
    l = if tainted then [NodeUpdated (initialised node addrs)] else [])).
  { destruct tainted; [|by apply wp_ret]. wp_call x Hx. done. }
  intros x l ->. destruct (write_error _ x) as [err|].
  { apply wp_ret. unfold tainted. destruct (existsb _ _) eqn:E; [|by left].
    right. right. exists addrs. left. auto. }
  destruct (negb (hasIPAddress node) && _) eqn:Hn.
  2:{ apply wp_ret. unfold tainted. destruct (existsb _ _) eqn:E; [|by left].
      right. right. exists addrs. left. auto. }
  apply andb_true_iff in Hn as [Hip%negb_true_iff Ha%bool_decide_eq_true].
  wp_call y Hy. subst g'. cbn [node_view].
  assert (Hend : node_written node ((if tainted then [NodeUpdated (initialised node addrs)] else [])
                   ++ [NodeStatusUpdated (initialised node addrs)])).
  { unfold tainted. destruct (existsb _ _) eqn:E; right; right; exists addrs; right;
      [right|left]; cbn in *; auto. }
  destruct (write_error _ y); by apply wp_ret.
Qed.

Lemma wp_reconcileNode_written r node :
  wp (anyI node_view) (reconcileNode r node) (ok (fun _ l => node_written node l)) [].
Proof.
  unfold reconcileNode. cbv zeta.
  set (tainted := existsb init_taint (Node.Taints node)).
  destruct (negb tainted && _) eqn:Hini; [apply wp_ret; by left|].
  (* the copy that is written *)
  assert (Hcopy : forall n addrs, Node.set_Taints (initialised node addrs) (Node.Taints node) = n ->
    (if tainted then Node.set_Taints n (filter (fun t => init_taint t = false) (Node.Taints node))
     else n) = initialised node addrs).
  { intros n addrs <-. destruct tainted eqn:Et; [done|].
    unfold initialised, Node.set_Taints. cbn. by rewrite untainted_filter. }
  assert (Hw : forall n addrs (r' : NodeReconciler),
    Node.set_Taints (initialised node addrs) (Node.Taints node) = n ->
    wp (anyI node_view) (let* e := write_node (if tainted then Node.set_Taints n
      (filter (fun t => init_taint t = false) (Node.Taints node)) else n) tainted
      (negb (hasIPAddress node)) in Ret (e, r')) (ok (fun _ l => node_written node l)) []).
  { intros n addrs r' Hn. rewrite (Hcopy n addrs Hn).
    eapply wp_seq; [apply wp_write_node_written|]. intros e l Hl. by apply wp_ret. }
  assert (Hsame : Node.set_Taints (initialised node (Node.Addresses node)) (Node.Taints node) = node)
    by by destruct node.
  eapply (wp_seq _ _ _ (fun x l => l = [] /\
    match x with Err _ => hasIPAddress node = false | Ok _ => True end)).
  { do 2 (case_bool_decide; [|by apply wp_ret]; cbn [andb]).
    destruct (hasIPAddress node); [by apply wp_ret|]. cbn [negb].
    eapply wp_mono; [|apply (quiet_wp _ _ (fun _ => True))].
    - intros [[]|] l; simpl; [by intros [_ ->]..|done].
    - unfold getVMAddresses, cloud. quiet_go. }
  intros x ? [-> Hx]. destruct x as [[|a l]|err].
  - by eapply Hw.
  - by eapply (Hw _ (a :: l)).
  - destruct (stale_error err); [|by eapply Hw].
    unfold handleStaleNode. cbv zeta. case_decide; [apply wp_ret; by left|].
    wp_call y Hy. subst g'. cbn [node_view].
    assert (node_written node ([] ++ [NodeRemoved (Node.Name node)])) by (right; by left).
    destruct (match y with Ok _ => None | Err _ => _ end); by apply wp_ret.
Qed.

(** Reconciling a node, in every environment: what is written is the node
    without its initialisation taints, and the addresses when it had no IP; the
    other taints, in order, and everything else stay.  A node is deleted only when
    it has no IP, and then not written; nothing is written to a node that has
    an IP and no such taint. *)
Theorem reconcileNode_writes {W} (h : handler Eff W) r node w :
  let '(o, l) := observe node_view h (reconcileNode r node) w in
  (exists res, o = Done res) /\ node_written node l.
Proof.
  apply (observe_intro node_view h (reconcileNode r node) w
    (fun o l => (exists res, o = Done res) /\ node_written node l)).
  eapply wp_mono; [|apply wp_reconcileNode_written]. intros [res|] l; simpl; [eauto|done].
Qed.

(** ** Witnesses *)

(** A tenant cluster with one node without an IP; look-ups of its server are
    refused when the number of synchronisations so far is in [bad]. *)
Definition sim_node : Node.t := Node.mk "n1" "cloudsigma://vm-1" [] [] [].

Definition sim_tenant (bad : list nat) : handler Eff nat := fun X e w =>
  match e in Eff _ return X * nat with
  | EKube ke =>
      match ke in KubeE Y return Y * nat with
      | NodesList => (Ok [sim_node], S w)
      | NodesUpdate _ => (Ok tt, w)
      | NodesUpdateStatus _ => (Ok tt, w)
      | NodesDelete _ => (Ok tt, w)
      | ke => (deaf_kube ke, w)
      end
  | ECloud _ ce =>
      (match ce in CloudE Y return Y with
       | ServersGet uuid =>
           if decide (w ∈ bad) then SdkErr (Some 403%Z) (ErrNew "403 Forbidden")
           else SdkOk (Server.mk uuid "" "running" [] [] ∅ [])
       | IPsList => SdkOk []
       | ce => deaf_cloud ce
       end, w)
  | EToken te => (match te in TokenE Y return Y with GetImpersonatedToken u r => Ok u end, w)
  | e => (deaf e, w)
  end.

#[global] Instance sim_tenant_identities bad :
  NodeIdentities (sim_tenant bad) (fun _ => "cloudsigma://vm-1").
Proof. intros w nodes [= <-]. apply Forall_singleton. by right. Qed.

Definition wit_nodes : NodeReconciler :=
  {| TenantKubeconfig := "/kubeconfig"; ClusterName := "c"; CloudSigmaRegion := "";
     ImpersonationClient := true; UserEmail := "a@b.c"; LegacyCredentialsEnabled := false;
     CloudSigmaUsername := ""; CloudSigmaPassword := ""; cloudsigmaClient := None;
     staleNodeFailures := ∅ |}.

(** The refusals need not be consecutive: a look-up that succeeds in between does
    not reset the counter. *)
Example refusals_not_consecutive :
  (observe stale_view (sim_tenant [1; 3; 5]%nat) (syncLoop 4 wit_nodes) 0%nat).2
  = [Refused "vm-1"; Refused "vm-1"; Refused "vm-1"; NodeDeleted "n1" true].
Proof. by vm_compute. Qed.

(** Public addresses that begin with 172 are taken for internal ones. *)
Example public_172_internal : addr_type "172.217.16.46" = NodeInternalIP.
Proof. by vm_compute. Qed.

Lemma node_deletion_justified_witness :
  (3 * (deletions "n1" [Refused "vm-1"; Refused "vm-1"; Refused "vm-1"] + 1)
   <= refusals (fun _ => "cloudsigma://vm-1") "n1"
        [Refused "vm-1"; Refused "vm-1"; Refused "vm-1"])%Z.
Proof.
  eapply (node_deletion_justified (sim_tenant [1; 2; 3]%nat) (fun _ => "cloudsigma://vm-1")
    wit_nodes 0%nat _ 3%nat
    [Refused "vm-1"; Refused "vm-1"; Refused "vm-1"; NodeDeleted "n1" true]);
    [reflexivity| |reflexivity].
  do 3 (eapply rtc_l; [eapply node_sync; by vm_compute|]). apply rtc_refl.
Defined.
