(* ===== verification/CSIToken.v ===== *)
(** * The CSI token controller

    [ccm/controllers/csi_token_controller.go]: puts an impersonated token into a
    secret of the tenant cluster, where the CSI driver finds it, and refreshes it.
    The two loops are a machine with the phases below, one step of which is one
    pass through a loop. *)

From S2P Require Import Prelude Effects GoErrors ApiTypes World Auth.

Definition CSITokenSecretName : string := "cloudsigma-token".
Definition CSINamespace : string := "cloudsigma-csi".
Definition TokenRefreshInterval : Z := 10 * Minute.
Definition TokenRefreshBuffer : Z := 5 * Minute.
Definition InitialRetryInterval : Z := 5 * Second.
Definition MaxRetryInterval : Z := 2 * Minute.

(** [HasClient] says whether the impersonation client is not nil. *)
Record CSITokenController := {
  HasClient : bool;
  ct_UserEmail : string;
  ct_Region : string;
  ct_ClusterName : string;
  Enabled : bool
}.

(** ** Dates

    [t.UTC().Format(time.RFC3339)] for a time in nanoseconds: the date by the
    proleptic Gregorian calendar, counted from the first of March of year 0. *)

Definition civil (days : Z) : Z * Z * Z :=
  let z := (days + 719468)%Z in
  let era := (z / 146097)%Z in
  let doe := (z mod 146097)%Z in
  let yoe := ((doe - doe / 1460 + doe / 36524 - doe / 146096) / 365)%Z in
  let doy := (doe - (365 * yoe + yoe / 4 - yoe / 100))%Z in
  let mp := ((5 * doy + 2) / 153)%Z in
  let d := (doy - (153 * mp + 2) / 5 + 1)%Z in
  let m := (if mp <? 10 then mp + 3 else mp - 9)%Z in
  ((yoe + era * 400 + (if m <=? 2 then 1 else 0))%Z, m, d).

Definition pad (width : nat) (z : Z) : string :=
  let s := itoa z in
  String.concat "" (replicate (width - String.length s) "0") +:+ s.

Definition RFC3339 (ns : Z) : string :=
  let secs := (ns / Second)%Z in
  let '(y, m, d) := civil (secs / 86400) in
  let t := (secs mod 86400)%Z in
  pad 4 y +:+ "-" +:+ pad 2 m +:+ "-" +:+ pad 2 d +:+ "T" +:+
  pad 2 (t / 3600) +:+ ":" +:+ pad 2 (t / 60 mod 60) +:+ ":" +:+ pad 2 (t mod 60) +:+ "Z".

Example RFC3339_example : RFC3339 (1735689599 * Second) = "2024-12-31T23:59:59Z".
Proof. by vm_compute. Qed.

(** ** The secret *)

Definition managed_by : gmap string string :=
  {["app.kubernetes.io/managed-by" := "cloudsigma-ccm"]}.

Definition ensureNamespace : go (option error) :=
  let* r := kube (NamespacesGet CSINamespace) in
  match r with
  | Ok _ => Ret None
  | Err err =>
      if IsNotFound err then
        let* r := kube (NamespacesCreate CSINamespace managed_by) in
        match r with
        | Err err => if IsAlreadyExists err then Ret None
                     else Ret (Some (ErrWrap "failed to create namespace" err))
        | Ok _ => Ret None
        end
      else Ret (Some (ErrWrap "failed to get namespace" err))
  end.

Definition token_data (c : CSITokenController) (token : string) : gmap string string :=
  <["access_token" := token]> (<["region" := ct_Region c]>
    (<["user_email" := ct_UserEmail c]> {["cluster_name" := ct_ClusterName c]})).

Definition token_secret (c : CSITokenController) (token : string) (now : Z) : Secret.t :=
  Secret.mk CSITokenSecretName CSINamespace
    (<["app.kubernetes.io/component" := "csi-credentials"]> managed_by)
    (<["cloudsigma.com/user-email" := ct_UserEmail c]>
      (<["cloudsigma.com/region" := ct_Region c]>
        {["cloudsigma.com/refreshed-at" := RFC3339 now]}))
    (token_data c token) ∅.

(** The existing secret with the data and metadata of the new one. *)
Definition updated_secret (existing secret : Secret.t) : Secret.t :=
  Secret.mk (Secret.Name existing) (Secret.Namespace existing) (Secret.Labels secret)
    (Secret.Annotations secret) (Secret.StringData secret) ∅.

Definition ensureCSIToken (c : CSITokenController) : go (option error) :=
  let* err := ensureNamespace in
  match err with
  | Some err => Ret (Some (ErrWrap "failed to ensure namespace" err))
  | None =>
      let* r := token (World.GetImpersonatedToken (ct_UserEmail c) (ct_Region c)) in
      match r with
      | Err err => Ret (Some (ErrWrap "failed to get impersonated token" err))
      | Ok token =>
          let* now := golang Now in
          let secret := token_secret c token now in
          let* r := kube (SecretsGet CSINamespace CSITokenSecretName) in
          match r with
          | Err err =>
              if IsNotFound err then
                let* r := kube (SecretsCreate secret) in
                match r with
                | Err err => Ret (Some (ErrWrap "failed to create CSI token secret" err))
                | Ok _ => Ret None
                end
              else Ret (Some (ErrWrap "failed to get existing secret" err))
          | Ok existing =>
              let* r := kube (SecretsUpdate (updated_secret existing secret)) in
              match r with
              | Err err => Ret (Some (ErrWrap "failed to update CSI token secret" err))
              | Ok _ => Ret None
              end
          end
      end
  end.

(** ** The loops *)

Inductive phase := Provisioning (backoff : Z) | Refreshing | Stopped.

Definition next_backoff (backoff : Z) : Z :=
  let b := wrap64 (backoff * 2) in
  if decide (b > MaxRetryInterval)%Z then MaxRetryInterval else b.

(** One pass of the provisioning loop; the ticker of the refresh loop is made
    when it is entered. *)
Definition provisioningLoop (c : CSITokenController) (backoff : Z) : go phase :=
  let* done := golang CtxErr in
  match done with
  | Some _ => Ret Stopped
  | None =>
      let* err := ensureCSIToken c in
      match err with
      | Some _ =>
          let* woken := golang (AfterOrDone backoff) in
          match woken with
          | Some _ => Ret Stopped
          | None => Ret (Provisioning (next_backoff backoff))
          end
      | None => golang (NewTicker TokenRefreshInterval) ;; Ret Refreshing
      end
  end.

(** One pass of the refresh loop. *)
Definition refreshLoop (c : CSITokenController) : go phase :=
  let* woken := golang TickOrDone in
  match woken with
  | Some _ => Ret Stopped
  | None => ensureCSIToken c ;; Ret Refreshing
  end.

Definition csi_step (c : CSITokenController) (p : phase) : go phase :=
  match p with
  | Provisioning backoff => provisioningLoop c backoff
  | Refreshing => refreshLoop c
  | Stopped => Ret Stopped
  end.

(** The first [n] passes. *)
Fixpoint csi_loop (n : nat) (c : CSITokenController) (p : phase) : go phase :=
  match n with
  | O => Ret p
  | S n' => let* p := csi_step c p in csi_loop n' c p
  end.

(** The phase the loop starts in, when it is started. *)
Definition Start (c : CSITokenController) : option phase * option error :=
  if negb (Enabled c) then (None, None)
  else if negb (HasClient c) then
    (None, Some (ErrNew "impersonation client required for CSI token provisioning"))
  else if decide (ct_UserEmail c = "") then
    (None, Some (ErrNew "user email required for CSI token provisioning"))
  else (Some (Provisioning InitialRetryInterval), None).

(** ** What is written *)

Inductive token_event :=
| TokenGiven (x : result string)
| SecretWritten (s : Secret.t) (ok : bool).

Definition answered_ok {A} (x : result A) : bool := match x with Ok _ => true | Err _ => false end.

Definition token_view : view Eff token_event := fun X e =>
  match e in Eff _ return X -> list token_event with
  | EToken te =>
      match te in TokenE Y return Y -> list token_event with
      | World.GetImpersonatedToken _ _ => fun x => [TokenGiven x]
      end
  | EKube ke =>
      match ke in KubeE Y return Y -> list token_event with
      | SecretsCreate s => fun x => [SecretWritten s (answered_ok x)]
      | SecretsUpdate s => fun x => [SecretWritten s (answered_ok x)]
      | _ => fun _ => []
      end
  | _ => fun _ => []
  end.

(** The writes of one call: none, or one secret that holds the token the call was
    given and nothing of the old data. *)
Definition token_written (c : CSITokenController) (err : option error)
    (l : list token_event) : Prop :=
  (err <> None /\ (l = [] \/ exists x, l = [TokenGiven x])) \/
  exists t s ok, l = [TokenGiven (Ok t); SecretWritten s ok] /\
    Secret.StringData s = token_data c t /\ Secret.Data s = ∅ /\ (err = None <-> ok = true).

Lemma quiet_ensureNamespace : quiet token_view ensureNamespace (fun _ => True).
Proof. unfold ensureNamespace, kube. quiet_go. Qed.

Lemma wp_write_secret c t s (e : KubeE (result unit)) what :
  (forall x, token_view _ (EKube e) x = [SecretWritten s (answered_ok x)]) ->
  Secret.StringData s = token_data c t -> Secret.Data s = ∅ ->
  wp (anyI token_view)
     (let* r := kube e in
      match r with Err err => Ret (Some (ErrWrap what err)) | Ok _ => Ret None end)
     (ok (fun err l => token_written c err l)) [TokenGiven (Ok t)].
Proof.
  intros He Hs Hd. wp_call x Hx. subst g'. rewrite He.
  destruct x; apply wp_ret; right; exists t, s; eexists; by split_and!.
Qed.

Lemma wp_ensureCSIToken c :
  wp (anyI token_view) (ensureCSIToken c) (ok (fun err l => token_written c err l)) [].
Proof.
  unfold ensureCSIToken. eapply wp_seq; [apply quiet_wp, quiet_ensureNamespace|].
  intros [err|] ? [_ ->]; [apply wp_ret; left; auto|].
  wp_call x Hx. subst g'. cbn. destruct x as [t|err]; [|apply wp_ret; left; eauto].
  wp_call now Hn. subst g'. cbn [token_view]. rewrite app_nil_r. cbv zeta.
  wp_call y Hy. subst g'. cbn [token_view]. rewrite app_nil_r.
  destruct y as [existing|err].
  - by eapply wp_write_secret.
  - destruct (IsNotFound err); [by eapply wp_write_secret|]. apply wp_ret. left; eauto.
Qed.

(** The CSI token, in every environment: a call writes at most one secret,
    with the token it was just given for its user and region and without the old
    data, and it reports success exactly when that write succeeded. *)
Theorem ensureCSIToken_writes {W} (h : handler Eff W) c w :
  let '(o, l) := observe token_view h (ensureCSIToken c) w in
  exists err, o = Done err /\ token_written c err l.
Proof.
  apply (observe_intro token_view h (ensureCSIToken c) w
    (fun o l => exists err, o = Done err /\ token_written c err l)).
  eapply wp_mono; [|apply wp_ensureCSIToken]. intros [err|] l; simpl; [eauto|done].
Qed.

(** ** Backing off *)

(** The waits between attempts. *)
Definition wait_view : view Eff Z := fun X e =>
  match e in Eff _ return X -> list Z with
  | EGo ge =>
      match ge in GoE Y return Y -> list Z with
      | AfterOrDone ns => fun _ => [ns]
      | _ => fun _ => []
      end
  | _ => fun _ => []
  end.

(** Five seconds, doubled at each failure, at most two minutes. *)
Definition backoff_at (k : nat) : Z :=
  Z.min (InitialRetryInterval * 2 ^ Z.of_nat k) MaxRetryInterval.

Lemma next_backoff_at k : next_backoff (backoff_at k) = backoff_at (S k).
Proof.
  unfold next_backoff, backoff_at, InitialRetryInterval, MaxRetryInterval, Minute, Second.
  rewrite Nat2Z.inj_succ, Z.pow_succ_r by lia.
  assert (0 < 2 ^ Z.of_nat k)%Z by (apply Z.pow_pos_nonneg; lia).
  rewrite wrap64_id by (unfold int64; lia). case_decide; lia.
Qed.

(** The waits so far, and where the loop is. *)
Definition backed_off (p : phase) (l : list Z) : Prop :=
  l = backoff_at <$> seq 0 (length l) /\
  match p with Provisioning b => b = backoff_at (length l) | _ => True end.

Lemma quiet_ensureCSIToken c : quiet wait_view (ensureCSIToken c) (fun _ => True).
Proof. unfold ensureCSIToken, ensureNamespace, kube, token, golang. cbv zeta. quiet_go. Qed.

Lemma wp_csi_step c p l :
  backed_off p l ->
  wp (anyI wait_view) (csi_step c p) (ok (fun p' l' => backed_off p' l')) l.
Proof.
  intros [Hl Hp]. destruct p as [b| |]; cbn [csi_step]; [| |by apply wp_ret].
  - unfold provisioningLoop. wp_call d Hd. subst g'. cbn [wait_view]. rewrite app_nil_r.
    destruct d; [by apply wp_ret|].
    eapply wp_seq; [apply quiet_wp, quiet_ensureCSIToken|]. intros [err|] ? [_ ->].
    + wp_call x Hx. subst g'. cbn [wait_view].
      assert (Hl' : l ++ [b] = backoff_at <$> seq 0 (length (l ++ [b]))).
      { rewrite length_app, seq_app, fmap_app, <- Hl. cbn. by rewrite Hp. }
      destruct x; apply wp_ret; (split; [exact Hl'|]); [done|].
      rewrite length_app, Nat.add_1_r, Hp. apply next_backoff_at.
    + wp_call u Hu. subst g'. cbn [wait_view]. rewrite app_nil_r. by apply wp_ret.
  - unfold refreshLoop. wp_call x Hx. subst g'. cbn [wait_view]. rewrite app_nil_r.
    destruct x; [by apply wp_ret|].
    eapply wp_seq; [apply quiet_wp, quiet_ensureCSIToken|]. intros err ? [_ ->]. by apply wp_ret.
Qed.

Lemma wp_csi_loop n c p l :
  backed_off p l ->
  wp (anyI wait_view) (csi_loop n c p) (ok (fun p' l' => backed_off p' l')) l.
Proof.
  revert p l. induction n as [|n IH]; intros p l Hp; [by apply wp_ret|]. cbn [csi_loop].
  eapply wp_seq; [by apply wp_csi_step|]. intros p' l' Hp'. by apply IH.
Qed.

(** C34. Retrying: in every environment, after any number of passes from the start,
    the waits between failed attempts are 5 s, 10 s, 20 s and so on, doubled each
    time and at most two minutes, without overflow; once provisioned the
    controller never waits this way again. *)
Theorem csi_backoff {W} (h : handler Eff W) n c w :
  let '(o, l) := observe wait_view h (csi_loop n c (Provisioning InitialRetryInterval)) w in
  exists p, o = Done p /\ backed_off p l.
Proof.
  apply (observe_intro wait_view h _ w (fun o l => exists p, o = Done p /\ backed_off p l)).
  eapply wp_mono; [|apply wp_csi_loop; by split]. intros [p|] l; simpl; [eauto|done].
Qed.

(** ** The life of a token in the secret *)

(** The identity provider of [sim_oauth] (tokens of 15 minutes), a tenant cluster
    without the secret, and a ticker made ten seconds after the start. *)
Definition next_tick (now : Z) : Z :=
  (now / TokenRefreshInterval + 1) * TokenRefreshInterval + 10 * Second.

Definition sim_csi_cluster : handler Eff Z := fun X e now =>
  match e in Eff _ return X * Z -> X * Z with
  | EKube ke =>
      match ke in KubeE Y return Y * Z -> Y * Z with
      | NamespacesGet _ => fun _ => (Ok tt, now)
      | SecretsGet _ _ => fun _ => (Err (ErrKube KNotFound "not found"), now)
      | SecretsCreate _ => fun _ => (Ok tt, now)
      | _ => fun others => others
      end
  | EGo ge =>
      match ge in GoE Y return Y * Z -> Y * Z with
      | TickOrDone => fun _ =>
          (None, next_tick now)
      | _ => fun others => others
      end
  | _ => fun others => others
  end (sim_oauth X e now).

Definition wit_token_controller : CSITokenController :=
  {| HasClient := true; ct_UserEmail := "a@b.c"; ct_Region := "zrh"; ct_ClusterName := "c";
     Enabled := true |}.

(** What the first two refreshes leave behind. *)
Definition after_refreshes : Z * ImpersonationClient :=
  (run (with_auth sim_csi_cluster)
       (csi_loop 3 wit_token_controller (Provisioning InitialRetryInterval))
       (0%Z, new_client wit_config)).2.

(** The second refresh takes the token of the first from the cache, where it has
    just over five minutes left; it expires before the third refresh. *)
Example token_expires_in_secret :
  match tokenCache after_refreshes.2 !! cacheKey "a@b.c" "zrh" with
  | Some t => (after_refreshes.1 <? ExpiresAt t)%Z
              && (ExpiresAt t <? next_tick after_refreshes.1)%Z
  | None => false
  end = true.
Proof. by vm_compute. Qed.
