(* ===== verification/CSINode.v ===== *)
(** * The CSI node service

    [csi/driver/node.go]: staging, publishing and expanding volumes on a node,
    and the search for the device of a freshly attached volume.  The operating
    system is the signature [OsE] of World.v. *)

From S2P Require Import Prelude Effects GoErrors ApiTypes World CSIController.

(** ** Strings and paths of the standard library *)

Definition is_space (c : ascii) : bool :=
  let n := nat_of_ascii c in bool_decide (n = 32 \/ 9 <= n <= 13)%nat.

Fixpoint TrimLeft (s : string) : string :=
  match s with
  | EmptyString => EmptyString
  | String c s' => if is_space c then TrimLeft s' else s
  end.

Fixpoint TrimRight (s : string) : string :=
  match s with
  | EmptyString => EmptyString
  | String c s' =>
      match TrimRight s' with
      | EmptyString => if is_space c then EmptyString else String c EmptyString
      | r => String c r
      end
  end.

(** [strings.TrimSpace] on ASCII text, the output of blkid. *)
Definition TrimSpace (s : string) : string := TrimRight (TrimLeft s).

(** [strings.Split(s, "/")] *)
Fixpoint split_slash (s : string) : string * list string :=
  match s with
  | EmptyString => ("", [])
  | String c s' =>
      let '(x, l) := split_slash s' in
      if decide (c = "/"%char) then ("", x :: l) else (String c x, l)
  end.

(** The elements of a clean path, last one first: empty and [.] elements are
    dropped, [..] undoes the element before it. *)
Definition clean_elem (rooted : bool) (acc : list string) (e : string) : list string :=
  if decide (e = "" \/ e = ".") then acc
  else if decide (e = "..") then
    match acc with
    | [] => if rooted then [] else [".."]
    | ".." :: _ => ".." :: acc
    | _ :: acc' => acc'
    end
  else e :: acc.

(** [filepath.Clean] and [filepath.Dir] on Unix *)
Definition Clean (path : string) : string :=
  let rooted := HasPrefix path "/" in
  let '(x, l) := split_slash path in
  let out := String.concat "/" (rev (foldl (clean_elem rooted) [] (x :: l))) in
  if rooted then "/" +:+ out else if decide (out = "") then "." else out.

Definition Dir (path : string) : string :=
  let '(x, l) := split_slash path in
  match l with
  | [] => "."
  | _ => Clean (String.concat "/" (removelast (x :: l)) +:+ "/")
  end.

(** ** Requests *)

Record NodeStageVolumeRequest := {
  ns_VolumeId : string;
  ns_StagingTargetPath : string;
  ns_VolumeCapability : option VolumeCapability;
  ns_PublishContext : gmap string string
}.

Record NodePublishVolumeRequest := {
  np_VolumeId : string;
  np_TargetPath : string;
  np_StagingTargetPath : string;
  np_VolumeCapability : option VolumeCapability;
  np_PublishContext : gmap string string;
  np_Readonly : bool
}.

(** [status.Errorf(code, "...: %v", err)] *)
Definition Errorf (c : code) (msg : string) (err : error) : error :=
  ErrStatus c (msg +:+ ": " +:+ Error err).

(** ** Helper functions *)

Definition isMounted (path : string) : go (result bool) :=
  let* st := os (Stat path) in
  match st with
  | StatNotExist => Ret (Ok false)
  | _ =>
      let* r := os MountList in
      match r with
      | Err err => Ret (Err err)
      | Ok mps => Ret (Ok (existsb (fun mp => bool_decide (mp_Path mp = path)) mps))
      end
  end.

Definition isFormatted (devicePath : string) : go (result bool) :=
  let* r := os (Blkid devicePath) in
  match r with
  | BlkidOk output => Ret (Ok (bool_decide (TrimSpace output <> "")))
  | BlkidExit code err => if decide (code = 2%Z) then Ret (Ok false) else Ret (Err err)
  | BlkidErr err => Ret (Err err)
  end.

Definition run_tool (what : string) (argv : list string) : go (option error) :=
  let* '(output, err) := os (Run argv) in
  match err with
  | Some err => Ret (Some (ErrNew (what +:+ " failed: " +:+ Error err +:+ ", output: " +:+ output)))
  | None => Ret None
  end.

Definition formatDevice (devicePath fsType : string) : go (option error) :=
  if decide (fsType = "ext4") then run_tool "format" ["mkfs.ext4"; "-F"; devicePath]
  else if decide (fsType = "ext3") then run_tool "format" ["mkfs.ext3"; "-F"; devicePath]
  else if decide (fsType = "xfs") then run_tool "format" ["mkfs.xfs"; "-f"; devicePath]
  else Ret (Some (ErrNew ("unsupported filesystem type: " +:+ fsType))).

Definition getDeviceFromMountPoint (mountPoint : string) : go (result string) :=
  let* r := os MountList in
  match r with
  | Err err => Ret (Err err)
  | Ok mps =>
      match find (fun mp => bool_decide (mp_Path mp = mountPoint)) mps with
      | Some mp => Ret (Ok (mp_Device mp))
      | None => Ret (Err (ErrNew ("mount point " +:+ mountPoint +:+ " not found")))
      end
  end.

Definition resizeFilesystem (devicePath mountPoint : string) : go (option error) :=
  let* r := os (Blkid devicePath) in
  match r with
  | BlkidExit _ err | BlkidErr err =>
      Ret (Some (ErrNew ("failed to detect filesystem: " +:+ Error err)))
  | BlkidOk output =>
      let fsType := TrimSpace output in
      if decide (fsType = "ext4" \/ fsType = "ext3" \/ fsType = "ext2")
      then run_tool "resize" ["resize2fs"; devicePath]
      else if decide (fsType = "xfs") then run_tool "resize" ["xfs_growfs"; mountPoint]
      else Ret (Some (ErrNew ("unsupported filesystem for resize: " +:+ fsType)))
  end.

(** ** Finding the device of a volume *)

Definition by_path_glob : string := "/dev/disk/by-path/virtio-pci-*".

(** The links of whole disks and what they resolve to. *)
Definition snapshot (entries : list string) : go (gmap string string) :=
  for_each entries ∅ (fun entry existing =>
    if Contains entry "-part" then Ret existing
    else
      let* r := os (EvalSymlinks entry) in
      match r with
      | Ok resolved => Ret (<[entry := resolved]> existing)
      | Err _ => Ret existing
      end).

Definition mounted_devices (mps : list MountPoint) : go (gset string) :=
  for_each mps ∅ (fun mp mounted =>
    let* r := os (EvalSymlinks (mp_Device mp)) in
    let mounted := match r with Ok resolved => {[resolved]} ∪ mounted | Err _ => mounted end in
    Ret ({[mp_Device mp]} ∪ mounted)).

(** Data disks that are not mounted, as pairs of link and device. *)
Definition candidate (mounted : gset string) (pr : string * string) : bool :=
  negb (HasSuffix pr.2 "/vda") && bool_decide (pr.2 ∉ mounted).

(** The candidate with the latest modification time. *)
Definition newest (candidates : list (string * string)) : go (option string) :=
  let* best := for_each candidates (None, 0%Z) (fun pr best =>
    let* r := os (Lstat pr.1) in
    match r with
    | Err _ => Ret best
    | Ok modTime => if decide (modTime > best.2)%Z then Ret (Some pr.2, modTime) else Ret best
    end) in
  Ret best.1.

(** Links that are not in the snapshot and are devices other than the boot disk. *)
Definition new_devices (existing : gmap string string) (entries : list string)
    : go (list string) :=
  for_each entries [] (fun entry found =>
    if Contains entry "-part" then Ret found
    else match existing !! entry with
    | Some _ => Ret found
    | None =>
        let* r := os (EvalSymlinks entry) in
        match r with
        | Err _ => Ret found
        | Ok resolved =>
            let* st := os (Stat resolved) in
            match st with
            | StatOk true =>
                if HasSuffix resolved "/vda" then Ret found else Ret (found ++ [entry])
            | _ => Ret found
            end
        end
    end).

(** The resolved path, or the empty string. *)
Definition resolve (path : string) : go string :=
  let* r := os (EvalSymlinks path) in
  match r with Ok resolved => Ret resolved | Err _ => Ret "" end.

Definition maxRetries : nat := 20.

Definition wait_new_device (channel : string) (existing : gmap string string)
    : go (result string) :=
  let* r := for_range (seq 0 maxRetries) tt (fun attempt _ =>
    let* g := os (Glob by_path_glob) in
    match g with
    | Err _ => os (Run ["sleep"; "0.5"]) ;; Ret (Next tt)
    | Ok entries =>
        let* found := new_devices existing entries in
        match found with
        | [] =>
            if decide (attempt < maxRetries - 1)%nat
            then os (Run ["sh"; "-c"; "sleep 0.5"]) ;; Ret (Next tt)
            else Ret (Next tt)
        | [dev] => let* resolved := resolve dev in Ret (Return (Ok resolved))
        | _ =>
            let* devList := for_each found [] (fun dev l =>
              let* resolved := resolve dev in Ret (l ++ [dev +:+ "->" +:+ resolved])) in
            Ret (Return (Err (ErrNew ("ambiguous: found " +:+ itoa (Z.of_nat (length found))
              +:+ " new devices for channel " +:+ channel +:+ ": ["
              +:+ String.concat " " devList +:+ "]"))))
        end
    end) in
  match r with
  | inr res => Ret res
  | inl _ => Ret (Err (ErrNew ("timeout: no new device appeared for channel " +:+ channel
               +:+ " after " +:+ itoa (Z.of_nat maxRetries) +:+ " attempts (10 seconds)")))
  end.

Definition findDeviceByPath (publishContext : gmap string string) : go (result string) :=
  let channel := default "" (publishContext !! "channel") in
  if decide (channel = "") then Ret (Err (ErrNew "channel not found in publish context"))
  else
    let* g := os (Glob by_path_glob) in
    let* existing := snapshot (match g with Ok entries => entries | Err _ => [] end) in
    let* m := os MountList in
    let* mounted := mounted_devices (match m with Ok mps => mps | Err _ => [] end) in
    let* devices := range_map existing in
    let candidates := filter (fun pr => candidate mounted pr = true) devices in
    match candidates with
    | [] => wait_new_device channel existing
    | [pr] => Ret (Ok pr.2)
    | _ =>
        let* best := newest candidates in
        match best with
        | Some resolved => Ret (Ok resolved)
        | None => wait_new_device channel existing
        end
    end.

(** ** Staging *)

Definition nodeDeviceMu : string := "nodeDeviceMu".

(** Format the device if it holds nothing, and mount it. *)
Definition format_and_mount (devicePath stagingPath fsType : string) (flags : list string)
    : go (option error) :=
  let* r := isFormatted devicePath in
  match r with
  | Err err => Ret (Some (Errorf Internal "failed to check if device is formatted" err))
  | Ok formatted =>
      let* err := (if formatted then Ret None else formatDevice devicePath fsType) in
      match err with
      | Some err => Ret (Some (Errorf Internal "failed to format device" err))
      | None =>
          let* r := os (Mount devicePath stagingPath fsType flags) in
          match r with
          | Err err => Ret (Some (Errorf Internal "failed to mount device" err))
          | Ok _ => Ret None
          end
      end
  end.

(** Make the device available at the staging path; nothing to do for a block
    volume or a path that is mounted. *)
Definition stage_device (devicePath stagingPath : string) (cap : VolumeCapability)
    : go (option error) :=
  if GetBlock cap then Ret None
  else match GetMount cap with
  | None => Ret (Some (ErrStatus InvalidArgument "volume capability must be mount or block"))
  | Some (fs, flags) =>
      let fsType := if decide (fs = "") then "ext4" else fs in
      let* r := os (MkdirAll stagingPath) in
      match r with
      | Err err => Ret (Some (Errorf Internal "failed to create staging directory" err))
      | Ok _ =>
          let* r := isMounted stagingPath in
          match r with
          | Err err => Ret (Some (Errorf Internal "failed to check mount status" err))
          | Ok true => Ret None
          | Ok false => format_and_mount devicePath stagingPath fsType flags
          end
      end
  end.

(** What happens with the lock held; the answer is the error, if any. *)
Definition stage_locked (stagingPath : string) (cap : VolumeCapability)
    (publishContext : gmap string string) : go (option error) :=
  let* r := findDeviceByPath publishContext in
  match r with
  | Err err => Ret (Some (Errorf InvalidArgument "failed to find device" err))
  | Ok devicePath =>
      let* st := os (Stat devicePath) in
      match st with
      | StatNotExist => Ret (Some (ErrStatus NotFound ("device " +:+ devicePath +:+ " not found")))
      | _ => stage_device devicePath stagingPath cap
      end
  end.

Definition NodeStageVolume (req : NodeStageVolumeRequest) : go (option error) :=
  if decide (ns_VolumeId req = "") then
    Ret (Some (ErrStatus InvalidArgument "volume ID is required"))
  else if decide (ns_StagingTargetPath req = "") then
    Ret (Some (ErrStatus InvalidArgument "staging target path is required"))
  else match ns_VolumeCapability req with
  | None => Ret (Some (ErrStatus InvalidArgument "volume capability is required"))
  | Some cap =>
      golang (Lock nodeDeviceMu) ;;
      let* r := stage_locked (ns_StagingTargetPath req) cap (ns_PublishContext req) in
      golang (Unlock nodeDeviceMu) ;;
      Ret r
  end.

(** Unmount a path if it is mounted. *)
Definition unmount_if_mounted (what path : string) : go (option error) :=
  let* r := isMounted path in
  match r with
  | Err err => Ret (Some (Errorf Internal "failed to check mount status" err))
  | Ok false => Ret None
  | Ok true =>
      let* r := os (Unmount path) in
      match r with
      | Err err => Ret (Some (Errorf Internal what err))
      | Ok _ => Ret None
      end
  end.

Definition NodeUnstageVolume (volumeId stagingPath : string) : go (option error) :=
  if decide (volumeId = "") then Ret (Some (ErrStatus InvalidArgument "volume ID is required"))
  else if decide (stagingPath = "") then
    Ret (Some (ErrStatus InvalidArgument "staging target path is required"))
  else unmount_if_mounted "failed to unmount staging path" stagingPath.

(** ** Publishing *)

Definition publish_block (devicePath targetPath : string) : go (option error) :=
  if decide (devicePath = "") then
    Ret (Some (ErrStatus InvalidArgument "device path required for block volume"))
  else
    let* r := os (MkdirAll (Dir targetPath)) in
    match r with
    | Err err => Ret (Some (Errorf Internal "failed to create parent directory" err))
    | Ok _ =>
        let* r := os (CreateFile targetPath) in
        match r with
        | Err err => Ret (Some (Errorf Internal "failed to create target file" err))
        | Ok _ =>
            let* r := os (Mount devicePath targetPath "" ["bind"]) in
            match r with
            | Err err => Ret (Some (Errorf Internal "failed to bind mount block device" err))
            | Ok _ => Ret None
            end
        end
    end.

Definition publish_mount (stagingPath targetPath : string) (readonly : bool)
    : go (option error) :=
  if decide (stagingPath = "") then
    Ret (Some (ErrStatus InvalidArgument "staging target path is required for filesystem volumes"))
  else
    let* r := os (MkdirAll targetPath) in
    match r with
    | Err err => Ret (Some (Errorf Internal "failed to create target directory" err))
    | Ok _ =>
        let* r := isMounted targetPath in
        match r with
        | Err err => Ret (Some (Errorf Internal "failed to check mount status" err))
        | Ok true => Ret None
        | Ok false =>
            let mountOptions := if readonly then ["bind"; "ro"] else ["bind"] in
            let* r := os (Mount stagingPath targetPath "" mountOptions) in
            match r with
            | Err err => Ret (Some (Errorf Internal "failed to bind mount" err))
            | Ok _ => Ret None
            end
        end
    end.

Definition NodePublishVolume (req : NodePublishVolumeRequest) : go (option error) :=
  if decide (np_VolumeId req = "") then
    Ret (Some (ErrStatus InvalidArgument "volume ID is required"))
  else if decide (np_TargetPath req = "") then
    Ret (Some (ErrStatus InvalidArgument "target path is required"))
  else match np_VolumeCapability req with
  | None => Ret (Some (ErrStatus InvalidArgument "volume capability is required"))
  | Some cap =>
      if GetBlock cap
      then publish_block (default "" (np_PublishContext req !! "devicePath")) (np_TargetPath req)
      else publish_mount (np_StagingTargetPath req) (np_TargetPath req) (np_Readonly req)
  end.

(** A failure to remove the target path is logged. *)
Definition NodeUnpublishVolume (volumeId targetPath : string) : go (option error) :=
  if decide (volumeId = "") then Ret (Some (ErrStatus InvalidArgument "volume ID is required"))
  else if decide (targetPath = "") then
    Ret (Some (ErrStatus InvalidArgument "target path is required"))
  else
    let* err := unmount_if_mounted "failed to unmount target path" targetPath in
    match err with
    | Some err => Ret (Some err)
    | None => os (RemoveAll targetPath) ;; Ret None
    end.

(** ** The other calls *)

(** Total, used and available; the counters of the kernel are 64-bit. *)
Record VolumeUsage := { Total : Z; Used : Z; Available : Z }.

Definition volume_usage (total available : Z) : VolumeUsage :=
  {| Total := total; Used := wrap64 (total - available); Available := available |}.

Definition NodeGetVolumeStats (volumeId volumePath : string)
    : go (result (VolumeUsage * VolumeUsage)) :=
  if decide (volumeId = "") then Ret (Err (ErrStatus InvalidArgument "volume ID is required"))
  else if decide (volumePath = "") then
    Ret (Err (ErrStatus InvalidArgument "volume path is required"))
  else
    let* st := os (Stat volumePath) in
    match st with
    | StatNotExist =>
        Ret (Err (ErrStatus NotFound ("volume path " +:+ volumePath +:+ " not found")))
    | _ =>
        let* r := os (Statfs volumePath) in
        match r with
        | Err err => Ret (Err (Errorf Internal "failed to get volume stats" err))
        | Ok sf =>
            let bytes n := wrap64 (wrap64 n * sf_Bsize sf) in
            Ret (Ok (volume_usage (bytes (sf_Blocks sf)) (bytes (sf_Bavail sf)),
                     volume_usage (wrap64 (sf_Files sf)) (wrap64 (sf_Ffree sf))))
        end
    end.

(** The capacity range is dereferenced after the file system was resized. *)
Definition NodeExpandVolume (volumeId volumePath : string) (cr : option CapacityRange)
    : go (result Z) :=
  if decide (volumeId = "") then Ret (Err (ErrStatus InvalidArgument "volume ID is required"))
  else if decide (volumePath = "") then
    Ret (Err (ErrStatus InvalidArgument "volume path is required"))
  else
    let* r := getDeviceFromMountPoint volumePath in
    match r with
    | Err err => Ret (Err (Errorf Internal "failed to get device from mount point" err))
    | Ok devicePath =>
        let* err := resizeFilesystem devicePath volumePath in
        match err with
        | Some err => Ret (Err (Errorf Internal "failed to resize filesystem" err))
        | None =>
            match cr with
            | Some r => Ret (Ok (RequiredBytes r))
            | None => Panic "nil pointer dereference: CapacityRange"
            end
        end
    end.

Definition NodeGetCapabilities (d : Driver) : list NodeCap := nodeCaps d.

(** Node ID, number of volumes and topology. *)
Definition NodeGetInfo (d : Driver) : string * Z * gmap string string :=
  (nodeID d, 15%Z, {[TopologyKey := region d]}).

(** ** The device that is found

    Where links lead and what is mounted does not change during the search:
    [link] says what a path resolves to, [mps] is the mount table.  Every reading
    may fail; the log has the listings of the links, whether the mount table was
    read, and the links that could not be resolved. *)

Inductive reading :=
| Listed (r : result (list string))
| MountsRead (ok : bool)
| Unresolved (path : string).

Definition reading_view : view Eff reading := fun X e =>
  match e in Eff _ return X -> list reading with
  | EOs oe =>
      match oe in OsE Y return Y -> list reading with
      | Glob _ => fun x => [Listed x]
      | MountList => fun x => [MountsRead (match x with Ok _ => true | Err _ => false end)]
      | EvalSymlinks p => fun x => match x with Ok _ => [] | Err _ => [Unresolved p] end
      | _ => fun _ => []
      end
  | _ => fun _ => []
  end.

Section device.
Context (link : string -> result string) (mps : list MountPoint).

Definition os_stable {X} (e : Eff X) : X -> Prop :=
  match e in Eff _ return X -> Prop with
  | EOs oe =>
      match oe in OsE Y return Y -> Prop with
      | EvalSymlinks p => fun x => forall dev, x = Ok dev -> link p = Ok dev
      | MountList => fun x => forall l, x = Ok l -> l = mps
      | _ => fun _ => True
      end
  | _ => fun _ => True
  end.

Definition osI : iface Eff (list reading) :=
  Iface (fun _ _ _ => True) (fun _ e g x g' => g' = g ++ reading_view _ e x /\ os_stable e x).

(** The device is mounted, by its name or by a link. *)
Definition in_use (dev : string) : Prop :=
  exists mp, mp ∈ mps /\ (mp_Device mp = dev \/ link (mp_Device mp) = Ok dev).

(** The link was not there at the first listing. *)
Definition appeared (entry : string) (l : list reading) : Prop :=
  exists entries l', l = Listed (Ok entries) :: l' /\ entry ∉ entries.

(** A reading failed that would have told of the device: the first listing, the
    mount table, or the resolution of a link to it. *)
Definition misread (dev : string) (l : list reading) : Prop :=
  (exists err l', l = Listed (Err err) :: l') \/ MountsRead false ∈ l \/
  exists path, link path = Ok dev /\ Unresolved path ∈ l.

Definition device_found (dev : string) (l : list reading) : Prop :=
  HasSuffix dev "/vda" = false /\
  exists entry, link entry = Ok dev /\ Contains entry "-part" = false /\
    (in_use dev -> appeared entry l \/ misread dev l).

Lemma device_found_later dev l l1 : l <> [] -> device_found dev l -> device_found dev (l ++ l1).
Proof.
  intros Hl (Hv & entry & Hlink & Hp & Hu). split; [done|]. exists entry. split_and!; [done..|].
  intros [(es & l' & -> & Hn)|[(err & l' & ->)|[Hm|(p & Hp' & Hin)]]]%Hu.
  - left. by exists es, (l' ++ l1).
  - right; left. by exists err, (l' ++ l1).
  - right; right; left. apply elem_of_app. by left.
  - right; right; right. exists p. split; [done|]. apply elem_of_app. by left.
Qed.

(** A log that continues another one. *)
Definition continues (l l' : list reading) : Prop := exists l1, l' = l ++ l1.

#[local] Instance continues_preorder : PreOrder continues.
Proof.
  split; [intros l; exists []; by rewrite app_nil_r|].
  intros l1 l2 l3 [k ->] [k' ->]. exists (k ++ k'). by rewrite app_assoc.
Qed.

Lemma continues_app l k : continues l (l ++ k).
Proof. by exists k. Qed.

Lemma continues_elem x l l' : continues l l' -> x ∈ l -> x ∈ l'.
Proof. intros [k ->] H. apply elem_of_app. by left. Qed.

(** What the snapshot holds, of the links [done] so far. *)
Definition snapshot_of (done : list string) (existing : gmap string string) (l : list reading) : Prop :=
  (forall entry dev, existing !! entry = Some dev ->
     link entry = Ok dev /\ Contains entry "-part" = false) /\
  (forall entry dev, entry ∈ done -> Contains entry "-part" = false -> link entry = Ok dev ->
     existing !! entry = Some dev \/ Unresolved entry ∈ l).

Lemma snapshot_of_later done existing l l' :
  continues l l' -> snapshot_of done existing l -> snapshot_of done existing l'.
Proof.
  intros Hc [H1 H2]. split; [done|]. intros entry dev Hin Hp Hl.
  destruct (H2 entry dev Hin Hp Hl); [by left|right]. by eapply continues_elem.
Qed.

Lemma wp_snapshot entries l :
  wp osI (snapshot entries) (ok (fun existing l' =>
    continues l l' /\ snapshot_of entries existing l')) l.
Proof.
  apply (wp_for_each _ (fun todo existing l' => continues l l' /\
    exists pre, entries = pre ++ todo /\ snapshot_of pre existing l')).
  - split; [done|]. exists []. split; [done|]. split; [done|]. by intros ? ? ?%not_elem_of_nil.
  - intros entry todo existing l' _ (Hc & pre & -> & Hs).
    assert (Hskip : forall l1, continues l' l1 ->
      (Contains entry "-part" = true \/ Unresolved entry ∈ l1) ->
      continues l l1 /\ exists pre', pre ++ entry :: todo = pre' ++ todo /\ snapshot_of pre' existing l1).
    { intros l1 Hl1 Hwhy. split; [by etrans|]. exists (pre ++ [entry]). rewrite <- app_assoc.
      split; [done|]. destruct (snapshot_of_later _ _ _ _ Hl1 Hs) as [H1 H2]. split; [done|].
      intros e dev [Hin|Hin%list_elem_of_singleton]%elem_of_app Hp Hl; [by auto|]. subst e.
      destruct Hwhy; [congruence|by right]. }
    destruct (Contains entry "-part") eqn:Ep; [apply wp_ret, Hskip; [done|by left]|].
    wp_call x Hx. destruct Hx as [-> Hx]. cbn in Hx |- *.
    destruct x as [dev|err]; apply wp_ret; cbn.
    + rewrite app_nil_r. split; [done|]. exists (pre ++ [entry]). rewrite <- app_assoc. split; [done|].
      destruct Hs as [H1 H2]. split.
      * intros e d. destruct (decide (e = entry)) as [->|]; [|rewrite lookup_insert_ne by done; auto].
        rewrite lookup_insert_eq. intros [= <-]. auto.
      * intros e d [Hin|Hin%list_elem_of_singleton]%elem_of_app Hp Hl; [|subst e].
        -- destruct (decide (e = entry)) as [->|]; [|rewrite lookup_insert_ne by done; by auto].
           left. rewrite lookup_insert_eq. rewrite (Hx dev eq_refl) in Hl. by simplify_eq.
        -- left. rewrite lookup_insert_eq. rewrite (Hx dev eq_refl) in Hl. by simplify_eq.
    + apply Hskip; [apply continues_app|]. right. apply elem_of_app. right. by left.
  - intros existing l' (Hc & pre & -> & Hs). by rewrite app_nil_r.
Qed.

(** Devices that are in use and not seen to be. *)
Definition unseen (mounted : gset string) (l : list reading) (dev : string) : Prop :=
  in_use dev -> dev ∈ mounted \/ misread dev l.

Lemma wp_mounted_devices l :
  wp osI (mounted_devices mps)
     (ok (fun mounted l' => continues l l' /\ forall dev, unseen mounted l' dev)) l.
Proof.
  apply (wp_for_each _ (fun todo (mounted : gset string) l' => continues l l' /\
    forall mp dev, mp ∈ mps -> mp_Device mp = dev \/ link (mp_Device mp) = Ok dev ->
      mp ∈ todo \/ dev ∈ mounted \/
      (link (mp_Device mp) = Ok dev /\ Unresolved (mp_Device mp) ∈ l'))).
  - split; [done|]. auto.
  - intros mp todo mounted l' _ [Hc Hm].
    wp_call x Hx. destruct Hx as [-> Hx]. cbn in Hx |- *. cbv zeta.
    apply wp_ret. split; [etrans; [exact Hc|apply continues_app]|]. intros mp' dev Hmp Hdev.
    destruct (Hm mp' dev Hmp Hdev) as [[->|Hin]%elem_of_cons|[Hin|[Hl Hin]]].
    + right. destruct Hdev as [<-|Hl]; [left; set_solver|]. destruct x as [d|err].
      * left. rewrite (Hx d eq_refl) in Hl. simplify_eq. set_solver.
      * right. split; [done|]. apply elem_of_app. right. by left.
    + by left.
    + right; left. destruct x; set_solver.
    + right; right. split; [done|]. apply elem_of_app. by left.
  - intros mounted l' [Hc Hm]. split; [done|]. intros dev (mp & Hmp & Hdev).
    destruct (Hm mp dev Hmp Hdev) as [[]%not_elem_of_nil|[|[Hl Hun]]]; [by left|].
    right; right; right. by eexists.
Qed.

(** A device that is none of the snapshot's links. *)
Definition fresh_entry (existing : gmap string string) (entry : string) : Prop :=
  existing !! entry = None /\ Contains entry "-part" = false /\
  exists dev, link entry = Ok dev /\ HasSuffix dev "/vda" = false.

Lemma wp_new_devices existing entries l :
  wp osI (new_devices existing entries)
     (ok (fun found l' => continues l l' /\ Forall (fresh_entry existing) found)) l.
Proof.
  apply (wp_for_each _ (fun _ found l' => continues l l' /\ Forall (fresh_entry existing) found));
    [done| |done].
  intros entry todo found l' _ [Hc Hf].
  destruct (Contains entry "-part") eqn:Ep; [by apply wp_ret|].
  destruct (existing !! entry) eqn:Ee; [by apply wp_ret|].
  wp_call x Hx. destruct Hx as [-> Hx]. cbn in Hx |- *.
  destruct x as [dev|err]; [|apply wp_ret; split; [etrans; [exact Hc|apply continues_app]|done]].
  rewrite app_nil_r. specialize (Hx dev eq_refl).
  wp_call st Hst. destruct Hst as [-> _]. cbn [reading_view]. rewrite app_nil_r.
  destruct st as [[]| |]; [|by apply wp_ret..].
  destruct (HasSuffix dev "/vda") eqn:Ev; [by apply wp_ret|]. apply wp_ret. split; [done|].
  apply Forall_app. split; [done|]. apply Forall_singleton. split_and!; eauto.
Qed.

Definition first_listing (g : result (list string)) : list string :=
  match g with Ok entries => entries | Err _ => [] end.

(** Fresh links of a snapshot of the first listing. *)
Lemma fresh_found g existing entry l l1 dev :
  snapshot_of (first_listing g) existing l -> fresh_entry existing entry -> link entry = Ok dev ->
  continues l (Listed g :: l1) -> device_found dev (Listed g :: l1).
Proof.
  intros Hs (He & Hp & dev' & Hl & Hv) Hd Hc. rewrite Hd in Hl. simplify_eq.
  split; [done|]. exists entry. split_and!; [done..|]. intros _.
  destruct g as [es|err]; [|right; left; by eexists _, _].
  destruct (decide (entry ∈ es)) as [Hin|]; [|left; by eexists _, _].
  destruct (proj2 Hs entry dev' Hin Hp Hd) as [|Hun]; [congruence|].
  right; right; right. exists entry. split; [done|]. by eapply continues_elem.
Qed.

Lemma wp_resolve entry l :
  wp osI (resolve entry) (ok (fun dev l' => continues l l' /\
    (dev <> "" -> link entry = Ok dev))) l.
Proof.
  unfold resolve. wp_call x Hx. destruct Hx as [-> Hx]. cbn in Hx |- *.
  destruct x as [d|err]; apply wp_ret; (split; [apply continues_app|]); [|done]. auto.
Qed.

Lemma wp_wait_new_device channel g existing l :
  continues [Listed g] l -> snapshot_of (first_listing g) existing l ->
  wp osI (wait_new_device channel existing) (ok (fun r l' =>
    forall dev, r = Ok dev -> dev <> "" -> device_found dev l')) l.
Proof.
  intros Hg Hs. unfold wait_new_device.
  eapply (wp_seq _ _ _ (fun r l' => forall dev, r = inr (Ok dev) -> dev <> "" -> device_found dev l')).
  2:{ intros [[]|r] l' Hr; apply wp_ret; [done|]. intros dev ->. by apply Hr. }
  apply (wp_for_range _ (fun _ _ l' => continues l l')); [done| |by intros].
  intros attempt todo [] l0 _ Hl0.
  wp_call x Hx. destruct Hx as [-> _]. cbn.
  assert (Hnext : forall l1, continues l0 l1 -> continues l l1) by (intros l1 ?; by etrans).
  destruct x as [entries|err].
  2:{ wp_call u Hu. destruct Hu as [-> _]. cbn. rewrite app_nil_r. apply wp_ret, Hnext, continues_app. }
  eapply wp_seq; [apply wp_new_devices|]. intros found l1 [Hc1 Hf].
  assert (Hc01 : continues l0 l1) by (etrans; [apply continues_app|exact Hc1]).
  destruct found as [|entry [|entry2 rest]].
  - case_decide; [|by apply wp_ret, Hnext].
    wp_call u Hu. destruct Hu as [-> _]. cbn. rewrite app_nil_r. by apply wp_ret, Hnext.
  - apply Forall_inv in Hf. eapply wp_seq; [apply wp_resolve|]. intros dev l2 [Hc2 Hd].
    apply wp_ret. intros ? [= <-] Hne.
    assert (Hc : continues l l2) by (etrans; [by apply Hnext|done]).
    assert (Hgl : continues [Listed g] l2) by (by etrans). destruct Hgl as [k ->].
    by eapply fresh_found; [|exact Hf|by apply Hd|].
  - eapply (wp_seq _ _ _ (fun _ _ => True)); [|intros devList l2 _; by apply wp_ret].
    apply (wp_for_each _ (fun _ _ _ => True)); [done| |done].
    intros dev todo' acc l2 _ _. eapply wp_seq; [apply wp_resolve|]. intros d l3 _. by apply wp_ret.
Qed.

Lemma wp_newest candidates l :
  wp osI (newest candidates) (ok (fun r l' => l' = l /\
    forall dev, r = Some dev -> exists entry, (entry, dev) ∈ candidates)) l.
Proof.
  unfold newest. eapply (wp_seq _ _ _ (fun (best : option string * Z) l' => l' = l /\
    forall dev, best.1 = Some dev -> exists entry, (entry, dev) ∈ candidates)).
  2:{ intros best l' H. by apply wp_ret. }
  apply (wp_for_each _ (fun _ (best : option string * Z) l' => l' = l /\
    forall dev, best.1 = Some dev -> exists entry, (entry, dev) ∈ candidates)); [done| |done].
  intros [entry dev] todo best ? [pre ->] [-> Hb]. cbn.
  wp_call x Hx. destruct Hx as [-> _]. cbn. rewrite app_nil_r.
  destruct x as [t|err]; [case_decide|]; apply wp_ret; (split; [done|]); [|done..].
  intros ? [= <-]. exists entry. apply elem_of_mid.
Qed.

(** The devices in use are known when the mount table could be read. *)
Lemma wp_after_mounts (m : result (list MountPoint)) l :
  (forall mps', m = Ok mps' -> mps' = mps) ->
  wp osI (mounted_devices (match m with Ok mps => mps | Err _ => [] end))
     (ok (fun mounted l' => continues l l' /\ forall dev, unseen mounted l' dev))
     (l ++ [MountsRead (match m with Ok _ => true | Err _ => false end)]).
Proof.
  intros Hm. destruct m as [mps'|err].
  - rewrite (Hm mps' eq_refl). eapply wp_mono; [|apply wp_mounted_devices]. intros [mounted|] l'; [|done].
    intros [Hc Hu]. split; [etrans; [apply continues_app|exact Hc]|done].
  - apply wp_ret. split; [apply continues_app|]. intros dev _. right; right; left.
    apply elem_of_app. right. by left.
Qed.

Lemma wp_findDeviceByPath ctx :
  wp osI (findDeviceByPath ctx) (ok (fun r l =>
    forall dev, r = Ok dev -> dev <> "" -> device_found dev l)) [].
Proof.
  unfold findDeviceByPath. cbv zeta. case_decide; [by apply wp_ret|].
  wp_call g Hg. destruct Hg as [-> _]. cbn.
  eapply wp_seq; [apply wp_snapshot|]. intros existing l1 [Hc1 Hs1].
  wp_call m Hm. destruct Hm as [-> Hm]. cbn in Hm |- *.
  eapply wp_seq; [by apply wp_after_mounts|]. intros mounted l2 [Hc2 Hu].
  assert (Hc : continues [Listed g] l2) by (by etrans).
  pose proof (snapshot_of_later _ _ _ _ Hc2 Hs1) as Hs. clear Hs1 Hc1 Hc2 l1.
  unfold range_map. apply wp_bind. wp_call seed Hseed. destruct Hseed as [-> _].
  cbn [reading_view]. rewrite app_nil_r. apply wp_ret.
  set (candidates := filter (fun pr => candidate mounted pr = true)
                            (permute seed (map_to_list existing))).
  assert (Hcand : forall entry dev, (entry, dev) ∈ candidates -> device_found dev l2).
  { intros entry dev [Hcand Hin]%list_elem_of_filter.
    rewrite elem_of_permute, elem_of_map_to_list in Hin. cbn in Hcand.
    apply andb_true_iff in Hcand as [Hv%negb_true_iff Hn%bool_decide_eq_true].
    split; [done|]. exists entry. destruct (proj1 Hs _ _ Hin) as [Hl Hp].
    split_and!; [done..|]. intros Huse. right. by destruct (Hu dev Huse). }
  destruct candidates as [|[entry dev] [|pr2 rest]] eqn:Ec.
  - by eapply wp_wait_new_device.
  - apply wp_ret. intros ? [= <-] _. apply (Hcand entry). constructor.
  - eapply wp_seq; [apply wp_newest|]. intros [best|] ? [-> Hb].
    + apply wp_ret. intros ? [= <-] _. destruct (Hb _ eq_refl) as [e He]. by eapply Hcand.
    + by eapply wp_wait_new_device.
Qed.
End device.

Class StableOs {W} (h : handler Eff W) (link : string -> result string)
    (mps : list MountPoint) : Prop :=
  os_stable_law : forall X (e : Eff X) w, os_stable link mps e (h X e w).1.

Lemma osI_sound {W} (h : handler Eff W) link mps `{!StableOs h link mps} :
  implements (logging reading_view h) (fun wl g => wl.2 = g) (osI link mps).
Proof.
  intros X e [w l] g Heq _. simpl in *. subst l.
  pose proof (os_stable_law X e w) as Hs.
  destruct (h X e w) as [x w']; simpl in *. eauto.
Qed.

(** C29. The device of a volume: while links lead where they do and the mount table
    is the same, and whichever readings fail, a device that is found is a whole disk
    with a link and is not the boot disk; and if it is mounted, by name or by link,
    then its link was not in the first listing, or one of three readings failed: that
    listing, the mount table, or the resolution of a link to the device.  (The search
    passes over such failures; it also answers the empty path when the link it found
    cannot be resolved, which staging refuses.) *)
Theorem findDeviceByPath_safe {W} (h : handler Eff W) link mps `{!StableOs h link mps} ctx w :
  let '(o, l) := observe reading_view h (findDeviceByPath ctx) w in
  exists r, o = Done r /\ forall dev, r = Ok dev -> dev <> "" -> device_found link mps dev l.
Proof.
  destruct (wp_run _ _ _ _ _ (w, []) [] (osI_sound h link mps) eq_refl
              (wp_findDeviceByPath link mps ctx)) as (l & HQ & Hl).
  unfold observe. destruct (run _ _ _) as [[r|why] [w' l']]; cbn in *; [|done]. subst l'. eauto.
Qed.

(** ** Formatting and mounting *)

Inductive stage_event :=
| Probed (device : string) (x : blkid)
| MadeFs (argv : list string) (ok : bool)
| MountAsked (source target fstype : string) (ok : bool).

Definition is_mkfs (argv : list string) : bool :=
  match argv with tool :: _ => HasPrefix tool "mkfs." | [] => false end.

Definition mount_ok {A} (x : result A) : bool := match x with Ok _ => true | Err _ => false end.

Definition stage_view : view Eff stage_event := fun X e =>
  match e in Eff _ return X -> list stage_event with
  | EOs oe =>
      match oe in OsE Y return Y -> list stage_event with
      | Blkid dev => fun x => [Probed dev x]
      | Run argv => fun x =>
          if is_mkfs argv then [MadeFs argv (bool_decide (x.2 = None))] else []
      | Mount src tgt fs _ => fun x => [MountAsked src tgt fs (mount_ok x)]
      | _ => fun _ => []
      end
  | _ => fun _ => []
  end.

(** The probe found no file system. *)
Definition blank (x : blkid) : bool :=
  match x with
  | BlkidOk output => bool_decide (TrimSpace output = "")
  | BlkidExit code _ => bool_decide (code = 2%Z)
  | BlkidErr _ => false
  end.

(** The command that makes a file system of this type on a device. *)
Definition mkfs (device fsType : string) : option (list string) :=
  if decide (fsType = "ext4") then Some ["mkfs.ext4"; "-F"; device]
  else if decide (fsType = "ext3") then Some ["mkfs.ext3"; "-F"; device]
  else if decide (fsType = "xfs") then Some ["mkfs.xfs"; "-f"; device]
  else None.

(** The course of staging: the device is probed, formatted only if blank, and
    mounted at the staging path with the type it was formatted with; success means
    that the mount succeeded, or that nothing had to be done. *)
Definition staged (stagingPath : string) (err : option error) (l : list stage_event) : Prop :=
  l = [] \/ exists dev fs x, 
    (l = [Probed dev x] /\ err <> None) \/
    (exists argv, l = [Probed dev x; MadeFs argv false] /\ mkfs dev fs = Some argv /\
       blank x = true /\ err <> None) \/
    (exists pre ok, l = Probed dev x :: pre ++ [MountAsked dev stagingPath fs ok] /\
       (err = None <-> ok = true) /\
       if blank x then exists argv, pre = [MadeFs argv true] /\ mkfs dev fs = Some argv
       else pre = []).

Lemma wp_run_tool what argv l :
  is_mkfs argv = true ->
  wp (anyI stage_view) (run_tool what argv) (ok (fun err l' =>
    l' = l ++ [MadeFs argv (bool_decide (err = None))])) l.
Proof.
  intros Hm. unfold run_tool. wp_call x Hx. subst g'. cbn [stage_view]. rewrite Hm.
  destruct x as [out [e|]]; by apply wp_ret.
Qed.

Lemma wp_formatDevice dev fs l :
  wp (anyI stage_view) (formatDevice dev fs) (ok (fun err l' =>
    match mkfs dev fs with
    | Some argv => l' = l ++ [MadeFs argv (bool_decide (err = None))]
    | None => l' = l /\ err <> None
    end)) l.
Proof.
  unfold formatDevice, mkfs.
  repeat (case_decide; [by apply wp_run_tool|]). by apply wp_ret.
Qed.

Lemma wp_format_and_mount dev stagingPath fs flags :
  wp (anyI stage_view) (format_and_mount dev stagingPath fs flags)
     (ok (fun err l => staged stagingPath err l)) [].
Proof.
  unfold format_and_mount.
  apply (wp_seq _ _ _ (fun r l => exists x, l = [Probed dev x] /\
    forall formatted, r = Ok formatted -> formatted = negb (blank x))).
  { unfold isFormatted. wp_call x Hx. subst g'. cbn.
    destruct x as [out|code err|err]; [|case_decide|]; apply wp_ret; eexists; (split; [done|]).
    - intros ? [= <-]. cbn. apply bool_decide_not.
    - intros ? [= <-]. cbn. by rewrite bool_decide_true.
    - done.
    - done. }
  intros [formatted|err] ? (x & -> & Hf).
  2:{ apply wp_ret. right. exists dev, fs, x. by left. }
  specialize (Hf _ eq_refl). subst formatted.
  apply (wp_seq _ _ _ (fun err l =>
    if blank x then
      match mkfs dev fs with
      | Some argv => l = [Probed dev x; MadeFs argv (bool_decide (err = None))]
      | None => l = [Probed dev x] /\ err <> None
      end
    else l = [Probed dev x] /\ err = None)).
  { destruct (blank x); cbn; [|by apply wp_ret].
    eapply wp_mono; [|apply wp_formatDevice]. intros [err|] l; simpl; [|done].
    by destruct (mkfs dev fs). }
  intros err l Hl. destruct err as [err|].
  { apply wp_ret. right. exists dev, fs, x. destruct (blank x) eqn:Eb; [|by destruct Hl].
    destruct (mkfs dev fs) as [argv|] eqn:Em; [|destruct Hl as [-> _]; by left].
    rewrite bool_decide_false in Hl by done. right. left. exists argv. by split_and!. }
  wp_call m Hm. subst g'. cbn [stage_view].
  assert (Hpre : exists pre, l = Probed dev x :: pre /\
    if blank x then exists argv, pre = [MadeFs argv true] /\ mkfs dev fs = Some argv
    else pre = []).
  { destruct (blank x); [|destruct Hl as [-> _]; by eexists].
    destruct (mkfs dev fs) as [argv|]; [|by destruct Hl].
    rewrite bool_decide_true in Hl by done. subst l. eexists. split; [done|]. by eexists. }
  destruct Hpre as (pre & -> & Hpre).
  destruct m as [u|err]; apply wp_ret; right; exists dev, fs, x; right; right;
    exists pre; eexists; by split_and!.
Qed.

(** The search neither formats nor mounts. *)
Lemma quiet_new_devices existing entries :
  quiet stage_view (new_devices existing entries) (fun _ => True).
Proof. unfold new_devices, os. quiet_go. Qed.

Lemma quiet_resolve path : quiet stage_view (resolve path) (fun _ => True).
Proof. unfold resolve, os. quiet_go. Qed.
#[export] Hint Resolve quiet_new_devices quiet_resolve : quiet.

Lemma quiet_wait_new_device ch existing :
  quiet stage_view (wait_new_device ch existing) (fun _ => True).
Proof.
  unfold wait_new_device, os. eapply (quiet_bind _ _ _ (fun _ => True)).
  - apply (quiet_for_range _ _ _ _ (fun _ => True)); [done| |done].
    intros attempt [] _ _.
    apply (quiet_mono _ _ (fun _ => True)); [by intros []|]. quiet_go.
  - intros [[]|r] _; quiet_go.
Qed.

Lemma quiet_findDevice ctx : quiet stage_view (findDeviceByPath ctx) (fun _ => True).
Proof.
  pose proof quiet_wait_new_device.
  unfold findDeviceByPath, snapshot, mounted_devices, newest, range_map, os, golang. cbv zeta.
  quiet_go.
Qed.
#[export] Hint Resolve quiet_findDevice : quiet.

Lemma wp_stage_device dev stagingPath cap :
  wp (anyI stage_view) (stage_device dev stagingPath cap)
     (ok (fun err l => staged stagingPath err l)) [].
Proof.
  unfold stage_device. destruct (GetBlock cap); [apply wp_ret; by left|].
  destruct (GetMount cap) as [[fs flags]|]; [|apply wp_ret; by left]. cbv zeta.
  wp_call mk Hmk. subst g'. cbn [stage_view app]. destruct mk; [|apply wp_ret; by left].
  eapply wp_seq; [apply quiet_wp; instantiate (1 := fun _ => True); unfold isMounted, os; quiet_go|].
  intros [[]|err] ? [_ ->]; [apply wp_ret; by left|apply wp_format_and_mount|apply wp_ret; by left].
Qed.

(** C18. Staging a volume, in every environment: at most one device is touched; it
    is formatted only if the probe just before found no file system on it, and then
    once, with the command of the type it is mounted with; it is mounted at the
    staging path and nowhere else, and a success that mounted nothing left it
    alone. *)
Theorem NodeStageVolume_formats_blank {W} (h : handler Eff W) req w :
  let '(o, l) := observe stage_view h (NodeStageVolume req) w in
  exists err, o = Done err /\ staged (ns_StagingTargetPath req) err l.
Proof.
  apply (observe_intro stage_view h (NodeStageVolume req) w
    (fun o l => exists err, o = Done err /\ staged (ns_StagingTargetPath req) err l)).
  eapply (wp_mono _ _ (ok (fun err l => staged (ns_StagingTargetPath req) err l))).
  { intros [err|] l; simpl; [eauto|done]. }
  unfold NodeStageVolume. do 2 (case_decide; [apply wp_ret; by left|]).
  destruct (ns_VolumeCapability req) as [cap|]; [|apply wp_ret; by left].
  wp_call u Hu. subst g'. cbn [stage_view app].
  eapply (wp_seq _ _ _ (fun err l => staged (ns_StagingTargetPath req) err l)).
  2:{ intros err l Hl. wp_call u' Hu'. subst g'. cbn [stage_view]. rewrite app_nil_r.
      by apply wp_ret. }
  unfold stage_locked. eapply wp_seq; [apply quiet_wp, quiet_findDevice|].
  intros [dev|err] ? [_ ->]; [|apply wp_ret; by left].
  wp_call st Hst. subst g'. cbn [stage_view app].
  destruct st; [|apply wp_ret; by left|]; apply wp_stage_device.
Qed.

(** ** The mount table

    What publishing relies on: the table is what [List] answers, [Mount] adds an
    entry, [Unmount] removes the latest entry of its target, a path that is
    mounted exists, and nothing else changes the table. *)

Fixpoint remove_first (target : string) (g : list MountPoint) : list MountPoint :=
  match g with
  | [] => []
  | mp :: g' => if decide (mp_Path mp = target) then g' else mp :: remove_first target g'
  end.

Definition unmounted (target : string) (g : list MountPoint) : list MountPoint :=
  rev (remove_first target (rev g)).

Definition mounted_at (target : string) (g : list MountPoint) : bool :=
  existsb (fun mp => bool_decide (mp_Path mp = target)) g.

Definition mount_post {X} (e : Eff X) : list MountPoint -> X -> list MountPoint -> Prop :=
  match e in Eff _ return list MountPoint -> X -> list MountPoint -> Prop with
  | EOs oe =>
      match oe in OsE Y return list MountPoint -> Y -> list MountPoint -> Prop with
      | MountList => fun g x g' => g' = g /\ forall mps, x = Ok mps -> mps = g
      | Mount _ tgt _ _ => fun g x g' =>
          if mount_ok x then exists dev, g' = g ++ [{| mp_Device := dev; mp_Path := tgt |}]
          else g' = g
      | Unmount tgt => fun g x g' => g' = if mount_ok x then unmounted tgt g else g
      | Stat path => fun g x g' => g' = g /\ (mounted_at path g = true -> x <> StatNotExist)
      | _ => fun g _ g' => g' = g
      end
  | _ => fun g _ g' => g' = g
  end.

Definition mountI : iface Eff (list MountPoint) :=
  Iface (fun _ _ _ => True) (fun _ e => mount_post e).

Class MountState {W} (h : handler Eff W) := mount_state : W -> list MountPoint -> Prop.
#[global] Arguments mount_state {W} h {_} w g.

Class MountTable {W} (h : handler Eff W) `{!MountState h} : Prop :=
  mount_laws : implements h (mount_state h) mountI.

(** The target was mounted, after all of [g]. *)
Definition mounted_on (target : string) (g g' : list MountPoint) : Prop :=
  exists dev, g' = g ++ [{| mp_Device := dev; mp_Path := target |}].

Lemma unmounted_on target g g' : mounted_on target g g' -> unmounted target g' = g.
Proof.
  intros [dev ->]. unfold unmounted. rewrite rev_app_distr. cbn. rewrite decide_True by done.
  apply rev_involutive.
Qed.

Lemma mounted_on_at target g g' : mounted_on target g g' -> mounted_at target g' = true.
Proof.
  intros [dev ->]. unfold mounted_at. rewrite existsb_app. cbn.
  by rewrite bool_decide_true, orb_true_r.
Qed.

Lemma wp_isMounted path g :
  wp mountI (isMounted path) (ok (fun r g' => g' = g /\
    forall b, r = Ok b -> b = mounted_at path g)) g.
Proof.
  unfold isMounted. wp_call st Hst. destruct Hst as [-> Hst].
  destruct st as [dev| |err].
  2:{ apply wp_ret. split; [done|]. intros ? [= <-]. destruct (mounted_at path g); [|done].
      exfalso. by apply Hst. }
  all: wp_call x Hx; destruct Hx as [-> Hx]; destruct x as [mps|e]; apply wp_ret;
    (split; [done|]); [|done]; rewrite (Hx _ eq_refl); by intros ? [= <-].
Qed.

(** A branch that fails, or has nothing to do. *)
Ltac unchanged := apply wp_ret; cbn [ok]; rewrite decide_False by (by intros []).

(** Publishing mounts the target once. *)
Lemma wp_publish_mount stagingPath targetPath readonly g :
  wp mountI (publish_mount stagingPath targetPath readonly) (ok (fun err g' =>
    if decide (err = None /\ mounted_at targetPath g = false)
    then mounted_on targetPath g g' else g' = g)) g.
Proof.
  unfold publish_mount. case_decide; [by unchanged|].
  wp_call r Hr. cbn in Hr. subst g'. destruct r as [u|err]; [|by unchanged].
  eapply wp_seq; [apply wp_isMounted|]. intros r ? [-> Hm].
  destruct r as [b|err]; [|by unchanged].
  specialize (Hm _ eq_refl). subst b. destruct (mounted_at targetPath g) eqn:Em.
  { by unchanged. }
  cbv zeta. wp_call m Hm. cbn in Hm. destruct m as [u'|err].
  - apply wp_ret. cbn. by rewrite decide_True.
  - cbn in Hm. subst g'. by unchanged.
Qed.

Lemma wp_unmount_if_mounted what path g :
  wp mountI (unmount_if_mounted what path) (ok (fun err g' =>
    g' = if decide (err = None /\ mounted_at path g = true) then unmounted path g else g)) g.
Proof.
  unfold unmount_if_mounted. eapply wp_seq; [apply wp_isMounted|]. intros r ? [-> Hm].
  destruct r as [b|err]; [|by unchanged].
  specialize (Hm _ eq_refl). subst b. destruct (mounted_at path g) eqn:Em.
  2:{ by unchanged. }
  wp_call x Hx. cbn in Hx. subst g'. destruct x as [u|err]; [apply wp_ret; cbn; by rewrite decide_True|by unchanged].
Qed.

Section publish.
Context (req : NodePublishVolumeRequest) (cap : VolumeCapability).
Context (Hcap : np_VolumeCapability req = Some cap) (Hblock : GetBlock cap = false).

Abbreviation target := (np_TargetPath req).

Lemma wp_NodePublishVolume g :
  wp mountI (NodePublishVolume req) (ok (fun err g' =>
    if decide (err = None /\ mounted_at target g = false) then mounted_on target g g' else g' = g)) g.
Proof using Hcap Hblock.
  unfold NodePublishVolume.
  do 2 (case_decide; [by unchanged|]).
  rewrite Hcap, Hblock. apply wp_publish_mount.
Qed.

Lemma wp_NodeUnpublishVolume vol g :
  target <> "" -> vol <> "" ->
  wp mountI (NodeUnpublishVolume vol target) (ok (fun err g' =>
    g' = if decide (err = None /\ mounted_at target g = true) then unmounted target g else g)) g.
Proof.
  intros Ht Hv. unfold NodeUnpublishVolume. rewrite !decide_False by done.
  eapply wp_seq; [apply wp_unmount_if_mounted|]. intros [err|] g' Hg'; [by apply wp_ret|].
  wp_call x Hx. cbn in Hx. subst g'0. by apply wp_ret.
Qed.

Definition succeeded (err : option error) : bool := bool_decide (err = None).

(** Whether some publish request has succeeded. *)
Definition publishes (b : bool) (g g' : list MountPoint) : Prop :=
  if b then mounted_on target g g' else g' = g.

Lemma wp_publish_again b g g' :
  mounted_at target g = false -> publishes b g g' ->
  wp mountI (NodePublishVolume req) (ok (fun err => publishes (b || succeeded err) g)) g'.
Proof using Hcap Hblock.
  intros Hfree Hb. eapply wp_mono; [|apply wp_NodePublishVolume]. intros [err|] g1; [|done].
  cbn. unfold succeeded. destruct b; cbn in Hb |- *.
  - rewrite (mounted_on_at _ _ _ Hb), decide_False by (by intros []). by intros ->.
  - subst g'. rewrite Hfree. destruct (decide (err = None)) as [->|He].
    + by rewrite decide_True.
    + rewrite decide_False by (by intros []). by rewrite bool_decide_false.
Qed.
End publish.

(** One request after the other. *)
Fixpoint publish_times (n : nat) (req : NodePublishVolumeRequest) : go (list (option error)) :=
  match n with
  | O => Ret []
  | S n => let* err := NodePublishVolume req in
           let* errs := publish_times n req in Ret (err :: errs)
  end.

Lemma wp_publish_times req cap n b g g' :
  np_VolumeCapability req = Some cap -> GetBlock cap = false ->
  mounted_at (np_TargetPath req) g = false -> publishes req b g g' ->
  wp mountI (publish_times n req)
     (ok (fun errs => publishes req (b || existsb succeeded errs) g)) g'.
Proof.
  intros Hcap Hblock Hfree. revert b g'. induction n as [|n IH]; intros b g' Hb.
  - apply wp_ret. cbn. by rewrite orb_false_r.
  - cbn [publish_times]. eapply wp_seq; [by eapply wp_publish_again|]. intros err g1 H1.
    eapply wp_seq; [apply (IH (b || succeeded err) g1 H1)|]. intros errs g2 H2. apply wp_ret.
    cbn [ok existsb] in H2 |- *. by rewrite orb_assoc.
Qed.


(** A block volume is published from the entry [devicePath] of the context, which
    the controller service does not put there. *)
Lemma block_never_published req cap vol ch :
  np_VolumeCapability req = Some cap -> GetBlock cap = true ->
  np_PublishContext req = publish_context vol ch ->
  exists err, NodePublishVolume req = Ret (Some err).
Proof.
  intros Hcap Hb Hctx. unfold NodePublishVolume. repeat (case_decide; [by eexists|]).
  rewrite Hcap, Hb, Hctx. unfold publish_context, publish_block.
  rewrite lookup_insert_ne, lookup_singleton_ne by done. cbn.
  rewrite decide_True by done. by eexists.
Qed.

(** ** A concrete node

    Disks as link, device and time of attachment. *)

Definition sim_disks : list (string * string * Z) :=
  [("/dev/disk/by-path/virtio-pci-0", "/dev/vda", 1%Z);
   ("/dev/disk/by-path/virtio-pci-1", "/dev/vdb", 2%Z);
   ("/dev/disk/by-path/virtio-pci-2", "/dev/vdc", 3%Z)].

Definition sim_link (disks : list (string * string * Z)) (path : string) : result string :=
  match find (fun d => bool_decide (d.1.1 = path)) disks with
  | Some d => Ok d.1.2
  | None => Ok path
  end.

Definition sim_os (disks : list (string * string * Z)) : handler Eff (list MountPoint) :=
  fun X e g =>
  match e in Eff _ return X * list MountPoint with
  | EOs oe =>
      match oe in OsE Y return Y * list MountPoint with
      | Stat path => (StatOk (HasPrefix path "/dev/"), g)
      | Lstat path =>
          (match find (fun d => bool_decide (d.1.1 = path)) disks with
           | Some d => Ok d.2
           | None => Err unavailable
           end, g)
      | EvalSymlinks path => (sim_link disks path, g)
      | Glob _ => (Ok ((fun d => d.1.1) <$> disks), g)
      | MkdirAll _ => (Ok tt, g)
      | CreateFile _ => (Ok tt, g)
      | RemoveAll _ => (Ok tt, g)
      | MountList => (Ok g, g)
      | Mount src tgt _ _ => (Ok tt, g ++ [{| mp_Device := src; mp_Path := tgt |}])
      | Unmount tgt => (Ok tt, unmounted tgt g)
      | Blkid _ => (BlkidExit 2 (ErrNew "exit status 2"), g)
      | Run _ => (("", None), g)
      | oe => (deaf_os oe, g)
      end
  | e => (deaf e, g)
  end.

#[global] Instance sim_os_mounts disks : MountState (sim_os disks) := fun w g => w = g.

#[global] Instance sim_os_ok disks : MountTable (sim_os disks).
Proof.
  intros X e w g HR _. unfold mount_state, sim_os_mounts in *. subst w.
  eexists. split; [|reflexivity].
  destruct e as [cl ce|he|ke|oe|te|ge|pe|se]; try done.
  destruct se; cbn; try done; [|by eexists]. split; [done|]. by intros mps [= <-].
Qed.

(** The same node while nothing is mounted or unmounted. *)
Definition sim_still (disks : list (string * string * Z)) (mps : list MountPoint)
    : handler Eff unit := fun X e w => ((sim_os disks X e mps).1, w).

#[global] Instance sim_still_ok disks mps : StableOs (sim_still disks mps) (sim_link disks) mps.
Proof.
  intros X e w. destruct e as [cl ce|he|ke|oe|te|ge|pe|se]; try done.
  destruct se; cbn; try done; by intros ? [= <-].
Qed.

Definition mount_cap : VolumeCapability :=
  {| cap_type := ATMount "" []; cap_mode := SINGLE_NODE_WRITER |}.

Definition wit_stage (ch : string) : NodeStageVolumeRequest :=
  {| ns_VolumeId := "vol-1"; ns_StagingTargetPath := "/staging/vol-1";
     ns_VolumeCapability := Some mount_cap; ns_PublishContext := publish_context "vol-1" ch |}.

(** With two unmounted disks the device does not depend on the channel: it is the
    disk attached last, also for the volume of the other one. *)
Example channel_ignored :
  (run (sim_os sim_disks) (findDeviceByPath (publish_context "vol-1" "0:2")) []).1
    = Done (Ok "/dev/vdc") /\
  (run (sim_os sim_disks) (findDeviceByPath (publish_context "vol-2" "1:0")) []).1
    = Done (Ok "/dev/vdc").
Proof. by vm_compute. Qed.

(** Staging a volume that is staged already fails: its device is mounted, so that
    there is none to be found, before the staging path is looked at. *)
Example restage_fails :
  let w := (run (sim_os (take 2 sim_disks)) (NodeStageVolume (wit_stage "0:2")) []).2 in
  w = [{| mp_Device := "/dev/vdb"; mp_Path := "/staging/vol-1" |}] /\
  (run (sim_os (take 2 sim_disks)) (NodeStageVolume (wit_stage "0:2")) w).1
  = Done (Some (ErrStatus InvalidArgument
      "failed to find device: timeout: no new device appeared for channel 0:2 after 20 attempts (10 seconds)")).
Proof. by vm_compute. Qed.

(** Nothing tells that a disk is mounted when the mount table cannot be read. *)
Definition sim_unread (disks : list (string * string * Z)) : handler Eff unit := fun X e w =>
  match e in Eff _ return X * unit with
  | EOs oe =>
      match oe in OsE Y return Y * unit with
      | MountList => (Err unavailable, w)
      | oe => ((sim_os disks _ (EOs oe) []).1, w)
      end
  | e => (deaf e, w)
  end.

Example unread_mounts_found :
  observe reading_view (sim_unread (take 2 sim_disks))
    (findDeviceByPath (publish_context "vol-2" "1:0")) tt
  = (Done (Ok "/dev/vdb"),
     [Listed (Ok ["/dev/disk/by-path/virtio-pci-0"; "/dev/disk/by-path/virtio-pci-1"]);
      MountsRead false]).
Proof. by vm_compute. Qed.

Definition wit_mounts : list MountPoint :=
  [{| mp_Device := "/dev/vdb"; mp_Path := "/staging/vol-1" |}].

Lemma findDeviceByPath_safe_witness :
  exists l, device_found (sim_link sim_disks) wit_mounts "/dev/vdc" l /\
            forallb (fun r => match r with Listed (Ok _) | MountsRead true => true | _ => false end) l = true.
Proof.
  pose (h := sim_still sim_disks wit_mounts).
  pose proof (findDeviceByPath_safe h (sim_link sim_disks) wit_mounts (publish_context "vol-2" "1:0") tt) as H.
  destruct (observe reading_view h (findDeviceByPath (publish_context "vol-2" "1:0")) tt)
    as [o l] eqn:E.
  exists l. destruct H as (r & -> & H). vm_compute in E. simplify_eq. split; [|done]. by apply H.
Defined.

Definition wit_node_publish : NodePublishVolumeRequest :=
  {| np_VolumeId := "vol-1"; np_TargetPath := "/pods/p"; np_StagingTargetPath := "/staging/vol-1";
     np_VolumeCapability := Some mount_cap; np_PublishContext := ∅; np_Readonly := true |}.

