(* ===== verification/CSINodeConcurrent.v ===== *)
(** * Overlapping requests to the CSI node service

    [NodeStageVolume] holds [nodeDeviceMu] from the search for the device to the
    mount, "to ensure one volume is fully mounted before the next one tries to find
    its device" ([csi/driver/node.go]); the other calls take no mutex.  The requests
    run as goroutines of a pool (Concurrency.v), while disks come and go. *)

From S2P Require Import Prelude Effects GoErrors ApiTypes World Concurrency.
From S2P Require Import CSIController CSINode.

(** The calls of the service that touch the mount table.  The capacity of an
    expansion is set: without one the call panics ([NodeExpandVolume]). *)
Inductive node_request :=
| StageReq (req : NodeStageVolumeRequest)
| UnstageReq (volumeId stagingPath : string)
| PublishReq (req : NodePublishVolumeRequest)
| UnpublishReq (volumeId targetPath : string)
| ExpandReq (volumeId volumePath : string) (capacity : CapacityRange).

Inductive node_reply :=
| NodeDone (err : option error)
| NodeExpanded (r : result Z).

Definition serve_node (req : node_request) : go node_reply :=
  match req with
  | StageReq req => let* r := NodeStageVolume req in Ret (NodeDone r)
  | UnstageReq vol path => let* r := NodeUnstageVolume vol path in Ret (NodeDone r)
  | PublishReq req => let* r := NodePublishVolume req in Ret (NodeDone r)
  | UnpublishReq vol path => let* r := NodeUnpublishVolume vol path in Ret (NodeDone r)
  | ExpandReq vol path cr => let* r := NodeExpandVolume vol path (Some cr) in Ret (NodeExpanded r)
  end.

Definition node_pool {W} (reqs : list node_request) (w : W) : pool W node_reply :=
  Pool (serve_node <$> reqs) ∅ w.

(** ** The node

    Its mount table, and the links below [/dev/disk/by-path] with the devices they
    lead to.  Disks are plugged and unplugged at any time: a link that appears
    leads to a device that is not mounted.  Every reading may fail, of the mount
    table, of the links and of where a link leads; [overlooked] keeps the devices
    that were mounted, or that the link led to, when a reading failed. *)

Record node := {
  mounts : list MountPoint;
  links : gmap string string;
  overlooked : gset string
}.

Definition with_mounts (g : node) (l : list MountPoint) : node :=
  {| mounts := l; links := links g; overlooked := overlooked g |}.

Definition overlook (devs : gset string) (g : node) : node :=
  {| mounts := mounts g; links := links g; overlooked := devs ∪ overlooked g |}.

Definition busy (g : node) (dev : string) : Prop :=
  exists mp, mp ∈ mounts g /\ mp_Device mp = dev.

Definition busy_devices (g : node) : gset string := list_to_set (mp_Device <$> mounts g).

(** Not mounted, as far as the readings could show. *)
Definition free (g : node) (dev : string) : Prop := busy g dev -> dev ∈ overlooked g.

Lemma busy_devices_spec g dev : dev ∈ busy_devices g <-> busy g dev.
Proof.
  unfold busy_devices, busy. rewrite elem_of_list_to_set, list_elem_of_fmap. naive_solver.
Qed.

Lemma free_overlooked g dev : free (overlook (busy_devices g) g) dev.
Proof. intros H. cbn. apply elem_of_union_l. by apply busy_devices_spec. Qed.

(** The device a link leads to. *)
Definition led_to (g : node) (path : string) : gset string :=
  match links g !! path with Some dev => {[dev]} | None => ∅ end.

Definition hotplug (g g' : node) : Prop :=
  mounts g' = mounts g /\ overlooked g' = overlooked g /\
  forall e dev, links g' !! e = Some dev -> links g !! e = Some dev \/ ~ busy g dev.

Definition by_path (e : string) : bool := HasPrefix e "/dev/disk/by-path/".

(** The mount table names devices by their path, a listing that is answered is
    complete, a link that is resolved leads where the node says.  A mount with a file
    system type adds its device to the table; one without, a bind mount, adds the
    device of the mount its source is in. *)
Definition node_post {X} (e : OsE X) : node -> X -> node -> Prop :=
  match e in OsE Y return node -> Y -> node -> Prop with
  | MountList => fun g x g' =>
      match x with
      | Ok mps => mps = mounts g /\ g' = g
      | Err _ => g' = overlook (busy_devices g) g
      end
  | Glob pattern => fun g x g' =>
      match x with
      | Ok entries => g' = g /\ (pattern = by_path_glob ->
          Forall (fun e => by_path e = true) entries /\
          forall e, is_Some (links g !! e) -> by_path e = true -> e ∈ entries)
      | Err _ => g' = overlook (busy_devices g) g
      end
  | EvalSymlinks path => fun g x g' =>
      match x with
      | Ok dev => g' = g /\ default dev (links g !! path) = dev /\
          (by_path path = true -> links g !! path = Some dev)
      | Err _ => g' = overlook (led_to g path) g
      end
  | Stat path => fun g x g' => g' = g /\ (path = "" -> x = StatNotExist)
  | Mount src tgt fs _ => fun g x g' =>
      if mount_ok x then exists dev,
        g' = with_mounts g (mounts g ++ [{| mp_Device := dev; mp_Path := tgt |}]) /\
        if decide (fs = "") then busy g dev else dev = src
      else g' = g
  | Unmount tgt => fun g x g' =>
      g' = if mount_ok x then with_mounts g (unmounted tgt (mounts g)) else g
  | _ => fun g _ g' => g' = g
  end.

(** The device a call formats, or mounts with a file system. *)
Definition touched {X} (e : Eff X) : option string :=
  match e with
  | EOs (Run argv) => if is_mkfs argv then last argv else None
  | EOs (Mount src _ fs _) => if decide (fs = "") then None else Some src
  | _ => None
  end.

(** What the service must observe: no device is touched that is mounted, as far as
    the readings could show. *)
Definition nodeI : iface Eff node :=
  Iface (fun _ e g => forall dev, touched e = Some dev -> free g dev)
        (fun X e => match e with
                    | EOs oe => fun g x g' => exists g1, hotplug g g1 /\ node_post oe g1 x g'
                    | _ => fun g _ g' => hotplug g g'
                    end).

Class NodeState {W} (h : handler Eff W) := node_state : W -> node.
#[global] Arguments node_state {W} h {_} w.

Class NodeOs {W} (h : handler Eff W) `{!NodeState h} : Prop :=
  node_laws : implements h (fun w g => node_state h w = g) nodeI.

(** ** What others may do *)

(** No device is mounted that was not, none is forgotten that was overlooked, and
    new links lead to devices that are free. *)
Definition settles (g g' : node) : Prop :=
  (forall dev, busy g' dev -> busy g dev) /\ overlooked g ⊆ overlooked g' /\
  forall e dev, links g' !! e = Some dev -> links g !! e = Some dev \/ free g' dev.

Lemma settles_free g g' dev : settles g g' -> free g dev -> free g' dev.
Proof. intros (H & Ho & _) Hn Hb. by apply Ho, Hn, H. Qed.

#[global] Instance settles_preorder : PreOrder settles.
Proof.
  split; [by split; auto|]. intros g1 g2 g3 H1 H2. pose proof (settles_free g2 g3) as Hf.
  destruct H1 as (B1 & O1 & L1), H2 as (B2 & O2 & L2). split_and!; [auto|by etrans|].
  intros e dev He. destruct (L2 e dev He) as [He'|]; [|by right].
  destruct (L1 e dev He') as [|Hn]; [by left|right]. by apply Hf.
Qed.

(** The holder of the mutex is alone in mounting devices. *)
Definition node_rely (mine : gset string) (g g' : node) : Prop :=
  nodeDeviceMu ∈ mine -> settles g g'.

Definition node_guar (mine : gset string) (g g' : node) : Prop :=
  nodeDeviceMu ∈ mine \/ settles g g'.

Lemma node_rely_refl mine g : node_rely mine g g.
Proof. by intros _. Qed.

Lemma node_rely_trans mine g1 g2 g3 :
  node_rely mine g1 g2 -> node_rely mine g2 g3 -> node_rely mine g1 g3.
Proof. intros H1 H2 Hm. etrans; [by apply H1|by apply H2]. Qed.

Lemma node_guar_rely m1 m2 g g' : m1 ## m2 -> node_guar m1 g g' -> node_rely m2 g g'.
Proof. intros Hd [Hm|Hs] H2; [|done]. by destruct (Hd nodeDeviceMu). Qed.

Lemma hotplug_settles g g' : hotplug g g' -> settles g g'.
Proof.
  intros (Hm & Ho & Hl).
  assert (Hb : forall dev, busy g' dev <-> busy g dev) by (unfold busy; by rewrite Hm).
  split_and!; [intros dev; apply Hb|by rewrite Ho|]. intros e dev He.
  destruct (Hl e dev He) as [|Hn]; [by left|right]. by intros H%Hb.
Qed.

Lemma overlook_settles devs g : settles g (overlook devs g).
Proof. split_and!; [done|cbn; set_solver|by left]. Qed.

Lemma elem_of_unmounted mp tgt l : mp ∈ unmounted tgt l -> mp ∈ l.
Proof.
  assert (Hrem : forall l', mp ∈ remove_first tgt l' -> mp ∈ l').
  { induction l' as [|mp' l' IH]; [done|]. cbn. case_decide; [by right|].
    intros [->|H']%elem_of_cons; [by left|right; by apply IH]. }
  assert (Hrev : forall l' : list MountPoint, mp ∈ rev l' <-> mp ∈ l').
  { intros l'. by rewrite !list_elem_of_In, <- in_rev. }
  unfold unmounted. rewrite Hrev. intros H%Hrem. by apply Hrev.
Qed.

(** A call that touches no device. *)
Lemma untouched_settles {X} (e : Eff X) g x g' :
  touched e = None -> i_post nodeI e g x g' -> settles g g'.
Proof.
  destruct e as [cl ce|he|ke|oe|te|ge|pe|se]; cbn; try (intros _; apply hotplug_settles).
  intros Ht (g1 & Hh & Hp). etrans; [by apply hotplug_settles|].
  destruct se; cbn in Ht, Hp;
    try lazymatch type of Hp with
        | g' = g1 => by rewrite Hp
        | g' = g1 /\ _ => by destruct Hp as [-> _]
        | match x with _ => _ end =>
            destruct x; [by (destruct Hp as [_ ->] || destruct Hp as [-> _])|];
            subst g'; apply overlook_settles
        end.
  - case_decide; [|done]. destruct (mount_ok x); [|by subst g'].
    destruct Hp as (dev & -> & (mp & Hmp & Hdev)). split_and!; [|done|by auto].
    intros dev' (mp' & [Hin|Hin%list_elem_of_singleton]%elem_of_app & Hdev');
      [by exists mp'|]. subst mp'. cbn in Hdev'. exists mp. by rewrite <- Hdev'.
  - subst g'. destruct (mount_ok x); [|done]. split_and!; [|done|by auto].
    intros dev (mp & Hin%elem_of_unmounted & Hdev). by exists mp.
Qed.

(** ** The requests without the mutex *)

(** Calls that are no business of the mutex. *)
Definition bystander (X : Type) (e : Eff X) : Prop := mutex_call e = None /\ touched e = None.

Abbreviation nwp := (cwp nodeI (fun _ => True) node_rely node_guar).

Lemma nwp_bystander {R} (p : go R) (P : node -> Prop) mine g :
  (forall g1 g2, P g1 -> settles g1 g2 -> P g2) ->
  (forall g1 g2, P g1 -> node_rely mine g1 g2 -> P g2) ->
  only bystander p -> returns p -> P g -> nwp p (fun _ mine' g' => mine' = mine /\ P g') mine g.
Proof.
  intros HP Hrely. apply cwp_only; [done|].
  intros X e [Hm Ht]. split; [done|]. intros g1 _ Hg1. split; [intros dev; by rewrite Ht|].
  intros x g2 Hx%untouched_settles; [|done]. split_and!; [by right|done|by eapply HP].
Qed.

Ltac only_os :=
  repeat (first [done | solve [auto with only nocore] | only_step | progress cbv zeta | case_decide]).

Lemma only_isMounted path : only bystander (isMounted path).
Proof. unfold isMounted, os. only_os. Qed.

Lemma only_unmount_if_mounted what path : only bystander (unmount_if_mounted what path).
Proof. unfold unmount_if_mounted, isMounted, os. only_os. Qed.

Lemma only_unstage vol path : only bystander (NodeUnstageVolume vol path).
Proof. unfold NodeUnstageVolume, unmount_if_mounted, isMounted, os. only_os. Qed.

Lemma only_publish req : only bystander (NodePublishVolume req).
Proof. unfold NodePublishVolume, publish_block, publish_mount, isMounted, os. only_os. Qed.

Lemma only_unpublish vol path : only bystander (NodeUnpublishVolume vol path).
Proof. unfold NodeUnpublishVolume, unmount_if_mounted, isMounted, os. only_os. Qed.

Lemma only_expand vol path cr : only bystander (NodeExpandVolume vol path cr).
Proof.
  unfold NodeExpandVolume, getDeviceFromMountPoint, resizeFilesystem, run_tool, os. only_os.
Qed.

(** ** Staging

    With the mutex held nobody else mounts a device: [lwp p P g] when [p] runs with
    it and mounts none itself. *)

Abbreviation locked := ({[nodeDeviceMu]} : gset string).
Abbreviation lwp p P g := (nwp p (fun a mine g' => mine = locked /\ settles g g' /\ P a g') locked g).

Lemma locked_rely g g' : node_rely locked g g' -> settles g g'.
Proof. intros H. apply H. set_solver. Qed.

Lemma lwp_ret {R} (a : R) (P : R -> node -> Prop) g :
  (forall g', settles g g' -> P a g') -> lwp (Ret a) P g.
Proof. intros H. apply cwp_ret. intros g1 Hr%locked_rely _. auto. Qed.

Lemma lwp_seq {A R} (p : go A) (f : A -> go R) (P : A -> node -> Prop) Q g :
  lwp p P g -> (forall a g', settles g g' -> P a g' -> nwp (f a) Q locked g') ->
  nwp (let* x := p in f x) Q locked g.
Proof.
  intros Hp Hf. apply cwp_bind; [apply node_rely_refl|]. eapply cwp_mono; [|exact Hp].
  intros a mine g' (-> & Hs & Ha). by apply Hf.
Qed.

Lemma lwp_from {R} (p : go R) (P : R -> node -> Prop) g g' :
  settles g g' -> lwp p P g' -> nwp p (fun a mine g1 => mine = locked /\ settles g g1 /\ P a g1) locked g'.
Proof.
  intros Hs. apply cwp_mono. intros a mine g1 (-> & Hs1 & Ha). split_and!; [done|by etrans|done].
Qed.

Lemma nwp_os {X R} (oe : OsE X) (k : X -> go R) Q g :
  (forall dev g1, settles g g1 -> touched (EOs oe) = Some dev -> free g1 dev) ->
  (forall x g1 g2, settles g g1 -> node_post oe g1 x g2 -> nwp (k x) Q locked g2) ->
  nwp (let* x := os oe in k x) Q locked g.
Proof.
  intros Hpre Hk. apply cwp_call; [by destruct oe|]. intros g1 Hr%locked_rely _.
  split; [intros dev; by apply Hpre|]. intros x g2 (g1' & Hh%hotplug_settles & Hp).
  split_and!; [left; set_solver|done|]. eapply Hk; [|exact Hp]. by etrans.
Qed.

(** Reading changes nothing but what is overlooked. *)
Definition reads {X} (oe : OsE X) : Prop :=
  touched (EOs oe) = None /\ forall g x g', node_post oe g x g' -> settles g g'.

Lemma untouched_reads {X} (oe : OsE X) : touched (EOs oe) = None -> reads oe.
Proof.
  intros Ht. split; [done|]. intros g x g' Hp.
  apply (untouched_settles (EOs oe) g x g' Ht). exists g. split; [by split_and!; auto|done].
Qed.

Lemma lwp_read {X R} (oe : OsE X) (k : X -> go R) (P : R -> node -> Prop) g :
  touched (EOs oe) = None ->
  (forall x g1 g2, settles g g1 -> node_post oe g1 x g2 -> settles g1 g2 -> lwp (k x) P g2) ->
  lwp (let* x := os oe in k x) P g.
Proof.
  intros Ht Hk. pose proof (untouched_reads oe Ht) as [_ Hr].
  apply nwp_os; [intros dev g1 _; by rewrite Ht|].
  intros x g1 g2 Hs Hp. pose proof (Hr _ _ _ Hp) as Hs2. apply lwp_from; [by etrans|]. by eapply Hk.
Qed.

Lemma lwp_bystander {R} (p : go R) g :
  only bystander p -> returns p -> lwp p (fun _ _ => True) g.
Proof.
  intros Ho Hr. eapply cwp_mono; [|apply (nwp_bystander p (settles g)); [| |done|done|done]].
  - intros a mine g' [-> Hs]. done.
  - intros g1 g2 H1 H2. by etrans.
  - intros g1 g2 H1 H2%locked_rely. by etrans.
Qed.

(** Loops under the mutex. *)
Lemma lwp_for_each {A S} (LInv : list A -> S -> node -> Prop) (l : list A) s
    (body : A -> S -> go S) (P : S -> node -> Prop) g :
  LInv l s g ->
  (forall todo s' g1 g2, LInv todo s' g1 -> settles g1 g2 -> LInv todo s' g2) ->
  (forall x todo s' g', LInv (x :: todo) s' g' ->
     lwp (body x s') (fun s'' g'' => LInv todo s'' g'') g') ->
  (forall s' g', LInv [] s' g' -> P s' g') ->
  lwp (for_each l s body) P g.
Proof.
  intros HI Hst Hbody Hdone.
  apply (cwp_for_each _ _ _ _ node_rely_refl (fun todo s' g' => settles g g' /\ LInv todo s' g')).
  - done.
  - intros x todo s' g' [Hs Hl]. eapply cwp_mono; [|by apply Hbody].
    intros s'' mine g'' (-> & Hs' & Hl'). split_and!; [done|by etrans|done].
  - intros s' g' [Hs Hl]. apply cwp_ret. intros g1 Hr%locked_rely _.
    split_and!; [done|by etrans|]. apply Hdone. by eapply Hst.
Qed.

(** *** The search *)

Definition whole_disk (e : string) : Prop := Contains e "-part" = false /\ by_path e = true.

(** Whole disks outside the snapshot are not mounted. *)
Definition covered (existing : gmap string string) (g : node) : Prop :=
  forall e dev, links g !! e = Some dev -> whole_disk e -> is_Some (existing !! e) \/ free g dev.

Lemma covered_settles existing g g' : covered existing g -> settles g g' -> covered existing g'.
Proof.
  intros Hc Hs e dev He Hp. destruct (proj2 (proj2 Hs) e dev He) as [He'|]; [|by right].
  destruct (Hc e dev He' Hp) as [|Hn]; [by left|right]. by eapply settles_free.
Qed.

Lemma lwp_snapshot entries g :
  (forall e dev, links g !! e = Some dev -> by_path e = true -> e ∈ entries \/ free g dev) ->
  lwp (snapshot entries) covered g.
Proof.
  intros Hall. set (Inv := fun (todo : list string) (existing : gmap string string) g => forall e dev,
    links g !! e = Some dev -> whole_disk e -> e ∈ todo \/ is_Some (existing !! e) \/ free g dev).
  assert (Hstab : forall todo existing g1 g2,
    Inv todo existing g1 -> settles g1 g2 -> Inv todo existing g2).
  { intros todo existing g1 g2 HI Hs e dev He Hp.
    destruct (proj2 (proj2 Hs) e dev He) as [He'|]; [|by auto].
    destruct (HI e dev He' Hp) as [|[|Hn]]; [by auto..|]. right; right. by eapply settles_free. }
  apply (lwp_for_each Inv); [|exact Hstab|..].
  - intros e dev He [_ Hb]. destruct (Hall e dev He Hb); auto.
  - intros entry todo existing g1 HI. destruct (Contains entry "-part") eqn:Ep.
    { apply lwp_ret. intros g2 Hs. eapply Hstab; [|exact Hs]. intros e dev He Hp.
      destruct (HI e dev He Hp) as [[->|]%elem_of_cons|]; [destruct Hp; congruence|by auto..]. }
    apply lwp_read; [done|]. intros x g2 g3 Hs2 Hx Hs3.
    pose proof (Hstab _ _ _ _ (Hstab _ _ _ _ HI Hs2) Hs3) as HI3. clear HI.
    destruct x as [d|err]; apply lwp_ret; intros g4 Hs4; (eapply Hstab; [|exact Hs4]);
      intros e dev He Hp; cbn in Hx;
      destruct (HI3 e dev He Hp) as [[->|]%elem_of_cons|[Hk|]]; try by auto.
    + right; left. rewrite lookup_insert_eq. by eexists.
    + right; left. destruct (decide (e = entry)) as [->|Hne]; [rewrite lookup_insert_eq; by eexists|].
      by rewrite lookup_insert_ne.
    + right; right. intros _. subst g3. cbn in He |- *. unfold led_to. rewrite He. set_solver.
  - intros existing g1 HI e dev He Hp. destruct (HI e dev He Hp) as [[]%not_elem_of_nil|]; auto.
Qed.

Lemma lwp_mounted_devices mps g :
  (forall dev, busy g dev -> dev ∈ overlooked g \/ exists mp, mp ∈ mps /\ mp_Device mp = dev) ->
  lwp (mounted_devices mps) (fun mounted g' => forall dev, (dev ∉ mounted) -> free g' dev) g.
Proof.
  intros Hall. set (Inv := fun (todo : list MountPoint) (mounted : gset string) g => forall dev,
    busy g dev -> dev ∈ overlooked g \/ dev ∈ mounted \/ exists mp, mp ∈ todo /\ mp_Device mp = dev).
  assert (Hstab : forall todo mounted g1 g2, Inv todo mounted g1 -> settles g1 g2 -> Inv todo mounted g2).
  { intros todo mounted g1 g2 HI (Hb & Ho & _) dev Hd. destruct (HI dev (Hb dev Hd)); auto. }
  apply (lwp_for_each Inv); [|exact Hstab|..].
  - intros dev Hb. destruct (Hall dev Hb); auto.
  - intros mp todo mounted g1 HI. apply lwp_read; [done|]. intros x g2 g3 Hs2 _ Hs3. cbv zeta.
    apply lwp_ret. intros g4 Hs4. eapply Hstab; [|etrans; [exact Hs2|]; by etrans].
    intros dev Hb. destruct (HI dev Hb) as [|[Hin|(mp' & [->|Hin]%elem_of_cons & Hd)]]; [by auto|..].
    + right; left. destruct x; set_solver.
    + right; left. rewrite <- Hd. set_solver.
    + right; right. by exists mp'.
  - intros mounted g1 HI dev Hn Hb.
    destruct (HI dev Hb) as [|[|(mp & []%not_elem_of_nil & _)]]; done.
Qed.

(** Links of whole disks that the snapshot does not have. *)
Definition unknown (existing : gmap string string) (e : string) : Prop :=
  existing !! e = None /\ whole_disk e.

Lemma lwp_new_devices existing entries g :
  Forall (fun e => by_path e = true) entries ->
  lwp (new_devices existing entries) (fun found _ => Forall (unknown existing) found) g.
Proof.
  intros Hent. apply (lwp_for_each (fun todo found _ =>
    Forall (fun e => by_path e = true) todo /\ Forall (unknown existing) found)); [done|done| |by intros ?? []].
  intros entry todo found g1 [[He Htodo]%Forall_cons Hf].
  destruct (Contains entry "-part") eqn:Ep; [by apply lwp_ret|].
  destruct (existing !! entry) eqn:Ee; [by apply lwp_ret|].
  apply lwp_read; [done|]. intros x _ g2 _ _ _. destruct x as [dev|err]; [|by apply lwp_ret].
  apply lwp_read; [done|]. intros st _ g3 _ _ _. destruct st as [[]| |]; [|by apply lwp_ret..].
  destruct (HasSuffix dev "/vda"); apply lwp_ret; [done|]. intros g4 _. split; [done|].
  apply Forall_app. split; [done|]. by apply Forall_singleton.
Qed.

(** A device that may be touched; the empty path is no device. *)
Definition free_device (dev : string) (g : node) : Prop := dev = "" \/ free g dev.

Lemma free_device_settles dev g g' : free_device dev g -> settles g g' -> free_device dev g'.
Proof. intros [->|Hn] Hs; [by left|right]. by eapply settles_free. Qed.

Lemma lwp_resolve existing entry g :
  covered existing g -> unknown existing entry -> lwp (resolve entry) free_device g.
Proof.
  intros Hc [He Hp]. unfold resolve. apply lwp_read; [done|]. intros x g1 g1' Hs Hx _.
  destruct x as [dev|err]; apply lwp_ret; [|by left]. destruct Hx as (-> & _ & Hx). intros g2 Hs2.
  eapply free_device_settles; [|exact Hs2]. right.
  destruct (covered_settles _ _ _ Hc Hs entry dev (Hx (proj2 Hp)) Hp) as [[d Hd]|]; [congruence|done].
Qed.

Definition found_device (r : result string) (g : node) : Prop :=
  forall dev, r = Ok dev -> free_device dev g.

Lemma only_resolve path : only bystander (resolve path).
Proof. unfold resolve, os. only_os. Qed.
#[export] Hint Resolve only_resolve : only.

Lemma returns_resolve path : returns (resolve path).
Proof. unfold resolve, os. quiet_go. Qed.

Lemma lwp_wait_new_device channel existing g :
  covered existing g -> lwp (wait_new_device channel existing) found_device g.
Proof.
  intros Hc. unfold wait_new_device.
  eapply (lwp_seq _ _ (fun r g' => forall dev, r = inr (Ok dev) -> free_device dev g')).
  2:{ intros r g' Hs Hr. apply lwp_from; [done|]. destruct r as [[]|r]; apply lwp_ret; [done|].
      intros g2 Hs2 dev ->. eapply free_device_settles; [by apply Hr|done]. }
  apply (cwp_for_range _ _ _ _ node_rely_refl (fun _ _ g' => settles g g' /\ covered existing g'));
    [done| |].
  2:{ intros [] g' [Hs _]. apply lwp_from; [done|]. by apply lwp_ret. }
  intros attempt todo [] g1 [Hs1 Hc1].
  assert (Hnext : forall g2, settles g1 g2 -> nwp (Ret (Next tt)) (fun c mine g'' =>
      mine = locked /\ match c with
      | Next s'' => settles g g'' /\ covered existing g''
      | Break s'' => nwp (Ret (inl s'')) (fun a mine g' => mine = locked /\ settles g g' /\
          forall dev, a = inr (Ok dev) -> free_device dev g') locked g''
      | Return r => nwp (Ret (inr r)) (fun a mine g' => mine = locked /\ settles g g' /\
          forall dev, a = @inr unit (result string) (Ok dev) -> free_device dev g') locked g''
      end) locked g2).
  { intros g2 Hs2. apply cwp_ret. intros g3 H3%locked_rely _.
    assert (settles g1 g3) by (by etrans). split_and!; [done|by etrans|by eapply covered_settles]. }
  apply nwp_os; [done|]. intros x g2 g2' Hs2 Hx. destruct x as [entries|err].
  2:{ apply nwp_os; [done|]. intros y g4 g4' Hs4 ->. apply Hnext. cbn in Hx. subst g2'.
      etrans; [exact Hs2|]. etrans; [apply overlook_settles|done]. }
  destruct Hx as [-> Hx]. destruct (Hx eq_refl) as [Hent _].
  eapply lwp_seq; [by apply lwp_new_devices|]. intros found g3 Hs3 Hf.
  assert (Hs13 : settles g1 g3) by (by etrans).
  assert (Hc3 : covered existing g3) by (by eapply covered_settles).
  assert (Hs03 : settles g g3) by (by etrans).
  destruct found as [|entry [|entry2 rest]].
  - case_decide; [|by apply Hnext]. apply nwp_os; [done|]. intros y g4 g4' Hs4 ->.
    apply Hnext. by etrans.
  - apply Forall_inv in Hf. eapply lwp_seq; [by eapply lwp_resolve|]. intros dev g4 Hs4 Hd.
    apply cwp_ret. intros g5 H5%locked_rely _. split; [done|].
    assert (Hs05 : settles g g5) by (etrans; [exact Hs03|]; by etrans).
    apply lwp_from; [done|]. apply lwp_ret. intros g6 H6 dev' [= <-].
    eapply free_device_settles; [|exact H6]. by eapply free_device_settles.
  - eapply lwp_seq.
    { apply (lwp_bystander (for_each (entry :: entry2 :: rest) [] _)).
      - apply only_for_each. intros e l. only_os.
      - pose proof returns_resolve. quiet_go. }
    intros l g4 Hs4 _. apply cwp_ret. intros g5 H5%locked_rely _. split; [done|].
    assert (Hs05 : settles g g5) by (etrans; [exact Hs03|]; by etrans).
    apply lwp_from; [done|]. by apply lwp_ret.
Qed.

Lemma lwp_newest candidates g :
  lwp (newest candidates) (fun r _ => forall dev, r = Some dev ->
    exists entry, (entry, dev) ∈ candidates) g.
Proof.
  unfold newest. eapply (lwp_seq _ _ (fun (best : option string * Z) _ => forall dev,
    best.1 = Some dev -> exists entry, (entry, dev) ∈ candidates)).
  2:{ intros best g' Hs Hb. apply lwp_from; [done|]. by apply lwp_ret. }
  apply (lwp_for_each (fun todo (best : option string * Z) _ => todo ⊆ candidates /\ forall dev,
    best.1 = Some dev -> exists entry, (entry, dev) ∈ candidates)); [done|done| |by intros ?? []].
  intros [entry dev] todo best g1 [Hsub Hb].
  assert (Htodo : todo ⊆ candidates) by set_solver. apply lwp_read; [done|].
  intros x _ g2 _ _ _. destruct x as [t|err]; [case_decide|]; apply lwp_ret; intros g3 _;
    (split; [done|]); [|done..].
  intros ? [= <-]. exists entry. set_solver.
Qed.

(** The entries of a map, in some order. *)
Lemma lwp_range_map (m : gmap string string) g : lwp (range_map m) (fun _ _ => True) g.
Proof. apply lwp_bystander; unfold range_map, golang; [only_os|quiet_go]. Qed.

Lemma lwp_findDeviceByPath ctx g : lwp (findDeviceByPath ctx) found_device g.
Proof.
  unfold findDeviceByPath. cbv zeta. case_decide; [by apply lwp_ret|].
  apply lwp_read; [done|]. intros x g0 g1 Hs0 Hx Hs1.
  eapply lwp_seq.
  { apply lwp_snapshot. destruct x as [entries|err]; cbn in Hx.
    - destruct Hx as [-> Hx]. destruct (Hx eq_refl) as [_ Hall].
      intros e dev He Hb. left. apply Hall; [by eexists|done].
    - subst g1. intros e dev _ _. right. apply free_overlooked. }
  intros existing g2 Hs2 Hc2. apply lwp_from; [done|].
  apply lwp_read; [done|]. intros m g3' g3 Hs3' Hm3 Hs3''.
  assert (Hs3 : settles g2 g3) by (by etrans).
  eapply lwp_seq; [apply lwp_mounted_devices|].
  { destruct m as [mps|err]; cbn in Hm3.
    - destruct Hm3 as [-> ->]. intros dev (mp & Hmp & Hd). right. by exists mp.
    - subst g3. intros dev Hb. left. by apply (free_overlooked g3'). }
  intros mounted g4 Hs4 Hm. apply lwp_from; [done|]. unfold range_map.
  eapply lwp_seq; [apply (lwp_range_map existing)|]. intros devices g5 Hs5 Hdev.
  assert (Hc5 : covered existing g5) by (eapply covered_settles; [exact Hc2|]; etrans; [exact Hs3|by etrans]).
  assert (Hm5 : forall dev, (dev ∉ mounted) -> free g5 dev)
    by (intros dev Hb; eapply settles_free; [exact Hs5|by apply Hm]).
  apply lwp_from; [exact Hs5|]. clear Hm.
  set (candidates := filter (fun pr => candidate mounted pr = true) devices).
  assert (Hcand : forall entry dev g', (entry, dev) ∈ candidates -> settles g5 g' -> free_device dev g').
  { intros entry dev g' [Hcand _]%list_elem_of_filter Hs. right.
    apply andb_true_iff in Hcand as [_ Hn%bool_decide_eq_true].
    eapply settles_free; [exact Hs|by apply Hm5]. }
  destruct candidates as [|[entry dev] [|pr2 rest]].
  - by apply lwp_wait_new_device.
  - apply lwp_ret. intros g' Hs ? [= <-]. eapply (Hcand entry); [constructor|done].
  - eapply lwp_seq; [apply lwp_newest|]. intros [best|] g6 Hs6 Hb.
    + apply lwp_from; [done|]. apply lwp_ret. intros g7 Hs7 ? [= <-].
      destruct (Hb _ eq_refl) as [e He]. eapply Hcand; [exact He|by etrans].
    + apply lwp_from; [done|]. apply lwp_wait_new_device. by eapply covered_settles.
Qed.

(** *** Format and mount *)

(** With the mutex held until the end, whatever is mounted. *)
Abbreviation mwp p g := (nwp p (fun _ mine _ => mine = locked) locked g).

Lemma mwp_ret {R} (a : R) g : mwp (Ret a) g.
Proof. by apply cwp_ret. Qed.

Lemma mwp_bystander {A R} (p : go A) (f : A -> go R) (Q : R -> gset string -> node -> Prop) g :
  only bystander p -> returns p ->
  (forall a g', settles g g' -> nwp (f a) Q locked g') -> nwp (let* x := p in f x) Q locked g.
Proof. intros Ho Hr Hf. eapply lwp_seq; [by apply lwp_bystander|]. intros a g' Hs _. by apply Hf. Qed.

Lemma mwp_format dev fs g :
  free g dev -> lwp (formatDevice dev fs) (fun _ _ => True) g.
Proof.
  intros Hfree. unfold formatDevice, run_tool.
  assert (Hrun : forall argv, last argv = Some dev ->
    lwp (let* '(output, err) := os (Run argv) in
         match err with
         | Some err => Ret (Some (ErrNew ("format" +:+ " failed: " +:+ Error err +:+ ", output: " +:+ output)))
         | None => Ret None
         end) (fun _ _ => True) g).
  { intros argv Hlast. apply nwp_os.
    - intros d g1 Hs. cbn. destruct (is_mkfs argv); [|done]. rewrite Hlast. intros [= <-].
      by eapply settles_free.
    - intros [output [err|]] g1 g2 Hs ->; (apply lwp_from; [done|]); by apply lwp_ret. }
  repeat (case_decide; [by apply Hrun|]). by apply lwp_ret.
Qed.

Lemma mwp_format_and_mount dev path fs flags g :
  free g dev -> fs <> "" -> mwp (format_and_mount dev path fs flags) g.
Proof.
  intros Hfree Hfs. unfold format_and_mount.
  apply mwp_bystander; [unfold isFormatted, os; only_os|unfold isFormatted, os; quiet_go|].
  intros [formatted|err] g1 Hs1; [|apply mwp_ret].
  pose proof (settles_free _ _ _ Hs1 Hfree) as Hfree1.
  eapply (lwp_seq _ _ (fun _ _ => True)).
  { destruct formatted; [by apply lwp_ret|by apply mwp_format]. }
  intros [err|] g2 Hs2 _; [apply mwp_ret|]. apply nwp_os.
  - intros d g3 Hs3. cbn. rewrite decide_False by done. intros [= <-].
    eapply settles_free; [|exact Hfree1]. by etrans.
  - intros x g3 g4 _ _. destruct x; apply mwp_ret.
Qed.

Lemma mwp_stage_locked path cap ctx g : mwp (stage_locked path cap ctx) g.
Proof.
  unfold stage_locked. eapply lwp_seq; [apply lwp_findDeviceByPath|].
  intros [dev|err] g1 _ Hd; [|apply mwp_ret]. specialize (Hd dev eq_refl).
  apply nwp_os; [done|]. intros st g2 g2' Hs2 [-> Hst].
  destruct (decide (dev = "")) as [->|Hne]; [rewrite (Hst eq_refl); apply mwp_ret|].
  assert (Hfree : free g2 dev) by (destruct (free_device_settles _ _ _ Hd Hs2); done).
  assert (Hstage : mwp (stage_device dev path cap) g2); [|by destruct st; [|apply mwp_ret|]].
  unfold stage_device. destruct (GetBlock cap); [apply mwp_ret|].
  destruct (GetMount cap) as [[fs flags]|]; [|apply mwp_ret]. cbv zeta.
  apply nwp_os; [done|]. intros mk g3 g3' Hs3 ->. destruct mk as [u|err]; [|apply mwp_ret].
  apply mwp_bystander; [apply only_isMounted|unfold isMounted, os; quiet_go|].
  intros [[]|err] g4 Hs4; [apply mwp_ret| |apply mwp_ret]. apply mwp_format_and_mount.
  - eapply settles_free; [|exact Hfree]. by etrans.
  - by case_decide.
Qed.

Abbreviation serves p g := (nwp p (fun _ mine _ => mine = ∅) ∅ g).

Lemma serves_bystander {A R} (p : go A) (f : A -> R) g :
  only bystander p -> returns p -> serves (let* r := p in Ret (f r)) g.
Proof.
  intros Ho Hr. apply cwp_bind; [apply node_rely_refl|].
  eapply cwp_mono; [|apply (nwp_bystander p (fun _ => True)); done].
  intros a mine g' [-> _]. by apply cwp_ret.
Qed.

Lemma serves_stage req g : serves (NodeStageVolume req) g.
Proof.
  unfold NodeStageVolume. do 2 (case_decide; [by apply cwp_ret|]).
  destruct (ns_VolumeCapability req) as [cap|]; [|by apply cwp_ret].
  apply cwp_lock. intros g1 _ _. apply cwp_bind; [apply node_rely_refl|].
  eapply cwp_mono; [|apply mwp_stage_locked]. intros r mine g2 ->.
  apply cwp_unlock; [set_solver|]. intros g3 _ _. rewrite difference_diag_L. by apply cwp_ret.
Qed.

Lemma serves_node req g : serves (serve_node req) g.
Proof.
  destruct req; cbn [serve_node].
  - apply cwp_bind; [apply node_rely_refl|]. eapply cwp_mono; [|apply serves_stage].
    intros r mine g' ->. by apply cwp_ret.
  - apply serves_bystander; [apply only_unstage|].
    unfold NodeUnstageVolume, unmount_if_mounted, isMounted, os. quiet_go.
  - apply serves_bystander; [apply only_publish|].
    unfold NodePublishVolume, publish_block, publish_mount, isMounted, os. cbv zeta. quiet_go.
  - apply serves_bystander; [apply only_unpublish|].
    unfold NodeUnpublishVolume, unmount_if_mounted, isMounted, os. quiet_go.
  - apply serves_bystander; [apply only_expand|].
    unfold NodeExpandVolume, getDeviceFromMountPoint, resizeFilesystem, run_tool, os. cbv zeta. quiet_go.
Qed.

(** ** Properties *)

(** C8. Requests to the node service may overlap in any way, with disks coming and
    going, and every call may fail: a device that is formatted, or mounted with a file
    system, is not mounted at that moment, unless a reading failed while it was
    mounted (of the mount table, of the links to the disks, or of the link that leads
    to it), which the service passes over ([unreadable_mount_table]).  So two volumes
    are never staged on one device and a device in use is never formatted, as long as
    the readings succeed; the mount table is to name devices by their path. *)
Theorem staging_exclusive {W} (h : handler Eff W) `{!NodeState h, !NodeOs h} reqs w c i X
    (e : Eff X) k dev
    (Hsteps : rtc (pool_step h) (node_pool reqs w) c)
    (Hnext : threads c !! i = Some (Call e k)) (Htouched : touched e = Some dev) :
  busy (node_state h (world c)) dev -> dev ∈ overlooked (node_state h (world c)).
Proof.
  destruct (pool_sound nodeI (fun _ => True) node_rely node_guar
    node_rely_refl node_rely_trans node_guar_rely h (fun w g => node_state h w = g)
    (fun _ _ mine _ => mine = ∅) (serve_node <$> reqs) w (node_state h w) c)
    as (mines & g & Hok); [apply node_laws|done|done| |exact Hsteps|].
  - intros j p Hj. apply list_lookup_fmap_Some in Hj as (req & -> & _). apply serves_node.
  - destruct Hok as ([Hlen _] & _ & <- & _ & _ & Hcwp).
    destruct (lookup_lt_is_Some_2 mines i) as [mine Hmine].
    { rewrite Hlen. by eapply lookup_lt_Some. }
    specialize (Hcwp i _ mine Hnext Hmine _ (node_rely_refl _ _) I).
    assert (Hm : mutex_call e = None) by (by destruct e).
    cbn in Hcwp. rewrite Hm in Hcwp. by apply Hcwp.
Qed.

Definition no_mutex (X : Type) (e : Eff X) : Prop := mutex_call e = None.

Lemma only_stage_locked path cap ctx : only no_mutex (stage_locked path cap ctx).
Proof.
  unfold stage_locked, findDeviceByPath, wait_new_device, new_devices, resolve, snapshot,
    mounted_devices, newest, stage_device, format_and_mount, formatDevice, run_tool, isFormatted,
    isMounted, range_map, os, golang. cbv zeta. only_os.
Qed.

Lemma returns_stage_locked path cap ctx : returns (stage_locked path cap ctx).
Proof.
  unfold stage_locked. apply (quiet_bind _ _ _ (fun _ => True)).
  { eapply quiet_returns, quiet_findDevice. }
  intros r _. unfold stage_device, format_and_mount, formatDevice, run_tool, isFormatted, isMounted, os.
  cbv zeta. quiet_go.
Qed.

Lemma answers_node req : answers (serve_node req).
Proof.
  destruct req; apply answers_map.
  - unfold NodeStageVolume. do 2 (case_decide; [by apply answers_quiet, quiet_ret|]).
    destruct (ns_VolumeCapability req) as [cap|]; [|by apply answers_quiet, quiet_ret].
    apply answers_locked; [|intros r; by apply cwp_ret].
    apply (only_quiet no_mutex _ blind); [|apply only_stage_locked|apply returns_stage_locked].
    intros Y e x Hm. unfold mutex_view. by rewrite Hm.
  - apply answers_quiet. unfold NodeUnstageVolume, unmount_if_mounted, isMounted, os. quiet_go.
  - apply answers_quiet.
    unfold NodePublishVolume, publish_block, publish_mount, isMounted, os. cbv zeta. quiet_go.
  - apply answers_quiet. unfold NodeUnpublishVolume, unmount_if_mounted, isMounted, os. quiet_go.
  - apply answers_quiet.
    unfold NodeExpandVolume, getDeviceFromMountPoint, resizeFilesystem, run_tool, os. cbv zeta. quiet_go.
Qed.

(** Every request to the node service is answered, however the requests overlap
    and whatever the operating system answers. *)
Theorem node_requests_answered {W} (h : handler Eff W) reqs w : all_answered h (node_pool reqs w).
Proof.
  apply pool_answered. intros i p Hi. apply list_lookup_fmap_Some in Hi as (req & -> & _).
  apply answers_node.
Qed.

(** ** A concrete node

    Disks are blank, every call succeeds, and [flaky] many readings of the mount
    table fail first. *)

Definition bind_source (l : list MountPoint) (src : string) : option MountPoint :=
  find (fun mp => bool_decide (mp_Path mp = src)) l.

Definition sim_node_os {X} (e : OsE X) (g : node) : X * node :=
  match e in OsE Y return Y * node with
  | Stat path => (if decide (path = "") then StatNotExist else StatOk (HasPrefix path "/dev/"), g)
  | Lstat _ => (Ok 1%Z, g)
  | EvalSymlinks path =>
      match links g !! path with
      | Some dev => (Ok dev, g)
      | None => if by_path path
                then (Err (ErrNew "no such file or directory"), overlook (led_to g path) g)
                else (Ok path, g)
      end
  | Glob _ => (Ok (filter (fun e => by_path e = true) (map_to_list (links g)).*1), g)
  | MkdirAll _ => (Ok tt, g)
  | RemoveAll _ => (Ok tt, g)
  | MountList => (Ok (mounts g), g)
  | Mount src tgt fs _ =>
      if decide (fs = "") then
        match bind_source (mounts g) src with
        | Some mp => (Ok tt, with_mounts g (mounts g ++ [{| mp_Device := mp_Device mp; mp_Path := tgt |}]))
        | None => (Err (ErrNew "no such file or directory"), g)
        end
      else (Ok tt, with_mounts g (mounts g ++ [{| mp_Device := src; mp_Path := tgt |}]))
  | Unmount tgt => (Ok tt, with_mounts g (unmounted tgt (mounts g)))
  | Blkid _ => (BlkidExit 2 (ErrNew "exit status 2"), g)
  | Run _ => (("", None), g)
  | e => (deaf_os e, g)
  end.

Definition sim_node : handler Eff node := fun X e g =>
  match e with EOs oe => sim_node_os oe g | e => (deaf e, g) end.

#[global] Instance sim_node_state : NodeState sim_node := fun g => g.

Lemma hotplug_refl g : hotplug g g.
Proof. by split_and!; auto. Qed.

Lemma sim_node_os_post {X} (e : OsE X) g :
  node_post e g (sim_node_os e g).1 (sim_node_os e g).2.
Proof.
  destruct e; cbn; try done.
  - split; [done|]. by intros ->.
  - destruct (links g !! path) as [dev|]; cbn; [done|].
    by destruct (by_path path).
  - split; [done|]. intros _. split.
    + apply Forall_forall. by intros e [He _]%list_elem_of_filter.
    + intros e [dev He] Hb. apply list_elem_of_filter. split; [done|].
      apply list_elem_of_fmap. exists (e, dev). split; [done|by apply elem_of_map_to_list].
  - case_decide; [|cbn; by eexists]. unfold bind_source. destruct (find _ _) as [mp|] eqn:E; [|done].
    cbn. eexists. split; [done|]. apply find_some in E as [Hin _]. exists mp.
    by rewrite list_elem_of_In.
Qed.

#[global] Instance sim_node_laws : NodeOs sim_node.
Proof.
  intros X e w g HR _. unfold node_state, sim_node_state in *. subst w.
  destruct e as [cl ce|he|ke|oe|te|ge|pe|se]; cbn; try (exists g; by split; [apply hotplug_refl|]).
  eexists. split; [|reflexivity]. exists g. split; [apply hotplug_refl|]. apply sim_node_os_post.
Qed.

(** Two new disks besides the boot disk. *)
Definition wit_node : node :=
  {| mounts := [{| mp_Device := "/dev/vda"; mp_Path := "/" |}];
     links := <["/dev/disk/by-path/virtio-pci-1" := "/dev/vdb"]>
              (<["/dev/disk/by-path/virtio-pci-2" := "/dev/vdc"]>
               {["/dev/disk/by-path/virtio-pci-0" := "/dev/vda"]});
     overlooked := ∅ |}.

Definition stage (vol : string) : node_request :=
  StageReq {| ns_VolumeId := vol; ns_StagingTargetPath := "/staging/" +:+ vol;
              ns_VolumeCapability := Some mount_cap; ns_PublishContext := publish_context vol "0:2" |}.

Definition alternate (n : nat) : list nat := flat_map (fun _ => [0; 1]%nat) (seq 0 n).

Definition two_stagings (n : nat) : pool node node_reply :=
  run_schedule sim_node (alternate n) (node_pool [stage "vol-1"; stage "vol-2"] wit_node).

(** Two stagings that alternate: each volume gets a disk of its own. *)
Example stagings_get_own_disks :
  all_returned (two_stagings 60) = true /\
  mounts (world (two_stagings 60)) =
    [{| mp_Device := "/dev/vda"; mp_Path := "/" |};
     {| mp_Device := "/dev/vdb"; mp_Path := "/staging/vol-1" |};
     {| mp_Device := "/dev/vdc"; mp_Path := "/staging/vol-2" |}].
Proof. by vm_compute. Qed.

Definition staged_node : node :=
  with_mounts wit_node (mounts wit_node ++ [{| mp_Device := "/dev/vdb"; mp_Path := "/staging/vol-1" |}]).

Definition publish_vol1 : node_request :=
  PublishReq {| np_VolumeId := "vol-1"; np_TargetPath := "/pods/p";
                np_StagingTargetPath := "/staging/vol-1"; np_VolumeCapability := Some mount_cap;
                np_PublishContext := ∅; np_Readonly := false |}.

(** Publishing takes no mutex.  A request and its repetition both find the target
    free and mount it; unpublishing then takes one of the mounts away, and removes
    what is below the target while the volume is still mounted there. *)
Definition published_twice : pool node node_reply :=
  run_schedule sim_node (alternate 12) (node_pool [publish_vol1; publish_vol1] staged_node).

Definition unpublished : outcome (option error) * node :=
  run sim_node (NodeUnpublishVolume "vol-1" "/pods/p") (world published_twice).

Definition removed_while_mounted : view Eff string := fun X e _ =>
  match e with EOs (RemoveAll path) => [path] | _ => [] end.

Example overlapping_publish_exposes_volume :
  threads published_twice = [Ret (NodeDone None); Ret (NodeDone None)] /\
  unpublished.1 = Done None /\ mounted_at "/pods/p" (mounts unpublished.2) = true /\
  observe removed_while_mounted sim_node (NodeUnpublishVolume "vol-1" "/pods/p") (world published_twice)
    = (Done None, ["/pods/p"]).
Proof. by vm_compute. Qed.

(** A mount table that cannot be read counts as empty: when the reading at the
    start of the search fails, a disk that is mounted is taken for a free one. *)
Definition sim_flaky : handler Eff (node * nat) := fun X e '(g, flaky) =>
  match e in Eff _ return X * (node * nat) with
  | EOs oe =>
      match oe in OsE Y, flaky return Y * (node * nat) with
      | MountList, S n => (Err unavailable, (overlook (busy_devices g) g, n))
      | oe, n => ((sim_node_os oe g).1, ((sim_node_os oe g).2, n))
      end
  | e => (deaf e, (g, flaky))
  end.

#[global] Instance sim_flaky_state : NodeState sim_flaky := fst.

#[global] Instance sim_flaky_laws : NodeOs sim_flaky.
Proof.
  intros X e [g flaky] g' HR _. unfold node_state, sim_flaky_state in *. cbn in HR. subst g'.
  destruct e as [cl ce|he|ke|oe|te|ge|pe|se]; cbn; try (exists g; by split; [apply hotplug_refl|]).
  eexists. split; [|reflexivity]. exists g. split; [apply hotplug_refl|].
  assert (Hs : node_post se g (sim_node_os se g).1 (sim_node_os se g).2) by apply sim_node_os_post.
  by destruct se, flaky.
Qed.

Definition one_disk : node :=
  {| mounts := [{| mp_Device := "/dev/vda"; mp_Path := "/" |};
                {| mp_Device := "/dev/vdb"; mp_Path := "/staging/vol-1" |}];
     links := <["/dev/disk/by-path/virtio-pci-1" := "/dev/vdb"]>
              {["/dev/disk/by-path/virtio-pci-0" := "/dev/vda"]};
     overlooked := ∅ |}.

Example unreadable_mount_table :
  let '(o, (g, _)) := run sim_flaky (serve_node (stage "vol-2")) (one_disk, 1%nat) in
  o = Done (NodeDone None) /\
  mounts g = mounts one_disk ++ [{| mp_Device := "/dev/vdb"; mp_Path := "/staging/vol-2" |}] /\
  overlooked g = {["/dev/vda"; "/dev/vdb"]}.
Proof. by vm_compute. Qed.

(** ** Witness *)

(** The goroutine that is about to mount. *)
Definition next_touches (c : pool node node_reply) (i : nat) : option string :=
  match (threads c !! i : option (go node_reply)) with
  | Some (Call e k) => touched e
  | _ => None
  end.

Lemma next_touches_Some c i dev :
  next_touches c i = Some dev ->
  exists X (e : Eff X) k, threads c !! i = Some (Call e k) /\ touched e = Some dev.
Proof.
  unfold next_touches. intros H. destruct (threads c !! i) as [[a|why|X e k]|]; [done..| |done].
  by exists X, e, k.
Qed.

Lemma two_stagings_steps n :
  rtc (pool_step sim_node) (node_pool [stage "vol-1"; stage "vol-2"] wit_node) (two_stagings n).
Proof. apply run_schedule_steps. Qed.

Lemma staging_exclusive_witness :
  ~ busy (node_state sim_node (world (two_stagings 15))) "/dev/vdb".
Proof.
  assert (Hn : next_touches (two_stagings 15) 0 = Some "/dev/vdb") by (by vm_compute).
  destruct (next_touches_Some _ _ _ Hn) as (X & e & k & E & Ht). intros Hb.
  pose proof (staging_exclusive sim_node _ wit_node _ 0 X e k "/dev/vdb" (two_stagings_steps 15) E Ht Hb)
    as Ho.
  assert (Hno : bool_decide ("/dev/vdb" ∈ overlooked (node_state sim_node (world (two_stagings 15)))) = false)
    by (by vm_compute).
  exact (bool_decide_eq_false_1 _ Hno Ho).
Defined.
