(* ===== verification/Flags.v ===== *)
(** * Command lines

    The part of Go's package [flag] the binaries of the provider use: string and
    boolean flags with defaults, the forms [-name value], [-name=value], [-name]
    for booleans and the same with two dashes, and the end of the flags at the
    first other argument or at [--].  Flags that a library registers (zap for the
    controller manager, klog for the CSI binaries) are known by name and kind
    only; whether one accepts a value is a parameter. *)

From S2P Require Import Prelude.

Inductive flag_value := VStr (s : string) | VBool (b : bool).

(** The flags of a program with their current values. *)
Abbreviation flags := (gmap string flag_value).

(** The flags of the libraries: whether they are boolean, and the values they
    accept. *)
Record library_flags := {
  lf_boolean : gmap string bool;
  lf_accepts : string -> string -> bool
}.

(** No library registers flags. *)
Definition no_library : library_flags := {| lf_boolean := ∅; lf_accepts := fun _ _ => false |}.

(** [strconv.ParseBool] *)
Definition ParseBool (s : string) : option bool :=
  if decide (s ∈ ["1"; "t"; "T"; "TRUE"; "true"; "True"]) then Some true
  else if decide (s ∈ ["0"; "f"; "F"; "FALSE"; "false"; "False"]) then Some false
  else None.

Definition is_boolean (lib : library_flags) (fs : flags) (name : string) : option bool :=
  match fs !! name with
  | Some (VStr _) => Some false
  | Some (VBool _) => Some true
  | None => lf_boolean lib !! name
  end.

(** [value.Set], which fails on a value the flag does not accept. *)
Definition set_flag (lib : library_flags) (fs : flags) (name value : string) : option flags :=
  match fs !! name with
  | Some (VStr _) => Some (<[name := VStr value]> fs)
  | Some (VBool _) => (fun b => <[name := VBool b]> fs) <$> ParseBool value
  | None => if lf_accepts lib name value then Some fs else None
  end.

(** One argument: not a flag, the end of the flags, a malformed flag, or the name
    and the value after the equals sign. *)
Inductive argument := NoFlag | EndOfFlags | BadSyntax | Flag (name : string) (value : option string).

Definition flag_syntax (body : string) : argument :=
  match body with
  | EmptyString => BadSyntax
  | String c _ =>
      if decide (c = "-"%char \/ c = "="%char) then BadSyntax
      else let '(name, value) := SplitN2 body "="%char in Flag name value
  end.

Definition read_argument (s : string) : argument :=
  match s with
  | String c1 (String c2 rest) =>
      if decide (c1 = "-"%char) then
        if decide (c2 = "-"%char) then
          if decide (rest = "") then EndOfFlags else flag_syntax rest
        else flag_syntax (String c2 rest)
      else NoFlag
  | _ => NoFlag
  end.

(** The outcome: the values, the usage text (exit status 0), or an error (exit
    status 2). *)
Inductive parsed := Parsed (fs : flags) | Usage | BadFlags.

Fixpoint parse (lib : library_flags) (args : list string) (fs : flags) : parsed :=
  match args with
  | [] => Parsed fs
  | s :: rest =>
      match read_argument s with
      | NoFlag | EndOfFlags => Parsed fs
      | BadSyntax => BadFlags
      | Flag name value =>
          match is_boolean lib fs name, value, rest with
          | None, _, _ => if decide (name = "help" \/ name = "h") then Usage else BadFlags
          | Some true, _, _ =>
              match set_flag lib fs name (default "true" value) with
              | Some fs' => parse lib rest fs' | None => BadFlags end
          | Some false, Some v, _ =>
              match set_flag lib fs name v with
              | Some fs' => parse lib rest fs' | None => BadFlags end
          | Some false, None, v :: rest' =>
              match set_flag lib fs name v with
              | Some fs' => parse lib rest' fs' | None => BadFlags end
          | Some false, None, [] => BadFlags
          end
      end
  end.

Definition str_flag (fs : flags) (name : string) : string :=
  match fs !! name with Some (VStr s) => s | _ => "" end.

Definition bool_flag (fs : flags) (name : string) : bool :=
  match fs !! name with Some (VBool b) => b | _ => false end.

(** ** Settings on the command line *)

(** [--name=value] *)
Definition render (name : string) (v : flag_value) : string :=
  "--" +:+ name +:+ "=" +:+
  match v with VStr s => s | VBool true => "true" | VBool false => "false" end.

Definition same_kind (v v' : flag_value) : bool :=
  match v, v' with VStr _, VStr _ | VBool _, VBool _ => true | _, _ => false end.

(** Names that [--name=value] can carry. *)
Definition flag_name (name : string) : Prop :=
  no_char "=" name /\
  match name with EmptyString => False | String c _ => c <> "-"%char /\ c <> "="%char end.

#[global] Instance flag_name_dec name : Decision (flag_name name).
Proof. unfold flag_name, no_char. destruct name; apply _. Defined.

Lemma read_render name v :
  flag_name name ->
  read_argument (render name v) =
    Flag name (Some match v with VStr s => s | VBool true => "true" | VBool false => "false" end).
Proof.
  intros [Hno Hname]. unfold render.
  set (value := match v with VStr s => s | VBool true => "true" | VBool false => "false" end).
  destruct name as [|c name]; [done|]. destruct Hname as [H1 H2].
  change (read_argument (String "-" (String "-" (String c (name +:+ String "="%char value)))) =
          Flag (String c name) (Some value)).
  unfold read_argument. do 2 rewrite decide_True by done. rewrite decide_False by done.
  unfold flag_syntax. rewrite decide_False by naive_solver.
  change (String c (name +:+ String "="%char value))
    with (String c name +:+ String "="%char value).
  by rewrite SplitN2_app.
Qed.

Lemma set_flag_kind lib fs name v old :
  fs !! name = Some old -> same_kind old v = true ->
  set_flag lib fs name
    match v with VStr s => s | VBool true => "true" | VBool false => "false" end
  = Some (<[name := v]> fs).
Proof. intros Hf Hk. unfold set_flag. rewrite Hf. by destruct old, v as [|[]]. Qed.

(** Settings of defined flags, each with a value of its kind, are read back. *)
Lemma parse_render lib (settings : list (string * flag_value)) fs :
  Forall (fun p => flag_name p.1 /\ exists old, fs !! p.1 = Some old /\ same_kind old p.2 = true)
         settings ->
  parse lib ((fun p => render p.1 p.2) <$> settings) fs =
    Parsed (foldl (fun fs p => <[p.1 := p.2]> fs) fs settings).
Proof.
  revert fs. induction settings as [|[name v] settings IH]; intros fs Hall; [done|].
  apply Forall_cons in Hall as [(Hname & old & Hf & Hk) Hall]. cbn in *.
  rewrite read_render by done. unfold is_boolean. rewrite Hf.
  assert (Hset := set_flag_kind lib fs name v old Hf Hk).
  assert (Hrest : parse lib ((fun p => render p.1 p.2) <$> settings) (<[name := v]> fs) =
            Parsed (foldl (fun fs p => <[p.1 := p.2]> fs) (<[name := v]> fs) settings)).
  { apply IH. eapply Forall_impl; [exact Hall|]. intros [n v'] (Hn & old' & Hf' & Hk'). cbn in *.
    split; [done|]. destruct (decide (name = n)) as [->|Hne].
    - exists v. rewrite lookup_insert_eq. split; [done|].
      rewrite Hf in Hf'. injection Hf' as <-. by destruct old, v, v'.
    - exists old'. by rewrite lookup_insert_ne. }
  destruct old; cbn; by rewrite Hset.
Qed.
