(* ===== verification/Main.v ===== *)
(** * The binaries

    The four [main] functions: the Cluster API provider ([cmd/main.go]), the cloud
    controller manager ([ccm/cmd/main.go]), and the controller and node binaries
    of the CSI driver ([csi/cmd/controller/main.go], [csi/cmd/node/main.go]) with
    the server of [csi/driver/driver.go].  Each reads its flags and environment
    variables (Flags.v), checks what authentication it was given, and starts the
    controllers of the other files with the configuration derived from it.  A
    [main] is a program that returns the exit status: 0, 1 ([os.Exit(1)]), 2 (bad
    flags) or 255 ([klog.Fatal]).  The health and metrics servers, which answer
    constants, are left out. *)

From S2P Require Import Prelude Effects GoErrors ApiTypes World Flags Tags CSIController.
From S2P Require Import Auth LoadBalancer Servers Base64 MachineController ClusterController.
From S2P Require Import NodeController CSIToken CSINode.

(** [os.Getenv] *)
Abbreviation environment := (string -> string).

(** ** Authentication

    What both controller managers do with the flags: impersonation when all three
    of its settings are given, legacy credentials when enabled. *)

Definition impersonation_client (fs : flags) : result (option Auth.ImpersonationClient) :=
  if decide (str_flag fs "oauth-url" <> "" /\ str_flag fs "client-id" <> "" /\
             str_flag fs "client-secret" <> "") then
    match NewImpersonationClient
            {| OAuthURL := str_flag fs "oauth-url"; ClientID := str_flag fs "client-id";
               ClientSecret := str_flag fs "client-secret"; TokenExpiryBuffer := 0;
               HTTPTimeout := 0 |} with
    | Ok c => Ok (Some c)
    | Err err => Err err
    end
  else Ok None.

Record authentication := {
  au_impersonation : option Auth.ImpersonationClient;
  au_legacy : bool;
  au_username : string;
  au_password : string
}.

(** The error stands for the end of the process. *)
Definition authenticate (fs : flags) : result authentication :=
  match impersonation_client fs with
  | Err err => Err (ErrWrap "Failed to create impersonation client" err)
  | Ok impersonationClient =>
      let legacyCredentialsEnabled := bool_flag fs "enable-legacy-credentials" in
      let username := str_flag fs "cloudsigma-username" in
      let password := str_flag fs "cloudsigma-password" in
      if legacyCredentialsEnabled then
        if decide (username = "" \/ password = "") then
          Err (ErrNew "Legacy credentials enabled but CLOUDSIGMA_USERNAME and CLOUDSIGMA_PASSWORD not set")
        else Ok {| au_impersonation := impersonationClient; au_legacy := true;
                   au_username := username; au_password := password |}
      else
        match impersonationClient with
        | None => Err (ErrNew "No authentication configured")
        | Some _ => Ok {| au_impersonation := impersonationClient; au_legacy := false;
                          au_username := ""; au_password := "" |}
        end
  end.

Definition is_some {A} (o : option A) : bool := match o with Some _ => true | None => false end.

(** ** The Cluster API provider *)

Section capcs.
Context (lib : library_flags) (env : environment).

Definition capcs_flags : flags := list_to_map
  [("metrics-bind-address", VStr ":8080"); ("health-probe-bind-address", VStr ":8081");
   ("leader-elect", VBool false);
   ("oauth-url", VStr (env "CLOUDSIGMA_OAUTH_URL"));
   ("client-id", VStr (env "CLOUDSIGMA_CLIENT_ID"));
   ("client-secret", VStr (env "CLOUDSIGMA_CLIENT_SECRET"));
   ("enable-legacy-credentials",
    VBool (bool_decide (env "CLOUDSIGMA_ENABLE_LEGACY_CREDENTIALS" = "true")));
   ("cloudsigma-username", VStr (env "CLOUDSIGMA_USERNAME"));
   ("cloudsigma-password", VStr (env "CLOUDSIGMA_PASSWORD"));
   ("cloudsigma-region", VStr (env "CLOUDSIGMA_REGION"))].

(** The settings both reconcilers get. *)
Definition capcs_settings (fs : flags) (a : authentication) : AuthSettings :=
  {| as_LegacyCredentialsEnabled := au_legacy a; as_Username := au_username a;
     as_Password := au_password a;
     as_Region := if decide (str_flag fs "cloudsigma-region" = "") then "zrh"
                  else str_flag fs "cloudsigma-region";
     as_Impersonation := is_some (au_impersonation a) |}.

(** [if err := p; err != nil { os.Exit(1) }] *)
Definition or_exit {X} (p : go (result X)) (k : go Z) : go Z :=
  let* r := p in match r with Err _ => Ret 1%Z | Ok _ => k end.

Definition capcs_manager (fs : flags) (settings : AuthSettings) : go Z :=
  or_exit (capi GetConfig)
  (or_exit (capi (NewManager (str_flag fs "metrics-bind-address")
                    (str_flag fs "health-probe-bind-address") (bool_flag fs "leader-elect")))
  (or_exit (capi (SetupController "CloudSigmaCluster" settings))
  (or_exit (capi (SetupController "CloudSigmaMachine" settings))
  (or_exit (capi (AddCheck "healthz"))
  (or_exit (capi (AddCheck "readyz"))
  (or_exit (capi ManagerStart)
  (Ret 0%Z))))))).

Definition capcs_main (args : list string) : go Z :=
  match parse lib args capcs_flags with
  | Usage => Ret 0%Z
  | BadFlags => Ret 2%Z
  | Parsed fs =>
      match authenticate fs with
      | Err _ => Ret 1%Z
      | Ok a => capcs_manager fs (capcs_settings fs a)
      end
  end.
End capcs.

(** The reconcilers [SetupController] is given. *)
Definition reconciler_of (s : AuthSettings) : CloudSigmaMachineReconciler :=
  {| MachineController.LegacyCredentialsEnabled := as_LegacyCredentialsEnabled s;
     MachineController.CloudSigmaUsername := as_Username s;
     MachineController.CloudSigmaPassword := as_Password s;
     MachineController.CloudSigmaRegion := as_Region s;
     MachineController.ImpersonationClient := as_Impersonation s |}.

(** ** The cloud controller manager *)

(** What runs when the process waits for its end: the node controller, the CSI token
    controller with the phase it is in, the load-balancer controller. *)
Record ccm_running := {
  run_node : NodeReconciler;
  run_csi : option (CSITokenController * phase);
  run_lb : option LoadBalancerController
}.

(** The process exits by itself, or runs until it is told to end. *)
Inductive ccm_end := CcmExit (code : Z) | CcmShutdown (running : ccm_running).

Section ccm.
Context (lib : library_flags) (env : environment).

Definition ccm_flags : flags := list_to_map
  [("metrics-bind-address", VStr ":8080"); ("health-probe-bind-address", VStr ":8081");
   ("cluster-name", VStr ""); ("tenant-kubeconfig", VStr "");
   ("cloudsigma-region", VStr (env "CLOUDSIGMA_REGION"));
   ("oauth-url", VStr (env "CLOUDSIGMA_OAUTH_URL"));
   ("client-id", VStr (env "CLOUDSIGMA_CLIENT_ID"));
   ("client-secret", VStr (env "CLOUDSIGMA_CLIENT_SECRET"));
   ("user-email", VStr (env "CLOUDSIGMA_USER_EMAIL"));
   ("enable-legacy-credentials",
    VBool (bool_decide (env "CLOUDSIGMA_ENABLE_LEGACY_CREDENTIALS" = "true")));
   ("cloudsigma-username", VStr (env "CLOUDSIGMA_USERNAME"));
   ("cloudsigma-password", VStr (env "CLOUDSIGMA_PASSWORD"));
   ("enable-csi-token", VBool (bool_decide (env "CLOUDSIGMA_ENABLE_CSI_TOKEN" = "true")));
   ("disable-lb-ip-pool", VBool (bool_decide (env "CLOUDSIGMA_DISABLE_LB_IP_POOL" = "true")))].

Definition ccm_reconciler (fs : flags) (a : authentication) : NodeReconciler :=
  {| NodeController.TenantKubeconfig := str_flag fs "tenant-kubeconfig";
     NodeController.ClusterName := str_flag fs "cluster-name";
     NodeController.CloudSigmaRegion := str_flag fs "cloudsigma-region";
     NodeController.ImpersonationClient := is_some (au_impersonation a);
     NodeController.UserEmail := str_flag fs "user-email";
     NodeController.LegacyCredentialsEnabled := au_legacy a;
     NodeController.CloudSigmaUsername := au_username a;
     NodeController.CloudSigmaPassword := au_password a;
     NodeController.cloudsigmaClient := None;
     NodeController.staleNodeFailures := ∅ |}.

Definition ccm_token_controller (fs : flags) : CSITokenController :=
  {| HasClient := true; ct_UserEmail := str_flag fs "user-email";
     ct_Region := str_flag fs "cloudsigma-region"; ct_ClusterName := str_flag fs "cluster-name";
     Enabled := true |}.

Definition ccm_lb_controller (fs : flags) : LoadBalancerController :=
  {| LoadBalancer.UserEmail := str_flag fs "user-email";
     LoadBalancer.Region := str_flag fs "cloudsigma-region";
     LoadBalancer.ClusterName := str_flag fs "cluster-name";
     Disabled := false; staticIPs := []; dynamicIPs := []; ipAssignments := ∅;
     serviceIPs := ∅; manualModeNodes := ∅ |}.

(** The CSI token controller, if enabled; an error ends the process. *)
Definition ccm_csi_token (fs : flags) (a : authentication)
    : result (option (CSITokenController * phase)) :=
  if bool_flag fs "enable-csi-token" then
    match au_impersonation a with
    | None => Err (ErrNew "CSI token provisioning requires impersonation mode")
    | Some _ =>
        if decide (str_flag fs "user-email" = "") then
          Err (ErrNew "CSI token provisioning requires --user-email")
        else
          let c := ccm_token_controller fs in
          match CSIToken.Start c with
          | (_, Some err) => Err (ErrWrap "Failed to start CSI token controller" err)
          | (p, None) => Ok (pair c <$> p)
          end
    end
  else Ok None.

(** The load-balancer controller, whose [Start] reports no error. *)
Definition ccm_load_balancer (fs : flags) (a : authentication) : go (option LoadBalancerController) :=
  if is_some (au_impersonation a) && bool_decide (str_flag fs "user-email" <> "")
     && negb (bool_flag fs "disable-lb-ip-pool") then
    let* c := LoadBalancer.Start (ccm_lb_controller fs) in Ret (Some c)
  else Ret None.

Definition ccm_main (args : list string) : go ccm_end :=
  match parse lib args ccm_flags with
  | Usage => Ret (CcmExit 0)
  | BadFlags => Ret (CcmExit 2)
  | Parsed fs =>
      if decide (str_flag fs "tenant-kubeconfig" = "") then Ret (CcmExit 255)
      else match authenticate fs with
      | Err _ => Ret (CcmExit 255)
      | Ok a =>
          let* '(err, r) := NodeController.Start (ccm_reconciler fs a) in
          match err with
          | Some _ => Ret (CcmExit 255)
          | None =>
              match ccm_csi_token fs a with
              | Err _ => Ret (CcmExit 255)
              | Ok p =>
                  let* lb := ccm_load_balancer fs a in
                  Ret (CcmShutdown {| run_node := r; run_csi := p; run_lb := lb |})
              end
          end
      end
  end.
End ccm.

(** ** The server of the CSI driver *)

Definition DriverName : string := "csi.cloudsigma.com".
Definition DriverVersion : string := "0.1.0".

Section csi.
(** [url.Parse]: scheme, path and host of an endpoint. *)
Context (url_Parse : string -> result (string * string * string)).
Context (lib : library_flags) (env : environment).

(** The services registered with the gRPC server. *)
Definition registered (m : Mode) : list string :=
  "csi.v1.Identity" ::
  match m with
  | ControllerMode => ["csi.v1.Controller"]
  | NodeMode => ["csi.v1.Node"]
  | AllMode => ["csi.v1.Controller"; "csi.v1.Node"]
  end.

Definition listen (scheme path host : string) : go (result unit) :=
  if decide (scheme = "unix") then
    let* r := os (RemoveFile path) in
    match r with
    | RemoveErr err => Ret (Err err)
    | Removed | RemoveNotExist =>
        let* r := os (MkdirAll (Dir path)) in
        match r with
        | Err err => Ret (Err err)
        | Ok _ => os (Listen "unix" path)
        end
    end
  else os (Listen "tcp" host).

Definition Run (d : Driver) : go (option error) :=
  match url_Parse (endpoint d) with
  | Err err => Ret (Some err)
  | Ok (scheme, path, host) =>
      let* r := listen scheme path host in
      match r with
      | Err err => Ret (Some err)
      | Ok _ =>
          let* r := os (Serve (registered (mode d))) in
          match r with Err err => Ret (Some err) | Ok _ => Ret None end
      end
  end.

(** The drivers the binaries run; an error ends the process. *)
Definition run_driver (d : result Driver) : go Z :=
  match d with
  | Err _ => Ret 255%Z
  | Ok d => let* err := Run d in match err with Some _ => Ret 255%Z | None => Ret 0%Z end
  end.

Definition csi_controller_flags : flags := list_to_map
  [("endpoint", VStr "unix:///csi/csi.sock"); ("region", VStr (env "CLOUDSIGMA_REGION"));
   ("cloudsigma-username", VStr (env "CLOUDSIGMA_USERNAME"));
   ("cloudsigma-password", VStr (env "CLOUDSIGMA_PASSWORD"));
   ("cloudsigma-token", VStr (env "CLOUDSIGMA_ACCESS_TOKEN"));
   ("token-file", VStr (env "CLOUDSIGMA_TOKEN_FILE"));
   ("cluster-name", VStr (env "CLUSTER_NAME"))].

(** The token given, or else the content of the token file. *)
Definition load_token (fs : flags) : go string :=
  let token := str_flag fs "cloudsigma-token" in
  let tokenFile := str_flag fs "token-file" in
  if decide (token = "" /\ tokenFile <> "") then
    let* r := os (ReadFile tokenFile) in
    match r with Err _ => Ret token | Ok data => Ret data end
  else Ret token.

Definition csi_controller_config (fs : flags) (token : string) : Config :=
  {| cfg_Name := DriverName; cfg_Version := DriverVersion; cfg_NodeID := "";
     cfg_Region := str_flag fs "region"; cfg_Endpoint := str_flag fs "endpoint";
     cfg_Mode := ControllerMode; cfg_Username := str_flag fs "cloudsigma-username";
     cfg_Password := str_flag fs "cloudsigma-password"; cfg_Token := token;
     cfg_TokenFile := str_flag fs "token-file"; cfg_ClusterName := str_flag fs "cluster-name" |}.

Definition csi_controller_driver (fs : flags) : go (result Driver) :=
  let* token := load_token fs in
  if decide (token = "" /\ (str_flag fs "cloudsigma-username" = "" \/
                            str_flag fs "cloudsigma-password" = "")) then
    Ret (Err (ErrNew "CloudSigma credentials required: set CLOUDSIGMA_ACCESS_TOKEN or CLOUDSIGMA_USERNAME/CLOUDSIGMA_PASSWORD"))
  else Ret (Ok (NewDriver (csi_controller_config fs token))).

Definition csi_controller_main (args : list string) : go Z :=
  match parse lib args csi_controller_flags with
  | Usage => Ret 0%Z
  | BadFlags => Ret 2%Z
  | Parsed fs => let* d := csi_controller_driver fs in run_driver d
  end.

Definition csi_node_flags : flags := list_to_map
  [("endpoint", VStr "unix:///csi/csi.sock"); ("node-id", VStr (env "NODE_ID"));
   ("region", VStr (env "CLOUDSIGMA_REGION"))].

Definition csi_node_driver (fs : flags) : result Driver :=
  if decide (str_flag fs "node-id" = "") then
    Err (ErrNew "Node ID is required (--node-id or NODE_ID env)")
  else Ok (NewDriver
    {| cfg_Name := DriverName; cfg_Version := DriverVersion;
       cfg_NodeID := str_flag fs "node-id"; cfg_Region := str_flag fs "region";
       cfg_Endpoint := str_flag fs "endpoint"; cfg_Mode := NodeMode;
       cfg_Username := ""; cfg_Password := ""; cfg_Token := ""; cfg_TokenFile := "";
       cfg_ClusterName := "" |}).

Definition csi_node_main (args : list string) : go Z :=
  match parse lib args csi_node_flags with
  | Usage => Ret 0%Z
  | BadFlags => Ret 2%Z
  | Parsed fs => run_driver (csi_node_driver fs)
  end.
End csi.

(** ** Whose credentials the provider acts with *)

Definition legacy_enabled (fs : flags) : bool := bool_flag fs "enable-legacy-credentials".

(** The authentication of a process: legacy credentials are kept only when they are
    enabled, and without them there is impersonation. *)
Lemma authenticate_spec fs a :
  authenticate fs = Ok a ->
  au_legacy a = legacy_enabled fs /\
  (if legacy_enabled fs
   then au_username a = str_flag fs "cloudsigma-username" /\ au_username a <> "" /\
        au_password a = str_flag fs "cloudsigma-password" /\ au_password a <> ""
   else au_username a = "" /\ au_password a = "" /\ is_some (au_impersonation a) = true) /\
  (is_some (au_impersonation a) = true <->
     str_flag fs "oauth-url" <> "" /\ str_flag fs "client-id" <> "" /\
     str_flag fs "client-secret" <> "").
Proof.
  unfold authenticate, impersonation_client, legacy_enabled.
  destruct (decide (str_flag fs "oauth-url" <> "" /\ _)) as [Himp|Himp].
  - destruct Himp as (H1 & H2 & H3). unfold NewImpersonationClient. cbn [OAuthURL ClientID ClientSecret].
    do 3 rewrite decide_False by done.
    destruct (bool_flag _ _); [case_decide as Hup; [done|]|]; intros [= <-]; cbn;
      (split; [done|]; split; naive_solver).
  - destruct (bool_flag _ _); [case_decide as Hup; [done|]|done]; intros [= <-]; cbn;
      (split; [done|]; split; naive_solver).
Qed.

(** A user's token, or the legacy credentials of the flags. *)
Definition authorised (fs : flags) (cl : Client) : Prop :=
  match sdk_cred (sdk cl) with
  | TokenCred _ => useImpersonation cl = true /\ impersonatedUser cl <> ""
  | UserPass u p => legacy_enabled fs = true /\ u = str_flag fs "cloudsigma-username" /\
                    p = str_flag fs "cloudsigma-password"
  end.

Section clients.
Context (fs : flags) (a : authentication) (Ha : authenticate fs = Ok a).

Definition authorised_result (r : result Client) : Prop :=
  match r with Ok cl => authorised fs cl | Err _ => True end.

Lemma wp_impersonating_authorised imp email region :
  wp topI (NewClientWithImpersonation imp email region)
     (ok (fun r _ => authorised_result r)) tt.
Proof.
  unfold NewClientWithImpersonation. destruct (negb imp); [by apply wp_ret|].
  case_decide as He; [by apply wp_ret|]. wp_call x Hx. destruct x; by apply wp_ret.
Qed.

Lemma legacy_authorised region :
  au_legacy a = true -> authorised_result (NewClient (au_username a) (au_password a) region).
Proof using Ha.
  intros Hl. destruct (authenticate_spec fs a Ha) as (Hleg & Hcred & _).
  rewrite Hl in Hleg. rewrite <- Hleg in Hcred. destruct Hcred as (-> & Hu & -> & Hp).
  unfold NewClient. rewrite decide_False by naive_solver. cbn. by rewrite <- Hleg.
Qed.

Lemma wp_machine_authorised cluster :
  wp topI (MachineController.getCloudClient (reconciler_of (capcs_settings fs a)) cluster)
     (ok (fun r _ => authorised_result r)) tt.
Proof using Ha.
  unfold MachineController.getCloudClient.
  eapply wp_seq with (P := fun _ _ => True).
  { destruct cluster as [c|]; [|by apply wp_ret]. unfold getUserEmail.
    destruct (decide _); [by apply wp_ret|].
    destruct (CSCluster.UserRef c) as [[name ns]|]; [|by apply wp_ret].
    wp_call x Hx. destruct x; by apply wp_ret. }
  intros email [] _. destruct (_ && _) eqn:E1; [apply wp_impersonating_authorised|].
  destruct (_ && _ && _) eqn:E2.
  - apply wp_ret, legacy_authorised. by apply andb_true_iff in E2 as [[? _]%andb_true_iff _].
  - repeat case_match; by apply wp_ret.
Qed.

Lemma wp_cluster_authorised cluster :
  wp topI (ClusterController.getCloudClient (reconciler_of (capcs_settings fs a)) cluster)
     (ok (fun r _ => authorised_result r)) tt.
Proof using Ha.
  unfold ClusterController.getCloudClient.
  destruct (_ && _) eqn:E1; [apply wp_impersonating_authorised|]. destruct (_ && _ && _) eqn:E2.
  - apply wp_ret, legacy_authorised. by apply andb_true_iff in E2 as [[? _]%andb_true_iff _].
  - repeat case_match; by apply wp_ret.
Qed.
End clients.

(** The controllers that are set up, with their settings. *)
Definition setup_view : view Eff (string * AuthSettings) := fun X e _ =>
  match e with
  | ECapi (SetupController kind s) => [(kind, s)]
  | _ => []
  end.

(** The cloud client of the controller of that kind for a cluster. *)
Definition controller_client (kind : string) (s : AuthSettings) (cluster : option CSCluster.t)
    : go (result Client) :=
  if decide (kind = "CloudSigmaMachine") then MachineController.getCloudClient (reconciler_of s) cluster
  else ClusterController.getCloudClient (reconciler_of s) cluster.

(** A step of the set-up: the process ends, or goes on with what it observed. *)
Lemma wp_or_exit {X} (e : Eff (result X)) k (Q : Z -> list (string * AuthSettings) -> Prop) l :
  (forall x, Q 1%Z (l ++ setup_view _ e x)) ->
  (forall x, wp (anyI setup_view) k (ok Q) (l ++ setup_view _ e x)) ->
  wp (anyI setup_view) (or_exit (call e) k) (ok Q) l.
Proof. intros H1 Hk. unfold or_exit. wp_call x Hx. subst. destruct x; [apply Hk|apply H1]. Qed.

Lemma wp_capcs_manager fs s :
  wp (anyI setup_view) (capcs_manager fs s)
     (ok (fun code l => code ∈ [0; 1]%Z /\
                        l `prefix_of` [("CloudSigmaCluster", s); ("CloudSigmaMachine", s)])) [].
Proof.
  assert (Hend : forall code l, (code = 0 \/ code = 1)%Z ->
    l `prefix_of` [("CloudSigmaCluster", s); ("CloudSigmaMachine", s)] ->
    code ∈ [0; 1]%Z /\ l `prefix_of` [("CloudSigmaCluster", s); ("CloudSigmaMachine", s)])
    by (intros; set_solver).
  unfold capcs_manager.
  repeat (apply wp_or_exit; intros ?; [apply Hend; [by right|by eexists]|]).
  apply wp_ret, Hend; [by left|by eexists].
Qed.

(** C19. In every environment the provider's [main] returns an exit status, having set
    up at most the two controllers, with the same settings.  Whichever cluster
    such a controller asks a cloud client for, it gets one that impersonates a
    user, or one with the username and password of the flags, and the latter only
    when legacy credentials were enabled; its default region is never empty. *)
Theorem capcs_credentials {W} (h : handler Eff W) lib env args w :
  let '(o, l) := observe setup_view h (capcs_main lib env args) w in
  exists code, o = Done code /\ code ∈ [0; 1; 2]%Z /\
  (l = [] \/ exists fs s,
     parse lib args (capcs_flags env) = Parsed fs /\
     l `prefix_of` [("CloudSigmaCluster", s); ("CloudSigmaMachine", s)] /\
     as_Region s <> "" /\
     forall W' (h' : handler Eff W') kind cluster w' cl,
       (run h' (controller_client kind s cluster) w').1 = Done (Ok cl) -> authorised fs cl).
Proof.
  apply observe_intro. unfold capcs_main.
  destruct (parse lib args (capcs_flags env)) as [fs| |] eqn:Hp.
  2,3: apply wp_ret; eexists; split_and!; [done|set_solver|by left].
  destruct (authenticate fs) as [a|e] eqn:Ha;
    [|apply wp_ret; eexists; split_and!; [done|set_solver|by left]].
  eapply wp_mono; [|apply wp_capcs_manager]. intros [code|why] l; [|done]. intros [Hc Hl].
  exists code. split_and!; [done|set_solver|]. right. exists fs, (capcs_settings fs a).
  split_and!; [done|done|cbn; by case_decide|].
  intros W' h' kind cluster w' cl Hrun.
  assert (Hwp : wp topI (controller_client kind (capcs_settings fs a) cluster)
                  (ok (fun r _ => authorised_result fs r)) tt).
  { unfold controller_client. case_decide; [by apply wp_machine_authorised|by apply wp_cluster_authorised]. }
  apply (wp_top h' _ w') in Hwp. by rewrite Hrun in Hwp.
Qed.

(** ** What the cloud controller manager starts *)

(** The node controller keeps its configuration. *)
Definition same_settings (r r' : NodeReconciler) : Prop :=
  exists cl, r' = {| NodeController.TenantKubeconfig := NodeController.TenantKubeconfig r;
     NodeController.ClusterName := NodeController.ClusterName r;
     NodeController.CloudSigmaRegion := NodeController.CloudSigmaRegion r;
     NodeController.ImpersonationClient := NodeController.ImpersonationClient r;
     NodeController.UserEmail := NodeController.UserEmail r;
     NodeController.LegacyCredentialsEnabled := NodeController.LegacyCredentialsEnabled r;
     NodeController.CloudSigmaUsername := NodeController.CloudSigmaUsername r;
     NodeController.CloudSigmaPassword := NodeController.CloudSigmaPassword r;
     NodeController.cloudsigmaClient := cl;
     NodeController.staleNodeFailures := NodeController.staleNodeFailures r |}.

Lemma same_settings_refl r : same_settings r r.
Proof. exists (NodeController.cloudsigmaClient r). by destruct r. Qed.

Lemma quiet_node_Start r :
  quiet blind (NodeController.Start r) (fun x => same_settings r x.2).
Proof.
  unfold NodeController.Start. apply quiet_call; [done|]. intros [u|e];
    [|apply quiet_ret, same_settings_refl].
  apply quiet_call; [done|]. intros [u'|e]; [|apply quiet_ret, same_settings_refl].
  eapply quiet_bind with (P := fun x => same_settings r x.2); [|by intros [err r'] H].
  unfold NodeController.refreshCloudSigmaClient. destruct (_ && _).
  { apply quiet_call; [done|]. intros [t|e]; apply quiet_ret; [by eexists|apply same_settings_refl]. }
  repeat case_match; apply quiet_ret; (apply same_settings_refl || by eexists).
Qed.

(** The flags are enough for impersonation. *)
Definition impersonating (fs : flags) : bool :=
  bool_decide (str_flag fs "oauth-url" <> "" /\ str_flag fs "client-id" <> "" /\
               str_flag fs "client-secret" <> "").

(** Credentials of the flags, kept when legacy credentials are enabled. *)
Definition kept_credential (fs : flags) (name : string) : string :=
  if legacy_enabled fs then str_flag fs name else "".

(** The node controller that [fs] asks for. *)
Definition node_asked (fs : flags) (r : NodeReconciler) : Prop :=
  NodeController.TenantKubeconfig r = str_flag fs "tenant-kubeconfig" /\
  NodeController.ClusterName r = str_flag fs "cluster-name" /\
  NodeController.CloudSigmaRegion r = str_flag fs "cloudsigma-region" /\
  NodeController.UserEmail r = str_flag fs "user-email" /\
  NodeController.ImpersonationClient r = impersonating fs /\
  NodeController.LegacyCredentialsEnabled r = legacy_enabled fs /\
  NodeController.CloudSigmaUsername r = kept_credential fs "cloudsigma-username" /\
  NodeController.CloudSigmaPassword r = kept_credential fs "cloudsigma-password".

(** The CSI token controller that [fs] asks for, and its first phase. *)
Definition csi_asked (fs : flags) (x : CSITokenController * phase) : Prop :=
  HasClient x.1 = true /\ Enabled x.1 = true /\
  ct_UserEmail x.1 = str_flag fs "user-email" /\
  ct_Region x.1 = str_flag fs "cloudsigma-region" /\
  ct_ClusterName x.1 = str_flag fs "cluster-name" /\
  x.2 = Provisioning InitialRetryInterval.

(** The load-balancer controller that [fs] asks for. *)
Definition lb_asked (fs : flags) (c : LoadBalancerController) : Prop :=
  LoadBalancer.UserEmail c = str_flag fs "user-email" /\
  LoadBalancer.Region c = str_flag fs "cloudsigma-region" /\
  LoadBalancer.ClusterName c = str_flag fs "cluster-name" /\ Disabled c = false.

(** Runs exactly when asked for, and then as asked for. *)
Definition runs_when {A} (asked : bool) (P : A -> Prop) (x : option A) : Prop :=
  if asked then exists y, x = Some y /\ P y else x = None.

(** What [fs] asks for runs, and nothing else: the node controller always, the CSI
    token controller when enabled, which takes impersonation and a user, and the
    load-balancer controller unless disabled, whenever these two are there. *)
Definition started (fs : flags) (r : ccm_running) : Prop :=
  let user := impersonating fs && bool_decide (str_flag fs "user-email" <> "") in
  str_flag fs "tenant-kubeconfig" <> "" /\
  (impersonating fs = true \/ legacy_enabled fs = true) /\
  (legacy_enabled fs = true ->
     str_flag fs "cloudsigma-username" <> "" /\ str_flag fs "cloudsigma-password" <> "") /\
  node_asked fs (run_node r) /\
  (bool_flag fs "enable-csi-token" = true -> user = true) /\
  runs_when (bool_flag fs "enable-csi-token") (csi_asked fs) (run_csi r) /\
  runs_when (user && negb (bool_flag fs "disable-lb-ip-pool")) (lb_asked fs) (run_lb r).

Lemma impersonating_spec fs a :
  authenticate fs = Ok a -> is_some (au_impersonation a) = impersonating fs.
Proof.
  intros (_ & _ & H)%authenticate_spec. unfold impersonating. apply eq_true_iff_eq.
  by rewrite H, bool_decide_eq_true.
Qed.

Lemma node_asked_settings fs a r :
  authenticate fs = Ok a -> same_settings (ccm_reconciler fs a) r -> node_asked fs r.
Proof.
  intros Ha [cl ->]. pose proof (impersonating_spec fs a Ha) as Hi.
  apply authenticate_spec in Ha as (Hl & Hc & _). unfold node_asked, kept_credential. cbn.
  split_and!; try done; destruct (legacy_enabled fs); naive_solver.
Qed.

Lemma ccm_csi_token_spec fs a p :
  ccm_csi_token fs a = Ok p ->
  (bool_flag fs "enable-csi-token" = true ->
     is_some (au_impersonation a) && bool_decide (str_flag fs "user-email" <> "") = true) /\
  runs_when (bool_flag fs "enable-csi-token") (csi_asked fs) p.
Proof.
  unfold ccm_csi_token. destruct (bool_flag _ _); [|by intros [= <-]].
  destruct (au_impersonation a); [|done]. case_decide as Hu; [done|]. cbv zeta.
  unfold CSIToken.Start. cbn [Enabled HasClient ct_UserEmail ccm_token_controller negb].
  rewrite decide_False by done. intros [= <-]. split; [|by eexists]. intros _. cbn.
  by rewrite bool_decide_true.
Qed.

(** The start of the token controller cannot fail where the main function calls
    it: what [Start] checks has been checked. *)
Lemma ccm_csi_token_started fs a :
  bool_flag fs "enable-csi-token" = true -> au_impersonation a <> None ->
  str_flag fs "user-email" <> "" -> exists p, ccm_csi_token fs a = Ok (Some p).
Proof.
  intros He Ha Hu. unfold ccm_csi_token. rewrite He. destruct (au_impersonation a); [|done].
  rewrite decide_False by done. unfold CSIToken.Start.
  cbn [Enabled HasClient ct_UserEmail ccm_token_controller negb]. rewrite decide_False by done. eauto.
Qed.

Lemma quiet_load_balancer fs a :
  quiet blind (ccm_load_balancer fs a)
    (runs_when (is_some (au_impersonation a) && bool_decide (str_flag fs "user-email" <> "")
                && negb (bool_flag fs "disable-lb-ip-pool")) (lb_asked fs)).
Proof.
  unfold ccm_load_balancer. destruct (_ && _ && _); [|by apply quiet_ret].
  eapply quiet_bind; [apply config_Start|]. intros c Hc. apply quiet_ret. by exists c.
Qed.

(** C33. The manager's [main] in every environment: it ends with status 0, 2 or 255
    before anything waits, or it runs exactly the controllers its flags ask for, each
    with the user, region, cluster name and credentials that the flags say: the node
    controller with legacy credentials only when these are enabled, the CSI token
    controller, and the load-balancer controller, which its start leaves as
    configured. *)
Theorem ccm_starts_what_is_asked {W} (h : handler Eff W) lib env args w :
  exists e w', run h (ccm_main lib env args) w = (Done e, w') /\
  match e with
  | CcmExit code => code ∈ [0; 2; 255]%Z
  | CcmShutdown r => exists fs, parse lib args (ccm_flags env) = Parsed fs /\ started fs r
  end.
Proof.
  apply (quiet_run blind h). unfold ccm_main.
  destruct (parse lib args (ccm_flags env)) as [fs| |] eqn:Hp.
  2,3: apply quiet_ret; set_solver.
  case_decide as Hk; [apply quiet_ret; set_solver|].
  destruct (authenticate fs) as [a|e] eqn:Ha; [|apply quiet_ret; set_solver].
  eapply quiet_bind; [apply quiet_node_Start|]. intros [[err|] r] Hr; cbn in Hr.
  { apply quiet_ret; set_solver. }
  destruct (ccm_csi_token fs a) as [p|e] eqn:Hc; [|apply quiet_ret; set_solver].
  eapply quiet_bind; [apply quiet_load_balancer|]. intros lb Hlb. apply quiet_ret.
  exists fs. split; [done|]. apply ccm_csi_token_spec in Hc as [H1 H2].
  rewrite (impersonating_spec fs a Ha) in H1, Hlb. pose proof (authenticate_spec fs a Ha) as (_ & Hcr & _).
  rewrite (impersonating_spec fs a Ha) in Hcr.
  split_and!; [done| | |by eapply node_asked_settings|exact H1|exact H2|exact Hlb].
  - destruct (legacy_enabled fs); [by right|left]. apply Hcr.
  - intros Hl. rewrite Hl in Hcr. destruct Hcr as (-> & Hu & -> & Hpw). by split.
Qed.

(** ** Flags on the command line *)

(** The flags of the four binaries. *)
Definition binaries (env : environment) : list flags :=
  [capcs_flags env; ccm_flags env; csi_controller_flags env; csi_node_flags env].

(** Settings of flags the binary has, each with a value of the flag's kind. *)
Definition known (own : flags) (settings : list (string * flag_value)) : Prop :=
  Forall (fun p => exists old, own !! p.1 = Some old /\ same_kind old p.2 = true) settings.

(** What the settings leave in a flag: the last value, or what it was. *)
Definition setting (own : flags) (settings : list (string * flag_value)) (name : string)
    : option flag_value :=
  foldl (fun o p => if decide (p.1 = name) then Some p.2 else o) (own !! name) settings.

Lemma lookup_settings settings own name :
  foldl (fun fs p => <[p.1 := p.2]> fs) own settings !! name = setting own settings name.
Proof.
  unfold setting. revert own. induction settings as [|[n v] settings IH]; intros own; [done|].
  cbn. rewrite IH. f_equal. destruct (decide (n = name)) as [->|Hne].
  - by rewrite lookup_insert_eq.
  - by rewrite lookup_insert_ne.
Qed.

Lemma flag_names_ok env own name old :
  own ∈ binaries env -> own !! name = Some old -> flag_name name.
Proof.
  assert (Hok : forall l : list (string * flag_value),
    forallb (fun p => bool_decide (flag_name p.1)) l = true ->
    (list_to_map l : flags) !! name = Some old -> flag_name name).
  { intros l Hl Hlook. apply elem_of_list_to_map_2 in Hlook.
    rewrite forallb_forall in Hl. apply list_elem_of_In in Hlook.
    by apply Hl, bool_decide_eq_true in Hlook. }
  unfold binaries. intros Hin.
  repeat (apply elem_of_cons in Hin as [->|Hin]; [by apply Hok|]). by apply elem_of_nil in Hin.
Qed.

(** Whatever the environment variables say, a binary started with the arguments
    [--name=value] for settings of its flags reads exactly these settings: a flag
    set several times has the last value, a flag not set its default. *)
Theorem flags_roundtrip lib env own settings
    (Hown : own ∈ binaries env) (Hknown : known own settings) :
  exists fs, parse lib ((fun p => render p.1 p.2) <$> settings) own = Parsed fs /\
    forall name, fs !! name = setting own settings name.
Proof.
  eexists. split; [|intros name; apply lookup_settings]. apply parse_render.
  eapply Forall_impl; [exact Hknown|]. intros [name v] (old & Hold & Hk). split; [|eauto].
  by eapply flag_names_ok.
Qed.

(** ** The token of the CSI controller *)

Inductive start_event :=
| TokenRead (path : string) (answer : result string)
| Served (services : list string).

Definition start_view : view Eff start_event := fun X e =>
  match e in Eff _ return X -> list start_event with
  | EOs oe =>
      match oe in OsE Y return Y -> list start_event with
      | ReadFile path => fun x => [TokenRead path x]
      | Serve services => fun _ => [Served services]
      | _ => fun _ => []
      end
  | _ => fun _ => []
  end.

Lemma quiet_listen scheme path host :
  quiet start_view (listen scheme path host) (fun _ => True).
Proof. unfold listen, os. quiet_go. Qed.

(** A driver serves at most once, and then the services of its mode. *)
Lemma wp_run_driver url_Parse d l :
  wp (anyI start_view) (run_driver url_Parse (Ok d))
     (ok (fun code l' => code ∈ [0; 255]%Z /\ (l' = l \/ l' = l ++ [Served (registered (mode d))]))) l.
Proof.
  unfold run_driver, Run. destruct (url_Parse (endpoint d)) as [[[scheme path] host]|e].
  2:{ apply wp_ret. split; [set_solver|by left]. }
  eapply wp_seq with (P := fun _ l' => l' = l \/ l' = l ++ [Served (registered (mode d))]).
  2:{ intros [err|] l' Hl; apply wp_ret; (split; [set_solver|done]). }
  eapply wp_seq; [apply quiet_wp, quiet_listen|]. intros [u|e] ? [_ ->]; [|apply wp_ret; by left].
  wp_call x Hx. subst. destruct x; apply wp_ret; by right.
Qed.

(** The token of the driver is that of the flags, or what the token file held when
    the process started; without one, the driver has the username and password. *)
Definition controller_credentials (fs : flags) (reads : list start_event) (d : Driver) : Prop :=
  exists cl, cloudClient d = Some cl /\
  sdk_location cl = (if decide (str_flag fs "region" = "") then "zrh" else str_flag fs "region") /\
  let token := str_flag fs "cloudsigma-token" in
  match sdk_cred cl with
  | TokenCred t =>
      t <> "" /\ if decide (token <> "") then t = token /\ reads = []
                 else reads = [TokenRead (str_flag fs "token-file") (Ok t)]
  | UserPass u p => token = "" /\ u = str_flag fs "cloudsigma-username" /\ u <> "" /\
                    p = str_flag fs "cloudsigma-password" /\ p <> ""
  end.

Lemma new_driver_credentials fs reads t :
  t <> "" \/ (str_flag fs "cloudsigma-username" <> "" /\ str_flag fs "cloudsigma-password" <> "") ->
  (t <> "" -> if decide (str_flag fs "cloudsigma-token" <> "")
              then t = str_flag fs "cloudsigma-token" /\ reads = []
              else reads = [TokenRead (str_flag fs "token-file") (Ok t)]) ->
  (t = "" -> str_flag fs "cloudsigma-token" = "") ->
  controller_credentials fs reads (NewDriver (csi_controller_config fs t)).
Proof.
  intros Hcred Ht Hno. unfold controller_credentials, NewDriver, csi_controller_config. cbn.
  destruct (decide (t <> "")) as [Hne|He].
  - eexists. split_and!; [done|done|]. cbn. split; [done|]. by apply Ht.
  - apply dec_stable in He. destruct Hcred as [Hc|[Hu Hp]]; [done|].
    rewrite decide_True by done. eexists. split_and!; [done|done|]. cbn. split_and!; auto.
Qed.

(** At most one look at the token file. *)
Definition one_read (l : list start_event) : Prop :=
  l = [] \/ exists path answer, l = [TokenRead path answer].

Lemma one_read_unserved l services : one_read l -> Served services ∉ l.
Proof. intros [->|(p & x & ->)]; set_solver. Qed.

Lemma wp_csi_controller_driver fs :
  wp (anyI start_view) (csi_controller_driver fs)
     (ok (fun r l => one_read l /\
        match r with
        | Ok d => mode d = ControllerMode /\ controller_credentials fs l d
        | Err _ => True
        end)) [].
Proof.
  unfold csi_controller_driver.
  eapply wp_seq with (P := fun t l => one_read l /\
    (t <> "" -> if decide (str_flag fs "cloudsigma-token" <> "")
                then t = str_flag fs "cloudsigma-token" /\ l = []
                else l = [TokenRead (str_flag fs "token-file") (Ok t)]) /\
    (t = "" -> str_flag fs "cloudsigma-token" = "")).
  - unfold load_token. destruct (decide _) as [[He Hf]|Hn].
    + rewrite He. wp_call x Hx. subst. destruct x as [data|e]; apply wp_ret; cbn;
        (split_and!; [right; by eexists _, _|done|done]).
    + apply wp_ret. split_and!; [by left| |done]. intros Hne. by rewrite decide_True.
  - intros t l (Hlen & Ht & Hno).
    destruct (decide (t = "" /\ _)) as [Hc|Hc]; apply wp_ret; [done|].
    split_and!; [done|done|]. apply new_driver_credentials; [|done|done].
    destruct (decide (t = "")) as [->|]; [right|by left].
    destruct (decide (str_flag fs "cloudsigma-username" = "")), 
             (decide (str_flag fs "cloudsigma-password" = "")); naive_solver.
Qed.

(** The CSI controller binary in every environment: it returns an exit status and
    serves, if at all, the identity and controller services, with a client whose
    token is the one of the flags or the content of the token file.  The file is
    read at most once, before anything is served, so the token never changes. *)
Theorem csi_controller_main_credentials {W} (h : handler Eff W) url_Parse lib env args w :
  let '(o, l) := observe start_view h (csi_controller_main url_Parse lib env args) w in
  exists code, o = Done code /\ code ∈ [0; 2; 255]%Z /\
  forall services, Served services ∈ l -> exists fs reads d,
    parse lib args (csi_controller_flags env) = Parsed fs /\
    controller_credentials fs reads d /\ one_read reads /\
    services = ["csi.v1.Identity"; "csi.v1.Controller"] /\ l = reads ++ [Served services].
Proof.
  apply observe_intro. unfold csi_controller_main.
  destruct (parse lib args (csi_controller_flags env)) as [fs| |] eqn:Hp.
  2,3: apply wp_ret; eexists; split_and!; [done|set_solver|set_solver].
  eapply wp_seq; [apply wp_csi_controller_driver|]. intros [d|e] reads [Hone Hd].
  2:{ apply wp_ret. eexists. split_and!; [done|set_solver|]. intros services Hs.
      by destruct (one_read_unserved reads services). }
  destruct Hd as [Hm Hcred]. eapply wp_mono; [|apply wp_run_driver].
  intros [code|why] l; [|done]. intros [Hc Hl]. exists code. split_and!; [done|set_solver|].
  intros services Hs. destruct Hl as [->| ->]; [by destruct (one_read_unserved reads services)|].
  apply elem_of_app in Hs as [Hs|Hs]; [by destruct (one_read_unserved reads services)|].
  apply list_elem_of_singleton in Hs as [= ->]. exists fs, reads, d.
  split_and!; [done|done|done| |done]. by rewrite Hm.
Qed.

(** ** Concrete environments *)

(** Every request to set up a process succeeds, and a token file is mounted. *)
Definition sim_start : handler Eff unit := fun X e w =>
  match e with
  | ECapi ce =>
      (match ce in CapiE Y return Y with
       | GetConfig => Ok tt | NewManager _ _ _ => Ok tt | SetupController _ _ => Ok tt
       | AddCheck _ => Ok tt | ManagerStart => Ok tt | ce => deaf_capi ce end, w)
  | EOs oe =>
      (match oe in OsE Y return Y with
       | ReadFile _ => Ok "file-token" | RemoveFile _ => RemoveNotExist | MkdirAll _ => Ok tt
       | Listen _ _ => Ok tt | Serve _ => Ok tt | oe => deaf_os oe end, w)
  | EKube ke =>
      (match ke in KubeE Y return Y with
       | LoadKubeconfig _ => Ok tt | NewTenantClient => Ok tt | ke => deaf_kube ke end, w)
  | e => (deaf e, w)
  end.

Definition empty_env : environment := fun _ => "".

Definition impersonation_args : list string :=
  ["--oauth-url=https://sso"; "--client-id"; "capcs"; "-client-secret=s"].

(** The manager with all its controllers. *)
Example all_controllers_start :
  match (run sim_start (ccm_main no_library empty_env
     (impersonation_args ++ ["--tenant-kubeconfig=/k"; "--user-email=a@b.c"; "--cluster-name=prod";
                             "--cloudsigma-region=zrh"; "--enable-csi-token"])) tt).1 with
  | Done (CcmShutdown r) =>
      (NodeController.ClusterName (run_node r), ct_UserEmail ∘ fst <$> run_csi r,
       LoadBalancer.Region <$> run_lb r)
  | _ => ("", None, None)
  end = ("prod", Some "a@b.c", Some "zrh").
Proof. by vm_compute. Qed.

(** The documentation ([docs/prd-ccm-impersonation.md]) has the manager started
    with a flag that does not exist: the process ends at once. *)
Example documented_csi_flag :
  (run sim_start (ccm_main no_library empty_env
     (impersonation_args ++ ["--tenant-kubeconfig=/k"; "--user-email=a@b.c"; "--csi-token-enabled"])) tt).1
  = Done (CcmExit 2).
Proof. by vm_compute. Qed.

(** Without a region the provider uses "zrh", and so does the node controller of
    the manager; the token and load-balancer controllers keep the empty region,
    which [GetImpersonatedToken] refuses. *)
Example region_not_defaulted :
  match parse no_library (impersonation_args ++ ["--user-email=a@b.c"]) (ccm_flags empty_env) with
  | Parsed fs =>
      ct_Region (ccm_token_controller fs) = "" /\ LoadBalancer.Region (ccm_lb_controller fs) = "" /\
      forall c w, (run sim_start (Auth.GetImpersonatedToken c "a@b.c" "") w).1 =
                  Done (Err (ErrNew "region is required for impersonation"), c)
  | _ => False
  end.
Proof. vm_compute. split_and!; [done|done|]. by intros c []. Qed.

(** Serving with the token of the file. *)
Definition unix_endpoint : string -> result (string * string * string) :=
  fun _ => Ok ("unix", "/csi/csi.sock", "").

Lemma flags_roundtrip_witness :
  exists fs, parse no_library ["--user-email=a@b.c"; "--disable-lb-ip-pool=true"; "--user-email=-x=y"]
               (ccm_flags empty_env) = Parsed fs /\
    forall name, fs !! name = setting (ccm_flags empty_env)
      [("user-email", VStr "a@b.c"); ("disable-lb-ip-pool", VBool true); ("user-email", VStr "-x=y")]
      name.
Proof.
  apply (flags_roundtrip no_library empty_env (ccm_flags empty_env)
    [("user-email", VStr "a@b.c"); ("disable-lb-ip-pool", VBool true); ("user-email", VStr "-x=y")]).
  - unfold binaries. set_solver.
  - repeat constructor; by eexists.
Defined.

Lemma capcs_credentials_witness :
  (observe setup_view sim_start
     (capcs_main no_library empty_env impersonation_args) tt).2 <> [] /\
  let '(o, l) := observe setup_view sim_start
                   (capcs_main no_library empty_env impersonation_args) tt in
  exists code, o = Done code /\ code ∈ [0; 1; 2]%Z.
Proof.
  split; [by vm_compute|].
  pose proof (capcs_credentials sim_start no_library empty_env impersonation_args tt) as H.
  destruct (observe _ _ _ _) as [o l]. destruct H as (code & Ho & Hc & _). by exists code.
Defined.

Lemma csi_controller_main_credentials_witness :
  let '(o, l) := observe start_view sim_start
    (csi_controller_main unix_endpoint no_library empty_env ["--token-file=/etc/token"]) tt in
  exists services fs reads d, Served services ∈ l /\
    parse no_library ["--token-file=/etc/token"] (csi_controller_flags empty_env) = Parsed fs /\
    controller_credentials fs reads d /\ l = reads ++ [Served services].
Proof.
  pose proof (csi_controller_main_credentials sim_start unix_endpoint no_library empty_env
                ["--token-file=/etc/token"] tt) as H.
  destruct (observe _ _ _ _) as [o l] eqn:E.
  assert (Hin : Served ["csi.v1.Identity"; "csi.v1.Controller"] ∈ l).
  { apply (f_equal snd) in E. vm_compute in E. subst l. by right; left. }
  destruct H as (code & _ & _ & H). destruct (H _ Hin) as (fs & reads & d & Hp & Hc & _ & _ & Hl).
  by exists ["csi.v1.Identity"; "csi.v1.Controller"], fs, reads, d.
Defined.
