(* ===== verification/HackTools.v ===== *)
(** * The maintenance tools

    The two tools of [hack/] that delete things from an account:
    [check-remaining.go], which lists what matches some patterns and deletes it
    when told to, and [cleanup-test-resources.go].  A tool is a program that
    returns its exit status; what it prints is left out. *)

From S2P Require Import Prelude Effects GoErrors ApiTypes World Flags.

(** ** [check-remaining.go] *)

Definition defaultPatterns : list string :=
  ["multi-pool-test"; "user-a"; "cloudsigma-cluster"; "cloudsigma-test"; "test-cluster"].

Definition matchesAny (name : string) (patterns : list string) : bool :=
  existsb (fun p => Contains name p) patterns.

Definition check_flags : flags := list_to_map
  [("delete", VBool false); ("pattern", VStr ""); ("all", VBool false)].

Definition check_patterns (fs : flags) : list string :=
  if decide (str_flag fs "pattern" <> "") then [str_flag fs "pattern"] else defaultPatterns.

Definition check_client (env : string -> string) : SdkClient :=
  {| sdk_cred := UserPass (env "CLOUDSIGMA_USERNAME") (env "CLOUDSIGMA_PASSWORD");
     sdk_location := if decide (env "CLOUDSIGMA_REGION" = "") then "next"
                     else env "CLOUDSIGMA_REGION" |}.

(** A server that cannot be stopped is passed over. *)
Definition remove_server (cl : SdkClient) (s : Server.t) : go unit :=
  let delete := cloud cl (ServersDelete (Server.UUID s)) ;; Ret tt in
  if decide (Server.Status s = "running") then
    let* r := cloud cl (ServersStop (Server.UUID s)) in
    match r with
    | SdkErr _ _ => Ret tt
    | SdkOk _ => golang (Sleep (5 * 1000000000)) ;; delete
    end
  else delete.

Definition remove_drives (cl : SdkClient) (uuids : list string) : go unit :=
  for_each uuids tt (fun uuid _ => cloud cl (DrivesDelete uuid) ;; Ret tt).

Definition remove_matched (cl : SdkClient) (servers : list Server.t) (drives : list Drive.t)
    : go Z :=
  for_each servers tt (fun s _ => remove_server cl s) ;;
  (if decide (servers = []) then Ret tt else golang (Sleep (10 * 1000000000))) ;;
  remove_drives cl (Drive.UUID <$> drives) ;;
  Ret 0%Z.

Definition check_remaining (cl : SdkClient) (fs : flags) : go Z :=
  let patterns := check_patterns fs in
  let* r := cloud cl ServersList in
  match r with
  | SdkErr _ _ => Ret 1%Z
  | SdkOk servers =>
      let* r := cloud cl DrivesList in
      match r with
      | SdkErr _ _ => Ret 1%Z
      | SdkOk drives =>
          if bool_flag fs "all" then Ret 0%Z
          else if negb (bool_flag fs "delete") then Ret 0%Z
          else remove_matched cl
                 (filter (fun s => matchesAny (Server.Name s) patterns = true) servers)
                 (filter (fun d => matchesAny (Drive.Name d) patterns = true) drives)
      end
  end.

Definition check_remaining_main (env : string -> string) (args : list string) : go Z :=
  match parse no_library args check_flags with
  | Usage => Ret 0%Z
  | BadFlags => Ret 2%Z
  | Parsed fs => check_remaining (check_client env) fs
  end.

(** ** [cleanup-test-resources.go] *)

Definition test_name (name : string) : bool := Contains name "multi-pool-test-cloudsigma".

Definition attached_drives (s : Server.t) : list string :=
  omap (fun sd => Drive.UUID <$> ServerDrive.Drive sd) (Server.Drives s).

(** Failures are reported and otherwise ignored. *)
Definition cleanup_server (cl : SdkClient) (s : Server.t) : go unit :=
  (if decide (Server.Status s = "running" \/ Server.Status s = "starting") then
     let* r := cloud cl (ServersStop (Server.UUID s)) in
     match r with SdkErr _ _ => Ret tt | SdkOk _ => golang (Sleep (2 * 1000000000)) end
   else Ret tt) ;;
  cloud cl (ServersDelete (Server.UUID s)) ;;
  remove_drives cl (attached_drives s).

Definition orphaned (d : Drive.t) : bool :=
  test_name (Drive.Name d) && bool_decide (Drive.MountedOn d = []).

Definition cleanup_main (env : string -> string) : go Z :=
  let username := env "CLOUDSIGMA_USERNAME" in
  let password := env "CLOUDSIGMA_PASSWORD" in
  let region := env "CLOUDSIGMA_REGION" in
  if decide (username = "" \/ password = "" \/ region = "") then Ret 1%Z
  else
    let cl := {| sdk_cred := UserPass username password; sdk_location := region |} in
    let* r := cloud cl ServersList in
    match r with
    | SdkErr _ _ => Ret 1%Z
    | SdkOk servers =>
        for_each (filter (fun s => test_name (Server.Name s) = true) servers) tt
          (fun s _ => cleanup_server cl s) ;;
        let* r := cloud cl DrivesList in
        match r with
        | SdkErr _ _ => Ret 1%Z
        | SdkOk drives =>
            remove_drives cl (Drive.UUID <$> filter (fun d => orphaned d = true) drives) ;;
            Ret 0%Z
        end
    end.

(** ** What the tools ask for *)

Inductive tool_event :=
| ServersSeen (l : list Server.t)
| DrivesSeen (l : list Drive.t)
| StopAsked (uuid : string)
| ServerDeleteAsked (uuid : string)
| DriveDeleteAsked (uuid : string).

Definition tool_view : view Eff tool_event := fun X e =>
  match e in Eff _ return X -> list tool_event with
  | ECloud _ ce =>
      match ce in CloudE Y return Y -> list tool_event with
      | ServersList => fun x => match x with SdkOk l => [ServersSeen l] | SdkErr _ _ => [] end
      | DrivesList => fun x => match x with SdkOk l => [DrivesSeen l] | SdkErr _ _ => [] end
      | ServersStop uuid => fun _ => [StopAsked uuid]
      | ServersDelete uuid => fun _ => [ServerDeleteAsked uuid]
      | DrivesDelete uuid => fun _ => [DriveDeleteAsked uuid]
      | _ => fun _ => []
      end
  | _ => fun _ => []
  end.

Definition harmless (x : tool_event) : bool :=
  match x with ServersSeen _ | DrivesSeen _ => true | _ => false end.

(** What is asked for one server. *)
Definition removed_server (s : Server.t) (b : list tool_event) : Prop :=
  if decide (Server.Status s = "running") then
    b = [StopAsked (Server.UUID s)] \/
    b = [StopAsked (Server.UUID s); ServerDeleteAsked (Server.UUID s)]
  else b = [ServerDeleteAsked (Server.UUID s)].

Definition stops (s : Server.t) : list tool_event :=
  if decide (Server.Status s = "running" \/ Server.Status s = "starting")
  then [StopAsked (Server.UUID s)] else [].

Definition cleaned_server (s : Server.t) : list tool_event :=
  stops s ++
  ServerDeleteAsked (Server.UUID s) :: (DriveDeleteAsked <$> attached_drives s).

Abbreviation asks p B := (forall l, wp (anyI tool_view) p (ok (fun _ l' => exists b, B b /\ l' = l ++ b)) l).

(** A loop asks what its bodies ask, one block per element. *)
Lemma asks_for_each {A} (B : A -> list tool_event -> Prop) (f : A -> go unit) xs :
  (forall x, asks (f x) (B x)) ->
  asks (for_each xs tt (fun x _ => f x)) (fun b => exists bs, Forall2 B xs bs /\ b = concat bs).
Proof.
  intros Hf. induction xs as [|x xs IH]; intros l.
  { apply wp_ret. exists []. split; [|by rewrite app_nil_r]. by exists []. }
  eapply wp_seq; [apply Hf|]. intros [] l1 (b & Hb & ->).
  eapply wp_mono; [|apply IH]. intros [[]|] l2; [|done]. intros (? & (bs & Hbs & ->) & ->).
  exists (concat (b :: bs)). cbn. rewrite app_assoc. split; [|done].
  exists (b :: bs). by split; [constructor|].
Qed.

Lemma asks_remove_drives cl uuids :
  asks (remove_drives cl uuids) (fun b => b = DriveDeleteAsked <$> uuids).
Proof.
  intros l. eapply wp_mono; [|apply (asks_for_each (fun u b => b = [DriveDeleteAsked u]))].
  - intros [[]|] l'; [|done]. intros (? & (bs & Hbs & ->) & ->). eexists. split; [|done].
    induction Hbs as [|u b us bs -> _ IH]; [done|]. cbn. by f_equal.
  - intros u l1. wp_call x Hx. subst. apply wp_ret. by eexists.
Qed.

Lemma asks_remove_server cl s : asks (remove_server cl s) (removed_server s).
Proof.
  intros l. unfold remove_server, removed_server. case_decide.
  - wp_call x Hx. subst. destruct x; [|apply wp_ret; eexists; split; [by left|done]].
    wp_call y Hy. subst. wp_call z Hz. subst. apply wp_ret.
    eexists. split; [by right|]. cbn. by rewrite app_nil_r, <- app_assoc.
  - wp_call x Hx. subst. apply wp_ret. by eexists.
Qed.

Lemma asks_cleanup_server cl s : asks (cleanup_server cl s) (fun b => b = cleaned_server s).
Proof.
  intros l. unfold cleanup_server, cleaned_server.
  eapply (wp_seq _ _ _ (fun _ l' => l' = l ++ stops s)).
  { unfold stops. case_decide; [|apply wp_ret; by rewrite app_nil_r].
    wp_call x Hx. subst. destruct x; [|by apply wp_ret]. wp_call y Hy. subst. cbn.
    by rewrite app_nil_r. }
  intros [] l1 ->. wp_call x Hx. subst.
  eapply wp_mono; [|apply asks_remove_drives]. intros [[]|] l2; [|done]. intros (b & -> & ->).
  eexists. split; [done|]. cbn. by rewrite <- !app_assoc.
Qed.

(** ** Properties *)

Definition matching_servers (patterns : list string) (l : list Server.t) : list Server.t :=
  filter (fun s => matchesAny (Server.Name s) patterns = true) l.
Definition matching_drives (patterns : list string) (l : list Drive.t) : list Drive.t :=
  filter (fun d => matchesAny (Drive.Name d) patterns = true) l.

(** What a run of [check-remaining] that deletes asks for. *)
Definition check_removed (fs : flags) (l : list tool_event) : Prop :=
  bool_flag fs "delete" = true /\ bool_flag fs "all" = false /\
  exists servers drives blocks,
    Forall2 removed_server (matching_servers (check_patterns fs) servers) blocks /\
    l = ServersSeen servers :: DrivesSeen drives :: concat blocks ++
        (DriveDeleteAsked <$> (Drive.UUID <$> matching_drives (check_patterns fs) drives)).

Lemma wp_harmless (code : Z) (P : list tool_event -> Prop) l :
  (code = 0 \/ code = 1)%Z -> forallb harmless l = true ->
  wp (anyI tool_view) (Ret code) (ok (fun code l =>
    (code = 0 \/ code = 1)%Z /\ (forallb harmless l = true \/ P l))) l.
Proof. intros. apply wp_ret. split; [done|by left]. Qed.

Lemma wp_check_remaining cl fs :
  wp (anyI tool_view) (check_remaining cl fs) (ok (fun code l =>
    (code = 0 \/ code = 1)%Z /\ (forallb harmless l = true \/ check_removed fs l))) [].
Proof.
  unfold check_remaining. wp_call x Hx. subst. destruct x as [servers|]; [|apply wp_harmless; [lia|done]].
  wp_call x Hx. subst. destruct x as [drives|]; [|apply wp_harmless; [lia|done]].
  destruct (bool_flag fs "all") eqn:Hall; [apply wp_harmless; [lia|done]|].
  destruct (bool_flag fs "delete") eqn:Hdel; [|apply wp_harmless; [lia|done]]. cbn [negb].
  unfold remove_matched. eapply wp_seq; [apply asks_for_each; intros s; apply asks_remove_server|].
  intros [] l1 (? & (blocks & Hb & ->) & ->).
  eapply (wp_seq _ _ _ (fun _ l' => l' = _)).
  { case_decide; [by apply wp_ret|]. wp_call y Hy. subst. apply app_nil_r. }
  intros [] l2 ->. eapply wp_seq; [apply asks_remove_drives|].
  intros [] l3 (? & -> & ->). apply wp_ret. split; [by left|]. right.
  split_and!; [done..|]. exists servers, drives, blocks. split; [exact Hb|]. done.
Qed.


(** What a run of [cleanup-test-resources] does. *)
Definition cleaned_up (o : outcome Z) (l : list tool_event) : Prop :=
  (o = Done 1%Z /\ l = []) \/
  exists servers,
    let asked := ServersSeen servers ::
      concat (cleaned_server <$> filter (fun s => test_name (Server.Name s) = true) servers) in
    (o = Done 1%Z /\ l = asked) \/
    exists drives, o = Done 0%Z /\ l = asked ++ DrivesSeen drives ::
      (DriveDeleteAsked <$> (Drive.UUID <$> filter (fun d => orphaned d = true) drives)).

Lemma wp_cleanup env : wp (anyI tool_view) (cleanup_main env) cleaned_up [].
Proof.
  unfold cleanup_main. case_decide; [apply wp_ret; by left|].
  wp_call x Hx. subst. destruct x as [servers|]; [|apply wp_ret; by left].
  eapply wp_seq; [apply asks_for_each; intros s; apply asks_cleanup_server|].
  intros [] l1 (? & (blocks & Hb & ->) & ->).
  assert (Hbs : concat blocks =
    concat (cleaned_server <$> filter (fun s => test_name (Server.Name s) = true) servers)).
  { clear - Hb. induction Hb as [|s b ss bs -> _ IH]; [done|]. cbn. by rewrite IH. }
  rewrite Hbs. wp_call y Hy. subst. destruct y as [drives|].
  2:{ apply wp_ret. right. exists servers. left. cbn. by rewrite app_nil_r. }
  eapply wp_seq; [apply asks_remove_drives|]. intros [] l2 (? & -> & ->).
  apply wp_ret. right. exists servers. right. exists drives. split; [done|]. cbn.
  by rewrite <- app_assoc.
Qed.

(** The tool that cleans up test resources, in every environment: for each listed
    server with a test name it asks for a stop, if the server runs, for its
    deletion, and for the deletion of every drive attached to it; then for the
    deletion of exactly the drives of a second listing that have a test name and
    are not mounted.  No answer changes what it asks for, except that a listing
    that fails ends it. *)
Theorem cleanup_deletes {W} (h : handler Eff W) env w :
  let '(o, l) := observe tool_view h (cleanup_main env) w in cleaned_up o l.
Proof. apply observe_intro, wp_cleanup. Qed.

(** A drive that is attached to a test server is asked to be deleted whatever its
    own name, and although the deletion of the server was refused. *)
Definition refusing : handler Eff unit := fun X e w =>
  (match e with
   | ECloud _ ce =>
       match ce in CloudE Y return Y with
       | ServersList => SdkOk [Server.mk "s1" "multi-pool-test-cloudsigma-1" "stopped"
           [ServerDrive.mk 1 "0:1" "virtio" (Some (Drive.mk "data" "prod-db" 0 "mounted" "" "" []))]
           [] ∅ []]
       | DrivesList => SdkOk []
       | ce => deaf_cloud ce
       end
   | e => deaf e
   end, w).

Definition test_env (name : string) : string := "x".

Example cleanup_takes_any_drive :
  (observe tool_view refusing (cleanup_main test_env) tt).2
  = [ServersSeen [Server.mk "s1" "multi-pool-test-cloudsigma-1" "stopped"
       [ServerDrive.mk 1 "0:1" "virtio" (Some (Drive.mk "data" "prod-db" 0 "mounted" "" "" []))]
       [] ∅ []];
     ServerDeleteAsked "s1"; DriveDeleteAsked "data"; DrivesSeen []].
Proof. by vm_compute. Qed.
