(* ===== verification/HackDiagnostics.v ===== *)
(** * The diagnostic tools

    The tools of [hack/] that look at an account or try single requests:
    [test-sdk.go], [list-resources.go], [check-server-drives.go] and
    [test-ip-failover.go].  A tool is a program that returns its exit status; what
    it prints is left out. *)

From S2P Require Import Prelude Effects GoErrors ApiTypes World LoadBalancer.

(** ** Tools that only read *)

Definition env_client (env : string -> string) : SdkClient :=
  {| sdk_cred := UserPass (env "CLOUDSIGMA_USERNAME") (env "CLOUDSIGMA_PASSWORD");
     sdk_location := env "CLOUDSIGMA_REGION" |}.

Definition env_missing (env : string -> string) : Prop :=
  env "CLOUDSIGMA_USERNAME" = "" \/ env "CLOUDSIGMA_PASSWORD" = "".

#[global] Instance env_missing_dec env : Decision (env_missing env).
Proof. unfold env_missing. apply _. Defined.

(** One request of [test-sdk]; a failure ends the tool. *)
Definition sdk_test {A} (p : go (World.sdk A)) (next : go Z) : go Z :=
  let* r := p in match r with SdkErr _ _ => Ret 1%Z | SdkOk _ => next end.

Definition test_sdk_main (env : string -> string) : go Z :=
  if decide (env_missing env) then Ret 1%Z
  else
    let client := env_client env in
    sdk_test (cloud client ServersList)
      (sdk_test (cloud client ProfileGet)
        (sdk_test (cloud client DrivesList)
          (sdk_test (cloud client VLANsList) (Ret 0%Z)))).

Definition list_resources_main (env : string -> string) : go Z :=
  if decide (env_missing env) then Ret 1%Z
  else
    let client := env_client env in
    sdk_test (cloud client VLANsList) (sdk_test (cloud client DrivesList) (Ret 0%Z)).

(** A listing that fails is printed, and the status is 0 all the same. *)
Definition check_server_drives_main (env : string -> string) : go Z :=
  cloud (env_client env) ServersList ;; Ret 0%Z.

(** ** [test-ip-failover.go] *)

Definition apiEndpoint : string := "https://next.cloudsigma.com/api/2.0".

Definition server_url (serverUUID : string) : string :=
  apiEndpoint +:+ "/servers/" +:+ serverUUID +:+ "/".

Definition api_error (status : Z) (body : string) : error :=
  ErrNew ("API error " +:+ itoa status +:+ ": " +:+ body).

Definition getServerNICs (auth : credentials) (serverUUID : string) : go (option error) :=
  let* r := http (GetObject (server_url serverUUID) auth) in
  match r with
  | Err err | Ok (Err err) => Ret (Some err)
  | Ok (Ok (status, body, _)) =>
      if decide (status >= 400)%Z then Ret (Some (api_error status body)) else Ret None
  end.

(** The MAC address of the first NIC, if it has one. *)
Definition existing_mac (server : list (string * json)) : string :=
  match server_nics server with
  | JObj nic :: _ => match jfield "mac" nic with Some (JStr mac) => mac | _ => "" end
  | _ => ""
  end.

Definition static_conf (ip : string) : list (string * json) :=
  [("conf", JStr "static"); ("ip", JObj [("uuid", JStr ip)])].

Definition dhcp_conf : list (string * json) := [("conf", JStr "dhcp")].

(** The body of the update: one NIC. *)
Definition nic_update (mac : string) (conf : list (string * json)) : list (string * json) :=
  [("nics", JArr [JObj [("mac", JStr mac); ("ip_v4_conf", JObj conf)]])].

(** What attaching and detaching share.  The error of making the first request is
    dropped, and the request is then nil; the status of its answer is not looked
    at. *)
Definition update_nic (auth : credentials) (serverUUID : string) (conf : list (string * json))
    : go (option error) :=
  let url := server_url serverUUID in
  let* r := http (GetObject url auth) in
  match r with
  | Err _ => Panic "nil pointer dereference: getReq"
  | Ok (Err err) => Ret (Some err)
  | Ok (Ok (_, _, server)) =>
      let* r := http (PutObject url auth (nic_update (existing_mac server) conf)) in
      match r with
      | Err err | Ok (Err err) => Ret (Some err)
      | Ok (Ok (status, body)) =>
          if decide (status >= 400)%Z then Ret (Some (api_error status body)) else Ret None
      end
  end.

Definition attachStaticIP (auth : credentials) (serverUUID ipAddress : string)
    : go (option error) := update_nic auth serverUUID (static_conf ipAddress).

Definition detachStaticIP (auth : credentials) (serverUUID : string) : go (option error) :=
  update_nic auth serverUUID dhcp_conf.

(** An element that is no object fails the type assertion. *)
Definition is_object (j : json) : bool := match j with JObj _ => true | _ => false end.

Definition listIPs (auth : credentials) : go (option error) :=
  let* r := http (GetObject (apiEndpoint +:+ "/ips/detail/") auth) in
  match r with
  | Err err | Ok (Err err) => Ret (Some err)
  | Ok (Ok (status, body, result)) =>
      if decide (status >= 400)%Z then Ret (Some (api_error status body))
      else match jfield "objects" result with
           | Some (JArr objects) =>
               if forallb is_object objects then Ret None
               else Panic "interface conversion: not map[string]interface {}"
           | _ => Ret None
           end
  end.

(** [os.Args] without the name of the program. *)
Definition failover_main (env : string -> string) (args : list string) : go Z :=
  match args with
  | action :: serverUUID :: ipAddress :: _ =>
      let username := env "CS_USERNAME" in
      let password := env "CS_PASSWORD" in
      if decide (username = "" \/ password = "") then Ret 1%Z
      else
        let auth := UserPass username password in
        let exit (p : go (option error)) : go Z :=
          let* err := p in Ret (match err with Some _ => 1%Z | None => 0%Z end) in
        if decide (action = "get") then exit (getServerNICs auth serverUUID)
        else if decide (action = "attach") then exit (attachStaticIP auth serverUUID ipAddress)
        else if decide (action = "detach") then exit (detachStaticIP auth serverUUID)
        else if decide (action = "list") then exit (listIPs auth)
        else Ret 1%Z
  | _ => Ret 1%Z
  end.

(** ** Properties *)

(** Listing servers, drives and VLANs and reading the profile. *)
Definition listing (X : Type) (e : Eff X) : Prop :=
  match e with
  | ECloud _ ServersList | ECloud _ DrivesList | ECloud _ VLANsList | ECloud _ ProfileGet => True
  | _ => False
  end.

(** The tools that look at an account only list: they change nothing, in any
    environment. *)
Theorem diagnostics_read_only env :
  only listing (test_sdk_main env) /\ only listing (list_resources_main env) /\
  only listing (check_server_drives_main env).
Proof.
  unfold test_sdk_main, list_resources_main, check_server_drives_main, sdk_test, cloud.
  split_and!; repeat (first [done | case_decide | only_step | progress cbv zeta]).
Qed.

(** The answers of the four requests of [test-sdk]. *)
Definition answered_view : view Eff bool := fun X e =>
  match e in Eff _ return X -> list bool with
  | ECloud _ ce =>
      match ce in CloudE Y return Y -> list bool with
      | ServersList => fun x => [match x with SdkOk _ => true | _ => false end]
      | ProfileGet => fun x => [match x with SdkOk _ => true | _ => false end]
      | DrivesList => fun x => [match x with SdkOk _ => true | _ => false end]
      | VLANsList => fun x => [match x with SdkOk _ => true | _ => false end]
      | _ => fun _ => []
      end
  | _ => fun _ => []
  end.

(** [test-sdk] reports success exactly when all its requests were answered. *)
Theorem test_sdk_status {W} (h : handler Eff W) env w :
  let '(o, l) := observe answered_view h (test_sdk_main env) w in
  (o = Done 0%Z /\ l = [true; true; true; true]) \/
  (o = Done 1%Z /\ (l = [] /\ env_missing env \/ last l = Some false)).
Proof.
  apply (observe_intro answered_view h (test_sdk_main env) w (fun o l =>
    (o = Done 0%Z /\ l = [true; true; true; true]) \/
    (o = Done 1%Z /\ (l = [] /\ env_missing env \/ last l = Some false)))).
  unfold test_sdk_main, sdk_test. case_decide; [apply wp_ret; right; by auto|]. cbv zeta.
  do 4 (wp_call x Hx; subst; destruct x; [|apply wp_ret; right; by auto]).
  apply wp_ret. by left.
Qed.

(** *** Requests of the failover tool *)

Inductive object_event :=
| ObjectRead (url : string) (auth : credentials)
    (x : result (result (Z * string * list (string * json))))
| ObjectWritten (url : string) (auth : credentials) (object : list (string * json)).

Definition object_view : view Eff object_event := fun X e =>
  match e in Eff _ return X -> list object_event with
  | EHttp he =>
      match he in HttpE Y return Y -> list object_event with
      | GetObject url auth => fun x => [ObjectRead url auth x]
      | PutObject url auth o => fun _ => [ObjectWritten url auth o]
      | _ => fun _ => []
      end
  | _ => fun _ => []
  end.

(** The configuration an action asks for, on the server it names. *)
Definition asked_conf (args : list string) (url : string) (conf : list (string * json)) : Prop :=
  exists action uuid ip rest, args = action :: uuid :: ip :: rest /\ url = server_url uuid /\
    (action = "attach" /\ conf = static_conf ip \/ action = "detach" /\ conf = dhcp_conf).

(** Nothing is sent, or one object is read, or a server is read and then its NICs
    are replaced. *)
Definition failover_course (args : list string) (auth : credentials) (l : list object_event) : Prop :=
  l = [] \/ (exists url x, l = [ObjectRead url auth x]) \/
  exists url status body server conf, asked_conf args url conf /\
    l = [ObjectRead url auth (Ok (Ok (status, body, server)));
         ObjectWritten url auth (nic_update (existing_mac server) conf)].

Lemma wp_getServerNICs args auth uuid :
  wp (anyI object_view) (getServerNICs auth uuid) (fun _ l => failover_course args auth l) [].
Proof.
  unfold getServerNICs. wp_call x Hx. subst. destruct x as [[[[status body] result]|err]|err];
    [case_decide|..]; apply wp_ret; right; left; by eexists _, _.
Qed.

Lemma wp_listIPs args auth :
  wp (anyI object_view) (listIPs auth) (fun _ l => failover_course args auth l) [].
Proof.
  unfold listIPs. wp_call x Hx. subst. set (url := apiEndpoint +:+ "/ips/detail/").
  assert (Hl : failover_course args auth [ObjectRead url auth x]) by (right; left; by eexists _, _).
  destruct x as [[[[status body] result]|err]|err]; [case_decide|..]; try by apply wp_ret.
  destruct (jfield "objects" result) as [[]|]; try by apply wp_ret.
  destruct (forallb _ _); [by apply wp_ret|by apply wp_panic].
Qed.

Lemma wp_update_nic args auth uuid conf :
  asked_conf args (server_url uuid) conf ->
  wp (anyI object_view) (update_nic auth uuid conf) (fun _ l => failover_course args auth l) [].
Proof.
  intros Hconf. unfold update_nic. cbv zeta. wp_call x Hx. subst. cbn.
  assert (Hl : failover_course args auth [ObjectRead (server_url uuid) auth x])
    by (right; left; by eexists _, _).
  destruct x as [[[[status body] server]|err]|err]; [|by apply wp_ret|by apply wp_panic].
  wp_call y Hy. subst. cbn.
  assert (Hw : failover_course args auth
    [ObjectRead (server_url uuid) auth (Ok (Ok (status, body, server)));
     ObjectWritten (server_url uuid) auth (nic_update (existing_mac server) conf)])
    by (right; right; by eexists _, _, _, _, _).
  destruct y as [[[status' body']|err]|err]; [case_decide| |]; by apply wp_ret.
Qed.

(** The failover tool in every environment: it sends nothing without credentials,
    reads at most one object, and writes only after it read the server named, at
    its URL: one request that leaves the server a single NIC, with the MAC address
    of its first one, and the static address or the DHCP configuration asked for. *)
Theorem failover_requests {W} (h : handler Eff W) env args w :
  let '(o, l) := observe object_view h (failover_main env args) w in
  failover_course args (UserPass (env "CS_USERNAME") (env "CS_PASSWORD")) l /\
  (l <> [] -> env "CS_USERNAME" <> "" /\ env "CS_PASSWORD" <> "").
Proof.
  set (auth := UserPass (env "CS_USERNAME") (env "CS_PASSWORD")).
  apply (observe_intro object_view h (failover_main env args) w (fun o l =>
    failover_course args auth l /\ (l <> [] -> env "CS_USERNAME" <> "" /\ env "CS_PASSWORD" <> ""))).
  assert (Hnone : forall code : Z, wp (anyI object_view) (Ret code) (fun o l =>
    failover_course args auth l /\ (l <> [] -> env "CS_USERNAME" <> "" /\ env "CS_PASSWORD" <> "")) [])
    by (intros code; apply wp_ret; split; [by left|done]).
  unfold failover_main. destruct args as [|action [|uuid [|ip rest]]]; [apply Hnone..|]. cbv zeta.
  case_decide as Hcred; [apply Hnone|]. fold auth.
  set (args := action :: uuid :: ip :: rest) in *.
  assert (Hexit : forall p : go (option error),
    wp (anyI object_view) p (fun _ l => failover_course args auth l) [] ->
    wp (anyI object_view) (let* err := p in Ret (match err with Some _ => 1%Z | None => 0%Z end))
      (fun o l => failover_course args auth l /\ (l <> [] -> env "CS_USERNAME" <> "" /\ env "CS_PASSWORD" <> "")) []).
  { intros p Hp. apply wp_bind. eapply wp_mono; [|exact Hp]. intros [err|why] l Hl; [apply wp_ret|];
      (split; [done|]); intros _; split; intros He; apply Hcred; auto. }
  case_decide as H1; [apply Hexit, wp_getServerNICs|].
  case_decide as H2.
  { apply Hexit, wp_update_nic. exists action, uuid, ip, rest. split_and!; auto. }
  case_decide as H3.
  { apply Hexit, wp_update_nic. exists action, uuid, ip, rest. split_and!; auto. }
  case_decide as H4; [apply Hexit, wp_listIPs|apply Hnone].
Qed.

(** ** A server with two NICs, and one that may not be read *)

Definition two_nics : list (string * json) :=
  [("nics", JArr [JObj [("mac", JStr "22:a4"); ("ip_v4_conf", JObj [("conf", JStr "dhcp")])];
                  JObj [("mac", JStr "22:b7"); ("vlan", JStr "cluster-vlan")]])].

Definition sim_object (status : Z) (server : list (string * json)) : handler Eff unit :=
  fun X e w => (match e with
   | EHttp he =>
       match he in HttpE Y return Y with
       | GetObject _ _ => Ok (Ok (status, "", server))
       | PutObject _ _ _ => Ok (Ok (200%Z, ""))
       | he => deaf_http he
       end
   | e => deaf e
   end, w).

Definition some_env (name : string) : string := "x".

(** Attaching an address takes the second NIC, in the cluster's VLAN, off the
    server. *)
Example attach_drops_other_nics :
  (observe object_view (sim_object 200 two_nics) (failover_main some_env ["attach"; "s1"; "31.171.254.211"]) tt).2
  = [ObjectRead (server_url "s1") (UserPass "x" "x") (Ok (Ok (200%Z, "", two_nics)));
     ObjectWritten (server_url "s1") (UserPass "x" "x")
       (nic_update "22:a4" (static_conf "31.171.254.211"))].
Proof. by vm_compute. Qed.

(** When the server may not be read the update is sent all the same, with an empty
    MAC address. *)
Example update_after_refused_read :
  (observe object_view (sim_object 403 []) (failover_main some_env ["detach"; "s1"; ""]) tt).2
  = [ObjectRead (server_url "s1") (UserPass "x" "x") (Ok (Ok (403%Z, "", [])));
     ObjectWritten (server_url "s1") (UserPass "x" "x") (nic_update "" dhcp_conf)].
Proof. by vm_compute. Qed.
